(* ===== verification/_CoqProject ===== *)
-Q . S2P
Prelude.v
Cstd.v
Util.v
TimerCount.v
SortedSet.v
MurmurHash2.v
Sds.v
SdsHeap.v
SdsTest.v
Log.v
LogSpec.v
Lock.v
SortedSetRace.v
EtagManager.v
EtagLock.v
Slice.v
RocksDB.v
DataBase.v
DataBaseSpec.v
ExpireManager.v
Crash.v
Concurrent.v
LogRace.v
RedisServerLib.v
RedisServerLibSpec.v
RedisServer.v
RedisServerSpec.v
RedisLiveness.v
Interleaving.v
IniFile.v
Config.v
Process.v
ProcessSpec.v
BatchAllocator.v
Double.v
JsonValue.v
JsonValueSpec.v
JsonOrder.v
JsonMemory.v
JsonMemorySpec.v
JsonPath.v
JsonIterator.v
JsonWriter.v
JsonReader.v
JsonReaderSpec.v
JsonGrammar.v
JsonWriterSpec.v
IniFloat.v
JsonStream.v
Mpfd.v
MpfdDisk.v
Gzip.v
Http.v
HttpSpec.v
HttpPages.v
Startup.v
StartupSpec.v
Server.v
