(* ===== verification/Prelude.v ===== *)
(** * A verification of xhttpcache

    xhttpcache is a persistent cache server written in C++: values are kept in
    RocksDB and served over HTTP (a read-only frontend with conditional GET, and
    a backend with a REST interface, uploads and administration pages) and over
    the Redis protocol (with keys that expire).  This development translates the
    program's own code into executable definitions and proves what makes each
    part correct.

    ** The parts and the files that model them

    - [Prelude.v] (this file): bytes, machine integers with their wrap-around,
      little-endian encodings, byte order on keys, list lemmas.
    - [Cstd.v]: what the sources use of the C library: C strings, character
      classes, searches, [strtoll], [atoi], decimal printing.
    - [Util.v]: [common/util.h], [common/util.cpp]: byte swaps, scores, numbers
      as text, hex dump, tokens, Base64, the HTTP credential.
    - [SortedSet.v]: [common/sorted_set.h], [common/sorted_set.cpp]: module [SS]
      is [SortedSet] (an index and an ordered set kept in step), module [Dec] is
      [Decoder] over a counted buffer.  [SortedSetRace.v] has the operations of the
      first as two threads interleave them.
    - [MurmurHash2.v]: every variant in [common/MurmurHash2.cpp].
    - [Lock.v]: [common/xLock.h]: the recursive mutex, its guard, and what an
      object whose operations lock it may rely on when threads share it.
    - [EtagManager.v]: [src/xEtagManager.h], [src/xEtagManager.cpp]: the LRU
      caches and the shards.  [EtagLock.v] has the operations of a cache taken
      apart into their container calls, interleaved by threads.
    - [Slice.v]: [include/rocksdb/slice.h]: the byte ranges passed to RocksDB.
    - [RocksDB.v]: the boundary to RocksDB.  Class [RocksDB] has the operations
      the program calls, [RocksDBSpec] their documented laws, [RocksDBHealthy]
      the absence of I/O errors; module [MemStore] is an in-memory instance, so
      that every theorem over the classes has a concrete reading.
    - [DataBase.v]: [src/xDataBase.h], [src/xDataBase.cpp]: row keys, values with
      timestamps, sorted sets, scans.  [DataBaseSpec.v] states what it promises,
      two maps, and proves the refinement.  [Crash.v] runs the same code on an
      engine that dies after some number of writes, [Concurrent.v] takes the
      operations apart into their calls to the engine, interleaved by threads.
    - [ExpireManager.v]: [src/xExpireManager.h], [src/xExpireManager.cpp]: the
      thread that removes expired keys and its bounded cache.
    - [RedisServerLib.v]: [common/xRedisServerLib.h], [common/xRedisServerLib.cpp]:
      the protocol parser as a state machine per connection, the command table,
      the replies, the connection table.  [RedisServerLibSpec.v] has its
      properties.
    - [RedisServer.v]: [src/xRedisServer.cpp]: the commands, over the database
      and the expiration manager.  [RedisServerSpec.v] has the abstract store and
      the end-to-end theorems, [RedisLiveness.v] endless runs of it,
      [Interleaving.v] commands between the single steps of the expiration thread.
    - [IniFile.v], [Config.v]: [common/xIniFile.h], [common/xIniFile.cpp] and
      [src/xConfig.h], [src/xConfig.cpp].
      [IniFloat.v] has the accessors for real numbers and formatted values.
    - [Sds.v]: [common/sds.h], [common/sds.cpp]: dynamic strings, as a header and
      the bytes allocated after it.  [SdsHeap.v] releases them, [SdsTest.v] runs the
      unit tests of the file on the model.
    - [TimerCount.v]: [common/xTimerCount.h]: the timer of calls.
    - [Log.v]: [common/xLog.h], [common/xLog.cpp]: the log, its levels and the
      rotation of its files, over names, inodes and descriptors.  [LogSpec.v] has
      its properties, [LogRace.v] the calls of several threads.
    - [Process.v]: [daemonize] and [guard] of [common/util.cpp], the signals and
      [main] of [src/xHttpCache.cpp], as interaction trees over system calls.
      [ProcessSpec.v] has their properties.
    - [Gzip.v]: [gzcompress] of [common/util.cpp], over a class of zlib's streams
      ([ZLib], its documented laws [ZLibSpec], the instance [Stored]).
    - [Double.v]: what jsoncpp uses of [double]: IEEE 754 binary64 on the
      Standard Library's [spec_float], [sscanf] and [printf] of it.
    - [JsonValue.v], [JsonWriter.v], [JsonReader.v]: [common/json.h] and
      [common/jsoncpp.cpp]: [Json::Value] (arrays and objects are sorted maps, as
      in the code), the three writers, the reader (a pointer into the value under
      construction is the path that leads to it).  [JsonValueSpec.v] has the
      well-formed values and the laws of the maps, [JsonReaderSpec.v] that every
      document is read safely, [JsonGrammar.v] the grammar of JSON with comments,
      its meaning and that the reader implements it, [JsonWriterSpec.v] that the
      writers write documents of the grammar, [JsonStream.v] the operators on
      streams, [JsonPath.v] the paths and the base of the iterators over values,
      [JsonIterator.v] the iterators, [JsonOrder.v] that values compare in a total
      order.  Below that, [JsonMemory.v] has the heap blocks of
      values, names and comments as [Json::Value] allocates, shares and frees
      them ([JsonMemorySpec.v] the ownership), [BatchAllocator.v] the allocator of
      value pages.
    - [Mpfd.v]: [common/Parser.cpp], [common/Field.cpp], [common/Exception.cpp]:
      the parser of multipart forms.  [MpfdDisk.v] has uploads kept in temporary
      files: the file system, the search for a free name, the destructors.
    - [Http.v]: [common/xevHtpdBase.cpp], [src/xevHtpdBackend.cpp],
      [src/xevHtpdFrontend.cpp] and the start-up in [src/xHttpCache.cpp].
      The frontend queues its headers as pointers to text
      ([text_ptr]), some of it in arrays of blocks that end before the reply is
      sent.  [HttpSpec.v] has the properties of both servers, for the REST
      interface against a specification of requests that does not use the code's
      own tests; [HttpPages.v] has what a reader of JSON
      finds in the administration pages.
    - [Startup.v]: the rest of the start-up: [OpenDB], [xConfig::Debug], the servers
      being bound and started.  [StartupSpec.v] has restarts.
    - [Server.v]: the servers, the expiration thread and restarts put together on
      one database, against one abstract store.

    ** How the code is represented

    Definitions keep the source's names; a method takes its object as a record
    and returns the new one.  Errors the code reports are values ([ret_code], the
    exceptions of MPFD in a sum type); [None] in a result of type [option] means
    that the C++ code has undefined behaviour there (a buffer overrun, an
    overflow of a signed integer, a null pointer, a read of an array whose block
    has ended) or stops.  Two things that ISO C leaves undefined have a meaning
    here, the one common compilers and libraries give them: the negation of the least
    integer in jsoncpp ([valueToString_int], [decodeNumber], where every negative
    number needs it) wraps, and [isprint], [isspace] and [tolower] take a negative
    [char] for its byte.  Machine integers are
    [Z] with [u8], [u32], [u64], [i32], [i64] where the code wraps.  Clock
    readings are arguments.  A network connection is the list of the pieces in
    which its bytes arrive.

    Loops are structural where the code's are; the others carry fuel computed
    from the state: the walks over an iterator take one more than the documented
    bound of its remaining rows ([it_bound]), [ReadCallback] one turn per buffered
    byte and one more, the multipart parser three per byte and four more,
    [gzcompress] one per byte of input and of room,
    [sdssplitargs] one per character and one more, the JSON reader one per
    character and one more.  That these are enough is proved
    ([scan_key_loop_spec], [flush_loop_spec], [gzcompress_correct],
    [any_input_keeps_connection_consistent], [process_loop_enough],
    [disk_loop_enough],
    [args_loop_fuel], [parse_total]).

    ** What is proved

    - The whole: [server_refines_one_store]: whoever asks, over HTTP or as a Redis
      client, is answered by one store of values and expirations, as long as the
      requests are admissible: no conditional GET, no FLUSHALL, no empty argument,
      sizes and numbers in range ([event_ok]).
    - The store: [database_refines_maps], [load_expiration_keys_loads_soonest],
      [row_codec]; the sorted set below it: [sorted_set_refines]; what a crash
      leaves: [crash_leaves_a_prefix]; under threads: [database_is_linearizable]
      (both for operations on single keys, all but [Flushall]);
      the order of keys: [slice_compare_orders].
    - Expiration: [expired_keys_and_only_those_are_removed],
      [expired_key_is_eventually_gone] (in endless, fair runs),
      [interleaved_commands_are_answered] (the thread's steps taken apart),
      [set_ttl_keeps_cache_coherent], through the invariant [coherent] that ties
      the bounded cache to the stored expirations.
    - The Redis server: [requests_execute_in_order] (any fragmentation of the
      input), [any_input_keeps_connection_consistent],
      [connections_are_filed_by_session], [multi_bulk_reply_format], and end to
      end [redis_session_correct], [set_ex_contract] and, over several processes,
      [restarts_are_invisible].
    - The processes: [guarded_daemon_restarts_server].
    - The HTTP servers: [backend_requires_credentials],
      [rest_interface_refines_maps], [frontend_serves_store],
      [upload_stores_the_file], [etag_cache_is_never_used],
      [scan_page_lists_keys].
    - JSON: [parse_total], [reader_implements_grammar], [fast_write_reads_back],
      [styled_write_reads_back], [stream_roundtrip], [path_roundtrip], [path_set_then_get],
      [iteration_visits_elements], [loops_visit_elements],
      [json_values_are_ordered]; memory: [values_own_their_memory],
      [batch_allocator_hands_out_own_memory].
    - The libraries: [gzcompress_correct], [ini_write_read], [ini_set_then_get],
      [ini_float_set_then_get], [form_roundtrip], [uploads_on_disk_are_contained],
      [base64_encode_correct], [encode_pass_correct],
      the equivalences of the hash variants, [etag_cache_is_lru] and, for
      threads, [etag_cache_is_linearizable]; for the dynamic
      strings [sds_refines_bytes] (memory safety and contents, whatever [realloc]
      leaves in new memory), [repr_splitargs_roundtrip], [split_join_roundtrip],
      [sdscmp_orders], [longlong_roundtrip], [split_result_is_released]; for the log
      [log_rotation_keeps_newest_lines].
    - Where the code does not do what it means to, a theorem says so:
      [long_credentials_open_the_backend], [oversized_upload_empties_the_key],
      [short_if_none_match_is_undefined], [flushall_leaves_stale_expirations],
      [empty_argument_stalls], [long_length_overflows], [unknown_command_reply],
      [hash_dump_overflow], [backend_never_uses_tls],
      [shipped_etag_settings_are_ignored], [hit_rate_truncates],
      [rotation_overwrites_same_second], [second_file_name_loses_log],
      [blank_message_is_undefined], [sigterm_does_not_stop_guarded_server],
      [sighup_is_not_ignored], [daemonize_reports_chdir_success],
      [gzcompress_cuts_large_data], [password_is_logged],
      [failed_start_is_not_noticed], [set_during_expiration_is_lost],
      [expiration_during_expiration_is_lost], [path_arguments_misread],
      [nul_in_path_never_returns], [content_type_cut],
      [half_an_expiration_deletes_forever], [refused_comment_is_freed_twice],
      [page_overrun], [racing_expirations_leave_an_orphan],
      [byte_255_ends_the_document], [strict_mode_takes_comments],
      [unended_comments_break_the_document], [repeated_name_leaks_its_file],
      [empty_upload_has_no_file], [iterator_minus_is_reversed],
      [nan_compares_equal_and_is_not], [SetValueF_ignores_create],
      [GetValueV_eof], [post_data_is_not_terminated], [statistics_are_always_new], [long_times_are_negative],
      [racing_pop_and_add_are_undefined], [racing_pop_leaves_dangling_iterator],
      [send_value_dangles], [flushall_is_seen_half_done],
      [rotation_loses_a_line], [sdstrim_example].

    ** What is not modelled

    The inside of sockets and threads (a command is one step; the turns of the
    expiration thread, and in [Interleaving.v] its single calls, come between
    commands; only [xDataBase], the ETag caches and the log are interleaved call by
    call, and [SortedSetRace.v] the container calls of the expiration cache), libevent and libevhtp, RocksDB and zlib (parameters with their
    documented laws). What is outside of the code of the repository is limited
    to what it documents: [malloc] never fails, writes to open files succeed,
    nobody else changes the files or the database.  Lengths the code keeps in an
    [int] (a message to hash, a document to parse) are below 2^31 where a list of
    bytes stands for them; the length of an upload is narrowed as the code does. Of the files of the
    repository, the headers of RocksDB and libevhtp are represented as far as
    the sources call them; jsoncpp's internal maps and arrays, which are
    disabled at compile time, the Windows branches, and the debug output of
    the HTTP servers are left out. The servers' models take the contents of
    [sds] arguments as byte lists, which [sds_refines_bytes] justifies.

    ** What is left

    The commands of the Redis server taken apart into their calls of the database
    and of the expiration manager, run by several threads (here a command is one
    step next to the thread's single calls); a semantics of weak memory for the
    unprotected fields the threads share (the sorted set of [ExpireManager] is
    the one for which [SortedSetRace.v] shows what that leads to). *)

From stdpp Require Export base list gmap numbers strings.
From Stdlib Require Export Strings.Byte ZArith Lia.

Open Scope Z_scope.

(** ** Bytes and byte strings

    A [char] is a [Byte.byte] and a [std::string] (or a counted buffer) is a
    list of them; [bz] reads a byte as an unsigned number, [zb] is the C cast
    of an integer to [unsigned char]. *)

Abbreviation byte := Byte.byte.
Abbreviation bytes := (list Byte.byte).

Definition bz (b : byte) : Z := Z.of_N (Byte.to_N b).

Definition zb (z : Z) : byte :=
  match Byte.of_N (Z.to_N (z `mod` 256)) with Some b => b | None => x00 end.

(** A string literal of the source. *)
Definition lit (s : string) : bytes := String.list_byte_of_string s.
Arguments lit _%_string.

#[global] Instance byte_eq_dec : EqDecision byte := Byte.byte_eq_dec.

Lemma bz_range b : 0 <= bz b < 256.
Proof. unfold bz. pose proof (Byte.to_N_bounded b). lia. Qed.

Lemma zb_bz b : zb (bz b) = b.
Proof.
  unfold zb. rewrite Z.mod_small by apply bz_range.
  unfold bz. by rewrite N2Z.id, Byte.of_to_N.
Qed.

Lemma bz_zb z : bz (zb z) = z `mod` 256.
Proof.
  unfold zb. destruct (Byte.of_N _) as [b|] eqn:E.
  - apply Byte.to_of_N in E. unfold bz. rewrite E. apply Z2N.id. by apply Z.mod_pos_bound.
  - apply Byte.of_N_None_iff in E. pose proof (Z.mod_pos_bound z 256). lia.
Qed.

Lemma bz_inj a b : bz a = bz b -> a = b.
Proof. intros H. by rewrite <- (zb_bz a), H, zb_bz. Qed.

Lemma bz_zb_small z : 0 <= z < 256 -> bz (zb z) = z.
Proof. intros. by rewrite bz_zb, Z.mod_small. Qed.

#[global] Instance byte_countable : Countable byte :=
  inj_countable Byte.to_N Byte.of_N Byte.of_to_N.

(** ** Machine integers *)

Definition u8 (z : Z) : Z := z `mod` 2 ^ 8.
Definition u16 (z : Z) : Z := z `mod` 2 ^ 16.
Definition u32 (z : Z) : Z := z `mod` 2 ^ 32.
Definition u64 (z : Z) : Z := z `mod` 2 ^ 64.
Definition i32 (z : Z) : Z := (z + 2 ^ 31) `mod` 2 ^ 32 - 2 ^ 31.
Definition i64 (z : Z) : Z := (z + 2 ^ 63) `mod` 2 ^ 64 - 2 ^ 63.

Definition INT_MAX : Z := 2 ^ 31 - 1.
Definition INT64_MAX : Z := 2 ^ 63 - 1.
Definition INT64_MIN : Z := - 2 ^ 63.

Definition is_i32 (z : Z) : Prop := - 2 ^ 31 <= z < 2 ^ 31.
Definition is_i64 (z : Z) : Prop := - 2 ^ 63 <= z < 2 ^ 63.
Definition is_u32 (z : Z) : Prop := 0 <= z < 2 ^ 32.
Definition is_u64 (z : Z) : Prop := 0 <= z < 2 ^ 64.

Lemma i64_id z : is_i64 z -> i64 z = z.
Proof. unfold is_i64, i64. intros. rewrite Z.mod_small; lia. Qed.

Lemma i32_id z : is_i32 z -> i32 z = z.
Proof. unfold is_i32, i32. intros. rewrite Z.mod_small; lia. Qed.

Lemma u64_id z : is_u64 z -> u64 z = z.
Proof. unfold is_u64, u64. intros. by rewrite Z.mod_small. Qed.

Lemma u32_id z : is_u32 z -> u32 z = z.
Proof. unfold is_u32, u32. intros. by rewrite Z.mod_small. Qed.

Lemma u64_range z : is_u64 (u64 z).
Proof. apply Z.mod_pos_bound. lia. Qed.

Lemma u32_range z : is_u32 (u32 z).
Proof. apply Z.mod_pos_bound. lia. Qed.

Lemma i64_range z : is_i64 (i64 z).
Proof. unfold is_i64, i64. pose proof (Z.mod_pos_bound (z + 2 ^ 63) (2 ^ 64)). lia. Qed.

Lemma i32_range z : is_i32 (i32 z).
Proof. unfold is_i32, i32. pose proof (Z.mod_pos_bound (z + 2 ^ 31) (2 ^ 32)). lia. Qed.

Lemma i64_u64 z : i64 (u64 z) = i64 z.
Proof. unfold i64, u64. by rewrite Zplus_mod_idemp_l. Qed.

Lemma u64_i64 z : u64 (i64 z) = u64 z.
Proof.
  unfold i64, u64. rewrite Zminus_mod_idemp_l. f_equal. lia.
Qed.

(** Casting an [int64_t] to [uint64_t] loses nothing. *)
Lemma i64_u64_id z : is_i64 z -> i64 (u64 z) = z.
Proof. intros. by rewrite i64_u64, i64_id. Qed.

(** ** Bits *)

Lemma testbit_small v n k : 0 <= v < 2 ^ n -> 0 <= n <= k -> Z.testbit v k = false.
Proof.
  intros Hv Hk. destruct (decide (v = 0)) as [->|]; [apply Z.bits_0|].
  apply Z.bits_above_log2; [lia|].
  assert (Z.log2 v < n); [|lia]. apply Z.log2_lt_pow2; lia.
Qed.

Lemma lor_shiftl_add a b n :
  0 <= a < 2 ^ n -> 0 <= n -> Z.lor a (Z.shiftl b n) = a + 2 ^ n * b.
Proof.
  intros Ha Hn. rewrite <- (Z.add_0_r (Z.lor _ _)).
  rewrite (Z.mul_comm (2 ^ n)), <- Z.shiftl_mul_pow2 by lia.
  rewrite <- (Z.add_lor_land a). f_equal. symmetry. apply Z.bits_inj'. intros i Hi.
  rewrite Z.land_spec, Z.bits_0.
  destruct (decide (i < n)); [rewrite Z.shiftl_spec_low by lia; by rewrite andb_false_r|].
  by rewrite (testbit_small a n) by lia.
Qed.

(** ** Little-endian storage: the object representation of an integer *)

Fixpoint le_bytes (n : nat) (z : Z) : bytes :=
  match n with
  | O => []
  | S n => zb z :: le_bytes n (z `div` 256)
  end.

Fixpoint le_Z (bs : bytes) : Z :=
  match bs with
  | [] => 0
  | b :: bs => bz b + 256 * le_Z bs
  end.

Lemma length_le_bytes n z : length (le_bytes n z) = n.
Proof. revert z. induction n; intros; simpl; auto. Qed.

Lemma le_Z_range bs : 0 <= le_Z bs < 256 ^ Z.of_nat (length bs).
Proof.
  induction bs as [|b bs IH]; simpl length; [simpl; lia|].
  rewrite Nat2Z.inj_succ, Z.pow_succ_r by lia. simpl. pose proof (bz_range b). lia.
Qed.

Lemma le_Z_le_bytes n z : le_Z (le_bytes n z) = z `mod` 256 ^ Z.of_nat n.
Proof.
  revert z. induction n as [|n IH]; intros z; simpl le_bytes; simpl le_Z.
  - by rewrite Z.mod_1_r.
  - rewrite IH, bz_zb, Nat2Z.inj_succ, Z.pow_succ_r by lia.
    rewrite Z.rem_mul_r by lia. done.
Qed.

Lemma le_bytes_le_Z bs : le_bytes (length bs) (le_Z bs) = bs.
Proof.
  induction bs as [|b bs IH]; simpl; [done|]. pose proof (bz_range b).
  f_equal.
  - apply bz_inj. rewrite bz_zb, Z.mul_comm, Z_mod_plus_full. by apply Z.mod_small.
  - rewrite Z.mul_comm, Z_div_plus_full by lia. rewrite (Z.div_small (bz b)) by lia.
    by rewrite Z.add_0_l.
Qed.

Lemma le_Z_app a b : le_Z (a ++ b) = le_Z a + 256 ^ Z.of_nat (length a) * le_Z b.
Proof.
  induction a as [|x a IH]; cbn [app le_Z length]; [lia|].
  rewrite IH, Nat2Z.inj_succ, Z.pow_succ_r by lia. lia.
Qed.

Lemma le_bytes_mod n z : le_bytes n (z `mod` 256 ^ Z.of_nat n) = le_bytes n z.
Proof.
  rewrite <- le_Z_le_bytes. rewrite <- (length_le_bytes n z) at 1. apply le_bytes_le_Z.
Qed.

(** ** The order of [std::string::operator<] and of RocksDB's bytewise comparator *)

Fixpoint blt (a b : bytes) : bool :=
  match a, b with
  | _, [] => false
  | [], _ :: _ => true
  | x :: a, y :: b =>
      if bz x <? bz y then true else if bz x =? bz y then blt a b else false
  end.

Definition ble (a b : bytes) : bool := negb (blt b a).

Lemma blt_irrefl a : blt a a = false.
Proof. induction a as [|x a IH]; simpl; [done|]. by rewrite Z.ltb_irrefl, Z.eqb_refl. Qed.

Lemma blt_trans a b c : blt a b = true -> blt b c = true -> blt a c = true.
Proof.
  revert b c. induction a as [|x a IH]; intros [|y b] [|z c]; simpl; try done.
  destruct (Z.ltb_spec (bz x) (bz y)), (Z.eqb_spec (bz x) (bz y)),
    (Z.ltb_spec (bz y) (bz z)), (Z.eqb_spec (bz y) (bz z)),
    (Z.ltb_spec (bz x) (bz z)), (Z.eqb_spec (bz x) (bz z)); try done; try lia; eauto.
Qed.

Lemma blt_total a b : blt a b = false -> blt b a = false -> a = b.
Proof.
  revert b. induction a as [|x a IH]; intros [|y b]; simpl; try done.
  destruct (Z.ltb_spec (bz x) (bz y)), (Z.eqb_spec (bz x) (bz y)),
    (Z.ltb_spec (bz y) (bz x)), (Z.eqb_spec (bz y) (bz x)); try done; try lia.
  intros ??. f_equal; [by apply bz_inj|auto].
Qed.

Lemma blt_asym a b : blt a b = true -> blt b a = false.
Proof.
  intros H. destruct (blt b a) eqn:E; [|done].
  pose proof (blt_trans _ _ _ H E). by rewrite blt_irrefl in *.
Qed.

Lemma blt_ble_trans a b c : blt a b = true -> ble b c = true -> blt a c = true.
Proof.
  unfold ble. intros H1 H2. destruct (blt c b) eqn:E; [done|].
  destruct (blt b c) eqn:E'; [by eapply blt_trans|]. by rewrite (blt_total c b E E').
Qed.

Lemma ble_blt_trans a b c : ble a b = true -> blt b c = true -> blt a c = true.
Proof.
  unfold ble. intros H1 H2. destruct (blt b a) eqn:E; [done|].
  destruct (blt a b) eqn:E'; [by eapply blt_trans|]. by rewrite (blt_total a b E' E).
Qed.

Lemma blt_app_same p a b : blt (p ++ a) (p ++ b) = blt a b.
Proof. induction p as [|x p IH]; simpl; [done|]. by rewrite Z.ltb_irrefl, Z.eqb_refl. Qed.

(** Strings of the same length decide the comparison before what follows them. *)
Lemma blt_app_len p q a b :
  length p = length q ->
  blt (p ++ a) (q ++ b) = blt p q || (bool_decide (p = q) && blt a b).
Proof.
  revert q. induction p as [|x p IH]; intros [|y q]; simpl; try done.
  intros [= Hl]. rewrite (IH _ Hl).
  destruct (Z.ltb_spec (bz x) (bz y)), (Z.eqb_spec (bz x) (bz y)); try lia; try done.
  - assert (x = y) as -> by by apply bz_inj.
    f_equal. f_equal. apply bool_decide_ext. naive_solver.
  - rewrite bool_decide_false; [done|]. congruence.
Qed.

Lemma blt_nil_r a : blt a [] = false.
Proof. by destruct a. Qed.

Lemma ble_refl a : ble a a = true.
Proof. unfold ble. by rewrite blt_irrefl. Qed.

Lemma ble_trans a b c : ble a b = true -> ble b c = true -> ble a c = true.
Proof.
  unfold ble. intros H1 H2. destruct (blt c a) eqn:E; [|done].
  assert (blt c b = true) as Hc.
  { apply blt_ble_trans with a; [done|]. done. }
  by rewrite Hc in H2.
Qed.

(** ** Lists *)

Lemma list_ind3 {A} (P : list A -> Prop) :
  P [] -> (forall a, P [a]) -> (forall a b, P [a; b]) ->
  (forall a b c l, P l -> P (a :: b :: c :: l)) -> forall l, P l.
Proof.
  intros H0 H1 H2 H3. fix IH 1. intros [|a [|b [|c l]]]; [done..|]. apply H3, IH.
Qed.

Lemma list_ind4 {A} (P : list A -> Prop) :
  (forall l, (length l < 4)%nat -> P l) ->
  (forall a b c d l, P l -> P (a :: b :: c :: d :: l)) -> forall l, P l.
Proof.
  intros H0 H4. fix IH 1. intros [|a [|b [|c [|d l]]]]; [apply H0; simpl; lia..|].
  apply H4, IH.
Qed.

Lemma filter_none {A} (P : A -> Prop) `{!forall x, Decision (P x)} l :
  Forall (fun x => ~ P x) l -> filter P l = [].
Proof. induction 1; [done|]. by rewrite filter_cons_False. Qed.

Lemma filter_all {A} (P : A -> Prop) `{!forall x, Decision (P x)} l :
  Forall P l -> filter P l = l.
Proof. induction 1; [done|]. rewrite filter_cons_True by done. by f_equal. Qed.
