(* ===== verification/Cstd.v ===== *)
(** The parts of the C and C++ standard library the program calls: character
    classes, [strcasecmp], [strtoll]/[atoi], decimal conversions of [printf],
    and the searches of [std::string]. *)

From S2P Require Import Prelude.

(** ** Characters

    The classes of the C locale, total on bytes as the C libraries of the program
    have them: for a negative [char], which the sources do not rule out, ISO C
    leaves them undefined. *)

Definition isspace (b : byte) : bool := (bz b =? 32) || ((9 <=? bz b) && (bz b <=? 13)).
Definition isdigit (b : byte) : bool := (48 <=? bz b) && (bz b <=? 57).
Definition isprint (b : byte) : bool := (32 <=? bz b) && (bz b <=? 126).
Definition tolower (b : byte) : byte :=
  if (65 <=? bz b) && (bz b <=? 90) then zb (bz b + 32) else b.
Definition toupper (b : byte) : byte :=
  if (97 <=? bz b) && (bz b <=? 122) then zb (bz b - 32) else b.

(** ** C strings: the bytes before the first NUL *)

Fixpoint cstr (s : bytes) : bytes :=
  match s with
  | [] => []
  | b :: s => if decide (b = x00) then [] else b :: cstr s
  end.

(** [0 == strcasecmp(a, b)] and [0 == strncasecmp(a, b, n)] *)
Definition strcasecmp_eq (a b : bytes) : bool :=
  bool_decide (tolower <$> cstr a = tolower <$> cstr b).
Definition strncasecmp_eq (a b : bytes) (n : nat) : bool :=
  bool_decide (tolower <$> take n (cstr a) = tolower <$> take n (cstr b)).
(** [0 == strcmp(a, b)] *)
Definition strcmp_eq (a b : bytes) : bool := bool_decide (cstr a = cstr b).

(** ** Searches *)

Fixpoint is_prefix (p s : bytes) : bool :=
  match p, s with
  | [], _ => true
  | _ :: _, [] => false
  | x :: p, y :: s => bool_decide (x = y) && is_prefix p s
  end.

(** First occurrence of [p] in [s] ([std::string::find], [strstr]). *)
Fixpoint find (p s : bytes) : option nat :=
  if is_prefix p s then Some 0%nat
  else match s with [] => None | _ :: s => S <$> find p s end.

Definition find_from (p s : bytes) (pos : nat) : option nat :=
  (fun i => (pos + i)%nat) <$> find p (drop pos s).

(** [find_first_of] / [find_last_of]: index of the first (last) byte satisfying [P]. *)
Fixpoint find_first (P : byte -> bool) (s : bytes) : option nat :=
  match s with
  | [] => None
  | b :: s => if P b then Some 0%nat else S <$> find_first P s
  end.

Fixpoint find_last (P : byte -> bool) (s : bytes) : option nat :=
  match s with
  | [] => None
  | b :: s => match find_last P s with
              | Some i => Some (S i)
              | None => if P b then Some 0%nat else None
              end
  end.

(** The sign of [memcmp]. *)
Fixpoint memcmp (a b : bytes) : Z :=
  match a, b with
  | x :: a, y :: b => if bz x <? bz y then -1 else if bz y <? bz x then 1 else memcmp a b
  | _, _ => 0
  end.

(** ** [strtoll] and [atoi] *)

Fixpoint skip_space (s : bytes) : bytes :=
  match s with
  | b :: s' => if isspace b then skip_space s' else s
  | [] => []
  end.

Definition read_sign (s : bytes) : bool * bytes :=
  match s with
  | b :: s' => if decide (b = "-"%byte) then (true, s')
               else if decide (b = "+"%byte) then (false, s') else (false, s)
  | [] => (false, [])
  end.

Fixpoint read_digits (acc : Z) (s : bytes) : Z * bytes :=
  match s with
  | b :: s' => if isdigit b then read_digits (acc * 10 + (bz b - 48)) s' else (acc, s)
  | [] => (acc, [])
  end.

Definition starts_digit (s : bytes) : bool :=
  match s with b :: _ => isdigit b | [] => false end.

Record strto := Strto { st_value : Z; st_rest : bytes; st_range : bool }.

(** [strtoll(s, &end, 10)]: the value, the text from [end] on, and whether
    [ERANGE] was raised.  A text without digits gives 0 with [end = s]. *)
Definition strtoll (s : bytes) : strto :=
  let '(neg, s1) := read_sign (skip_space s) in
  if starts_digit s1 then
    let '(v, rest) := read_digits 0 s1 in
    let v := if neg then - v else v in
    if v <? INT64_MIN then Strto INT64_MIN rest true
    else if INT64_MAX <? v then Strto INT64_MAX rest true
    else Strto v rest false
  else Strto 0 s false.

(** [atoi]: [strtol] cast to [int] (both 64-bit on the platforms built for). *)
Definition atoi (s : bytes) : Z := i32 (st_value (strtoll s)).

(** ** Decimal output *)

Fixpoint udec_aux (fuel : nat) (z : Z) (acc : bytes) : bytes :=
  match fuel with
  | O => acc
  | S fuel =>
      let acc := zb (48 + z `mod` 10) :: acc in
      if z <? 10 then acc else udec_aux fuel (z `div` 10) acc
  end.

(** ["%zu"], ["%" PRIu64]: the digits of a non-negative number; one digit per
    bit is more than enough fuel. *)
Definition udec (z : Z) : bytes := udec_aux (S (Z.to_nat (Z.log2 z))) z [].
(** ["%d"], ["%" PRId64] *)
Definition sdec (z : Z) : bytes := if z <? 0 then "-"%byte :: udec (- z) else udec z.

(** [do { *p-- = '0'+(v%10); v /= 10; } while(v)], the digits of a non-negative
    number written backwards into [fuel] bytes; [None] is an overrun. *)
Fixpoint dec_loop (fuel : nat) (v : Z) (acc : bytes) : option bytes :=
  match fuel with
  | O => None
  | S fuel =>
      let acc := zb (48 + v `mod` 10) :: acc in
      let v := v `div` 10 in
      if v =? 0 then Some acc else dec_loop fuel v acc
  end.

(** ** Facts *)

Definition no_digit (s : bytes) : Prop := starts_digit s = false.

Lemma find_first_None P s : Forall (fun b => P b = false) s -> find_first P s = None.
Proof. induction 1 as [|b s Hb _ IH]; [done|]. cbn [find_first]. by rewrite Hb, IH. Qed.

Lemma isdigit_zb d : 0 <= d < 10 -> isdigit (zb (48 + d)) = true.
Proof. intros. unfold isdigit. rewrite bz_zb_small by lia. apply andb_true_intro. split; lia. Qed.

Lemma read_digits_app acc ds rest :
  Forall (fun b => isdigit b = true) ds -> no_digit rest ->
  read_digits acc (ds ++ rest) =
    (foldl (fun a b => a * 10 + (bz b - 48)) acc ds, rest).
Proof.
  intros H Hr. revert acc. induction H as [|b ds Hb _ IH]; intros acc; simpl.
  - destruct rest as [|c rest]; [done|]. simpl. unfold no_digit in Hr. simpl in Hr.
    by rewrite Hr.
  - rewrite Hb. apply IH.
Qed.

Lemma udec_aux_spec fuel z acc :
  0 <= z < 2 ^ Z.of_nat fuel -> fuel <> O ->
  exists ds, udec_aux fuel z acc = ds ++ acc /\ ds <> [] /\
    Forall (fun b => isdigit b = true) ds /\
    forall v, foldl (fun a b => a * 10 + (bz b - 48)) v ds
              = v * 10 ^ Z.of_nat (length ds) + z.
Proof.
  revert z acc. induction fuel as [|fuel IH]; intros z acc Hz Hf; [done|]. clear Hf.
  cbn [udec_aux]. pose proof (Z.mod_pos_bound z 10).
  destruct (Z.ltb_spec z 10) as [Hs|Hs].
  - exists [zb (48 + z `mod` 10)]. split; [done|]. split; [done|]. split.
    + repeat constructor. apply isdigit_zb. lia.
    + intros v. simpl. rewrite bz_zb_small, Z.mod_small by lia. lia.
  - rewrite Nat2Z.inj_succ, Z.pow_succ_r in Hz by lia.
    assert (0 <= z `div` 10 < 2 ^ Z.of_nat fuel) as Hd.
    { split; [apply Z.div_pos; lia|]. apply Z.div_lt_upper_bound; lia. }
    assert (1 <= z `div` 10) by (apply Z.div_le_lower_bound; lia).
    destruct (IH (z `div` 10) (zb (48 + z `mod` 10) :: acc) Hd) as (ds & E & Hne & Hds & Hv).
    { intros ->. simpl in Hd. lia. }
    exists (ds ++ [zb (48 + z `mod` 10)]). rewrite E, <- app_assoc.
    split; [done|]. split; [by destruct ds|]. split.
    + apply Forall_app. split; [done|]. repeat constructor. apply isdigit_zb. lia.
    + intros v. rewrite foldl_app, Hv. cbn [foldl]. rewrite bz_zb_small by lia.
      rewrite length_app. cbn [length]. rewrite Nat2Z.inj_add, Z.pow_add_r by lia.
      change (10 ^ Z.of_nat 1) with 10. pose proof (Z.div_mod z 10). lia.
Qed.

Lemma udec_spec z :
  0 <= z ->
  udec z <> [] /\ Forall (fun b => isdigit b = true) (udec z) /\
  foldl (fun a b => a * 10 + (bz b - 48)) 0 (udec z) = z.
Proof.
  intros Hz. unfold udec.
  assert (0 <= z < 2 ^ Z.of_nat (S (Z.to_nat (Z.log2 z)))) as Hf.
  { split; [done|]. rewrite Nat2Z.inj_succ, Z2Nat.id by apply Z.log2_nonneg.
    destruct (decide (z = 0)) as [->|]; [done|]. apply Z.log2_spec. lia. }
  destruct (udec_aux_spec _ z [] Hf) as (ds & -> & ? & ? & Hv); [done|].
  rewrite app_nil_r. split_and!; [done..|]. rewrite Hv. lia.
Qed.

Lemma digit_not_space b : isdigit b = true -> isspace b = false.
Proof.
  unfold isdigit, isspace. intros [? ?]%andb_prop.
  destruct (Z.eqb_spec (bz b) 32), (Z.leb_spec 9 (bz b)), (Z.leb_spec (bz b) 13); simpl; lia.
Qed.

Lemma digit_not_sign b : isdigit b = true -> b <> "-"%byte /\ b <> "+"%byte.
Proof. intros H. split; intros ->; done. Qed.

(** Reading back what [printf] wrote, whatever non-digit follows. *)
Lemma strtoll_sdec z rest :
  is_i64 z -> no_digit rest -> strtoll (sdec z ++ rest) = Strto z rest false.
Proof.
  intros Hz Hr. unfold strtoll, sdec, INT64_MIN, INT64_MAX.
  unfold is_i64 in Hz. destruct (Z.ltb_spec z 0) as [Hn|Hn].
  - destruct (udec_spec (- z)) as (Hne & Hd & Hv); [lia|].
    cbn [app skip_space]. change (isspace "-"%byte) with false. cbn iota.
    cbn [read_sign]. rewrite decide_True by done.
    assert (starts_digit (udec (- z) ++ rest) = true) as ->.
    { destruct (udec (- z)); [done|]. simpl. by inversion Hd. }
    rewrite read_digits_app, Hv by done.
    destruct (Z.ltb_spec (- - z) (- 2 ^ 63)); [lia|].
    destruct (Z.ltb_spec (2 ^ 63 - 1) (- - z)); [lia|]. f_equal. lia.
  - destruct (udec_spec z) as (Hne & Hd & Hv); [lia|].
    destruct (udec z) as [|b ds] eqn:E; [done|].
    assert (isdigit b = true) as Hb by by inversion Hd.
    cbn [app skip_space]. rewrite (digit_not_space b Hb).
    destruct (digit_not_sign b Hb). cbn [read_sign].
    rewrite !decide_False by done. cbn [starts_digit]. rewrite Hb.
    rewrite app_comm_cons, read_digits_app, Hv by done.
    destruct (Z.ltb_spec z (- 2 ^ 63)); [lia|].
    destruct (Z.ltb_spec (2 ^ 63 - 1) z); [lia|]. done.
Qed.

Lemma strtoll_sdec_nil z : is_i64 z -> strtoll (sdec z) = Strto z [] false.
Proof. intros Hz. rewrite <- (app_nil_r (sdec z)). by apply strtoll_sdec. Qed.

Lemma atoi_sdec z : is_i32 z -> atoi (sdec z) = z.
Proof.
  intros Hz. unfold atoi. rewrite strtoll_sdec_nil by (unfold is_i32, is_i64 in *; lia).
  by apply i32_id.
Qed.

Lemma length_udec_aux fuel n z acc :
  0 <= z < 10 ^ Z.of_nat (S n) ->
  (length (udec_aux fuel z acc) <= S n + length acc)%nat.
Proof.
  revert n z acc. induction fuel as [|fuel IH]; intros n z acc Hz; cbn [udec_aux]; [lia|].
  destruct (Z.ltb_spec z 10); [simpl; lia|]. destruct n as [|n]; [simpl in Hz; lia|].
  etrans; [apply (IH n)|simpl; lia].
  rewrite (Nat2Z.inj_succ (S n)), Z.pow_succ_r in Hz by lia.
  split; [apply Z.div_pos; lia|apply Z.div_lt_upper_bound; lia].
Qed.

Lemma length_udec n z : 0 <= z < 10 ^ Z.of_nat (S n) -> (length (udec z) <= S n)%nat.
Proof. intros Hz. unfold udec. pose proof (length_udec_aux (S (Z.to_nat (Z.log2 z))) n z [] Hz). cbn [length] in *. lia. Qed.

Lemma length_sdec_i64 z : is_i64 z -> (length (sdec z) <= 20)%nat.
Proof.
  unfold is_i64, sdec, udec. intros Hz.
  destruct (Z.ltb_spec z 0); cbn [length].
  - pose proof (length_udec_aux (S (Z.to_nat (Z.log2 (- z)))) 18 (- z) []) as H'.
    cbn [length] in H'. change (10 ^ Z.of_nat 19) with 10000000000000000000 in H'. lia.
  - pose proof (length_udec_aux (S (Z.to_nat (Z.log2 z))) 18 z []) as H'.
    cbn [length] in H'. change (10 ^ Z.of_nat 19) with 10000000000000000000 in H'. lia.
Qed.

Lemma cstr_id s : Forall (fun b => b <> x00) s -> cstr s = s.
Proof. induction 1; simpl; [done|]. rewrite decide_False by done. by f_equal. Qed.

Lemma cstr_app_nul s t : Forall (fun b => b <> x00) s -> cstr (s ++ x00 :: t) = s.
Proof. induction 1; simpl; [done|]. rewrite decide_False by done. by f_equal. Qed.

Lemma cstr_no_nul s : Forall (fun b => b <> x00) (cstr s).
Proof. induction s as [|b s IH]; cbn; [constructor|]. case_decide; by constructor. Qed.

Lemma cstr_app_stop c r : cstr (c ++ x00 :: r) = cstr c.
Proof. induction c as [|x c IH]; [done|]. cbn. case_decide; [done|]. by rewrite IH. Qed.

Lemma cstr_cstr s : cstr (cstr s) = cstr s.
Proof. apply cstr_id, cstr_no_nul. Qed.

Lemma digits_no_nul s :
  Forall (fun b => isdigit b = true) s -> Forall (fun b => b <> x00) s.
Proof. intros H. eapply Forall_impl; [done|]. intros b Hb ->. done. Qed.

Lemma sdec_no_nul z : Forall (fun b => b <> x00) (sdec z).
Proof.
  unfold sdec. destruct (Z.ltb_spec z 0).
  - constructor; [done|]. apply digits_no_nul, udec_spec. lia.
  - apply digits_no_nul, udec_spec. lia.
Qed.

Lemma dec_loop_udec f : forall g v acc,
  0 <= v < 10 ^ Z.of_nat (S f) -> v < 2 ^ Z.of_nat (S g) ->
  dec_loop (S f) v acc = Some (udec_aux (S g) v acc).
Proof.
  induction f as [|f IH]; intros g v acc Hv Hg; cbn [dec_loop udec_aux];
    pose proof (Z.div_mod v 10 ltac:(lia)) as Hd; pose proof (Z.mod_pos_bound v 10 ltac:(lia)) as Hm.
  - change (10 ^ Z.of_nat 1) with 10 in Hv. rewrite (Z.div_small v 10) by lia.
    destruct (Z.ltb_spec v 10); [done|lia].
  - destruct (Z.ltb_spec v 10); [by rewrite (Z.div_small v 10) by lia|].
    destruct (Z.eqb_spec (v `div` 10) 0); [lia|]. destruct g as [|g]; [change (2 ^ Z.of_nat 1) with 2 in Hg; lia|].
    rewrite (Nat2Z.inj_succ (S f)), Z.pow_succ_r in Hv by lia. rewrite (Nat2Z.inj_succ (S g)), Z.pow_succ_r in Hg by lia.
    apply (IH g); lia.
Qed.

Lemma dec_loop_udec_enough f v :
  0 <= v < 10 ^ Z.of_nat (S f) -> dec_loop (S f) v [] = Some (udec v).
Proof.
  intros Hv. apply dec_loop_udec; [done|].
  destruct (decide (v = 0)) as [->|]; [done|]. pose proof (Z.log2_spec v ltac:(lia)) as [_ H].
  rewrite Nat2Z.inj_succ, Z2Nat.id by apply Z.log2_nonneg. done.
Qed.

(** ** [memcmp] *)

(** The three-way comparison of two byte strings. *)
Definition compare3 (a b : bytes) : Z :=
  if memcmp a b =? 0 then Z.of_nat (length a) - Z.of_nat (length b) else memcmp a b.

Lemma compare3_cons x a y b :
  compare3 (x :: a) (y :: b) = if bz x <? bz y then -1 else if bz y <? bz x then 1 else compare3 a b.
Proof.
  unfold compare3. cbn [memcmp length]. destruct (bz x <? bz y); [done|]. destruct (bz y <? bz x); [done|].
  destruct (memcmp a b =? 0); [lia|done].
Qed.

Lemma compare3_spec a : forall b,
  (compare3 a b < 0 <-> blt a b = true) /\ (compare3 a b = 0 <-> a = b).
Proof.
  induction a as [|x a IH]; intros [|y b]; try (unfold compare3; cbn; split; split; (done || lia)).
  rewrite compare3_cons. cbn [blt]. destruct (IH b) as [IH1 IH2].
  destruct (Z.ltb_spec (bz x) (bz y)), (Z.ltb_spec (bz y) (bz x)), (Z.eqb_spec (bz x) (bz y)) as [E|];
    try lia; try (split; split; (done || lia || (intros [= -> ->]; lia))).
  apply bz_inj in E as ->. split; [done|]. rewrite IH2. split; [by intros ->|by intros [= ->]].
Qed.

Lemma memcmp_take m a : forall b, (length a <= m \/ length b <= m)%nat -> memcmp (take m a) (take m b) = memcmp a b.
Proof.
  revert m. induction a as [|x a IH]; intros [|m] [|y b] H; try done; cbn [length] in H; [lia|].
  cbn [take memcmp]. by rewrite IH by lia.
Qed.

(** Searching a text: the first place it is found at. *)

Lemma is_prefix_self p x : is_prefix p (p ++ x) = true.
Proof. induction p as [|c p IH]; [done|]. cbn [app is_prefix]. by rewrite bool_decide_eq_true_2. Qed.

Lemma is_prefix_drop p : forall s, is_prefix p s = true -> s = p ++ drop (length p) s.
Proof.
  induction p as [|c p IH]; intros [|b s] H; try done. cbn [is_prefix] in H.
  apply andb_prop in H as [->%bool_decide_eq_true_1 H]. cbn [app length drop]. f_equal. by apply IH.
Qed.

Lemma find_split p s i : find p s = Some i -> s = take i s ++ p ++ drop (i + length p) s.
Proof.
  revert i. induction s as [|x s IH]; intros i; cbn [find].
  - destruct (is_prefix p []) eqn:E; [|done]. intros [= <-]. apply (is_prefix_drop _ _ E).
  - destruct (is_prefix p (x :: s)) eqn:E.
    + intros [= <-]. apply (is_prefix_drop _ _ E).
    + destruct (find p s) as [j|] eqn:Ej; [|done]. intros [= <-]. cbn. f_equal. by apply IH.
Qed.

Lemma find_least p pre post : exists i, find p (pre ++ p ++ post) = Some i /\ (i <= length pre)%nat.
Proof.
  induction pre as [|x pre (i & E & Hi)]; cbn [app length].
  - exists 0%nat. pose proof (is_prefix_self p post) as Hp. destruct (p ++ post) eqn:Ep; cbn [find]; by rewrite Hp.
  - cbn [find]. destruct (is_prefix p (x :: pre ++ p ++ post)); [exists 0%nat; by split; [|lia]|].
    rewrite E. exists (S i). split; [done|lia].
Qed.

(** [p] occurs in [s] between [pre] and [post], and nowhere earlier. *)
Definition first_at (p s pre post : bytes) : Prop :=
  s = pre ++ p ++ post /\ forall pre' post', s = pre' ++ p ++ post' -> (length pre <= length pre')%nat.

Lemma find_first_at p s i : find p s = Some i -> first_at p s (take i s) (drop (i + length p) s).
Proof.
  intros E. split; [by apply find_split|]. intros pre post ->. destruct (find_least p pre post) as (j & E' & Hj).
  rewrite E in E'. injection E' as <-. rewrite length_take. lia.
Qed.

Lemma first_at_find p s pre post : first_at p s pre post -> find p s = Some (length pre).
Proof.
  intros [-> Hl]. destruct (find_least p pre post) as (i & E & Hi). rewrite E. f_equal.
  apply find_split in E. specialize (Hl _ _ E). rewrite length_take in Hl. lia.
Qed.

Lemma find_missing p s : find p s = None -> forall pre post, s <> pre ++ p ++ post.
Proof. intros E pre post ->. destruct (find_least p pre post) as (i & E' & _). congruence. Qed.

Lemma length_cstr t : (length (cstr t) <= length t)%nat.
Proof. induction t as [|b t IH]; cbn; [lia|]. case_decide; cbn; lia. Qed.

(** What follows a C string begins with its NUL. *)
Lemma cstr_rest s : exists rest, s = cstr s ++ rest /\ (rest = [] \/ exists r, rest = x00 :: r).
Proof.
  induction s as [|b s (rest & E & Hr)]; [by exists []; split; [|left]|]. cbn. destruct (decide (b = x00)) as [->|Hb].
  - exists (x00 :: s). split; [done|]. right. by exists s.
  - exists rest. by split; [cbn; f_equal|].
Qed.
