(* ===== verification/Util.v ===== *)
(** [common/util.h] and [common/util.cpp]: byte swapping of scores, integer
    and text conversions, tokenising, Base64 and the credential encoding. *)

From S2P Require Import Prelude Cstd.

(** ** Byte swapping *)

Definition big_endian16 (v : Z) : Z := u16 (Z.lor (Z.shiftr v 8) (Z.shiftl v 8)).

Definition big_endian32 (v : Z) : Z :=
  Z.lor (Z.lor (Z.lor (Z.shiftr v 24) (Z.land (Z.shiftr v 8) 0xff00))
               (Z.land (u32 (Z.shiftl v 8)) 0xff0000))
        (u32 (Z.shiftl v 24)).

Definition big_endian64 (v : Z) : Z :=
  let h := u32 (Z.shiftr v 32) in
  let l := Z.land v 0xffffffff in
  Z.lor (big_endian32 h) (u64 (Z.shiftl (big_endian32 l) 32)).

Definition encode_score (s : Z) : Z := big_endian64 (u64 s).
Definition decode_score (s : Z) : Z := big_endian64 (u64 s).

(** ** Time *)

Record timeval := Timeval { tv_sec : Z; tv_usec : Z }.

Definition getCurrentTime (tv : timeval) : Z :=
  let ms := u64 (tv_sec tv) in u64 (u64 (ms * 1000) + u64 (tv_usec tv `quot` 1000)).

(** ** Numbers as text *)

(** The buffer of [str] has 21 bytes, one of them for the terminating NUL. *)
Definition str (v : Z) : bytes := take 20 (sdec v).

(** [errno] codes the code distinguishes: 0, [EINVAL], [ERANGE]. *)
Definition EINVAL : Z := 22.
Definition ERANGE : Z := 34.

(** The value; the text handed to [strtoll] ends at the first NUL. *)
Definition str_to_int64 (s : bytes) : Z := st_value (strtoll (cstr s)).

(** [errno] after the call, given its value before. *)
Definition str_to_int64_errno (s : bytes) (errno : Z) : Z :=
  let r := strtoll (cstr s) in
  let errno := if st_range r then ERANGE else errno in
  if bool_decide (st_rest r = [] /\ length (cstr s) = length s) then 0
  else if errno =? 0 then EINVAL else errno.

(** ** Dumps *)

Definition hex_set : bytes := lit "0123456789abcdef".
Definition hex_digit (z : Z) : byte := nth (Z.to_nat z) hex_set x00.

Fixpoint hex_loop (buf : bytes) : bytes :=
  match buf with
  | [] => []
  | b :: buf =>
      hex_digit (Z.shiftr (bz b) 4) :: hex_digit (Z.land (bz b) 0xf) :: " "%byte :: hex_loop buf
  end.

(** The bytes [hex_str] stores at [outstr], the NUL included; a NULL buffer
    stores nothing. *)
Definition hex_str (buf : option bytes) : bytes :=
  match buf with
  | None => []
  | Some b => hex_loop (take 1024 b) ++ [x00]
  end.

(** [hash_dump] gives [hex_str] a buffer of 1025 bytes: [None] when the dump
    writes past it. *)
Definition hash_dump (s : bytes) : option bytes :=
  let out := hex_str (Some s) in
  if (length out <=? 1025)%nat then Some out else None.

(** ** Tokens: [strtok] over a copy of the C string *)

Fixpoint strtok_loop (sep : bytes) (cur : bytes) (s : bytes) : list bytes :=
  match s with
  | [] => match cur with [] => [] | _ => [cur] end
  | b :: s =>
      if bool_decide (b ∈ sep)
      then match cur with [] => strtok_loop sep [] s | _ => cur :: strtok_loop sep [] s end
      else strtok_loop sep (cur ++ [b]) s
  end.

(** Return code and the vector with the tokens appended. *)
Definition str2Vect (pSrc : option bytes) (vDest : list bytes) (pSep : bytes) : Z * list bytes :=
  match pSrc with
  | None => (-1, vDest)
  | Some src =>
      if (length (cstr src) =? 0)%nat then (-1, vDest)
      else (0, vDest ++ strtok_loop pSep [] (cstr src))
  end.

(** ** Base64 *)

Definition b64_codes : bytes :=
  lit "ABCDEFGHIJKLMNOPQRSTUVWXYZabcdefghijklmnopqrstuvwxyz0123456789+/".
Definition b64_code (z : Z) : byte := nth (Z.to_nat (Z.land z 0x3F)) b64_codes x00.

(** The loop over whole groups of three bytes: the output, and what is left. *)
Fixpoint b64_groups (inp : bytes) : bytes * bytes :=
  match inp with
  | i0 :: i1 :: i2 :: rest =>
      let '(out, tl) := b64_groups rest in
      (b64_code (Z.shiftr (bz i0) 2)
       :: b64_code (Z.shiftl (Z.land (bz i0) 3) 4 + Z.shiftr (bz i1) 4)
       :: b64_code (Z.shiftl (Z.land (bz i1) 0xf) 2 + Z.shiftr (bz i2) 6)
       :: b64_code (bz i2) :: out, tl)
  | _ => ([], inp)
  end.

(** The padded last group. *)
Definition b64_pad (tl : bytes) : bytes :=
  match tl with
  | [] => []
  | a :: tl' =>
      let b := match tl' with b :: _ => bz b | [] => 0 end in
      [b64_code (Z.shiftr (bz a) 2);
       b64_code (Z.shiftl (Z.land (bz a) 3) 4 + Z.shiftr b 4);
       match tl' with
       | _ :: _ => b64_code (Z.shiftl (Z.land b 0xf) 2)
       | [] => "="%byte
       end;
       "="%byte]
  end.

Record b64_result := B64 { b64_ret : Z; b64_out : bytes; b64_outlen : Z }.

(** [outlen] is the size of the caller's buffer; nothing is written when it is
    too small for the text and its NUL.  The size is computed as an [unsigned long],
    which no input in memory makes wrap around. *)
Definition base64_encode (inp : bytes) (outlen : Z) : b64_result :=
  let len2 := 4 * ((Z.of_nat (length inp) + 2) `div` 3) in
  if outlen <? len2 + 1 then B64 (-1) [] (len2 + 1)
  else
    let '(out, tl) := b64_groups inp in
    let text := out ++ b64_pad tl in
    B64 0 (text ++ [x00]) (Z.of_nat (length text)).

(** The buffer of [encode_pass] is zeroed before the call, so a refused call
    leaves the empty C string. *)
Definition encode_pass (user pass : bytes) : bytes :=
  let strKey := user ++ lit ":" ++ pass in
  cstr (b64_out (base64_encode strKey 128)).

(** ** Byte swapping, bit by bit *)

(** Evaluate the bits of constants, and of [v] at literal positions. *)
Ltac eval_bits v :=
  repeat match goal with
  | |- context [Z.testbit v ?e] =>
      let e' := eval vm_compute in e in progress change (Z.testbit v e) with (Z.testbit v e')
  end;
  repeat match goal with
  | |- context [Z.testbit ?c ?e] =>
      match c with
      | v => fail 1
      | _ => let b := eval vm_compute in (Z.testbit c e) in change (Z.testbit c e) with b
      end
  end.

Lemma big_endian32_bit v k :
  0 <= v < 2 ^ 32 -> 0 <= k < 32 ->
  Z.testbit (big_endian32 v) k = Z.testbit v (8 * (3 - k `div` 8) + k `mod` 8).
Proof.
  intros Hv Hk. unfold big_endian32, u32.
  assert (exists n : nat, k = Z.of_nat n /\ (n < 32)%nat) as (n & -> & Hn).
  { exists (Z.to_nat k). lia. }
  do 32 (destruct n as [|n];
    [ cbn -[Z.testbit Z.lor Z.land Z.shiftl Z.shiftr Z.modulo Z.pow];
      rewrite !Z.lor_spec, !Z.land_spec; repeat (rewrite Z.shiftr_spec by lia);
      repeat (rewrite Z.mod_pow2_bits_low by lia); repeat (rewrite Z.shiftl_spec by lia);
      eval_bits v;
      rewrite ?(Z.testbit_neg_r v) by lia; rewrite ?(testbit_small v 32) by lia;
      rewrite ?andb_true_r, ?andb_false_r, ?orb_false_r, ?orb_false_l; reflexivity
    | ]).
  lia.
Qed.

Lemma le_Z_testbit bs k :
  0 <= k -> Z.testbit (le_Z bs) k = Z.testbit (bz (nth (Z.to_nat (k `div` 8)) bs x00)) (k `mod` 8).
Proof.
  revert k. induction bs as [|b bs IH]; intros k Hk.
  - cbn [le_Z]. destruct (Z.to_nat (k `div` 8)); cbn [nth]; by rewrite !Z.bits_0.
  - cbn [le_Z]. pose proof (bz_range b).
    change 256 with (2 ^ 8). rewrite <- lor_shiftl_add by lia.
    rewrite Z.lor_spec. destruct (decide (k < 8)).
    + rewrite Z.shiftl_spec_low, orb_false_r by lia.
      by rewrite (Z.div_small k 8), (Z.mod_small k 8) by lia.
    + rewrite Z.shiftl_spec, (testbit_small (bz b) 8), orb_false_l by lia.
      rewrite IH by lia.
      assert (k = k - 8 + 1 * 8) as Hk8 by lia.
      assert (k `div` 8 = (k - 8) `div` 8 + 1) as ->.
      { rewrite Hk8 at 1. by rewrite Z_div_plus_full by lia. }
      assert (k `mod` 8 = (k - 8) `mod` 8) as ->.
      { rewrite Hk8 at 1. by rewrite Z_mod_plus_full. }
      replace (Z.to_nat ((k - 8) `div` 8 + 1)) with (S (Z.to_nat ((k - 8) `div` 8))); [done|].
      pose proof (Z.div_pos (k - 8) 8). lia.
Qed.

Lemma big_endian32_high v k : 0 <= v < 2 ^ 32 -> 32 <= k -> Z.testbit (big_endian32 v) k = false.
Proof.
  intros Hv Hk. unfold big_endian32, u32.
  rewrite !Z.lor_spec, !Z.land_spec, !Z.shiftr_spec by lia.
  rewrite !Z.mod_pow2_bits_high by lia.
  rewrite (testbit_small v 32 (k + 24)), (testbit_small v 32 (k + 8)) by lia. done.
Qed.

Lemma nth_le_bytes n i v :
  (i < n)%nat -> bz (nth i (le_bytes n v) x00) = (v `div` 256 ^ Z.of_nat i) `mod` 256.
Proof.
  revert i v. induction n as [|n IH]; intros [|i] v Hi; simpl le_bytes; try lia; simpl nth.
  - by rewrite bz_zb, Z.div_1_r.
  - rewrite IH, Z.div_div by lia. by rewrite <- Z.pow_succ_r, <- Nat2Z.inj_succ by lia.
Qed.

Lemma big_endian32_rev v :
  0 <= v < 2 ^ 32 -> big_endian32 v = le_Z (rev (le_bytes 4 v)).
Proof.
  intros Hv. apply Z.bits_inj'. intros k Hk. rewrite le_Z_testbit by done.
  destruct (decide (k < 32)) as [Hlt|Hge].
  - rewrite big_endian32_bit by done.
    pose proof (Z.mod_pos_bound k 8). pose proof (Z.div_pos k 8).
    assert (k `div` 8 < 4) by (apply Z.div_lt_upper_bound; lia).
    rewrite rev_nth by (rewrite length_le_bytes; lia).
    rewrite length_le_bytes, nth_le_bytes by lia.
    change 256 with (2 ^ 8) at 2. rewrite Z.mod_pow2_bits_low by lia.
    change 256 with (2 ^ 8). rewrite <- Z.pow_mul_r, Z.div_pow2_bits by lia.
    f_equal. lia.
  - rewrite big_endian32_high by lia.
    rewrite nth_overflow; [by rewrite Z.bits_0|].
    rewrite length_rev, length_le_bytes.
    assert (4 <= k `div` 8) by (apply Z.div_le_lower_bound; lia). lia.
Qed.

Lemma big_endian32_range v : 0 <= v < 2 ^ 32 -> 0 <= big_endian32 v < 2 ^ 32.
Proof.
  intros. rewrite big_endian32_rev by done.
  pose proof (le_Z_range (rev (le_bytes 4 v))) as Hr.
  by rewrite length_rev, length_le_bytes in Hr.
Qed.

Lemma le_bytes_app n m v :
  le_bytes (n + m) v = le_bytes n v ++ le_bytes m (v `div` 256 ^ Z.of_nat n).
Proof.
  revert v. induction n as [|n IH]; intros v; cbn [le_bytes app Nat.add].
  - by rewrite Z.div_1_r.
  - f_equal. rewrite IH, Z.div_div by lia.
    by rewrite <- Z.pow_succ_r, <- Nat2Z.inj_succ by lia.
Qed.

(** Swapping reverses the bytes of the object. *)
Lemma big_endian64_rev v :
  is_u64 v -> big_endian64 v = le_Z (rev (le_bytes 8 v)).
Proof.
  unfold is_u64. intros Hv. unfold big_endian64.
  assert (u32 (Z.shiftr v 32) = v `div` 2 ^ 32) as ->.
  { unfold u32. rewrite Z.shiftr_div_pow2 by lia. apply Z.mod_small.
    split; [apply Z.div_pos; lia|apply Z.div_lt_upper_bound; lia]. }
  change 0xffffffff with (Z.ones 32). rewrite Z.land_ones by lia.
  set (h := v `div` 2 ^ 32). set (l := v `mod` 2 ^ 32).
  assert (0 <= h < 2 ^ 32).
  { unfold h. split; [apply Z.div_pos; lia|apply Z.div_lt_upper_bound; lia]. }
  assert (0 <= l < 2 ^ 32) by (apply Z.mod_pos_bound; lia).
  assert (0 <= big_endian32 h < 2 ^ 32) by by apply big_endian32_range.
  assert (0 <= big_endian32 l < 2 ^ 32) by by apply big_endian32_range.
  assert (u64 (Z.shiftl (big_endian32 l) 32) = Z.shiftl (big_endian32 l) 32) as ->.
  { unfold u64. rewrite Z.shiftl_mul_pow2 by lia. apply Z.mod_small. lia. }
  rewrite lor_shiftl_add, !big_endian32_rev by lia.
  replace (le_bytes 8 v) with (le_bytes 4 l ++ le_bytes 4 h).
  - rewrite rev_app_distr, le_Z_app, length_rev, length_le_bytes. done.
  - change 8%nat with (4 + 4)%nat. rewrite le_bytes_app. f_equal.
    unfold l. change (2 ^ 32) with (256 ^ Z.of_nat 4). apply le_bytes_mod.
Qed.

Lemma big_endian64_range v : is_u64 v -> is_u64 (big_endian64 v).
Proof.
  intros. rewrite big_endian64_rev by done.
  pose proof (le_Z_range (rev (le_bytes 8 v))) as Hr.
  by rewrite length_rev, length_le_bytes in Hr.
Qed.

Lemma le_bytes_big_endian64 v : is_u64 v -> le_bytes 8 (big_endian64 v) = rev (le_bytes 8 v).
Proof.
  intros. rewrite big_endian64_rev by done.
  rewrite <- (le_bytes_le_Z (rev (le_bytes 8 v))) at 2. by rewrite length_rev, length_le_bytes.
Qed.

Lemma big_endian64_involutive v : is_u64 v -> big_endian64 (big_endian64 v) = v.
Proof.
  intros Hv. rewrite (big_endian64_rev (big_endian64 v)) by by apply big_endian64_range.
  rewrite le_bytes_big_endian64, rev_involutive, le_Z_le_bytes by done.
  by apply Z.mod_small.
Qed.

(** Big-endian strings of one length sort as the numbers they hold. *)
Lemma blt_be n a b :
  0 <= a < 256 ^ Z.of_nat n -> 0 <= b < 256 ^ Z.of_nat n ->
  blt (rev (le_bytes n a)) (rev (le_bytes n b)) = (a <? b).
Proof.
  revert a b. induction n as [|n IH]; intros a b Ha Hb.
  - simpl in *. symmetry. apply Z.ltb_ge. lia.
  - replace (S n) with (n + 1)%nat by lia. rewrite !le_bytes_app, !rev_app_distr.
    rewrite Nat2Z.inj_succ, Z.pow_succ_r in * by lia.
    set (P := 256 ^ Z.of_nat n) in *. assert (0 < P) by (apply Z.pow_pos_nonneg; lia).
    cbn [le_bytes rev app blt].
    rewrite !bz_zb, !Z.mod_small
      by (split; [apply Z.div_pos; lia|apply Z.div_lt_upper_bound; lia]).
    rewrite <- (le_bytes_mod n a), <- (le_bytes_mod n b).
    rewrite IH by (apply Z.mod_pos_bound; lia). fold P.
    pose proof (Z.div_mod a P). pose proof (Z.div_mod b P).
    pose proof (Z.mod_pos_bound a P). pose proof (Z.mod_pos_bound b P).
    destruct (Z.ltb_spec (a `div` P) (b `div` P)).
    { symmetry. apply Z.ltb_lt. nia. }
    destruct (Z.eqb_spec (a `div` P) (b `div` P)) as [E|].
    + destruct (Z.ltb_spec (a `mod` P) (b `mod` P)); symmetry;
        [apply Z.ltb_lt|apply Z.ltb_ge]; nia.
    + symmetry. apply Z.ltb_ge. nia.
Qed.

(** ** Numbers as text *)

Lemma str_sdec v : is_i64 v -> str v = sdec v.
Proof. intros. unfold str. by apply take_ge, length_sdec_i64. Qed.

Lemma str_to_int64_sdec v : is_i64 v -> str_to_int64 (sdec v) = v.
Proof.
  intros. unfold str_to_int64. rewrite cstr_id by apply sdec_no_nul.
  by rewrite strtoll_sdec_nil.
Qed.

Lemma str_to_int64_range s : is_i64 (str_to_int64 s).
Proof.
  unfold str_to_int64, strtoll, is_i64, INT64_MIN, INT64_MAX.
  destruct (read_sign _) as [neg s1]. destruct (starts_digit s1); [|simpl; lia].
  destruct (read_digits 0 s1) as [v rest].
  destruct (Z.ltb_spec (if neg then - v else v) (- 2 ^ 63)); [simpl; lia|].
  destruct (Z.ltb_spec (2 ^ 63 - 1) (if neg then - v else v)); simpl; lia.
Qed.

(** ** Tokens *)

Lemma strtok_loop_ok sep cur s :
  Forall (fun b => b ∉ sep) cur ->
  Forall (fun t => t <> [] /\ Forall (fun b => b ∉ sep) t) (strtok_loop sep cur s) /\
  mjoin (strtok_loop sep cur s) = cur ++ filter (fun b => b ∉ sep) s.
Proof.
  revert cur. induction s as [|b s IH]; intros cur Hc; cbn [strtok_loop].
  - destruct cur; [done|]. split; [by apply Forall_singleton|]. done.
  - case_bool_decide as Hb.
    + rewrite filter_cons_False by (intros ?; done).
      destruct (IH []) as [IH1 IH2]; [done|].
      destruct cur as [|c cur]; [done|]. split; [by constructor|].
      cbn [mjoin list_join]. f_equal. exact IH2.
    + rewrite filter_cons_True by done.
      destruct (IH (cur ++ [b])) as [IH1 IH2]; [by apply Forall_app; repeat constructor|].
      split; [done|]. by rewrite IH2, <- app_assoc.
Qed.

(** ** Base64 against the decoder of RFC 4648 *)

Definition b64_index (c : byte) : option Z :=
  Z.of_nat <$> (fst <$> list_find (fun d => d = c) b64_codes).

Fixpoint b64_decode (s : bytes) : option bytes :=
  match s with
  | [] => Some []
  | c0 :: c1 :: c2 :: c3 :: rest =>
      v0 ← b64_index c0; v1 ← b64_index c1;
      let x0 := zb (v0 * 4 + v1 `div` 16) in
      if decide (c2 = "="%byte) then
        if decide (c3 = "="%byte /\ rest = []) then Some [x0] else None
      else
        v2 ← b64_index c2;
        let x1 := zb (v1 `mod` 16 * 16 + v2 `div` 4) in
        if decide (c3 = "="%byte) then
          if decide (rest = []) then Some [x0; x1] else None
        else
          v3 ← b64_index c3;
          tl ← b64_decode rest;
          Some (x0 :: x1 :: zb (v2 `mod` 4 * 64 + v3) :: tl)
  | _ => None
  end.

Lemma b64_index_code z : 0 <= z < 64 -> b64_index (b64_code z) = Some z /\ b64_code z <> "="%byte.
Proof.
  intros Hz. assert (exists n, (n < 64)%nat /\ z = Z.of_nat n) as (n & Hn & ->).
  { exists (Z.to_nat z). lia. }
  do 64 (destruct n as [|n]; [by vm_compute|]). lia.
Qed.

Lemma land_mod x n : 0 <= n -> Z.land x (2 ^ n - 1) = x `mod` 2 ^ n.
Proof. intros. rewrite <- Z.land_ones, Z.ones_equiv, Z.sub_1_r by done. done. Qed.

Lemma b64_code_mod z : b64_code z = b64_code (z `mod` 64).
Proof.
  unfold b64_code. change 0x3F with (2 ^ 6 - 1). rewrite !land_mod by lia.
  change (2 ^ 6) with 64. by rewrite Z.mod_mod.
Qed.

Lemma b64_index_code_mod z :
  b64_index (b64_code z) = Some (z `mod` 64) /\ b64_code z <> "="%byte.
Proof. rewrite b64_code_mod. apply b64_index_code. by apply Z.mod_pos_bound. Qed.

(** The bit operations of the encoder as arithmetic. *)
Lemma b64_arith a b :
  Z.shiftr a 2 = a `div` 4 /\ Z.shiftr b 4 = b `div` 16 /\ Z.shiftr b 6 = b `div` 64 /\
  Z.shiftl (Z.land a 3) 4 = a `mod` 4 * 16 /\ Z.shiftl (Z.land b 0xf) 2 = b `mod` 16 * 4.
Proof.
  rewrite !Z.shiftr_div_pow2, !Z.shiftl_mul_pow2 by lia.
  change 3 with (2 ^ 2 - 1). change 0xf with (2 ^ 4 - 1). rewrite !land_mod by lia. done.
Qed.

Lemma zb_eq z b : z = bz b -> zb z = b.
Proof. intros ->. apply zb_bz. Qed.

(** Rewrite a table lookup of the decoder back to the number encoded. *)
Ltac b64_lookup :=
  match goal with
  | |- context [b64_index (b64_code ?z)] => rewrite (proj1 (b64_index_code_mod z))
  | |- context [decide (b64_code ?z = "="%byte)] =>
      rewrite (decide_False (P := b64_code z = "="%byte)) by apply b64_index_code_mod
  end; cbn [mbind option_bind].

Lemma b64_groups_decode inp :
  b64_decode (fst (b64_groups inp) ++ b64_pad (snd (b64_groups inp))) = Some inp.
Proof.
  induction inp as [|a|a b|a b c inp IH] using list_ind3; [done|..].
  - cbn [b64_groups fst snd app b64_pad b64_decode]. repeat b64_lookup.
    rewrite !decide_True by done. destruct (b64_arith (bz a) 0) as (-> & -> & _ & -> & _).
    pose proof (bz_range a). do 2 f_equal. apply zb_eq. Z.div_mod_to_equations; lia.
  - cbn [b64_groups fst snd app b64_pad b64_decode]. repeat b64_lookup.
    rewrite !decide_True by done.
    destruct (b64_arith (bz a) (bz b)) as (-> & -> & _ & -> & ->).
    pose proof (bz_range a). pose proof (bz_range b).
    do 2 f_equal; [|f_equal]; apply zb_eq; Z.div_mod_to_equations; lia.
  - cbn [b64_groups]. destruct (b64_groups inp) as [out tl] eqn:E.
    cbn [fst snd] in IH |- *. cbn [app b64_decode]. repeat b64_lookup. rewrite IH.
    cbn [mbind option_bind].
    destruct (b64_arith (bz a) (bz b)) as (-> & -> & _ & -> & ->).
    destruct (b64_arith 0 (bz c)) as (_ & _ & -> & _ & _).
    pose proof (bz_range a). pose proof (bz_range b). pose proof (bz_range c).
    do 2 f_equal; [|f_equal; [|f_equal]]; apply zb_eq; Z.div_mod_to_equations; lia.
Qed.

Lemma b64_text_length inp :
  Z.of_nat (length (fst (b64_groups inp) ++ b64_pad (snd (b64_groups inp))))
  = 4 * ((Z.of_nat (length inp) + 2) `div` 3).
Proof.
  induction inp as [|a|a b|a b c inp IH] using list_ind3; [done..|].
  cbn [b64_groups]. destruct (b64_groups inp) as [out tl] eqn:E. cbn [fst snd app length] in *.
  replace (Z.of_nat (S (S (S (length inp)))) + 2) with (Z.of_nat (length inp) + 2 + 1 * 3) by lia.
  rewrite Z.div_add by lia. lia.
Qed.

Lemma b64_code_not_nul z : b64_code z <> x00.
Proof.
  intros H. pose proof (b64_index_code_mod z) as [Hi _]. rewrite H in Hi. by vm_compute in Hi.
Qed.

Lemma b64_text_no_nul inp :
  Forall (fun b => b <> x00) (fst (b64_groups inp) ++ b64_pad (snd (b64_groups inp))).
Proof.
  induction inp as [|a|a b|a b c inp IH] using list_ind3;
    [repeat constructor; try apply b64_code_not_nul; done..|].
  cbn [b64_groups]. destruct (b64_groups inp) as [out tl] eqn:E. cbn [fst snd app] in *.
  repeat (constructor; [apply b64_code_not_nul|]). done.
Qed.

(** ** Properties *)

(** A 64-bit integer written by [str] is read back by [str_to_int64], which
    reports success in [errno]. *)
Theorem str_roundtrip (v errno : Z) :
  is_i64 v -> str_to_int64 (str v) = v /\ str_to_int64_errno (str v) errno = 0.
Proof.
  intros Hv. rewrite str_sdec by done. split; [by apply str_to_int64_sdec|].
  unfold str_to_int64_errno. rewrite cstr_id by apply sdec_no_nul.
  rewrite strtoll_sdec_nil by done. by rewrite bool_decide_true.
Qed.

Lemma str_roundtrip_witness :
  is_i64 INT64_MIN /\ str_to_int64 (str INT64_MIN) = INT64_MIN
  /\ str_to_int64_errno (str INT64_MIN) 5 = 0.
Proof.
  assert (is_i64 INT64_MIN) as H by (unfold is_i64, INT64_MIN; lia).
  split; [exact H|]. exact (str_roundtrip INT64_MIN 5 H).
Defined.

(** C34. [base64_encode] writes RFC 4648 Base64: with enough room it returns 0, the
    text decodes to the input, [*outlen] is its length and a NUL ends it; with
    less room it writes nothing, returns -1 and reports the size needed. *)
Theorem base64_encode_correct (inp : bytes) (outlen : Z) :
  let need := 4 * ((Z.of_nat (length inp) + 2) `div` 3) + 1 in
  let r := base64_encode inp outlen in
  if outlen <? need then r = B64 (-1) [] need
  else exists text, r = B64 0 (text ++ [x00]) (need - 1)
                    /\ Z.of_nat (length text) = need - 1 /\ b64_decode text = Some inp.
Proof.
  cbn zeta. unfold base64_encode. destruct (Z.ltb_spec outlen
    (4 * ((Z.of_nat (length inp) + 2) `div` 3) + 1)); [done|].
  pose proof (b64_groups_decode inp) as Hd. pose proof (b64_text_length inp) as Hl.
  destruct (b64_groups inp) as [out tl]. cbn [fst snd] in *.
  exists (out ++ b64_pad tl). rewrite Hl. split; [|split; [lia|done]]. f_equal. lia.
Qed.

Lemma encode_pass_long user pass :
  (93 < length (user ++ lit ":" ++ pass))%nat -> encode_pass user pass = [].
Proof.
  intros Hl. unfold encode_pass, base64_encode. set (cred := user ++ _) in *.
  destruct (Z.ltb_spec 128 (4 * ((Z.of_nat (length cred) + 2) `div` 3) + 1)); [done|].
  Z.div_mod_to_equations; lia.
Qed.

(** The credential kept for HTTP authentication is the Base64 of [user:pass]
    when that text has at most 93 bytes; a longer one does not fit the 128-byte
    buffer and the credential is silently the empty string. *)
Theorem encode_pass_correct (user pass : bytes) :
  let cred := user ++ lit ":" ++ pass in
  if (length cred <=? 93)%nat then b64_decode (encode_pass user pass) = Some cred
  else encode_pass user pass = [].
Proof.
  cbn zeta. destruct (Nat.leb_spec (length (user ++ lit ":" ++ pass)) 93) as [Hle|Hgt]; [|by apply encode_pass_long].
  unfold encode_pass, base64_encode. set (cred := user ++ _) in *.
  pose proof (b64_groups_decode cred) as Hd. pose proof (b64_text_no_nul cred) as Hn.
  destruct (Z.ltb_spec 128 (4 * ((Z.of_nat (length cred) + 2) `div` 3) + 1)).
  { Z.div_mod_to_equations; lia. }
  destruct (b64_groups cred) as [out tl]. cbn [fst snd b64_out] in *. by rewrite cstr_app_nul.
Qed.

(** [str2Vect] appends the maximal runs of non-separator characters, in order,
    and fails exactly on a NULL or empty text. *)
Theorem str2Vect_tokens (src sep : bytes) (vDest : list bytes) :
  let '(ret, out) := str2Vect (Some src) vDest sep in
  (ret = -1 <-> cstr src = []) /\
  exists toks, out = vDest ++ toks /\
    Forall (fun t => t <> [] /\ Forall (fun b => b ∉ sep) t) toks /\
    mjoin toks = filter (fun b => b ∉ sep) (cstr src).
Proof.
  unfold str2Vect. destruct (Nat.eqb_spec (length (cstr src)) 0) as [E|E].
  - apply length_zero_iff_nil in E. rewrite E. split; [done|].
    exists []. rewrite app_nil_r. done.
  - split; [split; [lia|intros E'; by rewrite E' in E]|].
    destruct (strtok_loop_ok sep [] (cstr src)) as [H1 H2]; [done|].
    exists (strtok_loop sep [] (cstr src)). done.
Qed.

(** [hash_dump] overruns its 1025-byte buffer exactly for dumps of more than
    341 bytes. *)
Theorem hash_dump_overflow (s : bytes) :
  hash_dump s = None <-> (341 < length s)%nat.
Proof.
  assert (forall b, length (hex_loop b) = 3 * length b)%nat as Hh.
  { induction b as [|x b IH]; cbn [hex_loop length]; lia. }
  unfold hash_dump, hex_str. rewrite length_app, Hh, length_take. cbn [length].
  destruct (Nat.leb_spec (3 * (1024 `min` length s) + 1) 1025); split; intros; try done; lia.
Qed.
