(* ===== verification/TimerCount.v ===== *)
(** [common/xTimerCount.h]: [xTimeCount], which measures the time between its
    construction and its destruction and logs it when it is long.  The clocks are
    arguments: the seconds and nanoseconds [clock_gettime] returns. *)

From S2P Require Import Prelude Cstd.

(** A reading of a clock. *)
Record timespec := MkTimespec { tv_sec : Z; tv_nsec : Z }.

Record xTimeCount := MkTimeCount { _StartTime : Z; _CpuTime : Z; _str : bytes }.

(** [unsigned long]: milliseconds. *)
Definition gettickcount (ts : timespec) : Z := u64 (tv_sec ts * 1000 + tv_nsec ts / 1000000).

Definition xTimeCount_new (obj : bytes) (mono cpu : timespec) : xTimeCount :=
  MkTimeCount (u32 (gettickcount mono)) (u32 (gettickcount cpu)) obj.

(** [~xTimeCount]: the line that is logged, if any; [%d] prints a [uint32_t] as a
    signed number. *)
Definition xTimeCount_destroy (t : xTimeCount) (mono cpu : timespec) : option bytes :=
  let tm := u32 (u64 (gettickcount mono - _StartTime t)) in
  let cputm := u32 (u64 (gettickcount cpu - _CpuTime t)) in
  if (5 <? tm) || (5 <? cputm)
  then Some (cstr (_str t) ++ lit " funcall time:" ++ sdec (i32 tm) ++ lit " cputime:" ++ sdec (i32 cputm) ++ lit " ")
  else None.

(** ** What is measured *)

Definition millis (ts : timespec) : Z := tv_sec ts * 1000 + tv_nsec ts / 1000000.

Lemma u32_u64 z : u32 (u64 z) = u32 z.
Proof. unfold u32, u64. symmetry. apply Znumtheory.Zmod_div_mod; [lia|lia|]. by exists (2 ^ 32). Qed.

(** The counters may wrap around between the readings: what counts is the time
    that went by. *)
Lemma elapsed a b : 0 <= b - a < 2 ^ 32 -> u32 (u64 (u64 b - u32 (u64 a))) = b - a.
Proof.
  intros H. rewrite !u32_u64. unfold u32.
  assert (u64 b mod 2 ^ 32 = b mod 2 ^ 32) as E by apply (u32_u64 b).
  rewrite Zminus_mod, E, Zmod_mod, <- Zminus_mod. by apply Z.mod_small.
Qed.

(** A call is logged exactly when it took six milliseconds or more of either
    clock, with its times when they are below 2^31. *)
Theorem slow_calls_are_logged obj m1 c1 m2 c2 :
  0 <= millis m2 - millis m1 < 2 ^ 31 -> 0 <= millis c2 - millis c1 < 2 ^ 31 ->
  xTimeCount_destroy (xTimeCount_new obj m1 c1) m2 c2 =
    if decide (5 < millis m2 - millis m1 \/ 5 < millis c2 - millis c1)
    then Some (cstr obj ++ lit " funcall time:" ++ sdec (millis m2 - millis m1) ++ lit " cputime:" ++ sdec (millis c2 - millis c1) ++ lit " ")
    else None.
Proof.
  intros Hm Hc. unfold xTimeCount_destroy, xTimeCount_new, gettickcount. cbn [_StartTime _CpuTime _str].
  fold (millis m1) (millis m2) (millis c1) (millis c2). rewrite !elapsed, !i32_id by (unfold is_i32; lia).
  destruct (Z.ltb_spec 5 (millis m2 - millis m1)), (Z.ltb_spec 5 (millis c2 - millis c1)); cbn [orb]; case_decide; try done; lia.
Qed.

(** The time of a call of 25 days is printed as a negative number. *)
Example long_times_are_negative :
  xTimeCount_destroy (xTimeCount_new (lit "f") (MkTimespec 0 0) (MkTimespec 0 0)) (MkTimespec 2147484 0) (MkTimespec 0 0)
  = Some (lit "f funcall time:-2147483296 cputime:0 ").
Proof. vm_compute. reflexivity. Qed.
