(* ===== verification/SortedSet.v ===== *)
(** [common/sorted_set.h] and [common/sorted_set.cpp]: the in-memory set of
    keys ordered by score that caches the expiration index, and the [Decoder]
    that takes stored keys apart. *)

From S2P Require Import Prelude.
From Stdlib Require Import Sorting.Sorted.

(** ** [class SortedSet] *)

Module SS.

Record Item := MkItem { key : bytes; score : Z }.

#[global] Instance Item_eq_dec : EqDecision Item.
Proof. solve_decision. Defined.

(** [Item::operator<] *)
Definition item_lt (a b : Item) : bool :=
  (score a <? score b) || ((score a =? score b) && blt (key a) (key b)).

(** [std::set<Item>]: its elements in order.  An iterator into the set is the
    element it points to; [set_insert] leaves the set alone when an equivalent
    element is there. *)
Fixpoint set_insert (it : Item) (l : list Item) : list Item :=
  match l with
  | [] => [it]
  | x :: l' =>
      if item_lt it x then it :: l
      else if item_lt x it then x :: set_insert it l' else l
  end.

Fixpoint set_erase (it : Item) (l : list Item) : list Item :=
  match l with
  | [] => []
  | x :: l => if decide (x = it) then l else x :: set_erase it l
  end.

Record SortedSet := MkSortedSet {
  existed : gmap bytes Item;
  sorted_set : list Item
}.

Definition sset_new : SortedSet := MkSortedSet ∅ [].

Definition size (s : SortedSet) : Z := i32 (Z.of_nat (length (sorted_set s))).
Definition empty (s : SortedSet) : bool := size s =? 0.

Definition add (s : SortedSet) (k : bytes) (sc : Z) : Z * SortedSet :=
  let item := MkItem k sc in
  match existed s !! k with
  | None => (1, MkSortedSet (<[k := item]> (existed s)) (set_insert item (sorted_set s)))
  | Some it2 =>
      if score it2 =? sc then (0, s)
      else
        let rest := set_erase it2 (sorted_set s) in
        (0, MkSortedSet (<[k := item]> (existed s)) (set_insert item rest))
  end.

Definition del (s : SortedSet) (k : bytes) : Z * SortedSet :=
  match existed s !! k with
  | None => (0, s)
  | Some it => (1, MkSortedSet (delete k (existed s)) (set_erase it (sorted_set s)))
  end.

(** The first (last) item, or [None] where the code returns 0. *)
Definition front (s : SortedSet) : option Item := head (sorted_set s).
Definition back (s : SortedSet) : option Item := last (sorted_set s).

Definition max_score (s : SortedSet) : Z :=
  match back s with Some it => score it | None => 0 end.

Definition pop_front (s : SortedSet) : Z * SortedSet :=
  match sorted_set s with
  | [] => (0, s)
  | it :: _ =>
      (1, MkSortedSet (delete (key it) (existed s)) (set_erase it (sorted_set s)))
  end.

Definition pop_back (s : SortedSet) : Z * SortedSet :=
  match last (sorted_set s) with
  | None => (0, s)
  | Some it =>
      (1, MkSortedSet (delete (key it) (existed s)) (set_erase it (sorted_set s)))
  end.

(** ** The order *)

Definition ilt (a b : Item) : Prop := item_lt a b = true.

Lemma item_lt_irrefl a : item_lt a a = false.
Proof. unfold item_lt. by rewrite Z.ltb_irrefl, Z.eqb_refl, blt_irrefl. Qed.

#[global] Instance ilt_trans : Transitive ilt.
Proof.
  intros a b c. unfold ilt, item_lt.
  destruct (Z.ltb_spec (score a) (score b)), (Z.eqb_spec (score a) (score b)),
    (Z.ltb_spec (score b) (score c)), (Z.eqb_spec (score b) (score c)),
    (Z.ltb_spec (score a) (score c)), (Z.eqb_spec (score a) (score c));
    simpl; try done; try lia. apply blt_trans.
Qed.

Lemma item_lt_total a b : item_lt a b = false -> item_lt b a = false -> a = b.
Proof.
  unfold item_lt. destruct a as [ka sa], b as [kb sb]; simpl.
  destruct (Z.ltb_spec sa sb), (Z.eqb_spec sa sb), (Z.ltb_spec sb sa), (Z.eqb_spec sb sa);
    simpl; try done; try lia. intros. f_equal; [by apply blt_total|done].
Qed.

Lemma ilt_score a b : ilt a b -> score a <= score b.
Proof.
  unfold ilt, item_lt.
  destruct (Z.ltb_spec (score a) (score b)), (Z.eqb_spec (score a) (score b)); simpl; done || lia.
Qed.

(** ** Ordered insertion and removal *)

Lemma elem_of_set_insert it l x : x ∈ set_insert it l <-> x = it \/ x ∈ l.
Proof.
  induction l as [|y l IH]; simpl; [set_solver|].
  destruct (item_lt it y) eqn:E1; [set_solver|].
  destruct (item_lt y it) eqn:E2; [set_solver|].
  rewrite (item_lt_total it y) by done. set_solver.
Qed.

Lemma set_insert_sorted it l : StronglySorted ilt l -> StronglySorted ilt (set_insert it l).
Proof.
  induction 1 as [|y l Hl IH Hy]; simpl; [by repeat constructor|].
  destruct (item_lt it y) eqn:E1.
  - repeat constructor; [done..|]. rewrite Forall_forall in Hy |- *.
    intros z Hz. etrans; [exact E1|by apply Hy].
  - destruct (item_lt y it) eqn:E2; [|by constructor].
    constructor; [done|]. apply Forall_forall. intros z [->|Hz]%elem_of_set_insert; [done|].
    rewrite Forall_forall in Hy. by apply Hy.
Qed.

Lemma sorted_NoDup l : StronglySorted ilt l -> NoDup l.
Proof.
  induction 1 as [|y l Hl IH Hy]; constructor; [|done].
  intros Hin. rewrite Forall_forall in Hy. specialize (Hy _ Hin).
  unfold ilt in Hy. by rewrite item_lt_irrefl in Hy.
Qed.

Lemma elem_of_set_erase it l x :
  StronglySorted ilt l -> x ∈ set_erase it l <-> x ∈ l /\ x <> it.
Proof.
  intros Hs%sorted_NoDup. induction Hs as [|y l Hy Hs IH]; simpl; [set_solver|].
  case_decide; set_solver.
Qed.

Lemma set_erase_sublist it l : set_erase it l `sublist_of` l.
Proof. induction l; simpl; [done|]. case_decide; by constructor. Qed.

Lemma set_erase_sorted it l : StronglySorted ilt l -> StronglySorted ilt (set_erase it l).
Proof.
  induction 1 as [|y l Hl IH Hy]; simpl; [constructor|]. case_decide; [done|].
  constructor; [done|]. rewrite Forall_forall in Hy |- *.
  intros z Hz. apply Hy. eapply elem_of_sublist; [exact Hz|apply set_erase_sublist].
Qed.

Lemma length_set_insert it l :
  it ∉ l -> length (set_insert it l) = S (length l).
Proof.
  induction l as [|y l IH]; simpl; [done|]. intros Hn.
  destruct (item_lt it y) eqn:E1; [done|]. destruct (item_lt y it) eqn:E2; simpl.
  - rewrite IH; [done|set_solver].
  - rewrite (item_lt_total it y) in Hn by done. set_solver.
Qed.

Lemma length_set_erase it l : it ∈ l -> S (length (set_erase it l)) = length l.
Proof.
  induction l as [|y l IH]; simpl; [set_solver|]. intros Hin. case_decide; [done|].
  simpl. rewrite IH; [done|set_solver].
Qed.

(** ** The invariant: the index names exactly the items of the ordered set *)

Definition wf (s : SortedSet) : Prop :=
  StronglySorted ilt (sorted_set s) /\
  forall k it, existed s !! k = Some it <-> it ∈ sorted_set s /\ key it = k.

(** What the set means: a finite map from keys to scores. *)
Definition scores (s : SortedSet) : gmap bytes Z := score <$> existed s.

Lemma wf_new : wf sset_new.
Proof. split; [constructor|]. simpl. intros. rewrite lookup_empty. set_solver. Qed.

Lemma wf_key_inj s a b :
  wf s -> a ∈ sorted_set s -> b ∈ sorted_set s -> key a = key b -> a = b.
Proof.
  intros [_ H] Ha Hb E.
  assert (existed s !! key a = Some a) by by apply H.
  assert (existed s !! key a = Some b) by by apply H. congruence.
Qed.

Lemma scores_elem s k v :
  wf s -> scores s !! k = Some v <-> MkItem k v ∈ sorted_set s.
Proof.
  intros [_ H]. unfold scores. rewrite lookup_fmap, fmap_Some. split.
  - intros (it & [? ?]%H & ->). destruct it; simpl in *. by subst.
  - intros Hin. exists (MkItem k v). split; [|done]. by apply H.
Qed.

(** Erasing an indexed item together with its index entry. *)
Lemma wf_erase s it :
  wf s -> it ∈ sorted_set s ->
  wf (MkSortedSet (delete (key it) (existed s)) (set_erase it (sorted_set s))).
Proof.
  intros Hwf Hin. destruct Hwf as [Hs H] eqn:Hw. split; cbn [existed sorted_set].
  - by apply set_erase_sorted.
  - intros k x. rewrite elem_of_set_erase by done.
    rewrite lookup_delete. case_decide as Hk.
    + split; [done|]. intros [[Hx Hne] E]. destruct Hne.
      eapply wf_key_inj; [exact Hwf|done..|congruence].
    + rewrite H. split; [intros [? ?]; split; [split; [done|congruence]|done]|naive_solver].
Qed.

(** Inserting an item whose key is not in the set. *)
Lemma wf_insert m l it :
  wf (MkSortedSet m l) -> m !! key it = None ->
  wf (MkSortedSet (<[key it := it]> m) (set_insert it l)).
Proof.
  intros [Hs H] Hn. cbn [existed sorted_set] in *. split; cbn [existed sorted_set].
  - by apply set_insert_sorted.
  - intros k x. rewrite elem_of_set_insert, lookup_insert. case_decide as Hk.
    + split; [naive_solver|]. intros [[->|Hx] E]; [done|].
      assert (m !! key it = Some x) by (apply H; naive_solver). congruence.
    + rewrite H. naive_solver.
Qed.

Lemma add_spec s k sc :
  wf s ->
  wf (add s k sc).2 /\ scores (add s k sc).2 = <[k := sc]> (scores s) /\
  (add s k sc).1 = (if decide (scores s !! k = None) then 1 else 0).
Proof.
  intros Hwf. unfold add, scores. rewrite lookup_fmap.
  destruct (existed s !! k) as [it2|] eqn:E; cbn [fst snd existed].
  - destruct Hwf as [Hs H] eqn:Hw. pose proof (proj1 (H k it2) E) as [Hin <-].
    cbn [fmap option_fmap option_map]. rewrite decide_False by done.
    destruct (Z.eqb_spec (score it2) sc) as [Esc|Esc]; cbn [fst snd existed].
    + split_and!; [done| |done]. rewrite insert_id; [done|].
      by rewrite lookup_fmap, E, <- Esc.
    + split_and!; [|by rewrite fmap_insert|done].
      rewrite <- (insert_delete_eq (existed s)).
      apply (wf_insert _ _ (MkItem (key it2) sc)); [by apply wf_erase|].
      apply lookup_delete_eq.
  - cbn [fmap option_fmap option_map]. rewrite decide_True by done.
    split_and!; [|by rewrite fmap_insert|done].
    apply (wf_insert _ _ (MkItem k sc)); [by destruct s|done].
Qed.

Lemma del_spec s k :
  wf s ->
  wf (del s k).2 /\ scores (del s k).2 = delete k (scores s) /\
  (del s k).1 = (if decide (scores s !! k = None) then 0 else 1).
Proof.
  intros Hwf. unfold del, scores. rewrite lookup_fmap.
  destruct (existed s !! k) as [it|] eqn:E; cbn [fst snd existed fmap option_fmap option_map].
  - destruct Hwf as [Hs H] eqn:Hw. pose proof (proj1 (H k it) E) as [Hin <-].
    rewrite decide_False by done. split_and!; [by apply wf_erase|by rewrite fmap_delete|done].
  - rewrite decide_True by done. split_and!; [done| |done].
    rewrite delete_id; [done|]. by rewrite lookup_fmap, E.
Qed.

Lemma sorted_head_le it l x : StronglySorted ilt (it :: l) -> x ∈ it :: l -> x = it \/ ilt it x.
Proof.
  intros Hs. inversion Hs as [|? ? _ Hf]; subst. rewrite Forall_forall in Hf.
  intros [->|Hin]%elem_of_cons; [by left|right; by apply Hf].
Qed.

Lemma sorted_last_ge l it x :
  StronglySorted ilt l -> last l = Some it -> x ∈ l -> x = it \/ ilt x it.
Proof.
  induction 1 as [|y l Hl IH Hy]; [done|].
  destruct l as [|z l]; cbn [last].
  - intros [= ->]. set_solver.
  - intros Hlast [->|Hin]%elem_of_cons; [|by apply IH]. right.
    rewrite Forall_forall in Hy. apply Hy. by apply last_Some_elem_of.
Qed.

Lemma front_spec s :
  wf s ->
  match front s with
  | None => scores s = ∅
  | Some it => scores s !! key it = Some (score it) /\
      forall k v, scores s !! k = Some v -> item_lt (MkItem k v) it = false
  end.
Proof.
  intros Hwf. unfold front. destruct (sorted_set s) as [|it l] eqn:E; cbn [head].
  - apply map_empty. intros k. destruct (scores s !! k) eqn:Hk; [|done].
    apply scores_elem in Hk; [|done]. rewrite E in Hk. set_solver.
  - split.
    + apply scores_elem; [done|]. rewrite E. destruct it. set_solver.
    + intros k v Hk. apply scores_elem in Hk; [|done]. rewrite E in Hk.
      destruct Hwf as [Hs _]. rewrite E in Hs.
      destruct (sorted_head_le _ _ _ Hs Hk) as [->|Hlt]; [apply item_lt_irrefl|].
      destruct (item_lt (MkItem k v) it) eqn:Hc; [|done].
      assert (ilt it it) as Hi by (etrans; [exact Hlt|exact Hc]).
      unfold ilt in Hi. by rewrite item_lt_irrefl in Hi.
Qed.

Lemma back_spec s :
  wf s ->
  match back s with
  | None => scores s = ∅
  | Some it => scores s !! key it = Some (score it) /\
      forall k v, scores s !! k = Some v -> item_lt it (MkItem k v) = false
  end.
Proof.
  intros Hwf. unfold back. destruct (last (sorted_set s)) as [it|] eqn:E.
  - assert (it ∈ sorted_set s) as Hin by by apply last_Some_elem_of. split.
    + apply scores_elem; [done|]. by destruct it.
    + intros k v Hk. apply scores_elem in Hk; [|done]. destruct Hwf as [Hs _].
      destruct (sorted_last_ge _ _ _ Hs E Hk) as [->|Hlt]; [apply item_lt_irrefl|].
      destruct (item_lt it (MkItem k v)) eqn:Hc; [|done].
      assert (ilt it it) as Hi by (etrans; [exact Hc|exact Hlt]).
      unfold ilt in Hi. by rewrite item_lt_irrefl in Hi.
  - apply last_None in E. apply map_empty. intros k.
    destruct (scores s !! k) eqn:Hk; [|done].
    apply scores_elem in Hk; [|done]. rewrite E in Hk. set_solver.
Qed.

Lemma pop_front_spec s :
  wf s ->
  wf (pop_front s).2 /\
  scores (pop_front s).2 = match front s with Some it => delete (key it) (scores s) | None => scores s end.
Proof.
  intros Hwf. unfold pop_front, front. destruct (sorted_set s) as [|it l] eqn:E; [done|].
  cbn [snd head]. split.
  - rewrite <- E. apply wf_erase; [done|]. rewrite E. set_solver.
  - unfold scores. cbn [existed]. by rewrite fmap_delete.
Qed.

Lemma pop_back_spec s :
  wf s ->
  wf (pop_back s).2 /\
  scores (pop_back s).2 = match back s with Some it => delete (key it) (scores s) | None => scores s end.
Proof.
  intros Hwf. unfold pop_back, back. destruct (last (sorted_set s)) as [it|] eqn:E; [|done].
  cbn [snd]. split.
  - apply wf_erase; [done|]. by apply last_Some_elem_of.
  - unfold scores. cbn [existed]. by rewrite fmap_delete.
Qed.

(** The ordered list has one item per key of the map. *)
Lemma length_scores s : wf s -> length (sorted_set s) = base.size (scores s).
Proof.
  intros Hwf. unfold scores. rewrite map_size_fmap. destruct Hwf as [Hs H].
  assert (existed s = list_to_map ((fun it => (key it, it)) <$> sorted_set s)) as E.
  { apply map_eq. intros k. apply option_eq. intros it. rewrite H.
    assert (NoDup ((fun it => (key it, it)) <$> sorted_set s).*1) as Hnd.
    { rewrite <- list_fmap_compose. apply NoDup_fmap_2_strong; [|by apply sorted_NoDup].
      intros a b Ha Hb Eab. by apply (wf_key_inj s). }
    rewrite <- elem_of_list_to_map by done. rewrite list_elem_of_fmap. split.
    - intros [Hin <-]. by exists it.
    - by intros (it' & [= -> ->] & Hin). }
  rewrite E, map_size_list_to_map; [by rewrite length_fmap|].
  rewrite <- list_fmap_compose. apply NoDup_fmap_2_strong; [|by apply sorted_NoDup].
  intros a b Ha Hb Eab. by apply (wf_key_inj s).
Qed.

(** ** The contract: a finite map with access to its extreme scores *)

(** The operations, those that only look included. *)
Inductive op := OAdd (k : bytes) (sc : Z) | ODel (k : bytes) | OPopFront | OPopBack | OFront | OBack | OMaxScore | OSize | OEmpty.

Inductive answer := AInt (n : Z) | AItem (it : option Item) | ABool (b : bool).

Definition step (s : SortedSet) (o : op) : answer * SortedSet :=
  match o with
  | OAdd k sc => let '(r, s) := add s k sc in (AInt r, s)
  | ODel k => let '(r, s) := del s k in (AInt r, s)
  | OPopFront => let '(r, s) := pop_front s in (AInt r, s)
  | OPopBack => let '(r, s) := pop_back s in (AInt r, s)
  | OFront => (AItem (front s), s)
  | OBack => (AItem (back s), s)
  | OMaxScore => (AInt (max_score s), s)
  | OSize => (AInt (size s), s)
  | OEmpty => (ABool (empty s), s)
  end.

Fixpoint run (s : SortedSet) (os : list op) : list answer * SortedSet :=
  match os with
  | [] => ([], s)
  | o :: os => let '(r, s) := step s o in let '(rs, s) := run s os in (r :: rs, s)
  end.

(** Lower score first, then the smaller key; the least and the greatest entry. *)
Definition before (k : bytes) (v : Z) (k' : bytes) (v' : Z) : Prop := v < v' \/ v = v' /\ blt k k' = true.

Definition least (m : gmap bytes Z) (k : bytes) (v : Z) : Prop :=
  m !! k = Some v /\ forall k' v', m !! k' = Some v' -> ~ before k' v' k v.
Definition greatest (m : gmap bytes Z) (k : bytes) (v : Z) : Prop :=
  m !! k = Some v /\ forall k' v', m !! k' = Some v' -> ~ before k v k' v'.

Inductive abs_step (m : gmap bytes Z) : op -> answer -> gmap bytes Z -> Prop :=
| abs_add_new k sc : m !! k = None -> abs_step m (OAdd k sc) (AInt 1) (<[k := sc]> m)
| abs_add_old k sc v : m !! k = Some v -> abs_step m (OAdd k sc) (AInt 0) (<[k := sc]> m)
| abs_del_none k : m !! k = None -> abs_step m (ODel k) (AInt 0) m
| abs_del_some k v : m !! k = Some v -> abs_step m (ODel k) (AInt 1) (delete k m)
| abs_pop_none o : o = OPopFront \/ o = OPopBack -> m = ∅ -> abs_step m o (AInt 0) m
| abs_pop_min k v : least m k v -> abs_step m OPopFront (AInt 1) (delete k m)
| abs_pop_max k v : greatest m k v -> abs_step m OPopBack (AInt 1) (delete k m)
| abs_no_item o : o = OFront \/ o = OBack -> m = ∅ -> abs_step m o (AItem None) m
| abs_front k v : least m k v -> abs_step m OFront (AItem (Some (MkItem k v))) m
| abs_back k v : greatest m k v -> abs_step m OBack (AItem (Some (MkItem k v))) m
| abs_no_score : m = ∅ -> abs_step m OMaxScore (AInt 0) m
| abs_max_score k v : greatest m k v -> abs_step m OMaxScore (AInt v) m
| abs_size : Z.of_nat (base.size m) < 2 ^ 31 -> abs_step m OSize (AInt (Z.of_nat (base.size m))) m
| abs_empty : Z.of_nat (base.size m) < 2 ^ 31 -> abs_step m OEmpty (ABool (bool_decide (m = ∅))) m
(* from 2^31 keys on the [int] is not their number *)
| abs_huge o r : o = OSize \/ o = OEmpty -> 2 ^ 31 <= Z.of_nat (base.size m) -> abs_step m o r m.

Inductive abs_run : gmap bytes Z -> list op -> list answer -> gmap bytes Z -> Prop :=
| abs_nil m : abs_run m [] [] m
| abs_cons m m' m'' o os r rs :
    abs_step m o r m' -> abs_run m' os rs m'' -> abs_run m (o :: os) (r :: rs) m''.

Lemma item_lt_before k v k' v' : item_lt (MkItem k v) (MkItem k' v') = false -> ~ before k v k' v'.
Proof.
  unfold item_lt, before. cbn [score key]. intros H [Hlt|[-> Hb]].
  - apply orb_false_iff in H as [H%Z.ltb_ge _]. lia.
  - by rewrite Z.eqb_refl, Hb, orb_true_r in H.
Qed.

Lemma head_least s : wf s -> match front s with None => scores s = ∅ | Some it => least (scores s) (key it) (score it) end.
Proof.
  intros Hwf. pose proof (front_spec s Hwf) as Hf. destruct (front s) as [[k v]|]; [|done]. destruct Hf as [Hk Hmin].
  split; [done|]. intros k' v' E. by apply item_lt_before, Hmin.
Qed.

Lemma back_greatest s : wf s -> match back s with None => scores s = ∅ | Some it => greatest (scores s) (key it) (score it) end.
Proof.
  intros Hwf. pose proof (back_spec s Hwf) as Hf. destruct (back s) as [[k v]|]; [|done]. destruct Hf as [Hk Hmax].
  split; [done|]. intros k' v' E. by apply item_lt_before, Hmax.
Qed.

Lemma pop_front_ret s : (pop_front s).1 = match front s with Some _ => 1 | None => 0 end.
Proof. unfold pop_front, front. by destruct (sorted_set s). Qed.

Lemma pop_back_ret s : (pop_back s).1 = match back s with Some _ => 1 | None => 0 end.
Proof. unfold pop_back, back. by destruct (last (sorted_set s)). Qed.

Lemma size_spec s : wf s -> Z.of_nat (base.size (scores s)) < 2 ^ 31 ->
  size s = Z.of_nat (base.size (scores s)) /\ empty s = bool_decide (scores s = ∅).
Proof.
  intros Hwf Hn. assert (size s = Z.of_nat (base.size (scores s))) as E.
  { unfold size. rewrite (length_scores s Hwf). apply i32_id. unfold is_i32. lia. }
  split; [done|]. unfold empty. rewrite E. apply eq_true_iff_eq. rewrite Z.eqb_eq, bool_decide_eq_true.
  rewrite <- map_size_empty_iff. lia.
Qed.

Lemma step_refines s o :
  wf s -> wf (step s o).2 /\ abs_step (scores s) o (step s o).1 (scores (step s o).2).
Proof.
  intros Hwf. pose proof (head_least s Hwf) as Hfront. pose proof (back_greatest s Hwf) as Hback.
  destruct o as [k sc|k| | | | | | |]; cbn [step].
  - destruct (add_spec s k sc Hwf) as (H1 & H2 & H3). destruct (add s k sc) as [r s']. cbn [fst snd] in *. subst. rewrite H2. split; [done|].
    destruct (scores s !! k) eqn:E; [rewrite decide_False by done|rewrite decide_True by done]; by econstructor.
  - destruct (del_spec s k Hwf) as (H1 & H2 & H3). destruct (del s k) as [r s']. cbn [fst snd] in *. subst. rewrite H2. split; [done|].
    destruct (scores s !! k) eqn:E; [rewrite decide_False by done|rewrite decide_True by done].
    + by econstructor.
    + rewrite delete_id by done. by constructor.
  - destruct (pop_front_spec s Hwf) as (H1 & H2). pose proof (pop_front_ret s) as Hr. destruct (pop_front s) as [r s']. cbn [fst snd] in *.
    subst. rewrite H2. split; [done|]. destruct (front s) as [[k v]|]; cbn [key score] in *; [by econstructor|]. constructor; [by left|done].
  - destruct (pop_back_spec s Hwf) as (H1 & H2). pose proof (pop_back_ret s) as Hr. destruct (pop_back s) as [r s']. cbn [fst snd] in *.
    subst. rewrite H2. split; [done|]. destruct (back s) as [[k v]|]; cbn [key score] in *; [by econstructor|]. constructor; [by right|done].
  - split; [done|]. cbn [fst snd]. destruct (front s) as [[k v]|]; [by constructor|]. constructor; [by left|done].
  - split; [done|]. cbn [fst snd]. destruct (back s) as [[k v]|]; [by constructor|]. constructor; [by right|done].
  - split; [done|]. cbn [fst snd]. unfold max_score. destruct (back s) as [[k v]|]; cbn [key score] in *; [by econstructor|by constructor].
  - split; [done|]. cbn [fst snd]. destruct (decide (Z.of_nat (base.size (scores s)) < 2 ^ 31)) as [Hn|Hn].
    + rewrite (proj1 (size_spec s Hwf Hn)). by constructor.
    + apply abs_huge; [by left|lia].
  - split; [done|]. cbn [fst snd]. destruct (decide (Z.of_nat (base.size (scores s)) < 2 ^ 31)) as [Hn|Hn].
    + rewrite (proj2 (size_spec s Hwf Hn)). by constructor.
    + apply abs_huge; [by right|lia].
Qed.

(** C18. Any sequence of [add], [del], [pop_front], [pop_back], [front], [back],
    [max_score], [size] and [empty] on a new [SortedSet] gives the return values and
    leaves the contents of a finite map from keys to scores whose front (back) is
    the least (greatest) entry by score and then key, whose pops remove it, and
    whose size is the number of its keys as long as that is below 2^31; the ordered
    set holds one item per key. *)
Theorem sorted_set_refines os :
  let '(rs, s) := run sset_new os in
  wf s /\ abs_run ∅ os rs (scores s) /\ length (sorted_set s) = base.size (scores s).
Proof.
  assert (forall s, wf s -> wf (run s os).2 /\ abs_run (scores s) os (run s os).1 (scores (run s os).2))
    as Hgen.
  { induction os as [|o os IH]; intros s Hwf; cbn [run]; [by split; [|constructor]|].
    destruct (step_refines s o Hwf) as [Hw' Ha]. destruct (step s o) as [r s1]. cbn [fst snd] in *.
    destruct (IH s1 Hw') as [Hw2 Hr]. destruct (run s1 os) as [rs s2]. cbn [fst snd] in *.
    split; [done|]. by econstructor. }
  specialize (Hgen sset_new wf_new). destruct (run sset_new os) as [rs s]. cbn [fst snd] in *.
  destruct Hgen as [Hw Hr]. split_and!; [done| |by apply length_scores].
  exact Hr.
Qed.

End SS.

(** ** [class Decoder] *)

Module Dec.

Record Decoder := MkDecoder { d_p : bytes; d_size : Z }.

Definition decoder_new (data : bytes) : Decoder := MkDecoder data (i32 (Z.of_nat (length data))).

(** Each reader gives the returned count, the datum where there is one, and the
    advanced decoder; a count of -1 is a failure and leaves the decoder alone
    except where [read_8_data] has already consumed the length byte. *)
Definition skip (d : Decoder) (n : Z) : Z * Decoder :=
  if d_size d <? n then (-1, d)
  else (n, MkDecoder (drop (Z.to_nat n) (d_p d)) (d_size d - n)).

Definition read_uint64 (d : Decoder) : Z * Z * Decoder :=
  if u64 (d_size d) <? 8 then (-1, 0, d)
  else (8, le_Z (take 8 (d_p d)), MkDecoder (drop 8 (d_p d)) (d_size d - 8)).

Definition read_int64 (d : Decoder) : Z * Z * Decoder :=
  if u64 (d_size d) <? 8 then (-1, 0, d)
  else (8, i64 (le_Z (take 8 (d_p d))), MkDecoder (drop 8 (d_p d)) (d_size d - 8)).

Definition read_data (d : Decoder) : Z * bytes * Decoder :=
  let n := d_size d in
  (n, take (Z.to_nat n) (d_p d), MkDecoder (drop (Z.to_nat n) (d_p d)) 0).

Definition read_8_data (d : Decoder) : Z * bytes * Decoder :=
  if d_size d <? 1 then (-1, [], d)
  else
    let len := match d_p d with b :: _ => bz b | [] => 0 end in
    let p := drop 1 (d_p d) in
    let sz := d_size d - 1 in
    if sz <? len then (-1, [], MkDecoder p sz)
    else (1 + len, take (Z.to_nat len) p, MkDecoder (drop (Z.to_nat len) p) (sz - len)).

End Dec.
