(* ===== verification/MurmurHash2.v ===== *)
(** [common/MurmurHash2.cpp]: every variant of the hash.  A [(key, len)] pair
    is the list of its bytes; multi-byte loads are little-endian.  [len] is an
    [int] in the code: a list stands for a message of less than 2^31 bytes. *)

From S2P Require Import Prelude.

(** ** Shared steps *)

Definition m32 : Z := 0x5bd1e995.

(** [k *= m; k ^= k >> r; k *= m] with [r = 24]. *)
Definition scramble (k : Z) : Z :=
  let k := u32 (k * m32) in
  let k := Z.lxor k (Z.shiftr k 24) in
  u32 (k * m32).

(** The macro [mmix] (and [MIX], which differs only in naming its constant):
    the new [h]; the scrambled [k] is not used again. *)
Definition mmix (h k : Z) : Z := Z.lxor (u32 (h * m32)) (scramble k).

(** [h ^= h >> 13; h *= m; h ^= h >> 15] *)
Definition final_mix (h : Z) : Z :=
  let h := Z.lxor h (Z.shiftr h 13) in
  let h := u32 (h * m32) in
  Z.lxor h (Z.shiftr h 15).

(** The fall-through [switch] over the last one to three bytes. *)
Definition tail_switch (h : Z) (data : bytes) : Z :=
  match data with
  | [d0; d1; d2] =>
      u32 (Z.lxor (Z.lxor (Z.lxor h (Z.shiftl (bz d2) 16)) (Z.shiftl (bz d1) 8)) (bz d0) * m32)
  | [d0; d1] => u32 (Z.lxor (Z.lxor h (Z.shiftl (bz d1) 8)) (bz d0) * m32)
  | [d0] => u32 (Z.lxor h (bz d0) * m32)
  | _ => h
  end.

(** ** [MurmurHash2] *)

(** [while (len >= 4)]: the hash and the bytes left over. *)
Fixpoint mm2_loop (h : Z) (data : bytes) : Z * bytes :=
  match data with
  | d0 :: d1 :: d2 :: d3 :: rest => mm2_loop (mmix h (le_Z [d0; d1; d2; d3])) rest
  | _ => (h, data)
  end.

Definition MurmurHash2 (data : bytes) (seed : Z) : Z :=
  let h := Z.lxor seed (u32 (Z.of_nat (length data))) in
  let '(h, data) := mm2_loop h data in
  final_mix (tail_switch h data).

(** ** [MurmurHash64A] *)

Definition m64 : Z := 0xc6a4a7935bd1e995.

Definition scramble64 (k : Z) : Z :=
  let k := u64 (k * m64) in
  let k := Z.lxor k (Z.shiftr k 47) in
  u64 (k * m64).

(** [while (data != end)], [end = data + len / 8]. *)
Fixpoint mm64a_loop (h : Z) (data : bytes) : Z * bytes :=
  match data with
  | d0 :: d1 :: d2 :: d3 :: d4 :: d5 :: d6 :: d7 :: rest =>
      let k := scramble64 (le_Z [d0; d1; d2; d3; d4; d5; d6; d7]) in
      mm64a_loop (u64 (Z.lxor h k * m64)) rest
  | _ => (h, data)
  end.

(** The fall-through [switch (len & 7)]: byte [i] is xored in at bit [8 i],
    highest first. *)
Fixpoint xor_bytes (i : Z) (data : bytes) (h : Z) : Z :=
  match data with
  | [] => h
  | d :: data => Z.lxor (xor_bytes (i + 8) data h) (Z.shiftl (bz d) i)
  end.

Definition tail_switch64 (h : Z) (data : bytes) : Z :=
  match data with [] => h | _ => u64 (xor_bytes 0 data h * m64) end.

Definition MurmurHash64A (data : bytes) (seed : Z) : Z :=
  let h := Z.lxor seed (u64 (Z.of_nat (length data) * m64)) in
  let '(h, data2) := mm64a_loop h data in
  let h := tail_switch64 h data2 in
  let h := Z.lxor h (Z.shiftr h 47) in
  let h := u64 (h * m64) in
  Z.lxor h (Z.shiftr h 47).

(** ** [MurmurHash64B] *)

(** [while (len >= 8)]: alternating halves. *)
Fixpoint mm64b_loop (h1 h2 : Z) (data : bytes) : Z * Z * bytes :=
  match data with
  | d0 :: d1 :: d2 :: d3 :: d4 :: d5 :: d6 :: d7 :: rest =>
      mm64b_loop (mmix h1 (le_Z [d0; d1; d2; d3])) (mmix h2 (le_Z [d4; d5; d6; d7])) rest
  | _ => (h1, h2, data)
  end.

Definition MurmurHash64B (data : bytes) (seed : Z) : Z :=
  let h1 := Z.lxor (u32 seed) (u32 (Z.of_nat (length data))) in
  let h2 := u32 (Z.shiftr seed 32) in
  let '(h1, h2, data) := mm64b_loop h1 h2 data in
  let '(h1, data) :=
    match data with
    | d0 :: d1 :: d2 :: d3 :: rest => (mmix h1 (le_Z [d0; d1; d2; d3]), rest)
    | _ => (h1, data)
    end in
  let h2 := tail_switch h2 data in
  let h1 := u32 (Z.lxor h1 (Z.shiftr h2 18) * m32) in
  let h2 := u32 (Z.lxor h2 (Z.shiftr h1 22) * m32) in
  let h1 := u32 (Z.lxor h1 (Z.shiftr h2 17) * m32) in
  let h2 := u32 (Z.lxor h2 (Z.shiftr h1 19) * m32) in
  Z.lor (Z.shiftl h1 32) h2.

(** ** [MurmurHash2A] *)

(** [t ^= data[2] << 16] and on down, from [t = 0]. *)
Definition tail_word (data : bytes) : Z :=
  match data with
  | [d0; d1; d2] => Z.lxor (Z.lxor (Z.shiftl (bz d2) 16) (Z.shiftl (bz d1) 8)) (bz d0)
  | [d0; d1] => Z.lxor (Z.shiftl (bz d1) 8) (bz d0)
  | [d0] => bz d0
  | _ => 0
  end.

Definition MurmurHash2A (data : bytes) (seed : Z) : Z :=
  let l := u32 (Z.of_nat (length data)) in
  let '(h, data) := mm2_loop seed data in
  let t := tail_word data in
  let h := mmix h t in
  let h := mmix h l in
  final_mix h.

(** ** [class CMurmurHash2A] *)

Record CMurmurHash2A := MkC2A { m_hash : Z; m_tail : Z; m_count : Z; m_size : Z }.

Definition Begin (seed : Z) : CMurmurHash2A := MkC2A seed 0 0 0.

(** One turn of [MixTail]'s loop. *)
Definition mix_byte (st : CMurmurHash2A) (b : byte) : CMurmurHash2A :=
  let tail := Z.lor (m_tail st) (u32 (Z.shiftl (bz b) (m_count st * 8))) in
  let count := u32 (m_count st + 1) in
  if count =? 4 then MkC2A (mmix (m_hash st) tail) 0 0 (m_size st)
  else MkC2A (m_hash st) tail count (m_size st).

(** [while (len && ((len < 4) || m_count))] *)
Fixpoint MixTail (st : CMurmurHash2A) (data : bytes) : CMurmurHash2A * bytes :=
  match data with
  | [] => (st, data)
  | b :: rest =>
      if (length data <? 4)%nat || negb (m_count st =? 0)
      then MixTail (mix_byte st b) rest
      else (st, data)
  end.

Definition Add (st : CMurmurHash2A) (data : bytes) : CMurmurHash2A :=
  let st := MkC2A (m_hash st) (m_tail st) (m_count st)
                  (u32 (m_size st + Z.of_nat (length data))) in
  let '(st, data) := MixTail st data in
  let '(h, data) := mm2_loop (m_hash st) data in
  let st := MkC2A h (m_tail st) (m_count st) (m_size st) in
  fst (MixTail st data).

Definition End_ (st : CMurmurHash2A) : Z :=
  let h := mmix (m_hash st) (m_tail st) in
  let h := mmix h (m_size st) in
  final_mix h.

(** ** [MurmurHashNeutral2] *)

Definition load_neutral (d0 d1 d2 d3 : byte) : Z :=
  u32 (Z.lor (Z.lor (Z.lor (bz d0) (Z.shiftl (bz d1) 8)) (Z.shiftl (bz d2) 16))
             (Z.shiftl (bz d3) 24)).

Fixpoint neutral_loop (h : Z) (data : bytes) : Z * bytes :=
  match data with
  | d0 :: d1 :: d2 :: d3 :: rest =>
      neutral_loop (Z.lxor (u32 (h * m32)) (scramble (load_neutral d0 d1 d2 d3))) rest
  | _ => (h, data)
  end.

Definition MurmurHashNeutral2 (data : bytes) (seed : Z) : Z :=
  let h := Z.lxor seed (u32 (Z.of_nat (length data))) in
  let '(h, data) := neutral_loop h data in
  final_mix (tail_switch h data).

(** ** [MurmurHashAligned2]: [align] is the address of the data modulo 4 *)

(** The fall-through [switch (align)] that pre-loads [t], then shifted. *)
Definition aligned_preload (align : Z) (data : bytes) : Z :=
  let b i := bz (nth i data x00) in
  let t :=
    if align =? 1 then Z.lor (Z.lor (Z.shiftl (b 2%nat) 16) (Z.shiftl (b 1%nat) 8)) (b 0%nat)
    else if align =? 2 then Z.lor (Z.shiftl (b 1%nat) 8) (b 0%nat)
    else b 0%nat in
  u32 (Z.shiftl t (8 * align)).

(** [t = (t >> sr) | (d << sl)] *)
Definition aligned_word (align t d : Z) : Z :=
  Z.lor (Z.shiftr t (8 * align)) (u32 (Z.shiftl d (8 * (4 - align)))).

Fixpoint aligned_loop (align h t : Z) (data : bytes) : Z * Z * bytes :=
  match data with
  | d0 :: d1 :: d2 :: d3 :: rest =>
      let d := le_Z [d0; d1; d2; d3] in
      aligned_loop align (mmix h (aligned_word align t d)) d rest
  | _ => (h, t, data)
  end.

(** The fall-through [switch] that gathers up to [n] bytes into [d]. *)
Definition gather (n : Z) (data : bytes) : Z :=
  let b i := bz (nth i data x00) in
  if n =? 3 then Z.lor (Z.lor (Z.shiftl (b 2%nat) 16) (Z.shiftl (b 1%nat) 8)) (b 0%nat)
  else if n =? 2 then Z.lor (Z.shiftl (b 1%nat) 8) (b 0%nat)
  else if n =? 1 then b 0%nat else 0.

Definition MurmurHashAligned2 (data : bytes) (seed align : Z) : Z :=
  let len := Z.of_nat (length data) in
  let h := Z.lxor seed (u32 len) in
  if negb (align =? 0) && (4 <=? len) then
    let t := aligned_preload align data in
    let '(h, t, data) := aligned_loop align h t (drop (Z.to_nat (4 - align)) data) in
    let len := Z.of_nat (length data) in
    let h :=
      if align <=? len then
        let d := gather align data in
        let h := mmix h (aligned_word align t d) in
        tail_switch h (drop (Z.to_nat align) data)
      else
        let d := gather len data in
        u32 (Z.lxor h (aligned_word align t d) * m32) in
    final_mix h
  else
    let '(h, data) := mm2_loop h data in
    final_mix (tail_switch h data).

(** ** Words from bytes *)

Ltac byte_ranges :=
  repeat match goal with
  | b : Byte.byte |- _ =>
      lazymatch goal with
      | H : 0 <= bz b < 256 |- _ => fail
      | _ => pose proof (bz_range b)
      end
  end.

Lemma load_neutral_le d0 d1 d2 d3 : load_neutral d0 d1 d2 d3 = le_Z [d0; d1; d2; d3].
Proof.
  unfold load_neutral. byte_ranges.
  rewrite (lor_shiftl_add (bz d0)), (lor_shiftl_add _ (bz d2)), (lor_shiftl_add _ (bz d3)) by lia.
  cbn [le_Z]. rewrite u32_id; [lia|]. unfold is_u32. lia.
Qed.

Lemma neutral_loop_eq h data : neutral_loop h data = mm2_loop h data.
Proof.
  revert h. induction data as [l Hl|a b c d l IH] using list_ind4; intros h.
  - destruct l as [|? [|? [|? [|? ?]]]]; simpl in Hl; try lia; done.
  - cbn [neutral_loop mm2_loop]. rewrite load_neutral_le. apply IH.
Qed.

(** ** The incremental hasher is a byte-at-a-time fold *)

Definition c2a_bytes (st : CMurmurHash2A) (data : bytes) : CMurmurHash2A := foldl mix_byte st data.

Definition aligned_st (st : CMurmurHash2A) : Prop := m_count st = 0 /\ m_tail st = 0.
Definition c2a_ok (st : CMurmurHash2A) : Prop :=
  0 <= m_count st < 4 /\ 0 <= m_tail st < 256 ^ m_count st.

Lemma mix_byte_tail st b :
  c2a_ok st ->
  Z.lor (m_tail st) (u32 (Z.shiftl (bz b) (m_count st * 8)))
  = m_tail st + 256 ^ m_count st * bz b.
Proof.
  intros [Hc Ht]. pose proof (bz_range b).
  assert (256 ^ m_count st = 2 ^ (m_count st * 8)) as E.
  { change 256 with (2 ^ 8). rewrite <- Z.pow_mul_r by lia. f_equal. lia. }
  assert (0 < 2 ^ (m_count st * 8)) by (apply Z.pow_pos_nonneg; lia).
  assert (2 ^ (m_count st * 8) <= 2 ^ 24) by (apply Z.pow_le_mono_r; lia).
  rewrite E in Ht |- *. rewrite u32_id.
  - apply lor_shiftl_add; lia.
  - unfold is_u32. rewrite Z.shiftl_mul_pow2 by lia. nia.
Qed.

Lemma mix_byte_ok st b : c2a_ok st -> c2a_ok (mix_byte st b).
Proof.
  intros Hok. unfold mix_byte. rewrite mix_byte_tail by done.
  destruct Hok as [Hc Ht]. pose proof (bz_range b).
  rewrite u32_id by (unfold is_u32; lia). destruct (Z.eqb_spec (m_count st + 1) 4).
  - split; cbn; lia.
  - split; cbn [m_count m_tail]; [lia|]. rewrite Z.pow_add_r by lia.
    assert (0 < 256 ^ m_count st) by (apply Z.pow_pos_nonneg; lia). nia.
Qed.

Lemma c2a_bytes_ok st data : c2a_ok st -> c2a_ok (c2a_bytes st data).
Proof. revert st. induction data; intros st H; [done|]. apply IHdata. by apply mix_byte_ok. Qed.

(** Up to three bytes from an aligned state are held in the tail. *)
Lemma c2a_partial h sz l :
  (length l < 4)%nat ->
  c2a_bytes (MkC2A h 0 0 sz) l = MkC2A h (le_Z l) (Z.of_nat (length l)) sz.
Proof.
  unfold c2a_bytes. induction l as [|b l IH] using rev_ind; intros Hl; [done|].
  rewrite length_app in Hl |- *. cbn [length] in *. rewrite foldl_app, IH by lia. cbn [foldl].
  unfold mix_byte. pose proof (le_Z_range l).
  rewrite mix_byte_tail by (split; cbn [m_count m_tail]; lia).
  cbn [m_count m_tail m_hash m_size]. rewrite u32_id by (unfold is_u32; lia).
  destruct (Z.eqb_spec (Z.of_nat (length l) + 1) 4); [lia|].
  rewrite le_Z_app. cbn [le_Z]. f_equal; lia.
Qed.

(** Four bytes from an aligned state are one word mixed in. *)
Lemma c2a_word st d0 d1 d2 d3 :
  aligned_st st ->
  c2a_bytes st [d0; d1; d2; d3]
  = MkC2A (mmix (m_hash st) (le_Z [d0; d1; d2; d3])) 0 0 (m_size st).
Proof.
  intros [Hc Ht]. destruct st as [h t c s]; cbn [m_count m_tail] in *; subst.
  change [d0; d1; d2; d3] with ([d0; d1; d2] ++ [d3]).
  unfold c2a_bytes. rewrite foldl_app. fold (c2a_bytes (MkC2A h 0 0 s) [d0; d1; d2]).
  rewrite c2a_partial by (simpl; lia). cbn [foldl].
  unfold mix_byte. pose proof (le_Z_range [d0; d1; d2]).
  rewrite mix_byte_tail by (split; cbn [m_count m_tail length] in *; lia).
  rewrite le_Z_app. cbn [m_count m_hash m_size m_tail]. do 2 f_equal. cbn [le_Z length]. lia.
Qed.

Lemma mm2_loop_c2a st data :
  aligned_st st ->
  let '(h, rest) := mm2_loop (m_hash st) data in
  c2a_bytes st data = c2a_bytes (MkC2A h 0 0 (m_size st)) rest /\ (length rest < 4)%nat.
Proof.
  revert st. induction data as [l Hl|a b c d l IH] using list_ind4; intros st Hst.
  - destruct st as [h t cn s]; destruct Hst; cbn [m_count m_tail m_hash] in *; subst.
    destruct l as [|? [|? [|? [|? ?]]]]; simpl in Hl; try lia; split; done || (simpl; lia).
  - cbn [mm2_loop]. pose proof (c2a_word st a b c d Hst) as Hw.
    specialize (IH (MkC2A (mmix (m_hash st) (le_Z [a; b; c; d])) 0 0 (m_size st))).
    cbn [m_hash m_size] in IH. destruct (mm2_loop _ l) as [h rest].
    destruct IH as [IH1 IH2]; [done|]. split; [|done]. rewrite <- IH1, <- Hw.
    unfold c2a_bytes. by rewrite <- foldl_app.
Qed.

Lemma MixTail_spec st data :
  c2a_ok st ->
  let '(st', rest) := MixTail st data in
  c2a_bytes st data = c2a_bytes st' rest /\ c2a_ok st' /\
  (rest = [] \/ m_count st' = 0) /\ ((length data < 4)%nat -> rest = []).
Proof.
  revert st. induction data as [|b data IH]; intros st Hok; cbn [MixTail].
  - split_and!; [done|done|by left|done].
  - destruct ((length (b :: data) <? 4)%nat || negb (m_count st =? 0)) eqn:E.
    + specialize (IH (mix_byte st b) (mix_byte_ok _ _ Hok)).
      destruct (MixTail (mix_byte st b) data) as [st' rest].
      destruct IH as (IH1 & IH2 & IH3 & IH4). split_and!; [done..|]. intros Hl. apply IH4.
      simpl in Hl. lia.
    + apply orb_false_iff in E as [E1 E2]. apply Nat.ltb_ge in E1.
      split_and!; [done|done| |lia]. right.
      destruct (Z.eqb_spec (m_count st) 0); [done|by simpl in E2].
Qed.

Lemma Add_bytes st data :
  c2a_ok st ->
  Add st data = c2a_bytes (MkC2A (m_hash st) (m_tail st) (m_count st)
                                 (u32 (m_size st + Z.of_nat (length data)))) data.
Proof.
  intros Hok. unfold Add. set (st1 := MkC2A _ _ _ _).
  assert (c2a_ok st1) as Hok1 by done. clearbody st1.
  pose proof (MixTail_spec st1 data Hok1) as H1. destruct (MixTail st1 data) as [st2 rest].
  destruct H1 as (-> & Hok2 & Hcase & _). destruct Hcase as [->|Hc].
  { cbn [mm2_loop]. by destruct st2. }
  assert (aligned_st st2) as Ha.
  { split; [done|]. destruct Hok2 as [_ Ht]. rewrite Hc in Ht. simpl in Ht. lia. }
  pose proof (mm2_loop_c2a st2 rest Ha) as H2. destruct (mm2_loop (m_hash st2) rest) as [h rest2].
  destruct H2 as [-> Hl]. destruct Ha as [-> ->].
  pose proof (MixTail_spec (MkC2A h 0 0 (m_size st2)) rest2) as H3.
  destruct (MixTail _ rest2) as [st3 rest3]. destruct H3 as (-> & _ & _ & Hnil); [split; cbn; lia|].
  by rewrite (Hnil Hl).
Qed.

Lemma c2a_bytes_size st data n :
  c2a_bytes (MkC2A (m_hash st) (m_tail st) (m_count st) n) data
  = let st' := c2a_bytes st data in MkC2A (m_hash st') (m_tail st') (m_count st') n.
Proof.
  revert st. induction data as [|b data IH]; intros st; [by destruct st|].
  unfold c2a_bytes in *. cbn [foldl]. rewrite <- IH. f_equal. unfold mix_byte. cbn.
  by destruct (u32 (m_count st + 1) =? 4).
Qed.

Lemma Add_chunks st chunks :
  c2a_ok st -> is_u32 (m_size st) ->
  foldl Add st chunks
  = let st' := c2a_bytes st (mjoin chunks) in
    MkC2A (m_hash st') (m_tail st') (m_count st')
          (u32 (m_size st + Z.of_nat (length (mjoin chunks)))).
Proof.
  revert st. induction chunks as [|d chunks IH]; intros st Hok Hsz.
  - cbn. rewrite Z.add_0_r, u32_id by done. by destruct st.
  - cbn [foldl mjoin list_join]. rewrite Add_bytes by done. rewrite c2a_bytes_size. cbn zeta.
    rewrite IH.
    + cbn [m_size]. rewrite c2a_bytes_size. cbn [m_hash m_tail m_count]. cbn zeta.
      unfold c2a_bytes. rewrite <- foldl_app. f_equal.
      rewrite length_app, Nat2Z.inj_add. unfold u32. rewrite Zplus_mod_idemp_l. f_equal. by rewrite Z.add_assoc.
    + destruct (c2a_bytes_ok st d Hok) as [? ?]. split; done.
    + cbn [m_size]. apply u32_range.
Qed.

Lemma lxor_shiftl_add a b n :
  0 <= a < 2 ^ n -> 0 <= n -> Z.lxor a (Z.shiftl b n) = a + 2 ^ n * b.
Proof.
  intros Ha Hn. rewrite <- lor_shiftl_add by done. apply Z.bits_inj'. intros i Hi.
  rewrite Z.lxor_spec, Z.lor_spec. destruct (decide (i < n)).
  - rewrite Z.shiftl_spec_low by lia. by rewrite xorb_false_r, orb_false_r.
  - by rewrite (testbit_small a n), xorb_false_l by lia.
Qed.

Lemma tail_word_le rest : (length rest < 4)%nat -> tail_word rest = le_Z rest.
Proof.
  intros Hl. destruct rest as [|a [|b [|c [|d ?]]]]; simpl in Hl; try lia; byte_ranges;
    cbn [tail_word le_Z].
  - done.
  - lia.
  - rewrite Z.lxor_comm, lxor_shiftl_add by lia. lia.
  - rewrite Z.lxor_comm, (Z.lxor_comm (Z.shiftl (bz c) 16)), <- Z.lxor_assoc.
    rewrite (lxor_shiftl_add (bz a)), lxor_shiftl_add by lia. lia.
Qed.

(** ** Aligned reads *)

Lemma le_Z_shiftr a l n :
  n = 8 * Z.of_nat (length a) -> Z.shiftr (le_Z (a ++ l)) n = le_Z l.
Proof.
  intros ->. rewrite Z.shiftr_div_pow2, le_Z_app by lia.
  rewrite Z.pow_mul_r by lia. change (2 ^ 8) with 256.
  pose proof (le_Z_range a). rewrite Z.mul_comm, Z.div_add by lia.
  rewrite Z.div_small by lia. lia.
Qed.

(** Bytes [p] pending in the high end of [t], continued with the first bytes
    [q] of the next word, make the word the plain loop reads. *)
Lemma aligned_word_le align t p q r :
  1 <= align <= 3 -> length p = Z.to_nat (4 - align) ->
  (length q <= Z.to_nat align)%nat -> (r = [] \/ length q = Z.to_nat align) ->
  Z.shiftr t (8 * align) = le_Z p ->
  aligned_word align t (le_Z (q ++ r)) = le_Z (p ++ q).
Proof.
  intros Ha Hp Hq Hr Ht. unfold aligned_word. rewrite Ht.
  pose proof (le_Z_range p) as Rp. rewrite Hp, Z2Nat.id in Rp by lia.
  assert (0 <= le_Z q < 256 ^ align) as Rq.
  { pose proof (le_Z_range q) as Rq. split; [lia|].
    apply Z.lt_le_trans with (256 ^ Z.of_nat (length q)); [lia|]. apply Z.pow_le_mono_r; lia. }
  assert (E : 2 ^ (8 * (4 - align)) = 256 ^ (4 - align)).
  { rewrite Z.pow_mul_r by lia. done. }
  assert (u32 (Z.shiftl (le_Z (q ++ r)) (8 * (4 - align)))
          = Z.shiftl (le_Z q) (8 * (4 - align))) as ->.
  { unfold u32. rewrite !Z.shiftl_mul_pow2, E by lia.
    change (2 ^ 32) with (256 ^ 4). replace 4 with (align + (4 - align)) at 2 by lia.
    rewrite Z.pow_add_r, Z.mul_mod_distr_r by lia. f_equal.
    destruct Hr as [->|Hr]; [rewrite app_nil_r; by apply Z.mod_small|].
    rewrite le_Z_app, Hr, Z2Nat.id, Z.mul_comm, Z_mod_plus_full by lia. by apply Z.mod_small. }
  rewrite lor_shiftl_add by lia. rewrite le_Z_app, Hp, Z2Nat.id, E by lia. done.
Qed.

Lemma mm2_loop_word h w l :
  length w = 4%nat -> mm2_loop h (w ++ l) = mm2_loop (mmix h (le_Z w)) l.
Proof. destruct w as [|? [|? [|? [|? [|? ?]]]]]; done. Qed.

Lemma mm2_loop_short h l : (length l < 4)%nat -> mm2_loop h l = (h, l).
Proof. destruct l as [|? [|? [|? [|? ?]]]]; simpl; intros; done || lia. Qed.

Lemma aligned_loop_spec align h t p data :
  1 <= align <= 3 -> length p = Z.to_nat (4 - align) -> Z.shiftr t (8 * align) = le_Z p ->
  let '(h', t', rest) := aligned_loop align h t data in
  (length rest < 4)%nat /\ exists p', length p' = Z.to_nat (4 - align) /\
    Z.shiftr t' (8 * align) = le_Z p' /\ mm2_loop h (p ++ data) = mm2_loop h' (p' ++ rest).
Proof.
  intros Ha. revert h t p. induction data as [l Hl|a b c d l IH] using list_ind4; intros h t p Hp Ht.
  - assert (aligned_loop align h t l = (h, t, l)) as ->; [|by eauto].
    destruct l as [|? [|? [|? [|? ?]]]]; simpl in Hl; try lia; done.
  - cbn [aligned_loop]. set (w := [a; b; c; d]).
    set (q := take (Z.to_nat align) w). set (r := drop (Z.to_nat align) w).
    assert (w = q ++ r) as Hw by (unfold q, r; by rewrite take_drop).
    assert (length w = 4)%nat as Hlw by done.
    change (a :: b :: c :: d :: l) with (w ++ l). clearbody w.
    assert (length q = Z.to_nat align) as Hq by (unfold q; rewrite length_take; lia).
    assert (length r = Z.to_nat (4 - align)) as Hr by (unfold r; rewrite length_drop; lia).
    clearbody q r. subst w.
    rewrite (aligned_word_le align t p q r) by (done || lia || by right).
    specialize (IH (mmix h (le_Z (p ++ q))) (le_Z (q ++ r)) r Hr).
    destruct (aligned_loop align _ _ l) as [[h' t'] rest].
    destruct IH as (H1 & p' & H2 & H3 & H4); [apply le_Z_shiftr; lia|].
    split; [done|]. exists p'. split_and!; [done..|]. rewrite <- H4.
    rewrite <- app_assoc, app_assoc. apply mm2_loop_word. rewrite length_app. lia.
Qed.

Lemma gather_le n data :
  0 <= n <= 3 -> (Z.to_nat n <= length data)%nat -> gather n data = le_Z (take (Z.to_nat n) data).
Proof.
  intros Hn Hl. assert (n = 0 \/ n = 1 \/ n = 2 \/ n = 3) as [->|[->|[->| ->]]] by lia.
  - done.
  - destruct data as [|a data]; [simpl in Hl; lia|].
    change (bz a = bz a + 256 * 0). lia.
  - destruct data as [|a [|b data]]; try (simpl in Hl; lia). byte_ranges.
    change (Z.lor (Z.shiftl (bz b) 8) (bz a) = bz a + 256 * (bz b + 256 * 0)).
    rewrite Z.lor_comm, lor_shiftl_add by lia. lia.
  - destruct data as [|a [|b [|c data]]]; try (simpl in Hl; lia). byte_ranges.
    change (Z.lor (Z.lor (Z.shiftl (bz c) 16) (Z.shiftl (bz b) 8)) (bz a)
            = bz a + 256 * (bz b + 256 * (bz c + 256 * 0))).
    rewrite Z.lor_comm, (Z.lor_comm (Z.shiftl (bz c) 16)), Z.lor_assoc.
    rewrite (lor_shiftl_add (bz a)), lor_shiftl_add by lia. lia.
Qed.

Lemma preload_le align data :
  1 <= align <= 3 -> (4 <= length data)%nat ->
  Z.shiftr (aligned_preload align data) (8 * align) = le_Z (take (Z.to_nat (4 - align)) data).
Proof.
  intros Ha Hl. rewrite <- gather_le by lia.
  assert (aligned_preload align data = u32 (Z.shiftl (gather (4 - align) data) (8 * align))) as ->.
  { assert (align = 1 \/ align = 2 \/ align = 3) as [->|[->| ->]] by lia; done. }
  rewrite gather_le by lia. set (p := take _ data).
  assert (length p = Z.to_nat (4 - align)) as Hp by (unfold p; rewrite length_take; lia).
  pose proof (le_Z_range p) as Rp. rewrite Hp, Z2Nat.id in Rp by lia.
  rewrite u32_id.
  - rewrite Z.shiftr_shiftl_l, Z.sub_diag, Z.shiftl_0_r by lia. done.
  - unfold is_u32. rewrite Z.shiftl_mul_pow2, Z.pow_mul_r by lia. change (2 ^ 8) with 256.
    assert (2 ^ 32 = 256 ^ (4 - align) * 256 ^ align) as ->.
    { rewrite <- Z.pow_add_r by lia. replace (4 - align + align) with 4 by lia. done. }
    assert (0 < 256 ^ align) by (apply Z.pow_pos_nonneg; lia). nia.
Qed.

Lemma tail_switch_le h l :
  (1 <= length l < 4)%nat -> tail_switch h l = u32 (Z.lxor h (le_Z l) * m32).
Proof.
  intros Hl. rewrite <- tail_word_le by lia.
  destruct l as [|a [|b [|c [|d ?]]]]; simpl in Hl; try lia; cbn [tail_switch tail_word];
    by rewrite ?Z.lxor_assoc.
Qed.

(** ** Properties *)

(** The endian-neutral variant computes the same hash as [MurmurHash2]. *)
Theorem neutral_equals_plain (data : bytes) (seed : Z) :
  MurmurHashNeutral2 data seed = MurmurHash2 data seed.
Proof. unfold MurmurHashNeutral2, MurmurHash2. by rewrite neutral_loop_eq. Qed.

(** C35. The incremental hasher, fed a message in any pieces, gives the hash
    [MurmurHash2A] computes of the whole message.  (The code's lengths are [int]s:
    this is about pieces and messages below 2^31 bytes.) *)
Theorem incremental_equals_oneshot (chunks : list bytes) (seed : Z) :
  End_ (foldl Add (Begin seed) chunks) = MurmurHash2A (mjoin chunks) seed.
Proof.
  unfold MurmurHash2A, Begin.
  rewrite Add_chunks by (split; cbn; lia). cbn [m_size]. cbn zeta.
  pose proof (mm2_loop_c2a (MkC2A seed 0 0 0) (mjoin chunks)) as H. cbn [m_hash m_size] in H.
  destruct (mm2_loop seed (mjoin chunks)) as [h rest]. destruct H as [-> Hl]; [done|].
  rewrite c2a_partial, tail_word_le by done. done.
Qed.

(** The variant for aligned loads computes the same hash as [MurmurHash2]
    wherever the data lie. *)
Theorem aligned_equals_plain (data : bytes) (seed align : Z) :
  0 <= align <= 3 -> MurmurHashAligned2 data seed align = MurmurHash2 data seed.
Proof.
  intros Ha. unfold MurmurHashAligned2, MurmurHash2.
  destruct (Z.eqb_spec align 0) as [|Hne]; cbn [negb andb]; [done|].
  destruct (Z.leb_spec 4 (Z.of_nat (length data))) as [Hl|]; cbn [andb]; [|done].
  set (h0 := Z.lxor seed _). set (p := take (Z.to_nat (4 - align)) data).
  set (tl := drop (Z.to_nat (4 - align)) data).
  assert (length p = Z.to_nat (4 - align)) as Hp by (unfold p; rewrite length_take; lia).
  assert (data = p ++ tl) as Hd by (unfold p, tl; by rewrite take_drop).
  pose proof (aligned_loop_spec align h0 (aligned_preload align data) p tl) as H.
  destruct (aligned_loop align h0 _ tl) as [[h t] rest].
  destruct H as (Hr & p' & Hp' & Ht & E); [lia|done|apply preload_le; lia|].
  rewrite Hd at 1. rewrite E. clear E Hd.
  destruct (Z.leb_spec align (Z.of_nat (length rest))) as [Hc|Hc].
  - rewrite gather_le by lia. set (q := take (Z.to_nat align) rest).
    assert (length q = Z.to_nat align) as Hq by (unfold q; rewrite length_take; lia).
    rewrite <- (app_nil_r q), (aligned_word_le align t p' q []) by (done || lia || by left).
    rewrite <- (take_drop (Z.to_nat align) rest) at 2. fold q.
    rewrite (app_assoc p' q), mm2_loop_word by (rewrite length_app; lia).
    rewrite mm2_loop_short by (rewrite length_drop; lia). done.
  - rewrite gather_le by lia. rewrite Nat2Z.id, firstn_all.
    rewrite <- (app_nil_r rest) at 1.
    rewrite (aligned_word_le align t p' rest []) by (done || lia || by left).
    rewrite mm2_loop_short by (rewrite length_app; lia).
    rewrite tail_switch_le by (rewrite length_app; lia). done.
Qed.

Lemma aligned_equals_plain_witness :
  MurmurHashAligned2 (lit "xhttpcache") 7 3 = MurmurHash2 (lit "xhttpcache") 7.
Proof. apply aligned_equals_plain. lia. Defined.

Lemma lxor_range a b n : 0 <= n -> 0 <= a < 2 ^ n -> 0 <= b < 2 ^ n -> 0 <= Z.lxor a b < 2 ^ n.
Proof.
  intros Hn Ha Hb. split; [apply Z.lxor_nonneg; lia|].
  destruct (decide (Z.lxor a b = 0)) as [->|]; [lia|].
  assert (0 <= Z.lxor a b) by (apply Z.lxor_nonneg; lia).
  apply Z.log2_lt_pow2; [lia|].
  eapply Z.le_lt_trans; [apply Z.log2_lxor; lia|].
  destruct (decide (n = 0)) as [->|]; [replace a with 0 in * by lia; replace b with 0 in * by lia; done|].
  apply Z.max_lub_lt.
  - destruct (decide (a = 0)) as [->|]; [simpl; lia|]. apply Z.log2_lt_pow2; lia.
  - destruct (decide (b = 0)) as [->|]; [simpl; lia|]. apply Z.log2_lt_pow2; lia.
Qed.

Lemma shiftr_range a k n : 0 <= k -> 0 <= a < 2 ^ n -> 0 <= Z.shiftr a k < 2 ^ n.
Proof.
  intros Hk Ha. rewrite Z.shiftr_div_pow2 by done.
  assert (0 < 2 ^ k) by (apply Z.pow_pos_nonneg; lia).
  split; [apply Z.div_pos; lia|]. apply Z.div_lt_upper_bound; [lia|]. nia.
Qed.

Lemma MurmurHash64A_range data seed : is_u64 (MurmurHash64A data seed).
Proof.
  unfold MurmurHash64A. destruct (mm64a_loop _ data) as [h d2].
  set (x := u64 _). assert (is_u64 x) by apply u64_range. unfold is_u64 in *.
  apply lxor_range; [lia|done|]. by apply shiftr_range.
Qed.
