(* ===== verification/Sds.v ===== *)
(** [common/sds.h] and [common/sds.cpp]: the dynamic strings that hold the
    arguments of Redis requests.

    A string is its header and the bytes allocated after it.  Allocation does
    not fail; what [realloc] adds is arbitrary ([garbage]).  [None] is undefined
    behaviour (an access past the allocation, a failed assertion, an overflow of
    a signed integer).  The source of a copy does not overlap its target. *)

From S2P Require Import Prelude Cstd.

Definition SDS_MAX_PREALLOC : Z := 1024 * 1024.

(** [struct sdshdr] *)
Record sdshdr := MkSds { len : Z; free : Z; buf : bytes }.

Definition sdslen (s : sdshdr) : Z := u64 (len s).
Definition sdsavail (s : sdshdr) : Z := u64 (free s).

(** The [len] bytes that are the string. *)
Definition contents (s : sdshdr) : bytes := take (Z.to_nat (len s)) (buf s).

(** [memcpy], [memset] and stores at offset [off]. *)
Definition poke (b : bytes) (off : Z) (t : bytes) : option bytes :=
  if (0 <=? off) && (off + Z.of_nat (length t) <=? Z.of_nat (length b))
  then Some (take (Z.to_nat off) b ++ t ++ drop (Z.to_nat off + length t) b)
  else None.

(** ** Creation *)

Definition sdsnewlen (init : option bytes) (initlen : nat) : option sdshdr :=
  match init with
  | Some b =>
      if (initlen <=? length b)%nat
      then Some (MkSds (i32 (Z.of_nat initlen)) 0 (take initlen b ++ [x00])) else None
  | None => Some (MkSds (i32 (Z.of_nat initlen)) 0 (replicate initlen x00 ++ [x00]))
  end.

Definition sdsempty : option sdshdr := sdsnewlen (Some []) 0.

Definition sdsnew (init : option bytes) : option sdshdr :=
  match init with
  | None => sdsnewlen None 0
  | Some t => sdsnewlen (Some (cstr t)) (length (cstr t))
  end.

Definition sdsdup (s : sdshdr) : option sdshdr := sdsnewlen (Some (buf s)) (Z.to_nat (sdslen s)).

(** ** Lengths and room *)

(** [strlen] needs a NUL within the allocation. *)
Definition sdsupdatelen (s : sdshdr) : option sdshdr :=
  if bool_decide (x00 ∈ buf s) then
    let reallen := i32 (Z.of_nat (length (cstr (buf s)))) in
    Some (MkSds reallen (free s + (len s - reallen)) (buf s))
  else None.

Definition sdsclear (s : sdshdr) : option sdshdr :=
  b ← poke (buf s) 0 [x00];
  Some (MkSds 0 (free s + len s) b).

Section Realloc.
(** What the bytes that [realloc] adds hold. *)
Context (garbage : nat -> byte).

Definition realloc (b : bytes) (n : nat) : bytes := take n b ++ (garbage <$> seq (length b) (n - length b)).

Definition sdsMakeRoomFor (s : sdshdr) (addlen : Z) : sdshdr :=
  if addlen <=? sdsavail s then s
  else
    let l := sdslen s in
    let newlen := u64 (l + addlen) in
    let newlen := if newlen <? SDS_MAX_PREALLOC then u64 (newlen * 2) else u64 (newlen + SDS_MAX_PREALLOC) in
    MkSds (len s) (i32 (newlen - l)) (realloc (buf s) (Z.to_nat (newlen + 1))).

Definition sdsRemoveFreeSpace (s : sdshdr) : sdshdr :=
  MkSds (len s) 0 (realloc (buf s) (Z.to_nat (len s + 1))).

(** The header has 8 bytes. *)
Definition sdsAllocSize (s : sdshdr) : Z := 8 + len s + free s + 1.

Definition sdsIncrLen (s : sdshdr) (incr : Z) : option sdshdr :=
  if free s <? incr then None
  else
    let l := len s + incr in
    let f := free s - incr in
    if f <? 0 then None
    else b ← poke (buf s) l [x00]; Some (MkSds l f b).

Definition sdsgrowzero (s : sdshdr) (n : Z) : option sdshdr :=
  let curlen := sdslen s in
  if n <=? curlen then Some s
  else
    let s := sdsMakeRoomFor s (n - curlen) in
    b ← poke (buf s) curlen (replicate (Z.to_nat (n - curlen + 1)) x00);
    let totlen := len s + free s in
    Some (MkSds (i32 n) (i32 (totlen - i32 n)) b).

(** ** Copying *)

(** [t] is the [len] bytes at the pointer. *)
Definition sdscatlen (s : sdshdr) (t : bytes) : option sdshdr :=
  let curlen := sdslen s in
  let n := Z.of_nat (length t) in
  let s := sdsMakeRoomFor s n in
  b ← poke (buf s) curlen t;
  b ← poke b (curlen + n) [x00];
  Some (MkSds (i32 (curlen + n)) (i32 (free s - n)) b).

Definition sdscat (s : sdshdr) (t : bytes) : option sdshdr := sdscatlen s (cstr t).
Definition sdscatsds (s t : sdshdr) : option sdshdr := sdscatlen s (take (Z.to_nat (sdslen t)) (buf t)).

Definition sdscpylen (s : sdshdr) (t : bytes) : option sdshdr :=
  let n := Z.of_nat (length t) in
  let totlen := u64 (free s + len s) in
  let '(s, totlen) :=
    if totlen <? n then
      let s := sdsMakeRoomFor s (u64 (n - len s)) in (s, u64 (free s + len s))
    else (s, totlen) in
  b ← poke (buf s) 0 t;
  b ← poke b n [x00];
  Some (MkSds (i32 n) (i32 (totlen - n)) b).

Definition sdscpy (s : sdshdr) (t : bytes) : option sdshdr := sdscpylen s (cstr t).

(** [text] is what the format produces.  A buffer is large enough when its last
    but one byte stays NUL. *)
Fixpoint vprintf_loop (fuel : nat) (buflen : nat) (text : bytes) : bytes :=
  match fuel with
  | O => cstr (take (buflen - 1) text)
  | S fuel =>
      if bool_decide (nth (buflen - 2) text x00 <> x00) then vprintf_loop fuel (buflen * 2) text
      else cstr (take (buflen - 1) text)
  end.

Definition sdscatvprintf (s : sdshdr) (text : bytes) : option sdshdr :=
  sdscat s (vprintf_loop (S (length text)) 16 text).

(** ** Editing in place *)

(** [strchr(cset, c)] also finds the terminating NUL. *)
Definition in_cset (cset : bytes) (c : byte) : bool := bool_decide (c = x00) || bool_decide (c ∈ cstr cset).

(** [while(sp <= end && strchr(cset, *sp)) sp++] *)
Fixpoint skip_left (cset s : bytes) : nat :=
  match s with
  | [] => 0
  | c :: s => if in_cset cset c then S (skip_left cset s) else 0
  end.

(** [while(ep > start && strchr(cset, *ep)) ep--], from index [e]. *)
Fixpoint skip_right (cset s : bytes) (e : nat) : nat :=
  match e with
  | O => 0
  | S e' => if in_cset cset (nth e s x00) then skip_right cset s e' else e
  end.

Definition sdstrim (s : sdshdr) (cset : bytes) : option sdshdr :=
  let str := contents s in
  let sp := Z.of_nat (skip_left cset str) in
  let ep := if len s =? 0 then -1 else Z.of_nat (skip_right cset str (Z.to_nat (len s) - 1)) in
  let n := if ep <? sp then 0 else ep - sp + 1 in
  b ← (if sp =? 0 then Some (buf s) else poke (buf s) 0 (take (Z.to_nat n) (drop (Z.to_nat sp) (buf s))));
  b ← poke b n [x00];
  Some (MkSds n (free s + (len s - n)) b).

Definition sdsrange (s : sdshdr) (start end_ : Z) : option sdshdr :=
  let l := sdslen s in
  if l =? 0 then Some s
  else
    let fix_index i := if i <? 0 then let i := i32 (l + i) in if i <? 0 then 0 else i else i in
    let start := fix_index start in
    let end_ := fix_index end_ in
    if (start <=? end_) && (INT_MAX <? end_ - start + 1) then None
    else
      let newlen := if end_ <? start then 0 else end_ - start + 1 in
      let '(start, newlen) :=
        if newlen =? 0 then (0, newlen)
        else if l <=? start then (start, 0)
        else if l <=? end_ then (start, if l - 1 <? start then 0 else l - 1 - start + 1)
        else (start, newlen) in
      b ← (if (start =? 0) || (newlen =? 0) then Some (buf s)
           else poke (buf s) 0 (take (Z.to_nat newlen) (drop (Z.to_nat start) (buf s))));
      b ← poke b newlen [x00];
      Some (MkSds newlen (free s + (len s - newlen)) b).

(** A loop over the characters of the string. *)
Definition map_contents (f : byte -> byte) (s : sdshdr) : sdshdr :=
  MkSds (len s) (free s) ((f <$> contents s) ++ drop (Z.to_nat (len s)) (buf s)).

Definition sdstolower (s : sdshdr) : sdshdr := map_contents tolower s.
Definition sdstoupper (s : sdshdr) : sdshdr := map_contents toupper s.

(** The first match in [from] decides; [from] and [to] have [setlen] bytes. *)
Fixpoint map_char (from to : bytes) (c : byte) : byte :=
  match from, to with
  | f :: from, t :: to => if decide (c = f) then t else map_char from to c
  | _, _ => c
  end.

Definition sdsmapchars (s : sdshdr) (from to : bytes) : sdshdr := map_contents (map_char from to) s.

(** ** Comparison *)

Definition sdscmp (s1 s2 : sdshdr) : Z :=
  let l1 := sdslen s1 in
  let l2 := sdslen s2 in
  let minlen := Z.to_nat (if l1 <? l2 then l1 else l2) in
  let cmp := memcmp (take minlen (buf s1)) (take minlen (buf s2)) in
  if cmp =? 0 then i32 (l1 - l2) else cmp.

(** ** Splitting and joining *)

(** The tokens, as byte strings; [j] is where the search stands and [start]
    where the current token begins. *)
Fixpoint split_loop (fuel : nat) (s sep : bytes) (j start : nat) : list bytes :=
  match fuel with
  | O => []
  | S fuel =>
      if (Z.of_nat j <? Z.of_nat (length s) - (Z.of_nat (length sep) - 1)) then
        if is_prefix sep (drop j s) then
          take (j - start) (drop start s) :: split_loop fuel s sep (j + length sep) (j + length sep)
        else split_loop fuel s sep (S j) start
      else [take (length s - start) (drop start s)]
  end.

(** The array of tokens grows ahead of the elements; [None] is NULL. *)
Definition sdssplitlen (s sep : bytes) : option (list sdshdr) :=
  if (length sep <? 1)%nat then None
  else if (length s =? 0)%nat then Some []
  else mapM (fun t => sdsnewlen (Some t) (length t)) (split_loop (S (length s)) s sep 0 0).

(** [for (j = 0; j < argc; j++)] of both joins, over the texts appended. *)
Fixpoint join_loop (join : sdshdr) (argv : list bytes) (sep : bytes) : option sdshdr :=
  match argv with
  | [] => Some join
  | a :: argv =>
      join ← sdscatlen join a;
      match argv with
      | [] => Some join
      | _ :: _ => join ← sdscatlen join sep; join_loop join argv sep
      end
  end.

Definition sdsjoin (argv : list bytes) (sep : bytes) : option sdshdr :=
  join ← sdsempty; join_loop join (cstr <$> argv) sep.
Definition sdsjoinsds (argv : list sdshdr) (sep : bytes) : option sdshdr :=
  join ← sdsempty; join_loop join ((fun t => take (Z.to_nat (sdslen t)) (buf t)) <$> argv) sep.

(** ** Numbers *)

(** [-value] overflows for the least value. *)
Definition sdsfromlonglong (value : Z) : option sdshdr :=
  if value =? INT64_MIN then None
  else
    let v := if value <? 0 then - value else value in
    p ← dec_loop 32 v [];
    let p := if value <? 0 then "-"%byte :: p else p in
    if (32 <? length p)%nat then None else sdsnewlen (Some p) (length p).

(** ** Quoting *)

Definition quote : byte := x22.
Definition backslash : byte := x5c.
Definition hex_lower (z : Z) : byte := zb (if z <? 10 then 48 + z else 87 + z).

Definition cat_repr_char (s : sdshdr) (c : byte) : option sdshdr :=
  if decide (c = backslash \/ c = quote) then sdscatvprintf s [backslash; c]
  else if decide (c = x0a) then sdscatlen s [backslash; "n"%byte]
  else if decide (c = x0d) then sdscatlen s [backslash; "r"%byte]
  else if decide (c = x09) then sdscatlen s [backslash; "t"%byte]
  else if decide (c = x07) then sdscatlen s [backslash; "a"%byte]
  else if decide (c = x08) then sdscatlen s [backslash; "b"%byte]
  else if isprint c then sdscatvprintf s [c]
  else sdscatvprintf s [backslash; "x"%byte; hex_lower (bz c / 16); hex_lower (bz c mod 16)].

Fixpoint cat_repr_loop (s : sdshdr) (p : bytes) : option sdshdr :=
  match p with
  | [] => Some s
  | c :: p => s ← cat_repr_char s c; cat_repr_loop s p
  end.

Definition sdscatrepr (s : sdshdr) (p : bytes) : option sdshdr :=
  s ← sdscatlen s [quote];
  s ← cat_repr_loop s p;
  sdscatlen s [quote].

End Realloc.

Definition is_hex_digit (c : byte) : bool :=
  ((48 <=? bz c) && (bz c <=? 57)) || ((97 <=? bz c) && (bz c <=? 102)) || ((65 <=? bz c) && (bz c <=? 70)).

Definition hex_digit_to_int (c : byte) : Z :=
  if (48 <=? bz c) && (bz c <=? 57) then bz c - 48
  else if (97 <=? bz c) && (bz c <=? 102) then bz c - 87
  else if (65 <=? bz c) && (bz c <=? 70) then bz c - 55
  else 0.

(** The state of the inner loop of [sdssplitargs]. *)
Inductive quoting := Plain | InQuotes | InSingle.

(** What follows a closing quote must be a blank or the end. *)
Definition closes (p : bytes) : bool :=
  let c := nth 1 p x00 in bool_decide (c = x00) || isspace c.

(** A token: [p] is the text before the terminating NUL, [current] the token so
    far; the token and the text after it, or [None] for [goto err]. *)
Fixpoint token_loop (fuel : nat) (m : quoting) (p current : bytes) : option (bytes * bytes) :=
  match fuel with
  | O => None
  | S fuel =>
      let c i := nth i p x00 in
      match m with
      | InQuotes =>
          if bool_decide (c 0%nat = backslash) && bool_decide (c 1%nat = "x"%byte)
             && is_hex_digit (c 2%nat) && is_hex_digit (c 3%nat) then
            token_loop fuel m (drop 4 p)
              (current ++ [zb (hex_digit_to_int (c 2%nat) * 16 + hex_digit_to_int (c 3%nat))])
          else if bool_decide (c 0%nat = backslash) && negb (bool_decide (c 1%nat = x00)) then
            let e := c 1%nat in
            let b :=
              if decide (e = "n"%byte) then x0a else if decide (e = "r"%byte) then x0d
              else if decide (e = "t"%byte) then x09 else if decide (e = "b"%byte) then x08
              else if decide (e = "a"%byte) then x07 else e in
            token_loop fuel m (drop 2 p) (current ++ [b])
          else if bool_decide (c 0%nat = quote) then
            if closes p then Some (current, drop 1 p) else None
          else if bool_decide (c 0%nat = x00) then None
          else token_loop fuel m (drop 1 p) (current ++ [c 0%nat])
      | InSingle =>
          if bool_decide (c 0%nat = backslash) && bool_decide (c 1%nat = "'"%byte) then
            token_loop fuel m (drop 2 p) (current ++ ["'"%byte])
          else if bool_decide (c 0%nat = "'"%byte) then
            if closes p then Some (current, drop 1 p) else None
          else if bool_decide (c 0%nat = x00) then None
          else token_loop fuel m (drop 1 p) (current ++ [c 0%nat])
      | Plain =>
          if bool_decide (c 0%nat ∈ [x20; x0a; x0d; x09; x00]) then Some (current, drop 1 p)
          else if bool_decide (c 0%nat = quote) then token_loop fuel InQuotes (drop 1 p) current
          else if bool_decide (c 0%nat = "'"%byte) then token_loop fuel InSingle (drop 1 p) current
          else token_loop fuel m (drop 1 p) (current ++ [c 0%nat])
      end
  end.

Fixpoint args_loop (fuel : nat) (p : bytes) (vector : list bytes) : option (list bytes) :=
  match fuel with
  | O => None
  | S fuel =>
      match skip_space p with
      | [] => Some vector
      | p =>
          '(current, p) ← token_loop (S (length p)) Plain p [];
          args_loop fuel p (vector ++ [current])
      end
  end.

(** The arguments of a line, as byte strings; [None] is the NULL of unbalanced
    quotes. *)
Definition sdssplitargs (line : bytes) : option (list bytes) :=
  args_loop (S (length (cstr line))) (cstr line) [].

(** ** The string a header stands for *)

(** [s] holds [c], NUL terminated, followed by its free space. *)
Definition holds (s : sdshdr) (c : bytes) : Prop :=
  exists slack, s = MkSds (Z.of_nat (length c)) (Z.of_nat (length slack)) (c ++ x00 :: slack) /\
    Z.of_nat (length c + length slack) < 2 ^ 31 - 1.

Lemma holds_contents s c : holds s c -> contents s = c.
Proof. intros (sl & -> & _). unfold contents. cbn [len buf]. by rewrite Nat2Z.id, take_app_length. Qed.

Lemma holds_sdslen s c : holds s c -> sdslen s = Z.of_nat (length c).
Proof. intros (sl & -> & H). unfold sdslen. cbn [len]. apply u64_id. unfold is_u64. lia. Qed.

Lemma holds_sdsavail s c : holds s c -> exists n : nat, sdsavail s = Z.of_nat n /\ free s = Z.of_nat n.
Proof.
  intros (sl & -> & H). exists (length sl). unfold sdsavail. cbn [free]. split; [|done].
  apply u64_id. unfold is_u64. lia.
Qed.

(** Stores at the start of a known tail. *)
Lemma poke_at (a t b r : bytes) :
  length b = length t -> poke (a ++ b ++ r) (Z.of_nat (length a)) t = Some (a ++ t ++ r).
Proof.
  intros Hl. unfold poke. rewrite !length_app.
  destruct (Z.leb_spec 0 (Z.of_nat (length a))); [|lia].
  destruct (Z.leb_spec (Z.of_nat (length a) + Z.of_nat (length t)) (Z.of_nat (length a + (length b + length r)))); [|lia].
  cbn [andb]. rewrite Nat2Z.id, take_app_length. do 3 f_equal.
  by rewrite <- Hl, <- length_app, app_assoc, drop_app_length.
Qed.

Lemma poke_start t b r : length b = length t -> poke (b ++ r) 0 t = Some (t ++ r).
Proof. apply (poke_at [] t b r). Qed.

(** A tail of enough bytes can be split. *)
Lemma split_tail (r : bytes) n : (n <= length r)%nat -> exists b r', r = b ++ r' /\ length b = n.
Proof. intros Hn. exists (take n r), (drop n r). rewrite take_drop, length_take. split; [done|lia]. Qed.

Lemma sdsnewlen_holds (c : bytes) :
  Z.of_nat (length c) < 2 ^ 31 - 1 -> exists s, sdsnewlen (Some c) (length c) = Some s /\ holds s c.
Proof.
  intros Hc. unfold sdsnewlen. rewrite Nat.leb_refl, firstn_all, i32_id by (unfold is_i32; lia).
  eexists. split; [done|]. exists []. split; [done|]. cbn [length]. lia.
Qed.

Section Operations.
Context (garbage : nat -> byte).

Lemma realloc_grow b n : (length b <= n)%nat ->
  realloc garbage b n = b ++ (garbage <$> seq (length b) (n - length b)).
Proof. intros Hn. unfold realloc. by rewrite take_ge by lia. Qed.

(** Room for [n] more bytes. *)
Lemma sdsMakeRoomFor_holds s c (n : Z) :
  holds s c -> 0 <= n -> Z.of_nat (length c) + n < 2 ^ 30 ->
  holds (sdsMakeRoomFor garbage s n) c /\ n <= free (sdsMakeRoomFor garbage s n).
Proof.
  intros Hh Hn Hb. pose proof (holds_sdslen s c Hh) as Hlen. destruct (holds_sdsavail s c Hh) as (f & Ha & Hf).
  unfold sdsMakeRoomFor. rewrite Ha, Hlen. destruct (Z.leb_spec n (Z.of_nat f)) as [Hle|Hgt]; [split; [done|lia]|].
  set (l := Z.of_nat (length c)) in *. rewrite (u64_id (l + n)) by (unfold is_u64; lia).
  set (newlen := if l + n <? SDS_MAX_PREALLOC then _ else _).
  assert (l + n <= newlen < 2 ^ 31 - 1) as Hnew.
  { subst newlen. unfold SDS_MAX_PREALLOC. destruct (Z.ltb_spec (l + n) (1024 * 1024)); rewrite u64_id by (unfold is_u64; lia); lia. }
  rewrite i32_id by (unfold is_i32; lia). destruct Hh as (sl & -> & Hsl). cbn [len free buf] in *.
  split; [|cbn [free]; lia].
  assert (length sl = f) as Hslf by lia.
  rewrite realloc_grow by (rewrite length_app; cbn [length]; lia).
  exists (sl ++ (garbage <$> seq (length (c ++ x00 :: sl)) (Z.to_nat (newlen + 1) - length (c ++ x00 :: sl)))).
  rewrite <- !app_assoc. cbn [app]. rewrite !length_app, !length_fmap, !length_seq. cbn [length].
  split; [f_equal; lia|]. lia.
Qed.

Lemma sdscatlen_holds s c t :
  holds s c -> Z.of_nat (length c + length t) < 2 ^ 30 ->
  exists s', sdscatlen garbage s t = Some s' /\ holds s' (c ++ t).
Proof.
  intros Hh Hb. unfold sdscatlen. rewrite (holds_sdslen s c Hh).
  destruct (sdsMakeRoomFor_holds s c (Z.of_nat (length t)) Hh) as [Hh1 Hf]; [lia..|].
  set (s1 := sdsMakeRoomFor _ _ _) in *. destruct Hh1 as (sl & -> & Hsl). cbn [free buf] in *.
  destruct (split_tail (x00 :: sl) (length t)) as (b & r & Er & Hbl); [cbn [length]; lia|]. rewrite Er.
  rewrite poke_at by done. cbn [mbind option_bind].
  assert (length (x00 :: sl) = length b + length r)%nat as Hlr by by rewrite Er, length_app.
  destruct r as [|x r]; [cbn [length] in *; lia|].
  replace (c ++ t ++ x :: r) with ((c ++ t) ++ [x] ++ r) by by rewrite <- app_assoc.
  replace (Z.of_nat (length c) + Z.of_nat (length t)) with (Z.of_nat (length (c ++ t))) by (rewrite length_app; lia).
  rewrite poke_at by done. cbn [mbind option_bind]. cbn [length] in Hlr.
  rewrite !i32_id by (unfold is_i32; rewrite ?length_app; lia).
  eexists. split; [done|]. exists r. split; [f_equal; lia|]. rewrite length_app. lia.
Qed.

Lemma sdscpylen_holds s c t :
  holds s c -> Z.of_nat (length t) < 2 ^ 29 -> Z.of_nat (length c) < 2 ^ 29 ->
  exists s', sdscpylen garbage s t = Some s' /\ holds s' t.
Proof.
  intros Hh Hb Hc. unfold sdscpylen.
  assert (exists s1 c1, (let '(s', totlen) := if u64 (free s + len s) <? Z.of_nat (length t)
      then (sdsMakeRoomFor garbage s (u64 (Z.of_nat (length t) - len s)),
            u64 (free (sdsMakeRoomFor garbage s (u64 (Z.of_nat (length t) - len s))) +
                 len (sdsMakeRoomFor garbage s (u64 (Z.of_nat (length t) - len s)))))
      else (s, u64 (free s + len s)) in (s', totlen)) = (s1, len s1 + free s1) /\
    holds s1 c1 /\ Z.of_nat (length t) <= len s1 + free s1) as (s1 & c1 & E & Hh1 & Hle).
  { destruct Hh as (sl & -> & Hsl). cbn [len free].
    rewrite (u64_id (Z.of_nat (length sl) + _)) by (unfold is_u64; lia).
    destruct (Z.ltb_spec (Z.of_nat (length sl) + Z.of_nat (length c)) (Z.of_nat (length t))) as [Hlt|Hge].
    - rewrite (u64_id (Z.of_nat (length t) - _)) by (unfold is_u64; lia).
      set (s0 := MkSds _ _ _). assert (holds s0 c) as H0 by by exists sl.
      destruct (sdsMakeRoomFor_holds s0 c (Z.of_nat (length t) - Z.of_nat (length c)) H0) as [Hh1 Hf]; [lia..|].
      set (s1 := sdsMakeRoomFor _ _ _) in *. exists s1, c. destruct Hh1 as (sl1 & E1 & Hsl1).
      rewrite E1 in Hf |- *. cbn [len free] in *. split_and!; [|by exists sl1|lia].
      rewrite u64_id by (unfold is_u64; lia). f_equal. lia.
    - eexists _, c. split_and!; [f_equal; cbn [len free]; lia|by exists sl|cbn [len free]; lia]. }
  destruct (if u64 (free s + len s) <? Z.of_nat (length t) then _ else _) as [s' totlen]. injection E as -> ->.
  destruct Hh1 as (sl & -> & Hsl). cbn [len free buf] in *.
  destruct (split_tail (c1 ++ x00 :: sl) (length t)) as (b & r & Er & Hbl); [rewrite length_app; cbn [length]; lia|].
  rewrite Er, poke_start by done. cbn [mbind option_bind].
  assert (length (c1 ++ x00 :: sl) = length b + length r)%nat as Hlr by by rewrite Er, length_app.
  rewrite length_app in Hlr. cbn [length] in Hlr. destruct r as [|x r]; [cbn [length] in *; lia|]. cbn [length] in Hlr.
  change (x :: r) with ([x] ++ r). rewrite poke_at by done. cbn [mbind option_bind].
  rewrite !i32_id by (unfold is_i32; lia). eexists. split; [done|]. exists r. split; [f_equal; lia|lia].
Qed.

Lemma sdsgrowzero_holds s c n :
  holds s c -> Z.of_nat (length c) < 2 ^ 29 -> n < 2 ^ 29 ->
  exists s', sdsgrowzero garbage s n = Some s' /\ holds s' (c ++ replicate (Z.to_nat n - length c) x00).
Proof.
  intros Hh Hc Hn. unfold sdsgrowzero. rewrite (holds_sdslen s c Hh).
  destruct (Z.leb_spec n (Z.of_nat (length c))) as [Hle|Hgt].
  { exists s. split; [done|]. replace (Z.to_nat n - length c)%nat with 0%nat by lia. by rewrite app_nil_r. }
  destruct (sdsMakeRoomFor_holds s c (n - Z.of_nat (length c)) Hh) as [Hh1 Hf]; [lia..|].
  set (s1 := sdsMakeRoomFor _ _ _) in *. destruct Hh1 as (sl & -> & Hsl). cbn [len free buf] in *.
  set (k := Z.to_nat (n - Z.of_nat (length c) + 1)).
  destruct (split_tail (x00 :: sl) k) as (b & r & Er & Hbl); [cbn [length]; lia|]. rewrite Er.
  rewrite poke_at by by rewrite length_replicate. cbn [mbind option_bind].
  assert (length (x00 :: sl) = length b + length r)%nat as Hlr by by rewrite Er, length_app. cbn [length] in Hlr.
  rewrite !i32_id by (unfold is_i32; rewrite ?i32_id by (unfold is_i32; lia); lia).
  eexists. split; [done|]. exists r. rewrite length_app, length_replicate. split; [|lia].
  replace k with (S (Z.to_nat n - length c)) by lia. rewrite replicate_S_end, <- !app_assoc. f_equal; lia.
Qed.

Lemma sdsclear_holds s c : holds s c -> exists s', sdsclear s = Some s' /\ holds s' [].
Proof.
  intros (sl & -> & Hsl). unfold sdsclear. cbn [buf free len].
  destruct (split_tail (c ++ x00 :: sl) 1) as (b & r & Er & Hbl); [rewrite length_app; cbn [length]; lia|].
  assert (length (c ++ x00 :: sl) = length b + length r)%nat as Hlr by by rewrite Er, length_app.
  rewrite length_app in Hlr. cbn [length] in Hlr. rewrite Er, poke_start by done. cbn [mbind option_bind].
  eexists. split; [done|]. exists r. cbn [length app]. split; [f_equal; lia|lia].
Qed.

Lemma cstr_tail c r : exists r', c ++ x00 :: r = cstr c ++ x00 :: r'.
Proof.
  induction c as [|x c [r' IH]]; [by exists r|]. cbn [cstr app]. case_decide as E; [subst; by eexists|].
  exists r'. cbn [app]. by rewrite IH.
Qed.

Lemma sdsupdatelen_holds s c : holds s c -> exists s', sdsupdatelen s = Some s' /\ holds s' (cstr c).
Proof.
  intros (sl & -> & Hsl). unfold sdsupdatelen. cbn [buf free len].
  rewrite bool_decide_true by (apply elem_of_app; right; by left). rewrite cstr_app_stop.
  destruct (cstr_tail c sl) as [r Er]. rewrite Er. apply (f_equal length) in Er. rewrite !length_app in Er. cbn [length] in Er.
  rewrite i32_id by (unfold is_i32; lia). eexists. split; [done|]. exists r. split; [f_equal; lia|lia].
Qed.

(** Moving a part of the string to the front and ending it there. *)
Lemma shrink_holds c sl (st n : nat) :
  (st + n <= length c)%nat -> Z.of_nat (length c + length sl) < 2 ^ 31 - 1 ->
  let b0 := c ++ x00 :: sl in
  forall moved : bool, (moved = false -> st = 0%nat \/ n = 0%nat) ->
  exists b1 b2,
    (if moved then poke b0 0 (take n (drop st b0)) else Some b0) = Some b1 /\
    poke b1 (Z.of_nat n) [x00] = Some b2 /\
    holds (MkSds (Z.of_nat n) (Z.of_nat (length sl) + (Z.of_nat (length c) - Z.of_nat n)) b2) (take n (drop st c)).
Proof.
  intros Hle Hb b0 moved Hmv.
  assert (exists r, (if moved then poke b0 0 (take n (drop st b0)) else Some b0) = Some (take n (drop st c) ++ r) /\
    length r = (length b0 - n)%nat) as (r & -> & Hr).
  { assert (take n (drop st b0) = take n (drop st c)) as Et.
    { subst b0. rewrite drop_app_le, take_app_le by (rewrite ?length_drop; lia). done. }
    destruct moved.
    - destruct (split_tail b0 n) as (b & r & Er & Hbl); [subst b0; rewrite length_app; lia|].
      exists r. rewrite Et. rewrite Er at 1. rewrite poke_start by (rewrite length_take, length_drop; lia).
      split; [done|]. rewrite Er, length_app. lia.
    - exists (drop n b0). rewrite length_drop. split; [|done]. f_equal. destruct (Hmv eq_refl) as [-> | ->].
      + change (drop 0 ?x) with x in *. by rewrite <- Et, take_drop.
      + done. }
  assert (length (take n (drop st c)) = n) as Hn by (rewrite length_take, length_drop; lia).
  subst b0. rewrite length_app in Hr. cbn [length] in Hr.
  destruct r as [|x r]; [cbn [length] in Hr; lia|]. cbn [length] in Hr.
  exists (take n (drop st c) ++ x :: r), (take n (drop st c) ++ x00 :: r). split; [done|].
  pose proof (poke_at (take n (drop st c)) [x00] [x] r eq_refl) as Hp. rewrite Hn in Hp.
  split; [exact Hp|]. exists r. rewrite Hn. split; [f_equal; lia|lia].
Qed.

(** *** Trimming *)

(** The string without its leading characters of the set. *)
Fixpoint trim_left (cset c : bytes) : bytes :=
  match c with
  | [] => []
  | x :: c' => if in_cset cset x then trim_left cset c' else c
  end.

Definition abs_trim (cset c : bytes) : bytes := reverse (trim_left cset (reverse (trim_left cset c))).

Lemma trim_left_drop cset c : trim_left cset c = drop (skip_left cset c) c.
Proof. induction c as [|x c IH]; [done|]. cbn. by destruct (in_cset cset x). Qed.

Lemma skip_left_le cset c : (skip_left cset c <= length c)%nat.
Proof. induction c as [|x c IH]; cbn; [lia|]. destruct (in_cset cset x); lia. Qed.

Lemma skip_left_app cset a b :
  skip_left cset (a ++ b) = if decide (skip_left cset a = length a) then (length a + skip_left cset b)%nat else skip_left cset a.
Proof.
  induction a as [|x a IH]; [done|]. cbn. destruct (in_cset cset x); [|done]. rewrite IH.
  pose proof (skip_left_le cset a). do 2 case_decide; lia.
Qed.

Lemma skip_right_left cset c e :
  (e < length c)%nat -> skip_right cset c e = (e - skip_left cset (reverse (take (S e) c)))%nat.
Proof.
  induction e as [|e IH]; intros He; [done|]. cbn [skip_right].
  assert (take (S (S e)) c = take (S e) c ++ [nth (S e) c x00]) as ->.
  { destruct (lookup_lt_is_Some_2 c (S e) He) as [y Hy]. rewrite (take_S_r c (S e) y Hy).
    by rewrite (nth_lookup_Some c (S e) x00 y Hy). }
  rewrite reverse_app. cbn [reverse app skip_left]. change (reverse [?y]) with [y]. cbn [app skip_left].
  destruct (in_cset cset (nth (S e) c x00)); [|lia]. rewrite IH by lia. lia.
Qed.

Lemma skip_left_reverse_all cset a :
  skip_left cset a = length a -> skip_left cset (reverse a) = length a.
Proof.
  induction a as [|x a IH]; [done|]. cbn [skip_left length]. destruct (in_cset cset x) eqn:Ex; [|done].
  intros [= Ha]. rewrite reverse_cons, skip_left_app, IH, length_reverse by done. rewrite decide_True by done.
  cbn [skip_left]. rewrite Ex. lia.
Qed.

Lemma skip_left_stop cset c x d : drop (skip_left cset c) c = x :: d -> in_cset cset x = false.
Proof.
  revert x d. induction c as [|y c IH]; [done|]. intros x d. cbn. destruct (in_cset cset y) eqn:Ey; [apply IH|].
  cbn. by intros [= <- _].
Qed.

(** The trailing characters of the set stop before what the leading ones left. *)
Lemma trailing_lt cset c :
  let i := skip_left cset c in
  i <> length c -> (skip_left cset (reverse (drop i c)) < length c - i)%nat.
Proof.
  intros i Hi. pose proof (skip_left_le cset c) as Hle. fold i in Hle.
  destruct (drop i c) as [|x d] eqn:Ed; [apply (f_equal length) in Ed; rewrite length_drop in Ed; cbn in Ed; lia|].
  pose proof (skip_left_stop cset c x d Ed) as Hx.
  rewrite reverse_cons, skip_left_app. cbn [skip_left]. rewrite Hx, length_reverse.
  pose proof (skip_left_le cset (reverse d)) as Hd. rewrite length_reverse in Hd.
  assert (length (x :: d) = length c - i)%nat as Hld by by rewrite <- Ed, length_drop. cbn [length] in Hld.
  case_decide; lia.
Qed.

(** The length the two scans of [sdstrim] leave. *)
Lemma trim_length cset c :
  let i := skip_left cset c in
  let k := skip_left cset (reverse (drop i c)) in
  let ep := if Z.of_nat (length c) =? 0 then -1 else Z.of_nat (skip_right cset c (length c - 1)) in
  (if ep <? Z.of_nat i then 0 else ep - Z.of_nat i + 1) = Z.of_nat (length c - i - k).
Proof.
  intros i k ep. subst ep. pose proof (skip_left_le cset c) as Hi. fold i in Hi.
  destruct (Z.eqb_spec (Z.of_nat (length c)) 0) as [E|E]; [destruct (Z.ltb_spec (-1) (Z.of_nat i)); lia|].
  rewrite skip_right_left, take_ge by lia.
  assert (reverse c = reverse (drop i c) ++ reverse (take i c)) as -> by by rewrite <- reverse_app, take_drop.
  rewrite skip_left_app. fold k. rewrite length_reverse, length_drop. destruct (decide (i = length c)) as [Ei|Ei].
  - assert (k = 0%nat) as Hk by (subst k; by rewrite Ei, drop_ge). rewrite decide_True by lia.
    assert (skip_left cset (reverse (take i c)) = length c) as ->.
    { rewrite Ei, take_ge by done. by apply skip_left_reverse_all. }
    destruct (Z.ltb_spec (Z.of_nat (length c - 1 - (length c - i + length c))) (Z.of_nat i)); lia.
  - pose proof (trailing_lt cset c Ei) as Hlt. fold i k in Hlt. rewrite decide_False by lia.
    destruct (Z.ltb_spec (Z.of_nat (length c - 1 - k)) (Z.of_nat i)); lia.
Qed.

Lemma abs_trim_take cset c :
  let i := skip_left cset c in
  abs_trim cset c = take (length c - i - skip_left cset (reverse (drop i c))) (drop i c).
Proof. intros i. unfold abs_trim. rewrite !trim_left_drop. fold i. by rewrite reverse_drop, reverse_involutive, length_reverse, length_drop. Qed.

Lemma sdstrim_holds s c cset : holds s c -> exists s', sdstrim s cset = Some s' /\ holds s' (abs_trim cset c).
Proof.
  intros Hh. unfold sdstrim. rewrite (holds_contents s c Hh). destruct Hh as (sl & -> & Hsl). cbn [len free buf].
  rewrite Nat2Z.id, trim_length, abs_trim_take, !Nat2Z.id. pose proof (skip_left_le cset c) as Hi.
  set (i := skip_left cset c) in *. set (k := skip_left cset (reverse (drop i c))).
  destruct (shrink_holds c sl i (length c - i - k) ltac:(lia) Hsl (negb (Z.of_nat i =? 0))) as (b1 & b2 & E1 & E2 & Hh).
  { destruct (Z.eqb_spec (Z.of_nat i) 0); [left; lia|done]. }
  destruct (Z.of_nat i =? 0); cbn [negb] in E1; rewrite E1; cbn [mbind option_bind]; rewrite E2; cbn [mbind option_bind]; by eexists.
Qed.

(** *** Ranges *)

(** An index from the end when negative. *)
Definition from_end (n i : Z) : Z := if i <? 0 then Z.max 0 (n + i) else i.

(** The characters from [start] to [end_], both included. *)
Definition abs_range (start end_ : Z) (c : bytes) : bytes :=
  let n := Z.of_nat (length c) in
  let a := from_end n start in
  take (Z.to_nat (from_end n end_ + 1 - a)) (drop (Z.to_nat a) c).

Lemma take_drop_cap {A} (c : list A) (a n m : nat) :
  (length c - a <= n)%nat -> (length c - a <= m)%nat -> take n (drop a c) = take m (drop a c).
Proof. intros Hn Hm. by rewrite !take_ge by (rewrite length_drop; lia). Qed.

Lemma sdsrange_holds s c start end_ :
  holds s c -> is_i32 start -> is_i32 end_ -> end_ < INT_MAX ->
  exists s', sdsrange s start end_ = Some s' /\ holds s' (abs_range start end_ c).
Proof.
  intros Hh Hs He Hmax. unfold sdsrange. rewrite (holds_sdslen s c Hh). unfold abs_range, is_i32, INT_MAX in *.
  destruct (Z.eqb_spec (Z.of_nat (length c)) 0) as [E|E].
  { exists s. split; [done|]. destruct c; [|done]. by rewrite drop_nil, take_nil. }
  destruct Hh as (sl & -> & Hsl). cbn [len free buf]. set (n := Z.of_nat (length c)) in *.
  assert (forall i, - 2 ^ 31 <= i < 2 ^ 31 -> (if i <? 0 then if i32 (n + i) <? 0 then 0 else i32 (n + i) else i) = from_end n i) as Hfix.
  { intros i Hi. unfold from_end. destruct (Z.ltb_spec i 0); [|done]. rewrite i32_id by (unfold is_i32; lia).
    destruct (Z.ltb_spec (n + i) 0); lia. }
  rewrite !Hfix by lia. assert (forall i, - 2 ^ 31 <= i < 2 ^ 31 -> 0 <= from_end n i < 2 ^ 31) as Hr.
  { intros i Hi. unfold from_end. destruct (Z.ltb_spec i 0); lia. }
  pose proof (Hr start ltac:(lia)) as Ha. pose proof (Hr end_ ltac:(lia)) as Hb.
  assert (from_end n end_ < 2 ^ 31 - 1) as Hb' by (unfold from_end; destruct (Z.ltb_spec end_ 0); lia).
  set (a := from_end n start) in *. set (b := from_end n end_) in *.
  destruct (Z.ltb_spec (2 ^ 31 - 1) (b - a + 1)); [lia|]. rewrite andb_false_r.
  set (p := if (if b <? a then 0 else b - a + 1) =? 0 then _ else _).
  assert (exists st m : nat, p = (Z.of_nat st, Z.of_nat m) /\ (m = 0%nat \/ st + m <= length c)%nat /\
    take m (drop st c) = take (Z.to_nat (b + 1 - a)) (drop (Z.to_nat a) c)) as (st & m & -> & Hle & Et).
  { subst p. destruct (Z.ltb_spec b a); cbn [Z.eqb].
    { exists 0%nat, 0%nat. split; [done|]. split; [lia|]. by replace (Z.to_nat (b + 1 - a)) with 0%nat by lia. }
    destruct (Z.eqb_spec (b - a + 1) 0); [lia|]. destruct (Z.leb_spec n a).
    { exists (Z.to_nat a), 0%nat. split; [f_equal; lia|]. split; [lia|]. by rewrite (drop_ge c (Z.to_nat a)), !take_nil by lia. }
    destruct (Z.leb_spec n b).
    - destruct (Z.ltb_spec (n - 1) a); [lia|]. exists (Z.to_nat a), (Z.to_nat (n - a)).
      split; [f_equal; lia|]. split; [lia|]. apply take_drop_cap; lia.
    - exists (Z.to_nat a), (Z.to_nat (b + 1 - a)). split; [f_equal; lia|]. split; [lia|done]. }
  rewrite <- Et, !Nat2Z.id.
  assert (exists st' : nat, (st' + m <= length c)%nat /\ take m (drop st' c) = take m (drop st c) /\ (m <> 0%nat -> st' = st)) as (st' & Hle' & <- & Hst).
  { destruct (decide (m = 0%nat)) as [->|]; [exists 0%nat; split; [lia|done]|exists st; split; [lia|done]]. }
  destruct (shrink_holds c sl st' m Hle' Hsl (negb ((Z.of_nat st =? 0) || (Z.of_nat m =? 0)))) as (b1 & b2 & E1 & E2 & Hh).
  { destruct (Z.eqb_spec (Z.of_nat m) 0); [right; lia|]. destruct (Z.eqb_spec (Z.of_nat st) 0); [left; rewrite Hst; lia|done]. }
  exists (MkSds (Z.of_nat m) (Z.of_nat (length sl) + (n - Z.of_nat m)) b2). split; [|done].
  destruct (Z.eqb_spec (Z.of_nat st) 0), (Z.eqb_spec (Z.of_nat m) 0); cbn [orb negb] in *;
    try (injection E1 as <-; cbn [mbind option_bind]; by rewrite E2).
  rewrite <- Hst, E1 by lia. cbn [mbind option_bind]. by rewrite E2.
Qed.

Lemma map_contents_holds f s c : holds s c -> holds (map_contents f s) (f <$> c).
Proof.
  intros Hh. unfold map_contents. rewrite (holds_contents s c Hh). destruct Hh as (sl & -> & Hsl). cbn [len free buf].
  rewrite Nat2Z.id, drop_app_length. exists sl. by rewrite length_fmap.
Qed.

Lemma sdsRemoveFreeSpace_holds s c : holds s c -> holds (sdsRemoveFreeSpace garbage s) c.
Proof.
  intros (sl & -> & Hsl). unfold sdsRemoveFreeSpace, realloc. cbn [len buf].
  replace (Z.to_nat (Z.of_nat (length c) + 1)) with (length c + 1)%nat by lia.
  rewrite take_app_add, length_app. cbn [length].
  replace (length c + 1 - (length c + S (length sl)))%nat with 0%nat by lia.
  exists []. split; [|cbn [length]; lia]. by rewrite app_nil_r.
Qed.

(** ** The contract *)

Inductive sdsop :=
| OCatLen (t : bytes) | OCat (t : bytes) | OCpyLen (t : bytes) | OCpy (t : bytes)
| OGrowZero (n : Z) | OClear | OUpdateLen | OTrim (cset : bytes) | ORange (start end_ : Z)
| OLower | OUpper | OMapChars (from to : bytes) | OMakeRoom (n : Z) | ORemoveFree.

Definition sds_run (s : sdshdr) (o : sdsop) : option sdshdr :=
  match o with
  | OCatLen t => sdscatlen garbage s t
  | OCat t => sdscat garbage s t
  | OCpyLen t => sdscpylen garbage s t
  | OCpy t => sdscpy garbage s t
  | OGrowZero n => sdsgrowzero garbage s n
  | OClear => sdsclear s
  | OUpdateLen => sdsupdatelen s
  | OTrim cset => sdstrim s cset
  | ORange a b => sdsrange s a b
  | OLower => Some (sdstolower s)
  | OUpper => Some (sdstoupper s)
  | OMapChars from to => Some (sdsmapchars s from to)
  | OMakeRoom n => Some (sdsMakeRoomFor garbage s n)
  | ORemoveFree => Some (sdsRemoveFreeSpace garbage s)
  end.

(** What each does to the byte string. *)
Definition sds_abs (c : bytes) (o : sdsop) : bytes :=
  match o with
  | OCatLen t => c ++ t
  | OCat t => c ++ cstr t
  | OCpyLen t => t
  | OCpy t => cstr t
  | OGrowZero n => c ++ replicate (Z.to_nat n - length c) x00
  | OClear => []
  | OUpdateLen => cstr c
  | OTrim cset => abs_trim cset c
  | ORange a b => abs_range a b c
  | OLower => tolower <$> c
  | OUpper => toupper <$> c
  | OMapChars from to => map_char from to <$> c
  | OMakeRoom _ | ORemoveFree => c
  end.

(** Sizes stay below half a gigabyte, indexes are [int]s below [INT_MAX]. *)
Definition sds_fits (c : bytes) (o : sdsop) : Prop :=
  Z.of_nat (length c) < 2 ^ 29 /\
  match o with
  | OCatLen t | OCat t | OCpyLen t | OCpy t => Z.of_nat (length t) < 2 ^ 29
  | OGrowZero n => n < 2 ^ 29
  | ORange a b => is_i32 a /\ is_i32 b /\ b < INT_MAX
  | OMakeRoom n => 0 <= n < 2 ^ 29
  | _ => True
  end.

Lemma sds_run_holds s c o :
  holds s c -> sds_fits c o -> exists s', sds_run s o = Some s' /\ holds s' (sds_abs c o).
Proof.
  intros Hh [Hc Ho]. destruct o as [t|t|t|t|n| | |cset|a b| | |from to|n|]; cbn [sds_run sds_abs] in *.
  - apply sdscatlen_holds; [done|lia].
  - apply sdscatlen_holds; [done|]. pose proof (length_cstr t). lia.
  - by eapply sdscpylen_holds.
  - eapply sdscpylen_holds; [done| |done]. pose proof (length_cstr t). lia.
  - by apply sdsgrowzero_holds.
  - by eapply sdsclear_holds.
  - by apply sdsupdatelen_holds.
  - by apply sdstrim_holds.
  - destruct Ho as (H1 & H2 & H3). by apply sdsrange_holds.
  - eexists. split; [done|]. by apply map_contents_holds.
  - eexists. split; [done|]. by apply map_contents_holds.
  - eexists. split; [done|]. by apply map_contents_holds.
  - eexists. split; [done|]. apply sdsMakeRoomFor_holds; [done|lia..].
  - eexists. split; [done|]. by apply sdsRemoveFreeSpace_holds.
Qed.

Fixpoint sds_runs (s : sdshdr) (os : list sdsop) : option sdshdr :=
  match os with [] => Some s | o :: os => s ← sds_run s o; sds_runs s os end.

Fixpoint sds_fit (c : bytes) (os : list sdsop) : Prop :=
  match os with [] => True | o :: os => sds_fits c o /\ sds_fit (sds_abs c o) os end.

(** C32. Any sequence of operations on a string made by [sdsnewlen], with lengths below
    2^29 and [int] indexes of which the end of a range is below [INT_MAX]
    ([sds_fit]), whatever the
    memory [realloc] gives, stays within the allocation and leaves the bytes the
    same sequence leaves on a plain byte string, NUL terminated, with the length
    and the free space the header says. *)
Theorem sds_refines_bytes c os :
  Z.of_nat (length c) < 2 ^ 29 -> sds_fit c os ->
  exists s s', sdsnewlen (Some c) (length c) = Some s /\ sds_runs s os = Some s' /\
    contents s' = foldl sds_abs c os /\ sdslen s' = Z.of_nat (length (foldl sds_abs c os)) /\
    buf s' !! Z.to_nat (len s') = Some x00 /\ sdsAllocSize s' = 8 + Z.of_nat (length (buf s')).
Proof.
  intros Hc Hfit. destruct (sdsnewlen_holds c ltac:(lia)) as (s & E & Hh). exists s.
  assert (exists s', sds_runs s os = Some s' /\ holds s' (foldl sds_abs c os)) as (s' & E' & Hh').
  { clear E Hc. revert s c Hh Hfit. induction os as [|o os IH]; intros s c Hh Hfit; [by exists s|].
    destruct Hfit as [Ho Hfit]. cbn [sds_runs foldl]. destruct (sds_run_holds s c o Hh Ho) as (s1 & -> & Hh1).
    by apply (IH s1). }
  exists s'. split; [done|]. split; [done|]. split; [by apply holds_contents|]. split; [by apply holds_sdslen|].
  destruct Hh' as (sl & -> & Hsl). unfold sdsAllocSize. cbn [len free buf]. rewrite Nat2Z.id. split.
  - by rewrite list_lookup_middle.
  - rewrite length_app. cbn [length]. lia.
Qed.

End Operations.

Definition demo_sdsops : list sdsop :=
  [OCatLen (lit " World!  "); OTrim (lit "! "); ORange 1 (-2); OUpper; OMapChars (lit "EO") (lit "30"); OGrowZero 10].

Lemma sds_refines_bytes_witness :
  exists s s', sdsnewlen (Some (lit "Hello")) 5 = Some s /\ sds_runs (fun _ => xff) s demo_sdsops = Some s' /\
    contents s' = lit "3LL0 W0RL" ++ [x00].
Proof.
  destruct (sds_refines_bytes (fun _ => xff) (lit "Hello") demo_sdsops) as (s & s' & E & E' & Hc & _).
  - cbn. lia.
  - repeat split; vm_compute; try reflexivity; discriminate.
  - exists s, s'. split; [exact E|]. split; [exact E'|]. rewrite Hc. vm_compute. reflexivity.
Defined.

(** The example in the comment before [sdstrim], whose output is said to be
    "Hello World": trimming stops at the first character that is not in the set. *)
Theorem sdstrim_example :
  (s ← sdsnew (Some (lit "AA...AA.a.aa.aHelloWorld     :::")); s ← sdstrim s (lit "A. :"); Some (contents s))
  = Some (lit "a.aa.aHelloWorld").
Proof. vm_compute. reflexivity. Qed.

(** ** Quoting and reading back *)

(** What [sdscatrepr] writes for a character. *)
Definition repr_char (c : byte) : bytes :=
  if decide (c = backslash \/ c = quote) then [backslash; c]
  else if decide (c = x0a) then [backslash; "n"%byte]
  else if decide (c = x0d) then [backslash; "r"%byte]
  else if decide (c = x09) then [backslash; "t"%byte]
  else if decide (c = x07) then [backslash; "a"%byte]
  else if decide (c = x08) then [backslash; "b"%byte]
  else if isprint c then [c]
  else [backslash; "x"%byte; hex_lower (bz c / 16); hex_lower (bz c mod 16)].

Definition repr (a : bytes) : bytes := quote :: concat (repr_char <$> a) ++ [quote].

Lemma repr_char_length c : (1 <= length (repr_char c) <= 4)%nat.
Proof. unfold repr_char. repeat case_decide; cbn [length]; try lia. destruct (isprint c); cbn [length]; lia. Qed.

Lemma repr_char_no_nul c : Forall (fun b => b <> x00) (repr_char c).
Proof. destruct c; vm_compute; repeat constructor; discriminate. Qed.

(** A turn of the tokenizer reads one character back. *)
Lemma token_repr_char f c rest cur :
  token_loop (S f) InQuotes (repr_char c ++ rest) cur = token_loop f InQuotes rest (cur ++ [c]).
Proof. destruct c; reflexivity. Qed.

Lemma token_repr a : forall f rest cur,
  token_loop (length a + S f) InQuotes (concat (repr_char <$> a) ++ quote :: rest) cur
  = if closes (quote :: rest) then Some (cur ++ a, rest) else None.
Proof.
  induction a as [|c a IH]; intros f rest cur.
  - cbn [fmap list_fmap concat app length Nat.add]. rewrite app_nil_r. reflexivity.
  - cbn [fmap list_fmap concat length Nat.add]. rewrite <- app_assoc, token_repr_char, IH, <- app_assoc. done.
Qed.

Lemma concat_repr_length a : (length a <= length (concat (repr_char <$> a)))%nat.
Proof.
  induction a as [|c a IH]; cbn [fmap list_fmap concat length]; [lia|]. rewrite length_app.
  pose proof (repr_char_length c). lia.
Qed.

(** The text of several arguments, each followed by a blank. *)
Definition repr_line (args : list bytes) : bytes := concat ((fun a => repr a ++ [x20]) <$> args).

Lemma args_loop_repr args : forall f vector,
  (length args < f)%nat -> args_loop f (repr_line args) vector = Some (vector ++ args) /\
  args_loop f (x20 :: repr_line args) vector = Some (vector ++ args).
Proof.
  induction args as [|a args IH]; intros f vector Hf; (destruct f as [|f]; [cbn in Hf; lia|]).
  { unfold repr_line. cbn. by rewrite app_nil_r. }
  assert (forall p, skip_space p = repr_line (a :: args) -> args_loop (S f) p vector = Some (vector ++ a :: args)) as Hstep.
  { intros p Hp. cbn [args_loop]. rewrite Hp. unfold repr_line. cbn [fmap list_fmap concat]. fold (repr_line args).
    unfold repr. cbn [app]. rewrite <- !app_assoc. cbn [app]. set (l := concat (repr_char <$> a)).
    set (p1 := quote :: l ++ quote :: x20 :: repr_line args).
    assert (exists k, S (length p1) = S (length a + S k)) as [k ->].
    { exists (length p1 - length a - 1)%nat. subst p1. cbn [length]. rewrite length_app.
      pose proof (concat_repr_length a). subst l. lia. }
    change (token_loop (S ?n) Plain p1 []) with (token_loop n InQuotes (l ++ quote :: x20 :: repr_line args) []).
    subst l. rewrite token_repr. change (closes (quote :: x20 :: repr_line args)) with true. cbn [mbind option_bind app].
    cbn [length] in Hf. destruct (IH f (vector ++ [a]) ltac:(lia)) as [_ ->]. by rewrite <- app_assoc. }
  split; apply Hstep; reflexivity.
Qed.

Lemma repr_line_no_nul args : Forall (fun b => b <> x00) (repr_line args).
Proof.
  unfold repr_line. induction args as [|a args IH]; cbn [fmap list_fmap concat]; [constructor|].
  apply Forall_app. split; [|exact IH]. apply Forall_app. split; [|by repeat constructor].
  unfold repr. apply Forall_cons_2; [done|]. apply Forall_app. split; [|by repeat constructor].
  induction a as [|c a IHa]; cbn [fmap list_fmap concat]; [constructor|]. apply Forall_app. split; [apply repr_char_no_nul|done].
Qed.

Lemma repr_line_length args : (length args <= length (repr_line args))%nat.
Proof.
  unfold repr_line. induction args as [|a args IH]; cbn [fmap list_fmap concat length]; [lia|].
  rewrite !length_app. cbn [length]. lia.
Qed.

Section Repr.
Context (garbage : nat -> byte).

(** Formatted text without NUL arrives whole. *)
Lemma vprintf_loop_text fuel buflen text :
  Forall (fun b => b <> x00) text -> (2 <= buflen)%nat -> (length text <= fuel + buflen - 2)%nat ->
  vprintf_loop fuel buflen text = text.
Proof.
  intros Hn. revert buflen. induction fuel as [|fuel IH]; intros buflen Hb Hl; cbn [vprintf_loop].
  { rewrite take_ge by lia. by apply cstr_id. }
  case_bool_decide as Hx; [apply IH; lia|].
  destruct (decide (buflen - 2 < length text)%nat) as [Hlt|]; [|rewrite take_ge by lia; by apply cstr_id].
  destruct (lookup_lt_is_Some_2 text (buflen - 2) Hlt) as [y Hy].
  rewrite (nth_lookup_Some text _ x00 y Hy) in Hx. subst y. exfalso. by eapply (Forall_lookup_1 _ _ _ _ Hn Hy).
Qed.

Lemma sdscatvprintf_text s text :
  Forall (fun b => b <> x00) text -> sdscatvprintf garbage s text = sdscatlen garbage s text.
Proof.
  intros Hn. unfold sdscatvprintf, sdscat. rewrite vprintf_loop_text by (done || lia). by rewrite cstr_id.
Qed.

Lemma cat_repr_char_cat s c : cat_repr_char garbage s c = sdscatlen garbage s (repr_char c).
Proof.
  pose proof (repr_char_no_nul c) as Hn. unfold cat_repr_char, repr_char in *.
  repeat case_decide; try done; try (by apply sdscatvprintf_text).
  destruct (isprint c); by apply sdscatvprintf_text.
Qed.

Lemma cat_repr_loop_holds p : forall s c,
  holds s c -> Z.of_nat (length (c ++ concat (repr_char <$> p))) < 2 ^ 30 ->
  exists s', cat_repr_loop garbage s p = Some s' /\ holds s' (c ++ concat (repr_char <$> p)).
Proof.
  induction p as [|b p IH]; intros s c Hh Hl; cbn [cat_repr_loop fmap list_fmap concat] in *.
  { exists s. by rewrite app_nil_r. }
  rewrite cat_repr_char_cat. rewrite !length_app in Hl.
  destruct (sdscatlen_holds garbage s c (repr_char b) Hh) as (s1 & -> & Hh1); [lia|]. cbn [mbind option_bind].
  destruct (IH s1 (c ++ repr_char b) Hh1) as (s2 & -> & Hh2); [rewrite !length_app; lia|].
  exists s2. by rewrite app_assoc.
Qed.

Lemma sdscatrepr_holds s c p :
  holds s c -> Z.of_nat (length (c ++ repr p)) < 2 ^ 30 ->
  exists s', sdscatrepr garbage s p = Some s' /\ holds s' (c ++ repr p).
Proof.
  intros Hh Hl. unfold sdscatrepr, repr in *. rewrite length_app in Hl. cbn [length] in Hl. rewrite length_app in Hl. cbn [length] in Hl.
  destruct (sdscatlen_holds garbage s c [quote] Hh) as (s1 & -> & Hh1); [cbn [length]; lia|]. cbn [mbind option_bind].
  destruct (cat_repr_loop_holds p s1 (c ++ [quote]) Hh1) as (s2 & -> & Hh2); [rewrite !length_app; cbn [length]; lia|].
  cbn [mbind option_bind].
  destruct (sdscatlen_holds garbage s2 _ [quote] Hh2) as (s3 & -> & Hh3); [rewrite !length_app; cbn [length]; lia|].
  exists s3. split; [done|]. rewrite <- !app_assoc in Hh3. exact Hh3.
Qed.

(** Quoted arguments one after the other on a line. *)
Fixpoint quote_args (s : sdshdr) (args : list bytes) : option sdshdr :=
  match args with
  | [] => Some s
  | a :: args =>
      s ← sdscatrepr garbage s a;
      s ← sdscatlen garbage s [x20];
      quote_args s args
  end.

(** C33. [sdssplitargs] reads back what [sdscatrepr] wrote: any list of binary
    strings, quoted one after the other on a line, is split into the same
    strings. *)
Theorem repr_splitargs_roundtrip args :
  Z.of_nat (length (repr_line args)) < 2 ^ 30 ->
  exists s s', sdsempty = Some s /\ quote_args s args = Some s' /\ sdssplitargs (contents s') = Some args.
Proof.
  intros Hl. destruct (sdsnewlen_holds [] ltac:(cbn; lia)) as (s & E & Hh). exists s.
  assert (forall c s, holds s c -> Z.of_nat (length (c ++ repr_line args)) < 2 ^ 30 ->
    exists s', quote_args s args = Some s' /\ holds s' (c ++ repr_line args)) as Hq.
  { clear. induction args as [|a args IH]; intros c s Hh Hl; cbn [quote_args].
    { exists s. unfold repr_line. cbn. by rewrite app_nil_r. }
    unfold repr_line in *. cbn [fmap list_fmap concat] in *. fold (repr_line args) in *.
    rewrite !app_assoc in Hl. rewrite length_app, length_app in Hl. cbn [length] in Hl.
    destruct (sdscatrepr_holds s c a Hh) as (s1 & -> & Hh1); [lia|]. cbn [mbind option_bind].
    destruct (sdscatlen_holds garbage s1 _ [x20] Hh1) as (s2 & -> & Hh2); [cbn [length]; lia|]. cbn [mbind option_bind].
    destruct (IH _ s2 Hh2) as (s3 & -> & Hh3); [rewrite !length_app in *; cbn [length]; lia|].
    exists s3. split; [done|]. by rewrite <- !app_assoc in *. }
  destruct (Hq [] s Hh Hl) as (s' & E' & Hh'). exists s'. split; [exact E|]. split; [exact E'|].
  rewrite (holds_contents _ _ Hh'). cbn [app]. unfold sdssplitargs. rewrite cstr_id by apply repr_line_no_nul.
  pose proof (repr_line_length args). apply (args_loop_repr args (S (length (repr_line args))) []). lia.
Qed.

End Repr.

Lemma repr_splitargs_roundtrip_witness :
  exists s s', sdsempty = Some s /\ quote_args (fun _ => xff) s [lit "set"; [x00; xff; x22]; []] = Some s' /\
    sdssplitargs (contents s') = Some [lit "set"; [x00; xff; x22]; []].
Proof. apply (repr_splitargs_roundtrip (fun _ => xff) [lit "set"; [x00; xff; x22]; []]). vm_compute. reflexivity. Defined.


(** ** Splitting and joining back *)

(** The text [join_loop] leaves. *)
Fixpoint joined (sep : bytes) (ts : list bytes) : bytes :=
  match ts with
  | [] => []
  | [t] => t
  | t :: ts => t ++ sep ++ joined sep ts
  end.

Lemma joined_cons sep t ts : ts <> [] -> joined sep (t :: ts) = t ++ sep ++ joined sep ts.
Proof. by destruct ts. Qed.

(** No occurrence of [sep] in [t]. *)
Definition sep_free (sep t : bytes) : Prop := forall a b, t <> a ++ sep ++ b.

Lemma join_loop_holds garbage sep ts : forall s c,
  holds s c -> Z.of_nat (length (c ++ joined sep ts)) < 2 ^ 30 ->
  exists s', join_loop garbage s ts sep = Some s' /\ holds s' (c ++ joined sep ts).
Proof.
  induction ts as [|t ts IH]; intros s c Hh Hl; cbn [join_loop].
  { exists s. by rewrite app_nil_r. }
  destruct ts as [|t' ts].
  { cbn [joined] in *. rewrite length_app in Hl.
    destruct (sdscatlen_holds garbage s c t Hh ltac:(lia)) as (s1 & -> & Hh1). by exists s1. }
  rewrite joined_cons in * by done. rewrite !length_app in Hl.
  destruct (sdscatlen_holds garbage s c t Hh ltac:(lia)) as (s1 & -> & Hh1). cbn [mbind option_bind].
  destruct (sdscatlen_holds garbage s1 (c ++ t) sep Hh1) as (s2 & -> & Hh2); [rewrite !length_app; lia|].
  cbn [mbind option_bind]. destruct (IH s2 _ Hh2) as (s3 & -> & Hh3); [rewrite !length_app; lia|].
  exists s3. by rewrite <- !app_assoc in Hh3.
Qed.

(** No occurrence of the separator starts between [start] and [j]. *)
Definition unseen (s sep : bytes) (start j : nat) : Prop :=
  forall k, (start <= k < j)%nat -> is_prefix sep (drop k s) = false.

Lemma sep_free_token s sep start j :
  sep <> [] -> unseen s sep start j -> sep_free sep (take (j - start) (drop start s)).
Proof.
  intros Hsep Hu a b E.
  assert (is_prefix sep (drop (start + length a) s) = false) as Hp.
  { apply Hu. apply (f_equal length) in E. rewrite length_take, !length_app in E.
    destruct sep; [done|]. cbn [length] in E. lia. }
  apply (f_equal (drop (length a))) in E. rewrite drop_app_length, skipn_firstn_comm, drop_drop in E.
  rewrite <- (take_drop (j - start - length a) (drop (start + length a) s)), E, <- app_assoc, is_prefix_self in Hp. done.
Qed.

Lemma split_loop_spec s sep : sep <> [] -> forall fuel j start,
  (start <= j <= length s)%nat -> (length s - j < fuel)%nat -> unseen s sep start j ->
  split_loop fuel s sep j start <> [] /\ joined sep (split_loop fuel s sep j start) = drop start s /\
  Forall (sep_free sep) (split_loop fuel s sep j start).
Proof.
  intros Hsep. assert (1 <= length sep)%nat as Hs1 by (destruct sep; [done|cbn; lia]).
  induction fuel as [|fuel IH]; intros j start Hj Hf Hu; [lia|]. cbn [split_loop].
  destruct (Z.ltb_spec (Z.of_nat j) (Z.of_nat (length s) - (Z.of_nat (length sep) - 1))) as [Hlt|Hge].
  - destruct (is_prefix sep (drop j s)) eqn:E.
    + apply is_prefix_drop in E. rewrite drop_drop in E.
      destruct (IH (j + length sep)%nat (j + length sep)%nat) as (Hne & Hjn & Hfa); [lia|lia|intros k; lia|].
      split; [done|]. split; [|by constructor; [apply sep_free_token|]].
      rewrite joined_cons, Hjn, <- E by done. rewrite <- (take_drop (j - start) (drop start s)) at 2.
      rewrite drop_drop. do 2 f_equal. lia.
    + apply IH; [lia|lia|]. intros k Hk. destruct (decide (k = j)) as [->|]; [done|]. apply Hu. lia.
  - cbn [joined]. split; [done|]. split; [by rewrite take_ge by (rewrite length_drop; lia)|].
    constructor; [|constructor]. apply sep_free_token; [done|]. intros k Hk.
    destruct (decide (k < j)%nat); [apply Hu; lia|].
    destruct (is_prefix sep (drop k s)) eqn:E; [|done]. apply is_prefix_drop in E.
    apply (f_equal length) in E. rewrite length_app, length_drop in E. lia.
Qed.

Lemma new_tokens_hold ts :
  Forall (fun t => Z.of_nat (length t) < 2 ^ 31 - 1) ts ->
  exists tokens, mapM (fun t => sdsnewlen (Some t) (length t)) ts = Some tokens /\ Forall2 holds tokens ts.
Proof.
  induction 1 as [|t ts Ht _ (tokens & E & IH)]; [by exists []|]. destruct (sdsnewlen_holds t Ht) as (h & Eh & Hh).
  exists (h :: tokens). cbn [mapM]. rewrite Eh, E. by split; [|constructor].
Qed.

Lemma joined_length sep ts t : t ∈ ts -> (length t <= length (joined sep ts))%nat.
Proof.
  induction ts as [|u ts IH]; intros Hin; [by apply not_elem_of_nil in Hin|].
  destruct ts as [|u' ts]; [apply list_elem_of_singleton in Hin as ->; done|].
  rewrite joined_cons, !length_app by done. apply elem_of_cons in Hin as [->|Hin]; [lia|]. specialize (IH Hin). lia.
Qed.

(** Splitting is undone by joining: [sdssplitlen] cuts any non-empty string at
    every occurrence of the separator, so that no token holds one, and
    [sdsjoinsds] of the tokens gives the string back. *)
Theorem split_join_roundtrip garbage s sep :
  s <> [] -> sep <> [] -> Z.of_nat (length s) < 2 ^ 30 ->
  exists tokens j, sdssplitlen s sep = Some tokens /\ sdsjoinsds garbage tokens sep = Some j /\
    contents j = s /\ Forall (fun t => sep_free sep (contents t)) tokens.
Proof.
  intros Hs Hsep Hl. unfold sdssplitlen. set (ts := split_loop (S (length s)) s sep 0 0).
  destruct (split_loop_spec s sep Hsep (S (length s)) 0 0) as (_ & Hj & Hfree); [lia|lia|intros k; lia|].
  fold ts in Hj, Hfree. rewrite drop_0 in Hj.
  destruct (new_tokens_hold ts) as (tokens & E & Hh).
  { apply Forall_forall. intros t Ht. apply (joined_length sep) in Ht. rewrite Hj in Ht. lia. }
  destruct (Nat.ltb_spec (length sep) 1); [destruct sep; [done|cbn in *; lia]|].
  destruct (Nat.eqb_spec (length s) 0); [by destruct s|]. exists tokens.
  destruct (sdsnewlen_holds [] ltac:(cbn; lia)) as (e & Ee & He).
  destruct (join_loop_holds garbage sep ts e [] He) as (j & Ej & Hhj); [by rewrite Hj|].
  assert ((fun t => take (Z.to_nat (sdslen t)) (buf t)) <$> tokens = ts) as Et.
  { clear -Hh. induction Hh as [|h t hs ts Hh _ IH]; [done|]. cbn [fmap list_fmap]. f_equal; [|exact IH].
    rewrite (holds_sdslen h t Hh). destruct Hh as (sl & -> & _). cbn [buf]. by rewrite Nat2Z.id, take_app_length. }
  exists j. split; [done|]. unfold sdsjoinsds, sdsempty. cbn [length] in Ee. rewrite Ee, Et. cbn [mbind option_bind].
  split; [done|]. split; [rewrite (holds_contents _ _ Hhj); exact Hj|].
  clear -Hh Hfree. induction Hh as [|h t hs ts Hh _ IH]; [constructor|]. inversion_clear Hfree.
  constructor; [by rewrite (holds_contents _ _ Hh)|by apply IH].
Qed.

Lemma split_join_roundtrip_witness :
  exists tokens j, sdssplitlen (lit "foo_-_bar__-_") (lit "_-_") = Some tokens /\
    sdsjoinsds (fun _ => xff) tokens (lit "_-_") = Some j /\ contents j = lit "foo_-_bar__-_".
Proof.
  destruct (split_join_roundtrip (fun _ => xff) (lit "foo_-_bar__-_") (lit "_-_")) as (t & j & H1 & H2 & H3 & _);
    [discriminate|discriminate|vm_compute; reflexivity|].
  exists t, j. exact (conj H1 (conj H2 H3)).
Defined.

(** ** Order and numbers *)

(** [sdscmp] orders strings as bytes: negative exactly when the first is before
    the second in lexicographic order, zero exactly when they are equal. *)
Theorem sdscmp_orders s1 s2 c1 c2 :
  holds s1 c1 -> holds s2 c2 ->
  (sdscmp s1 s2 < 0 <-> blt c1 c2 = true) /\ (sdscmp s1 s2 = 0 <-> c1 = c2) /\
  (0 < sdscmp s1 s2 <-> blt c2 c1 = true).
Proof.
  intros H1 H2. assert (sdscmp s1 s2 = compare3 c1 c2) as ->.
  { unfold sdscmp, compare3. rewrite (holds_sdslen s1 c1 H1), (holds_sdslen s2 c2 H2).
    destruct H1 as (sl1 & -> & Hl1), H2 as (sl2 & -> & Hl2). cbn [buf].
    set (m := Z.to_nat _). assert (m = min (length c1) (length c2)) as ->.
    { subst m. destruct (Z.ltb_spec (Z.of_nat (length c1)) (Z.of_nat (length c2))); lia. }
    rewrite !take_app_le, memcmp_take, i32_id by (unfold is_i32; lia). done. }
  destruct (compare3_spec c1 c2) as [Hlt Heq]. split; [done|]. split; [done|]. split.
  - intros Hgt. destruct (blt c2 c1) eqn:E; [done|]. destruct (blt c1 c2) eqn:E'; [pose proof (proj2 Hlt eq_refl); lia|].
    apply (blt_total _ _ E'), Heq in E. lia.
  - intros E. pose proof (blt_asym _ _ E). destruct (Z.lt_total (compare3 c1 c2) 0) as [L|[L|L]]; [|apply Heq in L|lia].
    + apply Hlt in L. congruence.
    + subst. by rewrite blt_irrefl in E.
Qed.

Lemma sdscmp_orders_witness :
  exists s1 s2, sdsnew (Some (lit "foo")) = Some s1 /\ sdsnew (Some (lit "foobar")) = Some s2 /\ sdscmp s1 s2 < 0.
Proof.
  eexists _, _. split; [reflexivity|]. split; [reflexivity|]. refine (proj2 (proj1 (sdscmp_orders _ _ (lit "foo") (lit "foobar") _ _)) eq_refl).
  - exists []. split; [reflexivity|vm_compute; reflexivity].
  - exists []. split; [reflexivity|vm_compute; reflexivity].
Defined.

Lemma dec_loop_64 v : 0 <= v < 2 ^ 63 -> dec_loop 32 v [] = Some (udec v).
Proof.
  intros Hv. apply dec_loop_udec_enough.
  change (10 ^ Z.of_nat 32) with 100000000000000000000000000000000. lia.
Qed.

(** [sdsfromlonglong] prints every number but the least one in decimal, within
    its 32 bytes, and [strtoll] reads the number back. *)
Theorem longlong_roundtrip v :
  is_i64 v -> v <> INT64_MIN ->
  exists s, sdsfromlonglong v = Some s /\ contents s = sdec v /\ strtoll (contents s) = Strto v [] false.
Proof.
  intros Hv Hmin. unfold sdsfromlonglong. destruct (Z.eqb_spec v INT64_MIN); [done|].
  pose proof (length_sdec_i64 v Hv) as Hl. unfold sdec in Hl. unfold is_i64, INT64_MIN in *.
  rewrite dec_loop_64 by (destruct (Z.ltb_spec v 0); lia). cbn [mbind option_bind].
  set (p := if v <? 0 then _ else _). assert (p = sdec v) as ->.
  { subst p. unfold sdec. by destruct (v <? 0). }
  fold (sdec v) in Hl. destruct (Nat.ltb_spec 32 (length (sdec v))); [lia|].
  destruct (sdsnewlen_holds (sdec v)) as (s & -> & Hh); [lia|]. exists s. rewrite (holds_contents _ _ Hh).
  split; [done|]. split; [done|]. by apply strtoll_sdec_nil.
Qed.

Lemma longlong_roundtrip_witness :
  exists s, sdsfromlonglong (-9223372036854775807) = Some s /\ contents s = lit "-9223372036854775807".
Proof.
  destruct (longlong_roundtrip (-9223372036854775807)) as (s & H1 & H2 & _).
  - split; vm_compute; (reflexivity || discriminate).
  - discriminate.
  - exists s. split; [exact H1|]. rewrite H2. vm_compute. reflexivity.
Defined.

(** ** Termination of the tokenizer *)

(** Fuel past the length of the text does not change the result: every turn of
    the loop consumes a character or ends. *)
Lemma token_loop_fuel f : forall g m p cur,
  (length p < f)%nat -> (length p < g)%nat -> token_loop f m p cur = token_loop g m p cur.
Proof.
  induction f as [|f IH]; intros [|g] m p cur Hf Hg; try lia. cbn [token_loop]. destruct p as [|c p].
  { by destruct m. }
  destruct m; repeat (match goal with |- context [if ?b then _ else _] => destruct b end; try done);
    apply IH; rewrite length_drop; cbn [length] in *; lia.
Qed.

Lemma token_loop_rest f : forall m p cur t rest,
  token_loop f m p cur = Some (t, rest) -> (length rest <= length p - 1)%nat.
Proof.
  induction f as [|f IH]; intros m p cur t rest H; [done|]. cbn [token_loop] in H.
  destruct m; repeat (match type of H with context [if ?b then _ else _] => destruct b end; try done);
    first [injection H as <- <- | apply IH in H]; rewrite length_drop in *; lia.
Qed.

Lemma skip_space_length p : (length (skip_space p) <= length p)%nat.
Proof. induction p as [|c p IH]; cbn [skip_space]; [done|]. destruct (isspace c); cbn [length]; lia. Qed.

(** The fuel of [sdssplitargs] is enough: a NULL is a quoting error. *)
Lemma args_loop_fuel f : forall g p vector,
  (length p < f)%nat -> (length p < g)%nat -> args_loop f p vector = args_loop g p vector.
Proof.
  induction f as [|f IH]; intros [|g] p vector Hf Hg; try lia. cbn [args_loop].
  pose proof (skip_space_length p) as Hs. destruct (skip_space p) as [|c q]; [done|].
  destruct (token_loop _ Plain (c :: q) []) as [[t rest]|] eqn:E; [|done]. cbn [mbind option_bind].
  apply token_loop_rest in E. cbn [length] in *. apply IH; lia.
Qed.
