(* ===== verification/SdsHeap.v ===== *)
(** [common/sds.cpp], the functions that release strings: [sdsfree] and
    [sdsfreesplitres], over the blocks the program holds.  [None] is a block freed
    twice, or memory that is none of its own. *)

From S2P Require Import Prelude Cstd Sds.

(** Strings and token arrays by address; a NULL pointer is [None]. *)
Record Heap := MkHeap { strings : gmap nat sdshdr; arrays : gmap nat (list (option nat)) }.

Definition sdsfree (h : Heap) (s : option nat) : option Heap :=
  match s with
  | None => Some h
  | Some p => match strings h !! p with Some _ => Some (MkHeap (delete p (strings h)) (arrays h)) | None => None end
  end.

(** [while(count--) sdsfree(tokens[count])] *)
Fixpoint free_tokens (h : Heap) (tokens : list (option nat)) (count : nat) : option Heap :=
  match count with
  | O => Some h
  | S count => t ← tokens !! count; h ← sdsfree h t; free_tokens h tokens count
  end.

Definition sdsfreesplitres (h : Heap) (tokens : option nat) (count : nat) : option Heap :=
  match tokens with
  | None => Some h
  | Some p => l ← arrays h !! p; h ← free_tokens h l count; Some (MkHeap (strings h) (delete p (arrays h)))
  end.

Lemma free_tokens_spec l n : forall h,
  (n <= length l)%nat -> NoDup (take n l) -> (forall p, Some p ∈ take n l -> is_Some (strings h !! p)) ->
  exists h', free_tokens h l n = Some h' /\ arrays h' = arrays h /\
    forall p, strings h' !! p = if decide (Some p ∈ take n l) then None else strings h !! p.
Proof.
  induction n as [|n IH]; intros h Hn Hnd Hlive; cbn [free_tokens].
  { exists h. by split. }
  destruct (lookup_lt_is_Some_2 l n) as [t Ht]; [lia|]. rewrite Ht. cbn [mbind option_bind].
  rewrite (take_S_r l n t Ht) in *. apply NoDup_app in Hnd as (Hnd & Hnew & _).
  destruct t as [p|]; cbn [sdsfree].
  - destruct (Hlive p) as [s Hs]; [apply elem_of_app; right; by left|]. rewrite Hs. cbn [mbind option_bind].
    destruct (IH (MkHeap (delete p (strings h)) (arrays h))) as (h' & E & Ha & Hl); [lia|done|..].
    { intros q Hq. cbn [strings]. rewrite lookup_delete_ne; [apply Hlive, elem_of_app; by left|]. intros ->. by apply (Hnew (Some q) Hq), list_elem_of_singleton. }
    exists h'. split; [done|]. split; [done|]. intros q. rewrite Hl. cbn [strings].
    destruct (decide (Some q ∈ take n l ++ [Some p])) as [Hin|Hin], (decide (Some q ∈ take n l)) as [Hin'|Hin']; try done.
    + apply elem_of_app in Hin as [|Hq%list_elem_of_singleton]; [done|]. injection Hq as ->. apply lookup_delete_eq.
    + destruct Hin. apply elem_of_app. by left.
    + apply lookup_delete_ne. intros ->. destruct Hin. apply elem_of_app. right. by left.
  - destruct (IH h) as (h' & E & Ha & Hl); [lia|done|intros q Hq; apply Hlive, elem_of_app; by left|].
    exists h'. split; [done|]. split; [done|]. intros q. rewrite Hl.
    destruct (decide (Some q ∈ take n l ++ [None])) as [Hin|Hin], (decide (Some q ∈ take n l)) as [Hin'|Hin']; try done.
    + by apply elem_of_app in Hin as [|Hq%list_elem_of_singleton].
    + destruct Hin. apply elem_of_app. by left.
Qed.

(** Releasing the tokens of a split frees the array and every token, each once,
    and nothing else. *)
Theorem split_result_is_released h p l :
  arrays h !! p = Some l -> NoDup l -> (forall q, Some q ∈ l -> is_Some (strings h !! q)) ->
  exists h', sdsfreesplitres h (Some p) (length l) = Some h' /\ arrays h' = delete p (arrays h) /\
    forall q, strings h' !! q = if decide (Some q ∈ l) then None else strings h !! q.
Proof.
  intros Hl Hnd Hlive. unfold sdsfreesplitres. rewrite Hl. cbn [mbind option_bind].
  destruct (free_tokens_spec l (length l) h) as (h' & -> & Ha & Hs); rewrite ?take_ge in * by done; [done..|].
  cbn [mbind option_bind]. eexists. split; [done|]. cbn [arrays strings]. by rewrite Ha.
Qed.
