(* ===== verification/SdsTest.v ===== *)
(** The unit test at the end of [common/sds.cpp] ([main] under [SDS_TEST_MAIN]),
    run on the model: each [test_cond] is a named boolean.  The code's own
    expectations hold of the model, whatever [realloc] leaves in new memory. *)

From S2P Require Import Prelude Cstd Sds.

(** [memcmp(x, t, length t) == 0] on an allocation. *)
Definition mem_is (x : sdshdr) (t : bytes) : bool := bool_decide (take (length t) (buf x) = t).

Definition test_cond (descr : string) (c : bool) (log : list (string * bool)) : list (string * bool) := log ++ [(descr, c)].

Section Main.
Context (garbage : nat -> byte).

Definition main : option (list (string * bool)) :=
  x ← sdsnew (Some (lit "foo"));
  let r := test_cond "Create a string and obtain the length" ((sdslen x =? 3) && mem_is x (lit "foo" ++ [x00])) [] in
  x ← sdsnewlen (Some (lit "foo")) 2;
  let r := test_cond "Create a string with specified length" ((sdslen x =? 2) && mem_is x (lit "fo" ++ [x00])) r in
  x ← sdscat garbage x (lit "bar");
  let r := test_cond "Strings concatenation" ((sdslen x =? 5) && mem_is x (lit "fobar" ++ [x00])) r in
  x ← sdscpy garbage x (lit "a");
  let r := test_cond "sdscpy() against an originally longer string" ((sdslen x =? 1) && mem_is x (lit "a" ++ [x00])) r in
  x ← sdscpy garbage x (lit "xyzxxxxxxxxxxyyyyyyyyyykkkkkkkkkk");
  let r := test_cond "sdscpy() against an originally shorter string"
    ((sdslen x =? 33) && mem_is x (lit "xyzxxxxxxxxxxyyyyyyyyyykkkkkkkkkk" ++ [x00])) r in
  x ← sdsempty;
  x ← sdscatvprintf garbage x (lit "123");
  let r := test_cond "sdscatprintf() seems working in the base case" ((sdslen x =? 3) && mem_is x (lit "123" ++ [x00])) r in
  x ← sdsnew (Some (lit "xxciaoyyy"));
  x ← sdstrim x (lit "xy");
  let r := test_cond "sdstrim() correctly trims characters" ((sdslen x =? 4) && mem_is x (lit "ciao" ++ [x00])) r in
  y ← sdsdup x;
  y ← sdsrange y 1 1;
  let r := test_cond "sdsrange(...,1,1)" ((sdslen y =? 1) && mem_is y (lit "i" ++ [x00])) r in
  y ← sdsdup x;
  y ← sdsrange y 1 (-1);
  let r := test_cond "sdsrange(...,1,-1)" ((sdslen y =? 3) && mem_is y (lit "iao" ++ [x00])) r in
  y ← sdsdup x;
  y ← sdsrange y (-2) (-1);
  let r := test_cond "sdsrange(...,-2,-1)" ((sdslen y =? 2) && mem_is y (lit "ao" ++ [x00])) r in
  y ← sdsdup x;
  y ← sdsrange y 2 1;
  let r := test_cond "sdsrange(...,2,1)" ((sdslen y =? 0) && mem_is y [x00]) r in
  y ← sdsdup x;
  y ← sdsrange y 1 100;
  let r := test_cond "sdsrange(...,1,100)" ((sdslen y =? 3) && mem_is y (lit "iao" ++ [x00])) r in
  y ← sdsdup x;
  y ← sdsrange y 100 100;
  let r := test_cond "sdsrange(...,100,100)" ((sdslen y =? 0) && mem_is y [x00]) r in
  x ← sdsnew (Some (lit "foo"));
  y ← sdsnew (Some (lit "foa"));
  let r := test_cond "sdscmp(foo,foa)" (0 <? sdscmp x y) r in
  x ← sdsnew (Some (lit "bar"));
  y ← sdsnew (Some (lit "bar"));
  let r := test_cond "sdscmp(bar,bar)" (sdscmp x y =? 0) r in
  x ← sdsnew (Some (lit "aar"));
  y ← sdsnew (Some (lit "bar"));
  let r := test_cond "sdscmp(bar,bar)" (sdscmp x y <? 0) r in
  x ← sdsnewlen (Some ([x07; x0a; x00] ++ lit "foo" ++ [x0d; x00])) 7;
  y ← sdsempty;
  y ← sdscatrepr garbage y (contents x);
  let r := test_cond "sdscatrepr(...data...)" (mem_is y ([quote] ++ lit "\a\n\x00foo\r" ++ [quote])) r in
  x ← sdsnew (Some (lit "0"));
  let r := test_cond "sdsnew() free/len buffers" ((len x =? 1) && (free x =? 0)) r in
  let x := sdsMakeRoomFor garbage x 1 in
  let r := test_cond "sdsMakeRoomFor()" ((len x =? 1) && (0 <? free x)) r in
  let oldfree := free x in
  b ← poke (buf x) 1 (lit "1");
  x ← sdsIncrLen (MkSds (len x) (free x) b) 1;
  let r := test_cond "sdsIncrLen() -- content" (mem_is x (lit "01")) r in
  let r := test_cond "sdsIncrLen() -- len" (len x =? 2) r in
  let r := test_cond "sdsIncrLen() -- free" (free x =? oldfree - 1) r in
  Some r.
End Main.

(** The unit test of the dynamic strings runs without undefined behaviour and
    every one of its conditions holds. *)
Theorem sds_unit_tests_pass garbage :
  exists r, main garbage = Some r /\ length r = 22%nat /\ Forall (fun t => t.2 = true) r.
Proof. eexists. split; [vm_compute; reflexivity|]. split; [reflexivity|]. repeat constructor. Qed.
