(* ===== verification/Log.v ===== *)
(** [common/xLog.h], [common/xLog.cpp]: the log of the server and its rotation.

    The files are a small part of POSIX: names lead to inodes, inodes have
    contents, file descriptors refer to inodes or to a terminal.  [open] may fail
    ([can_open]); the other calls do what they are documented to do.  [None] is
    undefined behaviour: a read before or beyond an array, an overrun.  The
    clock readings and the local time are arguments.

    A call runs from its beginning to its end here, so that the mutexes around the
    rotation have nothing to do; [LogRace.v] has the calls of threads that overlap. *)

From S2P Require Import Prelude Cstd Util.

(** ** Files *)

Inductive target := Terminal | Inode (i : nat).

Record Disk := MkDisk {
  names : gmap bytes nat;
  inodes : gmap nat bytes;
  next_inode : nat;
  fds : gmap Z target
}.

Definition set_names (n : gmap bytes nat) (d : Disk) : Disk := MkDisk n (inodes d) (next_inode d) (fds d).
Definition set_fds (f : gmap Z target) (d : Disk) : Disk := MkDisk (names d) (inodes d) (next_inode d) f.

(** The lowest descriptor that is not in use. *)
Fixpoint lowest_loop {A} (fuel : nat) (z : Z) (f : gmap Z A) : Z :=
  match fuel with
  | O => z
  | S fuel => match f !! z with Some _ => lowest_loop fuel (z + 1) f | None => z end
  end.
Definition lowest_fd {A} (f : gmap Z A) : Z := lowest_loop (S (size f)) 0 f.

(** The file of a name, made empty when there is none. *)
Definition create (p : bytes) (d : Disk) : nat * Disk :=
  match names d !! p with
  | Some i => (i, d)
  | None =>
      (next_inode d,
       MkDisk (<[p := next_inode d]> (names d)) (<[next_inode d := []]> (inodes d)) (S (next_inode d)) (fds d))
  end.

Definition close (fd : Z) (d : Disk) : Disk := set_fds (delete fd (fds d)) d.

Definition dup2 (fd fd' : Z) (d : Disk) : Disk :=
  if fd' <? 0 then d
  else match fds d !! fd with Some t => set_fds (<[fd' := t]> (fds d)) d | None => d end.

Definition unlink (p : bytes) (d : Disk) : Disk := set_names (delete p (names d)) d.

Definition rename (p q : bytes) (d : Disk) : Disk :=
  match names d !! p with Some i => set_names (<[q := i]> (delete p (names d))) d | None => d end.

(** [access(p, R_OK) == 0] *)
Definition access (p : bytes) (d : Disk) : bool := bool_decide (is_Some (names d !! p)).

(** Files are open for appending. *)
Definition writev (fd : Z) (text : bytes) (d : Disk) : Disk :=
  match fds d !! fd with
  | Some (Inode i) => MkDisk (names d) (alter (fun c => c ++ text) i (inodes d)) (next_inode d) (fds d)
  | _ => d
  end.

(** [lseek(fd, 0, SEEK_END)] *)
Definition lseek_end (fd : Z) (d : Disk) : Z :=
  match fds d !! fd with
  | Some (Inode i) => Z.of_nat (length (default [] (inodes d !! i)))
  | _ => -1
  end.

(** ** Formats *)

Record tm := MkTm { tm_year : Z; tm_mon : Z; tm_mday : Z; tm_hour : Z; tm_min : Z; tm_sec : Z }.

(** ["%0<n>d"] *)
Definition zpad (n : nat) (z : Z) : bytes :=
  let d := udec (Z.abs z) in
  if z <? 0 then "-"%byte :: replicate (n - 1 - length d) "0"%byte ++ d else replicate (n - length d) "0"%byte ++ d.

(** ["%-5s"] *)
Definition rpad5 (s : bytes) : bytes := s ++ replicate (5 - length s) x20.

(** ** The logger *)

Record CLogger := MkLogger {
  _fd : Z;
  _name : option bytes;
  _check : Z;
  _maxFileIndex : Z;
  _maxFileSize : Z;
  _flag : bool;
  _level : Z;
  _fileList : list bytes
}.

Definition _errstr : list bytes := [lit "ERROR"; lit "WARN"; lit "INFO"; lit "DEBUG"].

Definition CLogger_new : CLogger := MkLogger 2 None 0 0 0 false 9 [].

Definition set_fd (fd : Z) (l : CLogger) : CLogger :=
  MkLogger fd (_name l) (_check l) (_maxFileIndex l) (_maxFileSize l) (_flag l) (_level l) (_fileList l).
Definition set_list (fl : list bytes) (l : CLogger) : CLogger :=
  MkLogger (_fd l) (_name l) (_check l) (_maxFileIndex l) (_maxFileSize l) (_flag l) (_level l) fl.

Fixpoint level_loop (level : bytes) (i : Z) (names : list bytes) (l : CLogger) : CLogger :=
  match names with
  | [] => l
  | n :: names =>
      if strcasecmp_eq level n
      then MkLogger (_fd l) (_name l) (_check l) (_maxFileIndex l) (_maxFileSize l) (_flag l) i (_fileList l)
      else level_loop level (i + 1) names l
  end.

Definition setLogLevel (level : option bytes) (l : CLogger) : CLogger :=
  match level with None => l | Some level => level_loop level 0 _errstr l end.

Definition setCheck (v : Z) (l : CLogger) : CLogger :=
  MkLogger (_fd l) (_name l) v (_maxFileIndex l) (_maxFileSize l) (_flag l) (_level l) (_fileList l).

Definition setMaxFileSize (maxFileSize : Z) (l : CLogger) : CLogger :=
  let maxFileSize := if (maxFileSize <? 0) || (0x40000000 <? maxFileSize) then 0x40000000 else maxFileSize in
  MkLogger (_fd l) (_name l) (_check l) (_maxFileIndex l) maxFileSize (_flag l) (_level l) (_fileList l).

Definition setMaxFileIndex (maxFileIndex : Z) (l : CLogger) : CLogger :=
  let maxFileIndex := if maxFileIndex <? 0 then 0x0f else maxFileIndex in
  let maxFileIndex := if 0x400 <? maxFileIndex then 0x400 else maxFileIndex in
  MkLogger (_fd l) (_name l) (_check l) maxFileIndex (_maxFileSize l) (_flag l) (_level l) (_fileList l).

Section Logger.
(** Whether a file can be opened or made; the local time; [strftime]. *)
Context (can_open : bytes -> bool) (localtime : Z -> tm) (strftime : bytes -> tm -> option bytes).

(** [open(p, O_RDWR | O_CREAT | O_APPEND | O_LARGEFILE, 0640)] *)
Definition open_append (p : option bytes) (d : Disk) : Z * Disk :=
  match p with
  | Some p =>
      if can_open p then
        let '(i, d) := create p d in
        let fd := lowest_fd (fds d) in (fd, set_fds (<[fd := Inode i]> (fds d)) d)
      else (-1, d)
  | None => (-1, d)
  end.

(** What follows an [open], in three places: the log goes to the new file. *)
Definition redirect (fd : Z) (l : CLogger) (d : Disk) : CLogger * Disk :=
  if negb (_flag l) then
    let d := dup2 fd 1 (dup2 fd (_fd l) d) in
    let d := if _fd l =? 2 then d else dup2 fd 2 d in
    (l, close fd d)
  else
    let d := if _fd l =? 2 then d else close (_fd l) d in
    (set_fd fd l, d).

Definition setFileName (filename : bytes) (flag : bool) (l : CLogger) (d : Disk) : CLogger * Disk :=
  let d := if bool_decide (is_Some (_name l)) && negb (_fd l =? -1) then close (_fd l) d else d in
  let '(fd, d) := open_append (Some filename) d in
  redirect fd (MkLogger (_fd l) (Some filename) (_check l) (_maxFileIndex l) (_maxFileSize l) flag (_level l) (_fileList l)) d.

(** The name of a rotated file in [char oldLogFile[256]]. *)
Definition rotated_name (filename : bytes) (fmt : option bytes) (t : Z) : option bytes :=
  let m := localtime t in
  suffix ← match fmt with
           | Some fmt => strftime fmt m
           | None =>
               Some (zpad 4 (tm_year m + 1900) ++ zpad 2 (tm_mon m + 1) ++ zpad 2 (tm_mday m) ++
                     zpad 2 (tm_hour m) ++ zpad 2 (tm_min m) ++ zpad 2 (tm_sec m))
           end;
  let oldLogFile := filename ++ lit "." ++ suffix in
  if (length oldLogFile <? 256)%nat then Some oldLogFile else None.

Definition rotateLog (filename fmt : option bytes) (t : Z) (l : CLogger) (d : Disk) : option (CLogger * Disk) :=
  let filename := match filename with Some _ => filename | None => _name l end in
  '(l, d) ← match filename with
            | Some f =>
                if access f d then
                  oldLogFile ← rotated_name f fmt t;
                  let '(l, d) :=
                    if 0 <? _maxFileIndex l then
                      let '(l, d) :=
                        if _maxFileIndex l <=? Z.of_nat (length (_fileList l)) then
                          match _fileList l with
                          | oldFile :: fl => (set_list fl l, unlink oldFile d)
                          | [] => (l, d)
                          end
                        else (l, d) in
                      (set_list (_fileList l ++ [oldLogFile]) l, d)
                    else (l, d) in
                  Some (l, rename f oldLogFile d)
                else Some (l, d)
            | None => Some (l, d)
            end;
  let '(fd, d) := open_append filename d in
  Some (redirect fd l d).

(** [fstat] of a descriptor that is not open leaves its result undefined. *)
Definition checkFile (l : CLogger) (d : Disk) : option (CLogger * Disk) :=
  name ← _name l;
  stFd ← fds d !! _fd l;
  let moved :=
    match names d !! name with
    | None => true
    | Some i => match stFd with Inode j => negb (i =? j)%nat | Terminal => true end
    end in
  if moved then let '(fd, d) := open_append (Some name) d in Some (redirect fd l d) else Some (l, d).

(** [while (data1[data_size - 1] == '\n') data_size--], on the reversed text; it
    reads before the array when nothing else is left. *)
Fixpoint trim_newlines (rev_text : bytes) : option bytes :=
  match rev_text with
  | [] => None
  | c :: s => if decide (c = x0a) then trim_newlines s else Some (rev (c :: s))
  end.

Definition log_head (level : Z) (m : tm) (usec : Z) (file : bytes) (line : Z) (function : bytes) : option bytes :=
  name ← (if level <? 0 then None else _errstr !! Z.to_nat level);
  Some (lit "[" ++ zpad 4 (tm_year m + 1900) ++ lit "-" ++ zpad 2 (tm_mon m + 1) ++ lit "-" ++ zpad 2 (tm_mday m) ++
        lit " " ++ zpad 2 (tm_hour m) ++ lit ":" ++ zpad 2 (tm_min m) ++ lit ":" ++ zpad 2 (tm_sec m) ++
        lit "." ++ zpad 6 usec ++ lit "] " ++ rpad5 name ++ lit " " ++
        (if level <? 2 then function ++ lit " (" ++ file ++ lit ":" ++ sdec line ++ lit ") "
         else file ++ lit ":" ++ sdec line ++ lit " ")).

(** As many bytes as [snprintf] wanted to write are sent from [char head[128]]. *)
Definition sent_head (head : bytes) : option bytes :=
  if (length head <? 128)%nat then Some head
  else if (length head =? 128)%nat then Some (take 127 head ++ [x00])
  else None.

Definition max_log_size : Z := 10240.

(** [text] is the formatted message; [tv] and [t] are the readings of the clock
    for the head and for the name of a rotated file. *)
Definition logMessage (level : Z) (file : bytes) (line : Z) (function text : bytes) (tv : timeval) (t : Z)
  (l : CLogger) (d : Disk) : option (CLogger * Disk) :=
  if _level l <? level then Some (l, d)
  else
    '(l, d) ← (if negb (_check l =? 0) && bool_decide (is_Some (_name l)) then checkFile l d else Some (l, d));
    data ← trim_newlines (rev (take (Z.to_nat (max_log_size - 1)) text));
    head ← log_head level (localtime (tv_sec tv)) (tv_usec tv) file line function;
    head ← sent_head head;
    let d := writev (_fd l) (head ++ data ++ [x0a]) d in
    if _maxFileSize l =? 0 then Some (l, d)
    else
      let offset := lseek_end (_fd l) d in
      if (0 <=? offset) && (_maxFileSize l <=? offset) then rotateLog None None t l d else Some (l, d).

End Logger.
