(* ===== verification/LogSpec.v ===== *)
(** Properties of the log: rotation keeps the newest lines, in order, within a
    bounded space; where the logger loses its file or its lines. *)

From S2P Require Import Prelude Cstd Util Log.

(** ** Files *)

(** The content of a file. *)
Definition content (d : Disk) (p : bytes) : option bytes := i ← names d !! p; inodes d !! i.

(** Names lead to files of their own, descriptors to files that exist. *)
Record disk_ok (d : Disk) : Prop := {
  dk_inj p q i : names d !! p = Some i -> names d !! q = Some i -> p = q;
  dk_file p i : names d !! p = Some i -> is_Some (inodes d !! i);
  dk_next i : is_Some (inodes d !! i) -> (i < next_inode d)%nat
}.

Lemma lowest_loop_free {A} fuel : forall z (f : gmap Z A),
  f !! lowest_loop fuel z f = None \/ (forall k, z <= k < z + Z.of_nat fuel -> is_Some (f !! k)).
Proof.
  induction fuel as [|fuel IH]; intros z f; cbn [lowest_loop]; [right; intros; lia|].
  destruct (f !! z) as [t|] eqn:E; [|by left]. destruct (IH (z + 1) f) as [H|H]; [by left|right].
  intros k Hk. destruct (decide (k = z)) as [->|]; [by eexists|]. apply H. lia.
Qed.

Lemma lowest_fd_nonneg {A} (f : gmap Z A) : 0 <= lowest_fd f.
Proof.
  unfold lowest_fd. generalize (S (size f)) as fuel. assert (forall fuel z, z <= lowest_loop fuel z f) as H; [|intros; apply H].
  induction fuel as [|fuel IH]; intros z; cbn [lowest_loop]; [lia|]. destruct (f !! z); [|lia]. specialize (IH (z + 1)). lia.
Qed.

Lemma lowest_fd_free {A} (f : gmap Z A) : f !! lowest_fd f = None.
Proof.
  destruct (lowest_loop_free (S (size f)) 0 f) as [H|H]; [done|]. exfalso.
  assert (list_to_set (seqZ 0 (Z.of_nat (S (size f)))) ⊆ dom f) as Hsub.
  { intros k Hk. rewrite elem_of_list_to_set, elem_of_seqZ in Hk. apply elem_of_dom, H. lia. }
  apply subseteq_size in Hsub. rewrite size_list_to_set, length_seqZ, size_dom in Hsub by apply NoDup_seqZ. lia.
Qed.

Lemma content_is_Some d p : disk_ok d -> is_Some (content d p) <-> is_Some (names d !! p).
Proof.
  intros Hd. unfold content. destruct (names d !! p) as [i|] eqn:E; cbn [mbind option_bind]; [|by split; intros []].
  split; [by eexists|]. intros _. by eapply dk_file.
Qed.

(** Writing appends to the file the descriptor refers to, and to no other. *)
Lemma writev_spec d fd p i text :
  disk_ok d -> fds d !! fd = Some (Inode i) -> names d !! p = Some i ->
  disk_ok (writev fd text d) /\
  content (writev fd text d) p = (fun c => c ++ text) <$> content d p /\
  (forall q, q <> p -> content (writev fd text d) q = content d q).
Proof.
  intros Hd Hf Hp. unfold writev, content. rewrite Hf. cbn [names inodes]. split; [|split].
  - destruct Hd as [Hi Hfl Hn]. split; cbn [names inodes next_inode]; [exact Hi|..].
    + intros q j Hq. rewrite lookup_alter_is_Some. by eapply Hfl.
    + intros j Hj. rewrite lookup_alter_is_Some in Hj. by apply Hn.
  - rewrite Hp. cbn [mbind option_bind]. by rewrite lookup_alter_eq.
  - intros q Hq. destruct (names d !! q) as [j|] eqn:E; [|done]. cbn [mbind option_bind]. rewrite lookup_alter_ne; [done|].
    intros ->. apply Hq. by eapply dk_inj.
Qed.

Lemma unlink_spec d p : disk_ok d ->
  disk_ok (unlink p d) /\ content (unlink p d) p = None /\ (forall q, q <> p -> content (unlink p d) q = content d q).
Proof.
  intros [Hi Hfl Hn]. unfold unlink, content. cbn [names inodes set_names]. split; [|split].
  - split; cbn [names inodes next_inode set_names]; [|..|exact Hn].
    + intros q r i Hq Hr. rewrite lookup_delete_Some in Hq, Hr. destruct Hq as [_ Hq], Hr as [_ Hr]. by eapply Hi.
    + intros q i Hq. rewrite lookup_delete_Some in Hq. destruct Hq as [_ Hq]. by eapply Hfl.
  - by rewrite lookup_delete_eq.
  - intros q Hq. by rewrite lookup_delete_ne.
Qed.

Lemma rename_spec d p q : disk_ok d -> is_Some (names d !! p) -> p <> q ->
  disk_ok (rename p q d) /\ names (rename p q d) !! p = None /\ content (rename p q d) q = content d p /\
  (forall r, r <> p -> r <> q -> content (rename p q d) r = content d r).
Proof.
  intros [Hi Hfl Hn] [i Hp] Hne. unfold rename, content. rewrite Hp. cbn [names inodes set_names]. split_and!.
  - split; cbn [names inodes next_inode set_names]; [|..|exact Hn].
    + intros r s j. rewrite !lookup_insert_Some, !lookup_delete_Some.
      intros [[<- <-]|(Hr & Hpr & Er)] [[<- Ej]|(Hs & Hps & Es)]; try done.
      * destruct Hps. by eapply Hi.
      * destruct Hpr. subst. by eapply Hi.
      * by eapply Hi.
    + intros r j. rewrite lookup_insert_Some, lookup_delete_Some. intros [[<- <-]|(_ & _ & Er)]; by eapply Hfl.
  - by rewrite lookup_insert_ne, lookup_delete_eq.
  - by rewrite lookup_insert_eq.
  - intros r Hr Hrq. by rewrite lookup_insert_ne, lookup_delete_ne.
Qed.

Lemma create_spec d p : disk_ok d -> names d !! p = None ->
  exists i d', create p d = (i, d') /\ disk_ok d' /\ names d' !! p = Some i /\ content d' p = Some [] /\ fds d' = fds d /\
    (forall q, q <> p -> content d' q = content d q).
Proof.
  intros [Hi Hfl Hn] Hp. unfold create. rewrite Hp. eexists _, _. split; [done|].
  assert (forall q i, names d !! q = Some i -> (i < next_inode d)%nat) as Hlt by (intros q i Hq; eapply Hn, Hfl, Hq).
  split_and!; cbn [names inodes next_inode fds]; try done.
  - split; cbn [names inodes next_inode].
    + intros r s j. rewrite !lookup_insert_Some. intros [[<- <-]|[Hr Er]] [[<- Ej]|[Hs Es]]; try done.
      * apply Hlt in Es. lia.
      * subst. apply Hlt in Er. lia.
      * by eapply Hi.
    + intros r j. rewrite lookup_insert_Some. intros [[<- <-]|[_ Er]]; [by rewrite lookup_insert_eq|].
      pose proof (Hlt _ _ Er). rewrite lookup_insert_ne by lia. by eapply Hfl.
    + intros j. destruct (decide (j = next_inode d)) as [->|]; [lia|]. rewrite lookup_insert_ne by done. intros Hj. apply Hn in Hj. lia.
  - by rewrite lookup_insert_eq.
  - unfold content. cbn [names inodes]. rewrite lookup_insert_eq. cbn [mbind option_bind]. by rewrite lookup_insert_eq.
  - intros q Hq. unfold content. cbn [names inodes]. rewrite lookup_insert_ne by done.
    destruct (names d !! q) as [j|] eqn:E; [|done]. cbn [mbind option_bind]. apply Hlt in E. by rewrite lookup_insert_ne by lia.
Qed.

(** ** Rotation *)

Definition text_of (d : Disk) (p : bytes) : bytes := default [] (content d p).
Definition files_text (d : Disk) (files : list bytes) : bytes := concat (text_of d <$> files).

Lemma files_text_ext d d' files : (forall p, p ∈ files -> content d' p = content d p) -> files_text d' files = files_text d files.
Proof.
  unfold files_text. intros H. f_equal. apply list_fmap_ext. intros i p Hp. unfold text_of. rewrite H; [done|by eapply list_elem_of_lookup_2].
Qed.

(** The longest line: a head of 128 bytes, 10239 bytes of message, a line end. *)
Definition max_line : Z := 10368.

Section Rotation.
Context (can_open : bytes -> bool) (localtime : Z -> tm) (strftime : bytes -> tm -> option bytes).
Context (f : bytes) (n m lv : Z) (Hopen : can_open f = true).

(** What is on disk: [files] are the rotated files, oldest first; [dropped] is
    what was in the files removed since; all together is [all]. *)
Record log_rel (limit : Z) (all : bytes) (files : list bytes) (dropped : bytes) (l : CLogger) (d : Disk) : Prop := {
  lr_disk : disk_ok d;
  lr_name : _name l = Some f;
  lr_flag : _flag l = true;
  lr_check : _check l = 0;
  lr_level : _level l = lv;
  lr_index : _maxFileIndex l = n;
  lr_size : _maxFileSize l = m;
  lr_fd : exists i, fds d !! _fd l = Some (Inode i) /\ names d !! f = Some i;
  lr_nodup : NoDup (f :: files);
  lr_files : Forall (fun p => is_Some (content d p)) files;
  lr_list : 0 < n -> _fileList l = files /\ Z.of_nat (length files) <= n;
  lr_text : all = dropped ++ files_text d files ++ text_of d f;
  lr_small : Z.of_nat (length (text_of d f)) < limit;
  lr_bound : Forall (fun p => Z.of_nat (length (text_of d p)) < m + max_line) files;
  lr_keep : n = 0 -> dropped = []
}.

Lemma log_rel_open limit all files dropped l d :
  log_rel limit all files dropped l d -> exists i c, fds d !! _fd l = Some (Inode i) /\ names d !! f = Some i /\ content d f = Some c.
Proof.
  intros H. destruct (lr_fd _ _ _ _ _ _ H) as (i & Hi & Hf). exists i. unfold content. rewrite Hf. cbn [mbind option_bind].
  destruct (dk_file _ (lr_disk _ _ _ _ _ _ H) f i Hf) as [c Hc]. by exists c.
Qed.

Lemma log_rel_write all files dropped l d text :
  log_rel m all files dropped l d -> Z.of_nat (length text) <= max_line ->
  log_rel (m + max_line) (all ++ text) files dropped l (writev (_fd l) text d).
Proof.
  intros H Hl. destruct (log_rel_open _ _ _ _ _ _ H) as (i & c & Hi & Hf & Hc). destruct H.
  destruct (writev_spec d (_fd l) f i text lr_disk0 Hi Hf) as (Hd & Hcf & Hco).
  assert (forall p, p ∈ files -> content (writev (_fd l) text d) p = content d p) as Hfiles.
  { intros p Hp. apply Hco. intros ->. inversion lr_nodup0. done. }
  assert (text_of (writev (_fd l) text d) f = text_of d f ++ text) as Htf by (unfold text_of; by rewrite Hcf, Hc).
  split; try done.
  - exists i. unfold writev. by rewrite Hi.
  - apply Forall_forall. intros p Hp. rewrite Hfiles by done. exact (proj1 (Forall_forall _ _) lr_files0 p Hp).
  - rewrite Htf, (files_text_ext d _ files Hfiles), lr_text0. by rewrite <- !app_assoc.
  - rewrite Htf, length_app. lia.
  - apply Forall_forall. intros p Hp. unfold text_of. rewrite Hfiles by done. exact (proj1 (Forall_forall _ _) lr_bound0 p Hp).
Qed.

(** The files before the current one is put away. *)
Lemma log_rel_unlink limit all files dropped l d p fl :
  log_rel limit all files dropped l d -> 0 < n -> files = p :: fl ->
  log_rel limit all fl (dropped ++ text_of d p) (set_list fl l) (unlink p d).
Proof.
  intros H Hn ->. destruct (log_rel_open _ _ _ _ _ _ H) as (i & c & Hi & Hf & Hc). destruct H.
  destruct (unlink_spec d p lr_disk0) as (Hd & Hp & Ho). apply NoDup_cons in lr_nodup0 as [Hnf Hnd]. apply NoDup_cons in Hnd as [Hnp Hnd].
  assert (f <> p) as Hfp by set_solver. apply Forall_cons in lr_files0 as [_ Hfl]. apply Forall_cons in lr_bound0 as [_ Hbl].
  assert (forall q, q ∈ fl -> content (unlink p d) q = content d q) as Hq by (intros q Hq; apply Ho; set_solver).
  destruct (lr_list0 Hn) as [_ Hlen]. split; try done.
  - exists i. split; [done|]. unfold unlink. cbn [names set_names]. by rewrite lookup_delete_ne.
  - apply NoDup_cons. split; [set_solver|done].
  - apply Forall_forall. intros q Hin. rewrite Hq by done. exact (proj1 (Forall_forall _ _) Hfl q Hin).
  - intros _. split; [done|]. cbn [length] in Hlen. lia.
  - rewrite lr_text0. unfold text_of at 3. rewrite (Ho f) by done. fold (text_of d f). rewrite (files_text_ext d _ fl Hq).
    unfold files_text. cbn [fmap list_fmap concat]. by rewrite <- !app_assoc.
  - unfold text_of. by rewrite (Ho f) by done.
  - apply Forall_forall. intros q Hin. unfold text_of. rewrite Hq by done. exact (proj1 (Forall_forall _ _) Hbl q Hin).
  - lia.
Qed.

(** The current file becomes [q], a new one takes its place. *)
Lemma log_rel_rename all files dropped l l' d q :
  log_rel (m + max_line) all files dropped l d -> 0 < m -> names d !! q = None -> (0 < n -> Z.of_nat (length files) < n) ->
  l' = (if 0 <? n then set_list (_fileList l ++ [q]) l else l) ->
  let '(fd, d1) := open_append can_open (Some f) (rename f q d) in
  let '(l2, d2) := redirect fd l' d1 in log_rel m all (files ++ [q]) dropped l2 d2.
Proof.
  intros H Hm Hq Hlen El. destruct (log_rel_open _ _ _ _ _ _ H) as (i & c & Hi & Hf & Hc). destruct H.
  assert (f <> q) as Hfq by congruence.
  destruct (rename_spec d f q lr_disk0) as (Hd1 & Hf1 & Hq1 & Ho1); [by eexists|done|].
  unfold open_append. rewrite Hopen.
  destruct (create_spec (rename f q d) f Hd1 Hf1) as (j & d2 & Hcr & Hd2 & Hf2 & Hc2 & Hfds & Ho2). rewrite Hcr.
  assert (fds d2 = fds d) as Hfd by (rewrite Hfds; unfold rename; by destruct (names d !! f)).
  pose proof (lowest_fd_free (fds d2)) as Hfree. set (fd := lowest_fd (fds d2)) in *.
  assert (fd <> _fd l) as Hne by (intros E; rewrite <- E, <- Hfd in Hi; congruence).
  assert (_fd l' = _fd l /\ _name l' = Some f /\ _flag l' = true /\ _check l' = 0 /\ _level l' = lv /\ _maxFileIndex l' = n /\ _maxFileSize l' = m) as
    (Efd & En & Efl & Ech & Elv & Ein & Esz) by (subst l'; by destruct (0 <? n)).
  unfold redirect. rewrite Efl. cbn [negb].
  set (d3 := if _fd l' =? 2 then _ else _).
  assert (names d3 = names d2 /\ inodes d3 = inodes d2 /\ next_inode d3 = next_inode d2 /\ fds d3 !! fd = Some (Inode j)) as (E1 & E2 & E3 & E4).
  { subst d3. rewrite Efd. destruct (_fd l =? 2); cbn [names inodes next_inode fds set_fds close]; split_and!; try done;
      [by rewrite lookup_insert_eq|]. rewrite lookup_delete_ne by done. by rewrite lookup_insert_eq. }
  assert (forall p, content d3 p = content d2 p) as Hc3 by (intros p; unfold content; by rewrite E1, E2).
  apply NoDup_cons in lr_nodup0 as [Hnf Hnd].
  assert (q ∉ files) as Hqf.
  { intros Hin. apply (proj1 (Forall_forall _ _) lr_files0) in Hin. apply content_is_Some in Hin; [|done]. rewrite Hq in Hin. by destruct Hin. }
  assert (forall p, p ∈ files -> content d3 p = content d p) as Hold.
  { intros p Hp. rewrite Hc3, Ho2, Ho1; [done|..]; intros ->; done. }
  assert (content d3 q = content d f) as Hcq by (rewrite Hc3, Ho2 by done; exact Hq1).
  assert (text_of d3 f = []) as Htf by (unfold text_of; by rewrite Hc3, Hc2).
  assert (text_of d3 q = text_of d f) as Htq by (unfold text_of; by rewrite Hcq).
  split; try done.
  - destruct Hd2 as [Hi2 Hfl2 Hn2]. split; [rewrite E1; exact Hi2|rewrite E1, E2; exact Hfl2|rewrite E2, E3; exact Hn2].
  - exists j. by rewrite E1.
  - apply NoDup_cons. split; [set_solver|]. apply NoDup_app. split; [done|]. split; [set_solver|]. apply NoDup_singleton.
  - apply Forall_app. split; [|apply Forall_singleton; by rewrite Hcq, Hc]. apply Forall_forall. intros p Hp. rewrite Hold by done.
    exact (proj1 (Forall_forall _ _) lr_files0 p Hp).
  - intros Hn. specialize (Hlen Hn). destruct (lr_list0 Hn) as [El0 _]. split; [|rewrite length_app; cbn [length]; lia].
    subst l'. destruct (Z.ltb_spec 0 n); [|lia]. cbn [_fileList set_fd set_list]. by rewrite El0.
  - rewrite lr_text0, Htf. unfold files_text at 2. rewrite fmap_app, concat_app. fold (files_text d3 files). rewrite (files_text_ext d d3 files Hold).
    cbn [fmap list_fmap concat]. by rewrite Htq, !app_nil_r.
  - rewrite Htf. done.
  - apply Forall_app. split; [|apply Forall_singleton; by rewrite Htq]. apply Forall_forall. intros p Hp. unfold text_of. rewrite Hold by done.
    exact (proj1 (Forall_forall _ _) lr_bound0 p Hp).
Qed.

Lemma rotateLog_rel all files dropped l d t q :
  log_rel (m + max_line) all files dropped l d -> 0 < m -> rotated_name localtime strftime f None t = Some q -> names d !! q = None ->
  exists l' d' files' dropped', rotateLog can_open localtime strftime None None t l d = Some (l', d') /\ log_rel m all files' dropped' l' d'.
Proof.
  intros H Hm Hr Hq. destruct (log_rel_open _ _ _ _ _ _ H) as (i & c & Hi & Hf & Hc).
  unfold rotateLog. rewrite (lr_name _ _ _ _ _ _ H). unfold access. rewrite bool_decide_eq_true_2 by (by eexists). rewrite Hr. cbn [mbind option_bind].
  rewrite (lr_index _ _ _ _ _ _ H).
  assert (exists files1 dropped1 l1 d1,
    (if 0 <? n then
       let '(l, d) := if n <=? Z.of_nat (length (_fileList l)) then
                        match _fileList l with oldFile :: fl => (set_list fl l, unlink oldFile d) | [] => (l, d) end
                      else (l, d) in (set_list (_fileList l ++ [q]) l, d)
     else (l, d)) = ((if 0 <? n then set_list (_fileList l1 ++ [q]) l1 else l1), d1) /\
    log_rel (m + max_line) all files1 dropped1 l1 d1 /\ names d1 !! q = None /\ (0 < n -> Z.of_nat (length files1) < n)) as
    (files1 & dropped1 & l1 & d1 & -> & H1 & Hq1 & Hlen).
  { destruct (Z.ltb_spec 0 n) as [Hn|Hn]; [|exists files, dropped, l, d; split_and!; try done; lia].
    destruct (lr_list _ _ _ _ _ _ H Hn) as [El Hlen]. rewrite El. destruct (Z.leb_spec n (Z.of_nat (length files))).
    - destruct files as [|p fl]; [cbn in *; lia|]. exists fl, (dropped ++ text_of d p), (set_list fl l), (unlink p d).
      split; [done|]. split; [by eapply log_rel_unlink|]. split; [|intros _; cbn [length] in Hlen; lia].
      unfold unlink. cbn [names set_names]. destruct (decide (p = q)) as [->|]; [by rewrite lookup_delete_eq|by rewrite lookup_delete_ne].
    - exists files, dropped, l, d. rewrite El. by split_and!. }
  cbn [mbind option_bind]. pose proof (log_rel_rename all files1 dropped1 l1 _ d1 q H1 Hm Hq1 Hlen eq_refl) as Hfin.
  destruct (open_append can_open (Some f) (rename f q d1)) as [fd d2]. destruct (redirect fd _ d2) as [l3 d3]. by eexists _, _, _, _.
Qed.

(** ** Histories *)

(** A call of the logger, with the readings of the clock. *)
Record Event := MkEvent {
  e_level : Z; e_file : bytes; e_line : Z; e_function : bytes; e_text : bytes; e_tv : timeval; e_t : Z
}.

Definition log_event (e : Event) (l : CLogger) (d : Disk) : option (CLogger * Disk) :=
  logMessage can_open localtime strftime (e_level e) (e_file e) (e_line e) (e_function e) (e_text e) (e_tv e) (e_t e) l d.

Fixpoint log_run (es : list Event) (l : CLogger) (d : Disk) : option (CLogger * Disk) :=
  match es with
  | [] => Some (l, d)
  | e :: es => '(l, d) ← log_event e l d; log_run es l d
  end.

(** The line of a message, when it is defined. *)
Definition written (e : Event) : option bytes :=
  data ← trim_newlines (rev (take (Z.to_nat (max_log_size - 1)) (e_text e)));
  head ← log_head (e_level e) (localtime (tv_sec (e_tv e))) (tv_usec (e_tv e)) (e_file e) (e_line e) (e_function e);
  head ← sent_head head;
  Some (head ++ data ++ [x0a]).

Definition line_of (e : Event) : bytes := if lv <? e_level e then [] else default [] (written e).

(** The message makes a line; if the file is full then, no file has the name it
    is put away under. *)
Definition admissible (e : Event) (d : Disk) : Prop :=
  e_level e <= lv -> is_Some (written e) /\
    (m <= Z.of_nat (length (text_of d f)) + Z.of_nat (length (line_of e)) ->
     exists q, rotated_name localtime strftime f None (e_t e) = Some q /\ names d !! q = None).

Fixpoint admissible_run (es : list Event) (l : CLogger) (d : Disk) : Prop :=
  match es with
  | [] => True
  | e :: es => admissible e d /\ forall l' d', log_event e l d = Some (l', d') -> admissible_run es l' d'
  end.

Lemma trim_newlines_length s t : trim_newlines s = Some t -> (length t <= length s)%nat.
Proof.
  revert t. induction s as [|c s IH]; intros t; cbn [trim_newlines]; [done|]. case_decide.
  - intros Ht%IH. cbn [length]. lia.
  - intros [= <-]. rewrite length_app, length_rev. cbn [length]. lia.
Qed.

Lemma written_length e line : written e = Some line -> Z.of_nat (length line) <= max_line.
Proof.
  unfold written. destruct (trim_newlines _) as [data|] eqn:Ed; [|done]. apply trim_newlines_length in Ed.
  rewrite length_rev, length_take in Ed. cbn [mbind option_bind]. destruct (log_head _ _ _ _ _ _) as [h|]; [|done]. cbn [mbind option_bind].
  destruct (sent_head h) as [h'|] eqn:Eh; [|done]. cbn [mbind option_bind]. intros [= <-].
  assert (length h' <= 128)%nat as Hh.
  { unfold sent_head in Eh. destruct (Nat.ltb_spec (length h) 128); [injection Eh as <-; lia|].
    destruct (length h =? 128)%nat; [|done]. injection Eh as <-. rewrite length_app, length_take. cbn [length]. lia. }
  rewrite !length_app. cbn [length]. unfold max_line, max_log_size in *. lia.
Qed.

Lemma log_event_rel all files dropped l d e :
  log_rel m all files dropped l d -> 0 < m -> admissible e d ->
  exists l' d' files' dropped', log_event e l d = Some (l', d') /\ log_rel m (all ++ line_of e) files' dropped' l' d'.
Proof.
  intros H Hm Ha. unfold log_event, logMessage, admissible in *. rewrite (lr_level _ _ _ _ _ _ H).
  destruct (Z.ltb_spec lv (e_level e)) as [Hl|Hl].
  { unfold line_of. destruct (Z.ltb_spec lv (e_level e)); [|lia]. rewrite app_nil_r. by eexists _, _, _, _. }
  rewrite (lr_check _ _ _ _ _ _ H). cbn [Z.eqb negb andb mbind option_bind].
  destruct (Ha Hl) as [[line Hw] Hrot]. pose proof (written_length e line Hw) as Hlen.
  assert (line_of e = line) as El by (unfold line_of; destruct (Z.ltb_spec lv (e_level e)); [lia|by rewrite Hw]). rewrite El in *.
  unfold written in Hw. destruct (trim_newlines _) as [data|]; [|done]. cbn [mbind option_bind] in *.
  destruct (log_head _ _ _ _ _ _) as [h|]; [|done]. cbn [mbind option_bind] in *. destruct (sent_head h) as [h'|]; [|done].
  cbn [mbind option_bind] in *. injection Hw as Hw. rewrite Hw.
  pose proof (log_rel_write all files dropped l d line H Hlen) as H1. rewrite (lr_size _ _ _ _ _ _ H).
  destruct (Z.eqb_spec m 0); [lia|]. destruct (log_rel_open _ _ _ _ _ _ H) as (i & c & Hi & Hf & Hc).
  destruct (log_rel_open _ _ _ _ _ _ H1) as (i' & c' & Hi' & Hf' & Hc').
  assert (lseek_end (_fd l) (writev (_fd l) line d) = Z.of_nat (length (text_of (writev (_fd l) line d) f))) as ->.
  { unfold lseek_end, text_of, content. rewrite Hi', Hf'. done. }
  assert (text_of (writev (_fd l) line d) f = text_of d f ++ line) as Ht.
  { destruct (writev_spec d (_fd l) f i line (lr_disk _ _ _ _ _ _ H) Hi Hf) as (_ & Hcf & _). unfold text_of. by rewrite Hcf, Hc. }
  rewrite Ht, length_app. destruct (Z.leb_spec 0 (Z.of_nat (length (text_of d f) + length line))); [|lia]. cbn [andb].
  destruct (Z.leb_spec m (Z.of_nat (length (text_of d f) + length line))) as [Hfull|Hroom].
  - destruct (Hrot ltac:(lia)) as (q & Hq & Hn). eapply rotateLog_rel; [exact H1|done|exact Hq|].
    unfold writev. by rewrite Hi.
  - eexists _, _, _, _. split; [done|]. destruct H1. split; try done. rewrite Ht, length_app. lia.
Qed.

Lemma log_run_rel es : forall all files dropped l d,
  log_rel m all files dropped l d -> 0 < m -> admissible_run es l d ->
  exists l' d' files' dropped', log_run es l d = Some (l', d') /\ log_rel m (all ++ concat (line_of <$> es)) files' dropped' l' d'.
Proof.
  induction es as [|e es IH]; intros all files dropped l d H Hm Ha; cbn [log_run fmap list_fmap concat].
  { rewrite app_nil_r. by eexists _, _, _, _. }
  destruct Ha as [He Ha]. destruct (log_event_rel all files dropped l d e H Hm He) as (l1 & d1 & fs & dr & E & H1). rewrite E. cbn [mbind option_bind].
  destruct (IH _ _ _ _ _ H1 Hm (Ha _ _ E)) as (l2 & d2 & fs2 & dr2 & -> & H2). eexists _, _, _, _. split; [done|]. by rewrite <- app_assoc in H2.
Qed.

Lemma files_space d files :
  Forall (fun p => Z.of_nat (length (text_of d p)) < m + max_line) files ->
  Z.of_nat (length (files_text d files)) <= Z.of_nat (length files) * (m + max_line).
Proof.
  unfold files_text. induction 1 as [|p files Hp _ IH]; cbn [fmap list_fmap concat length]; [lia|]. rewrite length_app. lia.
Qed.

End Rotation.

(** ** From start-up *)

(** The logger as [main] sets it up, with a limit on the rotated files. *)
Definition start_log (can_open : bytes -> bool) (f : bytes) (n m : Z) (level : bytes) (d : Disk) : CLogger * Disk :=
  let '(l, d) := setFileName can_open f true (setLogLevel (Some (lit "DEBUG")) CLogger_new) d in
  (setMaxFileIndex n (setMaxFileSize m (setLogLevel (Some level) l)), d).

Lemma level_loop_keeps level i ns l :
  let l' := level_loop level i ns l in
  _fd l' = _fd l /\ _name l' = _name l /\ _check l' = _check l /\ _flag l' = _flag l /\ _fileList l' = _fileList l.
Proof.
  revert i. induction ns as [|x ns IH]; intros i; cbn [level_loop]; [done|]. destruct (strcasecmp_eq level x); [done|]. apply IH.
Qed.

Lemma open_append_spec can_open d p : can_open p = true -> disk_ok d ->
  exists fd d' i, open_append can_open (Some p) d = (fd, d') /\ fd = lowest_fd (fds d) /\ fds d !! fd = None /\ fds d' = <[fd := Inode i]> (fds d) /\
    names d' !! p = Some i /\ disk_ok d' /\ (forall q, text_of d' q = text_of d q).
Proof.
  intros Ho Hd. unfold open_append. rewrite Ho. destruct (names d !! p) as [i|] eqn:Ep.
  - unfold create. rewrite Ep. eexists _, _, i. split; [done|]. split; [done|]. split; [apply lowest_fd_free|]. split; [done|]. split; [exact Ep|].
    split; [|done]. destruct Hd. by split.
  - destruct (create_spec d p Hd Ep) as (i & d1 & -> & Hd1 & Hp & Hc & Hf & Hq). eexists _, _, i. split; [done|].
    rewrite Hf. split; [done|]. split; [apply lowest_fd_free|]. split; [done|]. split; [exact Hp|]. split; [destruct Hd1; by split|].
    intros q. unfold text_of, content in *. cbn [names inodes set_fds]. destruct (decide (q = p)) as [->|]; [by rewrite Hc, Ep|by rewrite Hq].
Qed.

Lemma start_log_rel can_open f n m level d :
  can_open f = true -> disk_ok d -> 0 < m <= 0x40000000 -> 0 <= n <= 0x400 -> Z.of_nat (length (text_of d f)) < m ->
  let '(l, d1) := start_log can_open f n m level d in
  log_rel f n m (_level l) m (text_of d f) [] [] l d1.
Proof.
  intros Ho Hd Hm Hn Hc. unfold start_log, setFileName.
  destruct (open_append_spec can_open d f Ho Hd) as (fd & d1 & i & E & _ & Hfree & Hfds & Hf & Hd1 & Ht).
  assert (_name (setLogLevel (Some (lit "DEBUG")) CLogger_new) = None) as -> by done.
  rewrite bool_decide_eq_false_2 by (by intros []). cbn [andb]. rewrite E. unfold redirect. cbn [negb _flag _fd].
  change (_fd (setLogLevel (Some (lit "DEBUG")) CLogger_new) =? 2) with true. cbn iota beta.
  set (l0 := set_fd fd _). pose proof (level_loop_keeps level 0 _errstr l0) as (E1 & E2 & E3 & E4 & E5).
  change (level_loop level 0 _errstr l0) with (setLogLevel (Some level) l0) in *. set (l1 := setLogLevel (Some level) l0) in *.
  assert (_maxFileIndex (setMaxFileIndex n (setMaxFileSize m l1)) = n) as Hin.
  { unfold setMaxFileIndex. cbn [_maxFileIndex]. destruct (Z.ltb_spec n 0); [lia|]. by destruct (Z.ltb_spec 0x400 n); [lia|]. }
  assert (_maxFileSize (setMaxFileIndex n (setMaxFileSize m l1)) = m) as Hms.
  { unfold setMaxFileIndex, setMaxFileSize. cbn [_maxFileSize]. destruct (Z.ltb_spec m 0); [lia|]. by destruct (Z.ltb_spec 0x40000000 m); [lia|]. }
  split; try done.
  - exists i. unfold setMaxFileIndex, setMaxFileSize. cbn [_fd]. rewrite E1. cbn [_fd set_fd l0]. rewrite Hfds, lookup_insert_eq. done.
  - apply NoDup_singleton.
  - intros Hp. unfold setMaxFileIndex, setMaxFileSize. cbn [_fileList length]. rewrite E5. split; [done|lia].
  - cbn. by rewrite Ht.
  - by rewrite Ht.
Qed.

(** C30. The log survives rotation: whatever one caller at a time logs after
    start-up, if each message makes a line ([admissible]: it is not blank, its head
    has less than 128 bytes) and no two rotations fall in the same second, the
    rotated files, oldest first,
    and the current one together hold the end of everything that was ever
    logged, line by line and in order; all of it when the number of files is not
    limited.  At most the configured number of rotated files is kept, and the
    files take no more room than their number allows.  (Calls that overlap can
    lose a line to a rotation, [LogRace.rotation_loses_a_line].) *)
Theorem log_rotation_keeps_newest_lines can_open localtime strftime f n m level d es :
  can_open f = true -> disk_ok d -> 0 < m <= 0x40000000 -> 0 <= n <= 0x400 -> Z.of_nat (length (text_of d f)) < m ->
  let '(l, d1) := start_log can_open f n m level d in
  admissible_run can_open localtime strftime f m (_level l) es l d1 ->
  exists l' d' files dropped,
    log_run can_open localtime strftime es l d1 = Some (l', d') /\
    text_of d f ++ concat (line_of localtime (_level l) <$> es) = dropped ++ files_text d' files ++ text_of d' f /\
    (n = 0 -> dropped = []) /\ (0 < n -> _fileList l' = files /\ Z.of_nat (length files) <= n) /\
    Z.of_nat (length (files_text d' files ++ text_of d' f)) <= (Z.of_nat (length files) + 1) * (m + max_line).
Proof.
  intros Ho Hd Hm Hn Hc. pose proof (start_log_rel can_open f n m level d Ho Hd Hm Hn Hc) as Hr.
  destruct (start_log can_open f n m level d) as [l d1]. intros Ha.
  destruct (log_run_rel can_open localtime strftime f n m (_level l) Ho es (text_of d f) [] [] l d1 Hr ltac:(lia) Ha)
    as (l' & d' & files & dropped & E & H).
  exists l', d', files, dropped. split; [done|]. destruct H. split; [done|]. split; [done|]. split; [done|].
  rewrite length_app. pose proof (files_space m d' files lr_bound0). unfold max_line in *. lia.
Qed.

(** Two rotations in the same second lose what the first put away: the second
    renames the current file over it. *)
Theorem rotation_overwrites_same_second can_open localtime strftime f n m lv all files dropped l d t q c :
  can_open f = true -> log_rel f n m lv (m + max_line) all files dropped l d -> n = 0 ->
  rotated_name localtime strftime f None t = Some q -> q <> f -> content d q = Some c ->
  exists l' d', rotateLog can_open localtime strftime None None t l d = Some (l', d') /\
    content d' q = content d f /\ text_of d' f = [] /\ (forall p, p <> q -> p <> f -> content d' p = content d p).
Proof.
  intros Ho H Hn Hr Hqf Hq. destruct (log_rel_open _ _ _ _ _ _ _ _ _ _ H) as (i & c' & Hi & Hf & Hc).
  unfold rotateLog. rewrite (lr_name _ _ _ _ _ _ _ _ _ _ H). unfold access. rewrite bool_decide_eq_true_2 by (by eexists). rewrite Hr.
  cbn [mbind option_bind]. rewrite (lr_index _ _ _ _ _ _ _ _ _ _ H), Hn. cbn [Z.ltb Z.compare mbind option_bind].
  destruct (rename_spec d f q (lr_disk _ _ _ _ _ _ _ _ _ _ H)) as (Hd1 & Hf1 & Hq1 & Ho1); [by eexists|done|].
  unfold open_append. rewrite Ho. destruct (create_spec (rename f q d) f Hd1 Hf1) as (j & d2 & -> & _ & _ & Hc2 & _ & Ho2).
  unfold redirect. rewrite (lr_flag _ _ _ _ _ _ _ _ _ _ H). cbn [negb]. eexists _, _. split; [done|].
  assert (forall p, content (if _fd l =? 2 then set_fds (<[lowest_fd (fds d2) := Inode j]> (fds d2)) d2
    else close (_fd l) (set_fds (<[lowest_fd (fds d2) := Inode j]> (fds d2)) d2)) p = content d2 p) as Hp by (intros p; by destruct (_fd l =? 2)).
  split; [rewrite Hp, Ho2 by done; exact Hq1|]. split; [unfold text_of; by rewrite Hp, Hc2|].
  intros p Hpq Hpf. by rewrite Hp, Ho2, Ho1.
Qed.

(** Naming the log file a second time loses the log: the descriptor that was
    closed is given to the new file, which is then closed in its place; from
    then on nothing is written anywhere. *)
Theorem second_file_name_loses_log can_open f1 f2 d text :
  can_open f1 = true -> can_open f2 = true -> is_Some (fds d !! 2) -> disk_ok d ->
  let '(l1, d1) := setFileName can_open f1 true CLogger_new d in
  let '(l2, d2) := setFileName can_open f2 true l1 d1 in
  writev (_fd l2) text d2 = d2 /\ lseek_end (_fd l2) d2 = -1.
Proof.
  intros H1 H2 [t Ht] Hd.
  destruct (open_append_spec can_open d f1 H1 Hd) as (fd1 & d1 & i1 & E1 & Hlow & Hfree & Hfds & _ & Hd1 & _).
  assert (fd1 <> 2) as Hne by congruence. assert (0 <= fd1) as Hpos by (subst; apply lowest_fd_nonneg).
  unfold setFileName at 1. cbn [_name _fd CLogger_new].
  rewrite bool_decide_eq_false_2 by (by intros []). cbn [andb]. rewrite E1. unfold redirect at 1. cbn [negb _flag _fd Z.eqb Pos.eqb].
  unfold setFileName. cbn [_name _fd set_fd]. rewrite bool_decide_eq_true_2 by (by eexists).
  destruct (Z.eqb_spec fd1 (-1)); [lia|]. cbn [andb negb].
  assert (fds (close fd1 d1) = fds d) as Hcl by (cbn; rewrite Hfds, delete_insert_id; done).
  destruct (open_append_spec can_open (close fd1 d1) f2 H2) as (fd2 & d2 & i2 & -> & Hlow2 & _ & Hfds2 & _ & _ & _).
  { destruct Hd1. by split. }
  rewrite Hcl in Hlow2. assert (fd2 = fd1) as -> by congruence. unfold redirect. cbn [negb _flag _fd set_fd].
  destruct (Z.eqb_spec fd1 2); [done|]. unfold writev, lseek_end. cbn [fds close set_fds]. by rewrite lookup_delete_eq.
Qed.

(** A message of nothing but line ends makes the logger read before its
    buffer. *)
Theorem blank_message_is_undefined can_open localtime strftime level file line function k tv t l d :
  level <= _level l -> _check l = 0 ->
  logMessage can_open localtime strftime level file line function (replicate k x0a) tv t l d = None.
Proof.
  intros Hl Hc. unfold logMessage. destruct (Z.ltb_spec (_level l) level); [lia|]. rewrite Hc. cbn [Z.eqb negb andb mbind option_bind].
  rewrite take_replicate. generalize (Z.to_nat (max_log_size - 1) `min` k)%nat as j. intros j.
  assert (trim_newlines (rev (replicate j x0a)) = None) as ->; [|done].
  assert (forall s, Forall (fun c => c = x0a) s -> trim_newlines s = None) as Ht.
  { induction 1 as [|c s -> _ IH]; [done|]. cbn [trim_newlines]. by rewrite decide_True. }
  apply Ht, Forall_rev, Forall_replicate. done.
Qed.

(** ** Concrete runs *)

Definition demo_time (t : Z) : tm := MkTm 115 0 1 0 0 t.
Definition demo_disk : Disk := MkDisk ∅ ∅ 0 (list_to_map [(0, Terminal); (1, Terminal); (2, Terminal)]).
Definition demo_event (t : Z) : Event := MkEvent 2 (lit "a.cpp") 7 (lit "main") (lit "hello" ++ [x0a]) (Timeval t 0) t.
Definition any_file (p : bytes) : bool := true.
Definition no_strftime (fmt : bytes) (m : tm) : option bytes := None.

Lemma demo_disk_ok : disk_ok demo_disk.
Proof. split; cbn [names inodes demo_disk]; intros *; rewrite ?lookup_empty; try done. Qed.

(** The state after the first [k] of three messages. *)
Definition demo_start : CLogger * Disk := start_log any_file (lit "x.log") 1 40 (lit "debug") demo_disk.
Definition demo_after (k : Z) : CLogger * Disk :=
  default demo_start (log_run any_file demo_time no_strftime (demo_event <$> seqZ 1 k) demo_start.1 demo_start.2).

Lemma demo_admissible k : 1 <= k <= 3 ->
  admissible demo_time no_strftime (lit "x.log") 40 3 (demo_event k) (demo_after (k - 1)).2.
Proof.
  intros Hk. assert (k = 1 \/ k = 2 \/ k = 3) as [->|[->| ->]] by lia; intros _;
    (split; [apply (bool_decide_eq_true_1 (is_Some _)); vm_compute; reflexivity|intros _]);
    eexists; (split; [vm_compute; reflexivity|vm_compute; reflexivity]).
Qed.

Lemma demo_step k : 1 <= k <= 3 ->
  log_event any_file demo_time no_strftime (demo_event k) (demo_after (k - 1)).1 (demo_after (k - 1)).2 = Some (demo_after k).
Proof. intros Hk. assert (k = 1 \/ k = 2 \/ k = 3) as [->|[->| ->]] by lia; vm_compute; reflexivity. Qed.

Lemma demo_run_admissible :
  admissible_run any_file demo_time no_strftime (lit "x.log") 40 3 [demo_event 1; demo_event 2; demo_event 3] (demo_after 0).1 (demo_after 0).2.
Proof.
  assert (forall k es, 1 <= k <= 3 ->
    admissible_run any_file demo_time no_strftime (lit "x.log") 40 3 es (demo_after k).1 (demo_after k).2 ->
    admissible_run any_file demo_time no_strftime (lit "x.log") 40 3 (demo_event k :: es) (demo_after (k - 1)).1 (demo_after (k - 1)).2) as H.
  { intros k es Hk Hes. split; [by apply demo_admissible|]. intros l d E. rewrite demo_step in E by done. injection E as E. by rewrite E in Hes. }
  apply (H 1); [lia|]. apply (H 2); [lia|]. apply (H 3); [lia|]. done.
Qed.

(** One rotated file is kept: of three lines, each in a file of its own, the last
    is left in it and the current file is empty. *)
Lemma log_rotation_keeps_newest_lines_witness :
  exists l d', log_run any_file demo_time no_strftime [demo_event 1; demo_event 2; demo_event 3] demo_start.1 demo_start.2 = Some (l, d') /\
    _fileList l = [lit "x.log.20150101000003"] /\ text_of d' (lit "x.log") = [].
Proof.
  pose proof (log_rotation_keeps_newest_lines any_file demo_time no_strftime (lit "x.log") 1 40 (lit "debug") demo_disk
    [demo_event 1; demo_event 2; demo_event 3]) as H.
  change (start_log any_file (lit "x.log") 1 40 (lit "debug") demo_disk) with demo_start in H.
  rewrite (surjective_pairing demo_start) in H. destruct H as (l & d' & files & dropped & E & _).
  - reflexivity.
  - apply demo_disk_ok.
  - lia.
  - lia.
  - vm_compute. reflexivity.
  - exact demo_run_admissible.
  - exists l, d'. split; [exact E|].
    assert (demo_after 3 = (l, d')) as H3 by (unfold demo_after; change (demo_event <$> seqZ 1 3) with [demo_event 1; demo_event 2; demo_event 3]; rewrite E; reflexivity).
    change l with (l, d').1. change (text_of d' (lit "x.log")) with (text_of (l, d').2 (lit "x.log")). rewrite <- H3. split; vm_compute; reflexivity.
Defined.
