(* ===== verification/Lock.v ===== *)
(** [common/xLock.h]: the recursive mutex and its guard, and what they promise:
    an object all of whose operations begin with [XLOCK] behaves, whatever the
    threads' interleaving, as if its operations ran one after the other.

    [pthread_mutex_lock] and [pthread_mutex_unlock] are those of a recursive
    mutex; a thread that has to wait takes no step.  An operation is a sequence
    of atomic actions on the object between which other threads may run. *)

From S2P Require Import Prelude.

(** ** [class xLock] *)

(** The thread that holds the mutex, and how often it entered. *)
Definition xLock : Type := option (nat * nat).
Definition xLock_new : xLock := None.

(** [None]: the thread waits. *)
Definition Enter (l : xLock) (t : nat) : option xLock :=
  match l with
  | None => Some (Some (t, 1%nat))
  | Some (o, n) => if (o =? t)%nat then Some (Some (t, S n)) else None
  end.

(** [None]: the thread does not hold the mutex. *)
Definition Leave (l : xLock) (t : nat) : option xLock :=
  match l with
  | Some (o, S n) => if (o =? t)%nat then Some (match n with O => None | S _ => Some (t, n) end) else None
  | _ => None
  end.

(** ** Operations as atomic actions *)

Inductive prog (St R : Type) :=
| Ret (r : R)
| Act (k : St -> option (St * prog St R)).
Arguments Ret {St R}.
Arguments Act {St R}.

(** Without interruption; [None] is undefined behaviour. *)
Fixpoint run {St R} (p : prog St R) (s : St) : option (St * R) :=
  match p with
  | Ret r => Some (s, r)
  | Act k => match k s with Some (s', p') => run p' s' | None => None end
  end.

Section LockedObject.
Context {St Op R : Type} (body : Op -> prog St R).

(** [XLOCK(lock)] enters at the start of the operation and leaves at its end. *)
Inductive thread := Idle (todo : list Op) | Inside (o : Op) (p : prog St R) (todo : list Op).

Record system := MkSystem { mutex : xLock; object : St; threads : list thread; log : list (nat * Op * R) }.

Inductive outcome := Moves (s : system) | Waits | Undefined.

Definition turn (t : nat) (s : system) : outcome :=
  match threads s !! t with
  | Some (Idle (o :: todo)) =>
      match Enter (mutex s) t with
      | Some l => Moves (MkSystem l (object s) (<[t := Inside o (body o) todo]> (threads s)) (log s))
      | None => Waits
      end
  | Some (Inside o (Act k) todo) =>
      match k (object s) with
      | Some (x, p) => Moves (MkSystem (mutex s) x (<[t := Inside o p todo]> (threads s)) (log s))
      | None => Undefined
      end
  | Some (Inside o (Ret r) todo) =>
      match Leave (mutex s) t with
      | Some l => Moves (MkSystem l (object s) (<[t := Idle todo]> (threads s)) (log s ++ [(t, o, r)]))
      | None => Undefined
      end
  | _ => Waits
  end.

(** A schedule names the thread that runs next. *)
Fixpoint exec (schedule : list nat) (s : system) : option system :=
  match schedule with
  | [] => Some s
  | t :: schedule =>
      match turn t s with Moves s => exec schedule s | Waits => exec schedule s | Undefined => None end
  end.

Definition start (x : St) (programs : list (list Op)) : system := MkSystem xLock_new x (Idle <$> programs) [].

(** ** One after the other *)

(** The log is a sequential history: each operation ran on what the one before
    it left and returned what was logged. *)
Inductive history : St -> list (nat * Op * R) -> St -> Prop :=
| history_nil x : history x [] x
| history_snoc x h y t o z r : history x h y -> run (body o) y = Some (z, r) -> history x (h ++ [(t, o, r)]) z.

(** What a thread has done and has still to do. *)
Definition done_by (t : nat) (h : list (nat * Op * R)) : list Op := (fun e => e.1.2) <$> filter (fun e => e.1.1 = t) h.
Definition rest (th : thread) : list Op := match th with Idle todo => todo | Inside o _ todo => o :: todo end.

Section Safe.
Context (ok : St -> Prop) (safe : forall o x, ok x -> exists y r, run (body o) x = Some (y, r) /\ ok y).
Context (x0 : St) (programs : list (list Op)).

Record inv (s : system) : Prop := {
  inv_base : exists y, history x0 (log s) y /\ ok y /\
    match mutex s with
    | None => object s = y /\ forall t o p todo, threads s !! t <> Some (Inside o p todo)
    | Some (t, n) => n = 1%nat /\ exists o p todo, threads s !! t = Some (Inside o p todo) /\ run p (object s) = run (body o) y /\
        forall t' o' p' todo', threads s !! t' = Some (Inside o' p' todo') -> t' = t
    end;
  inv_order : forall t, (fun th => done_by t (log s) ++ rest th) <$> threads s !! t = programs !! t }.

Lemma inv_start : ok x0 -> inv (start x0 programs).
Proof.
  intros Hx. split; cbn.
  - exists x0. split; [constructor|]. split; [done|]. split; [done|]. intros t o p todo. rewrite list_lookup_fmap. by destruct (programs !! t).
  - intros t. rewrite list_lookup_fmap. by destruct (programs !! t).
Qed.

Lemma done_by_snoc t t' o r h : done_by t (h ++ [(t', o, r)]) = if (t' =? t)%nat then done_by t h ++ [o] else done_by t h.
Proof.
  unfold done_by. rewrite filter_app, fmap_app. cbn [filter list_filter fst]. destruct (Nat.eqb_spec t' t) as [->|Hne].
  - by rewrite decide_True.
  - rewrite decide_False by done. cbn. by rewrite app_nil_r.
Qed.

(** The order of a thread's operations does not change when it or another
    thread takes a step. *)
Lemma order_step (s s' : system) t th th' :
  threads s !! t = Some th -> threads s' = <[t := th']> (threads s) ->
  (forall u, u <> t -> done_by u (log s') = done_by u (log s)) ->
  done_by t (log s') ++ rest th' = done_by t (log s) ++ rest th ->
  (forall u, (fun th => done_by u (log s) ++ rest th) <$> threads s !! u = programs !! u) ->
  forall u, (fun th => done_by u (log s') ++ rest th) <$> threads s' !! u = programs !! u.
Proof.
  intros Ht Hs Hu He Ho u. rewrite <- Ho, Hs. destruct (decide (u = t)) as [->|Hne].
  - rewrite list_lookup_insert_eq by (by eapply lookup_lt_Some). rewrite Ht. cbn. by rewrite He.
  - rewrite list_lookup_insert_ne by done. rewrite Hu by done. done.
Qed.

Lemma inv_turn t s : inv s -> match turn t s with Moves s' => inv s' | Waits => True | Undefined => False end.
Proof using safe.
  intros [(y & Hh & Hy & Hm) Ho]. unfold turn. destruct (threads s !! t) as [[[|o todo]|o [r|k] todo]|] eqn:Et; try done.
  - unfold Enter. destruct (mutex s) as [[u n]|] eqn:El.
    + destruct Hm as (-> & o' & p' & todo' & Eu & _). destruct (Nat.eqb_spec u t) as [->|]; [congruence|done].
    + destruct Hm as [Hx Hn]. split.
      * cbn [mutex object threads log]. exists y. split; [done|]. split; [done|]. split; [done|]. exists o, (body o), todo.
        rewrite list_lookup_insert_eq by (by eapply lookup_lt_Some). split; [done|]. split; [by rewrite Hx|].
        intros t' o' p' todo'. destruct (decide (t' = t)) as [->|Hne]; [done|]. rewrite list_lookup_insert_ne by done. intros E. by destruct (Hn _ _ _ _ E).
      * by eapply (order_step s _ t); [exact Et|..].
  - destruct (mutex s) as [[u n]|] eqn:El; [|destruct Hm as [_ Hn]; exfalso; exact (Hn _ _ _ _ Et)].
    destruct Hm as (-> & o' & p' & todo' & Eu & Er & Hall). assert (t = u) as <- by eauto. rewrite Et in Eu. injection Eu as <- <- <-.
    cbn [Leave]. rewrite Nat.eqb_refl. cbn [run] in Er. symmetry in Er. destruct (safe o y Hy) as (z & r' & Er' & Hz). rewrite Er in Er'. injection Er' as <- <-.
    split.
    + cbn [mutex object threads log]. eexists. split; [eapply history_snoc; [exact Hh|exact Er]|]. split; [done|]. split; [done|]. intros t' o' p' todo'.
      destruct (decide (t' = t)) as [->|Hne]; [rewrite list_lookup_insert_eq by (by eapply lookup_lt_Some); done|].
      rewrite list_lookup_insert_ne by done. intros E. destruct Hne. eauto.
    + eapply (order_step s _ t); [exact Et|done|..|exact Ho]; cbn [log].
      * intros u Hu. rewrite done_by_snoc. by destruct (Nat.eqb_spec t u).
      * rewrite done_by_snoc, Nat.eqb_refl, <- app_assoc. done.
  - destruct (mutex s) as [[u n]|] eqn:El; [|destruct Hm as [_ Hn]; exfalso; exact (Hn _ _ _ _ Et)].
    destruct Hm as (-> & o' & p' & todo' & Eu & Er & Hall). assert (t = u) as <- by eauto. rewrite Et in Eu. injection Eu as <- <- <-.
    destruct (safe o y Hy) as (z & r' & Er' & _). rewrite Er' in Er. cbn [run] in Er. destruct (k (object s)) as [[x p]|]; [|done].
    split.
    + cbn [mutex object threads log]. exists y. split; [done|]. split; [done|]. split; [done|]. exists o, p, todo.
      rewrite list_lookup_insert_eq by (by eapply lookup_lt_Some). split; [done|]. split; [by rewrite Er, Er'|].
      intros t' o' p' todo'. destruct (decide (t' = t)) as [->|Hne]; [done|]. rewrite list_lookup_insert_ne by done. eauto.
    + by eapply (order_step s _ t); [exact Et|..].
Qed.

Lemma inv_exec schedule s : inv s -> exists s', exec schedule s = Some s' /\ inv s'.
Proof using safe.
  revert s. induction schedule as [|t schedule IH]; intros s Hi; cbn [exec]; [eauto|].
  pose proof (inv_turn t s Hi) as Ht. destruct (turn t s); [auto|auto|done].
Qed.

(** Whoever holds the mutex can go on, and when nobody does everybody can. *)
Lemma inv_progress s : inv s -> (exists t th, threads s !! t = Some th /\ rest th <> []) -> exists t s', turn t s = Moves s'.
Proof using safe.
  intros Hi (t & th & Et & Hr). destruct (mutex s) as [[u n]|] eqn:El.
  - destruct (inv_base _ Hi) as (y & _ & _ & Hm). rewrite El in Hm. destruct Hm as (-> & o & p & todo & Eu & _).
    exists u. pose proof (inv_turn u s Hi) as Hu. unfold turn in *. rewrite Eu, El in *. destruct p as [r|k].
    + cbn [Leave]. rewrite Nat.eqb_refl. eauto.
    + destruct (k (object s)) as [[x p]|]; [eauto|done].
  - destruct (inv_base _ Hi) as (y & _ & _ & Hm). rewrite El in Hm. destruct Hm as [_ Hn].
    exists t. unfold turn. rewrite Et, El. destruct th as [[|o todo]|]; [done| |by destruct (Hn _ _ _ _ Et)]. cbn [Enter]. eauto.
Qed.
End Safe.
End LockedObject.
