(* ===== verification/SortedSetRace.v ===== *)
(** [common/sorted_set.cpp] without a lock: the operations of [SortedSet] as the
    sequences of calls they make on their two containers.  The thread of
    [ExpireManager] and that of the Redis server share one such object
    ([src/xExpireManager.cpp]) and nothing keeps them apart.

    Alone, the sequences are the operations of [SortedSet.v]; interleaved, they
    reach undefined behaviour: here a call on a container is not even taken
    apart any further. *)

From S2P Require Import Prelude SortedSet Lock.

Import SS.

Definition act {R} (f : SortedSet -> option SortedSet) (k : prog SortedSet R) : prog SortedSet R :=
  Act (fun s => s ← f s; Some (s, k)).

(** [sorted_set.erase(it)]: the iterator must be of an element. *)
Definition erase_item (it : Item) (s : SortedSet) : option SortedSet :=
  if decide (it ∈ sorted_set s) then Some (MkSortedSet (existed s) (set_erase it (sorted_set s))) else None.
Definition insert_item (it : Item) (s : SortedSet) : option SortedSet :=
  Some (MkSortedSet (existed s) (set_insert it (sorted_set s))).
Definition index_item (k : bytes) (it : Item) (s : SortedSet) : option SortedSet :=
  Some (MkSortedSet (<[k := it]> (existed s)) (sorted_set s)).
Definition erase_index (k : bytes) (s : SortedSet) : option SortedSet :=
  Some (MkSortedSet (delete k (existed s)) (sorted_set s)).

(** [*it]: the element must be there. *)
Definition read_item {R} (it : Item) (k : Item -> prog SortedSet R) : prog SortedSet R :=
  Act (fun s => if decide (it ∈ sorted_set s) then Some (s, k it) else None).

Definition add_prog (key : bytes) (score : Z) : prog SortedSet Z :=
  let item := MkItem key score in
  let store ret := act (insert_item item) (act (index_item key item) (Ret ret)) in
  Act (fun s =>
    Some (s, match existed s !! key with
             | None => store 1
             | Some it2 => read_item it2 (fun it => if SS.score it =? score then Ret 0 else act (erase_item it2) (store 0))
             end)).

Definition del_prog (key : bytes) : prog SortedSet Z :=
  Act (fun s =>
    Some (s, match existed s !! key with
             | None => Ret 0
             | Some it => act (erase_item it) (act (erase_index key) (Ret 1))
             end)).

Definition pop_prog (first : list Item -> option Item) : prog SortedSet Z :=
  Act (fun s =>
    Some (s, match first (sorted_set s) with
             | None => Ret 0
             | Some it => read_item it (fun item => act (erase_index (SS.key item)) (act (erase_item it) (Ret 1)))
             end)).
Definition pop_front_prog : prog SortedSet Z := pop_prog head.
Definition pop_back_prog : prog SortedSet Z := pop_prog last.

(** ** One thread *)

Lemma run_container_act {R} f (k : prog SortedSet R) s : Lock.run (act f k) s = s ← f s; Lock.run k s.
Proof. unfold act. cbn [Lock.run]. by destruct (f s). Qed.

Lemma run_read {R} it (k : Item -> prog SortedSet R) s : it ∈ sorted_set s -> Lock.run (read_item it k) s = Lock.run (k it) s.
Proof. intros H. unfold read_item. cbn [Lock.run]. by rewrite decide_True. Qed.

Lemma run_erase {R} it (k : prog SortedSet R) s : it ∈ sorted_set s ->
  Lock.run (act (erase_item it) k) s = Lock.run k (MkSortedSet (existed s) (set_erase it (sorted_set s))).
Proof. intros H. rewrite run_container_act. unfold erase_item. by rewrite decide_True. Qed.

(** Left alone, each sequence is the operation. *)
Theorem alone_it_is_the_operation s k sc : wf s ->
  Lock.run (add_prog k sc) s = Some ((add s k sc).2, (add s k sc).1) /\
  Lock.run (del_prog k) s = Some ((del s k).2, (del s k).1) /\
  Lock.run pop_front_prog s = Some ((pop_front s).2, (pop_front s).1) /\
  Lock.run pop_back_prog s = Some ((pop_back s).2, (pop_back s).1).
Proof.
  intros [_ Hw]. assert (forall k it, existed s !! k = Some it -> it ∈ sorted_set s) as Hin by (intros k' it E; by apply Hw in E as [? _]).
  split_and!.
  - unfold add_prog, add. cbn [Lock.run]. destruct (existed s !! k) as [it|] eqn:E; [|done].
    rewrite run_read by eauto. destruct (SS.score it =? sc); [done|]. by rewrite run_erase by eauto.
  - unfold del_prog, del. cbn [Lock.run]. destruct (existed s !! k) as [it|] eqn:E; [|done]. by rewrite run_erase by eauto.
  - unfold pop_front_prog, pop_prog, pop_front. cbn [Lock.run]. destruct (sorted_set s) as [|it l] eqn:E; [done|]. cbn [head].
    rewrite run_read by (rewrite E; by left). rewrite run_container_act. cbn [erase_index mbind option_bind].
    rewrite run_erase by (cbn [sorted_set]; rewrite E; by left). cbn [Lock.run existed sorted_set]. by rewrite E.
  - unfold pop_back_prog, pop_prog, pop_back. cbn [Lock.run]. destruct (last (sorted_set s)) as [it|] eqn:E; [|done].
    apply last_Some_elem_of in E. rewrite run_read by done. rewrite run_container_act. cbn [erase_index mbind option_bind].
    by rewrite run_erase by done.
Qed.

(** ** Two threads *)

(** The schedule says which of the two makes the next call. *)
Inductive outcome := Undefined | Reached (s : SortedSet) (a b : prog SortedSet Z).

Fixpoint race (schedule : list bool) (s : SortedSet) (a b : prog SortedSet Z) : outcome :=
  match schedule with
  | [] => Reached s a b
  | first :: schedule =>
      match (if first : bool then a else b) with
      | Ret _ => race schedule s a b
      | Act f =>
          match f s with
          | None => Undefined
          | Some (s, p) => if first then race schedule s p b else race schedule s a p
          end
      end
  end.

Definition one_key : SortedSet := (add sset_new (lit "k") 5).2.

(** The expiration thread removes the entry a client's command has just looked
    up: the command reads an element that is gone. *)
Lemma racing_pop_and_add_are_undefined :
  race [false; true; true; true; true; false] one_key pop_front_prog (add_prog (lit "k") 9) = Undefined.
Proof. vm_compute. reflexivity. Qed.

(** Or it removes the entry between the two insertions: the index keeps an
    iterator of an element that is gone, and the next command on that key, with
    nobody else around, reads it. *)
Lemma racing_pop_leaves_dangling_iterator :
  match race [false; false; true; true; true; true; false] sset_new pop_front_prog (add_prog (lit "k") 9) with
  | Reached s (Ret 1) (Ret 1) => Lock.run (add_prog (lit "k") 7) s = None
  | _ => False
  end.
Proof. vm_compute. reflexivity. Qed.
