(* ===== verification/EtagManager.v ===== *)
(** [src/xEtagManager.h] and [src/xEtagManager.cpp]: the sharded LRU cache of
    entity tags.  [None] is undefined behaviour of the C++ code. *)

From S2P Require Import Prelude MurmurHash2.

(** ** [class EtagCache] *)

(** An iterator into [etaglist] is the element it points to: the list holds a
    key at most once. *)
Record EtagCache := MkCache {
  capacity : Z;
  etaglist : list Z;
  etagmap : gmap Z Z
}.

Definition cache_new : EtagCache := MkCache 0 [] ∅.
Definition SetSize (c : EtagCache) (size : Z) : EtagCache :=
  MkCache size (etaglist c) (etagmap c).

(** [list::splice] of one element to the front, the element being named by an
    iterator. *)
Fixpoint remove_node (k : Z) (l : list Z) : list Z :=
  match l with
  | [] => []
  | x :: l => if x =? k then l else x :: remove_node k l
  end.

Definition splice_front (it : Z) (l : list Z) : list Z := it :: remove_node it l.

(** The eviction of [EtagCache::Set]; [back()] of an empty list is undefined. *)
Definition evict (c : EtagCache) : option EtagCache :=
  if Z.of_nat (length (etaglist c)) =? capacity c then
    match last (etaglist c) with
    | None => None
    | Some b => Some (MkCache (capacity c) (removelast (etaglist c)) (delete b (etagmap c)))
    end
  else Some c.

Definition cache_Set (c : EtagCache) (etagkey : Z) : option EtagCache :=
  match etagmap c !! etagkey with
  | None =>
      c ← evict c;
      Some (MkCache (capacity c) (etagkey :: etaglist c) (<[etagkey := etagkey]> (etagmap c)))
  | Some it =>
      Some (MkCache (capacity c) (splice_front it (etaglist c))
                    (<[etagkey := it]> (etagmap c)))
  end.

Definition cache_Get (c : EtagCache) (etagkey : Z) : bool * EtagCache :=
  match etagmap c !! etagkey with
  | None => (false, c)
  | Some it =>
      (true, MkCache (capacity c) (splice_front it (etaglist c))
                     (<[etagkey := it]> (etagmap c)))
  end.

(** ** [class xEtagManager] *)

Definition MURMUR_SEED : Z := 0xEE6B27EB.

Record xEtagManager := MkEtag {
  get_hit : Z;
  total_times : Z;
  count : Z;
  etag_cache : list EtagCache
}.

Definition etag_new : xEtagManager := MkEtag 0 0 0 [].

Definition Init (m : xEtagManager) (cnt size : Z) : xEtagManager :=
  MkEtag (get_hit m) (total_times m) cnt (replicate (Z.to_nat cnt) (SetSize cache_new size)).

(** The hash key and the shard it selects; [% 0] traps. *)
Definition hash_key (key : bytes) (timestamp : Z) : Z :=
  u64 (MurmurHash64A key MURMUR_SEED + timestamp).

Definition cache_index (m : xEtagManager) (hashkey : Z) : option Z :=
  if count m =? 0 then None else Some (i32 (hashkey `mod` count m)).

(** [etag_cache[i]] *)
Definition shard (m : xEtagManager) (i : Z) : option EtagCache :=
  if i <? 0 then None else etag_cache m !! Z.to_nat i.

Definition GetKey (m : xEtagManager) (key : bytes) (timestamp : Z) : option (bool * xEtagManager) :=
  let hashkey := hash_key key timestamp in
  i ← cache_index m hashkey;
  c ← shard m i;
  let '(bRet, c) := cache_Get c hashkey in
  Some (bRet, MkEtag (if bRet then u32 (get_hit m + 1) else get_hit m)
                     (u32 (total_times m + 1)) (count m)
                     (<[Z.to_nat i := c]> (etag_cache m))).

Definition SetKey (m : xEtagManager) (key : bytes) (timestamp : Z) : option xEtagManager :=
  let hashkey := hash_key key timestamp in
  i ← cache_index m hashkey;
  c ← shard m i;
  c ← cache_Set c hashkey;
  Some (MkEtag (get_hit m) (total_times m) (count m) (<[Z.to_nat i := c]> (etag_cache m))).

(** The quotient of two [uint32_t] is an integer before it becomes a [float]. *)
Definition GetHitRate (m : xEtagManager) : Z :=
  if total_times m =? 0 then 0 else get_hit m `div` total_times m.

(** ** The cache invariant *)

Record cache_wf (c : EtagCache) : Prop := {
  wf_capacity : 1 <= capacity c;
  wf_nodup : NoDup (etaglist c);
  wf_map : forall k v, etagmap c !! k = Some v <-> v = k /\ k ∈ etaglist c;
  wf_size : Z.of_nat (length (etaglist c)) <= capacity c
}.

Lemma elem_of_remove_node k l x : NoDup l -> x ∈ remove_node k l <-> x ∈ l /\ x <> k.
Proof.
  induction 1 as [|y l Hy Hl IH]; simpl; [set_solver|].
  destruct (Z.eqb_spec y k); set_solver.
Qed.

Lemma remove_node_sublist k l : remove_node k l `sublist_of` l.
Proof. induction l as [|x l IH]; simpl; [done|]. destruct (x =? k); by constructor. Qed.

Lemma remove_node_nodup k l : NoDup l -> NoDup (remove_node k l).
Proof. intros. eapply sublist_NoDup; [done|apply remove_node_sublist]. Qed.

Lemma remove_node_notin k l : k ∉ l -> remove_node k l = l.
Proof.
  induction l as [|x l IH]; simpl; [done|]. intros Hn.
  destruct (Z.eqb_spec x k); [set_solver|]. f_equal. apply IH. set_solver.
Qed.

Lemma length_remove_node k l : k ∈ l -> S (length (remove_node k l)) = length l.
Proof.
  induction l as [|x l IH]; simpl; [set_solver|]. intros Hin.
  destruct (Z.eqb_spec x k); [done|]. simpl. rewrite IH; [done|set_solver].
Qed.

(** Touching a cached key. *)
Lemma touch_wf c k :
  cache_wf c -> k ∈ etaglist c ->
  cache_wf (MkCache (capacity c) (splice_front k (etaglist c)) (<[k := k]> (etagmap c))).
Proof.
  intros [H1 H2 H3 H4] Hin. unfold splice_front. split; cbn [capacity etaglist etagmap]; [done|..].
  - constructor; [rewrite elem_of_remove_node by done; tauto|]. by apply remove_node_nodup.
  - intros x v. rewrite lookup_insert, elem_of_cons, elem_of_remove_node by done.
    case_decide; [naive_solver|]. rewrite H3. naive_solver.
  - cbn [length]. rewrite length_remove_node by done. done.
Qed.

Lemma removelast_last (l : list Z) x : last l = Some x -> l = removelast l ++ [x].
Proof.
  intros H. apply last_Some in H as [l' ->]. by rewrite List.removelast_last.
Qed.

Lemma evict_spec c :
  cache_wf c ->
  exists c', evict c = Some c' /\ capacity c' = capacity c /\ NoDup (etaglist c') /\
    (forall k v, etagmap c' !! k = Some v <-> v = k /\ k ∈ etaglist c') /\
    etaglist c' = take (Z.to_nat (capacity c - 1)) (etaglist c).
Proof.
  intros [H1 H2 H3 H4]. unfold evict. destruct (Z.eqb_spec (Z.of_nat (length (etaglist c))) (capacity c)).
  - destruct (last (etaglist c)) as [b|] eqn:E.
    2:{ apply last_None in E. rewrite E in *. simpl in *. lia. }
    pose proof (removelast_last _ _ E) as El. eexists. split; [done|]. cbn [capacity etaglist etagmap].
    rewrite El in H2. apply NoDup_app in H2 as (Hn & Hd & _).
    split_and!; [done|done| |].
    + intros k v. rewrite lookup_delete. case_decide as Hk.
      * subst k. split; [done|]. intros [_ Hin]. by destruct (Hd b Hin); set_solver.
      * rewrite H3. rewrite El at 1. rewrite elem_of_app. set_solver.
    + rewrite El at 2. rewrite take_app_le.
      * symmetry. apply take_ge. rewrite El in e. rewrite length_app in e. simpl in e. lia.
      * rewrite El in e. rewrite length_app in e. simpl in e. lia.
  - exists c. split_and!; [done..|]. symmetry. apply take_ge. lia.
Qed.

(** The effect of both operations on a well-formed cache. *)
Lemma cache_Set_spec c k :
  cache_wf c ->
  exists c', cache_Set c k = Some c' /\ cache_wf c' /\ capacity c' = capacity c /\
    etaglist c' = take (Z.to_nat (capacity c)) (k :: remove_node k (etaglist c)).
Proof.
  intros Hwf. pose proof Hwf as [H1 H2 H3 H4]. unfold cache_Set.
  destruct (etagmap c !! k) as [it|] eqn:E.
  - apply H3 in E as [-> Hin]. eexists. split; [done|]. split; [by apply touch_wf|].
    split; [done|]. cbn [etaglist]. unfold splice_front. symmetry. apply take_ge.
    cbn [length]. rewrite length_remove_node by done. lia.
  - assert (k ∉ etaglist c) as Hn.
    { intros Hin. assert (etagmap c !! k = Some k) by by apply H3. congruence. }
    destruct (evict_spec c Hwf) as (c' & -> & Hc & Hnd & Hm & Hl). cbn [mbind option_bind].
    eexists. split; [done|].
    assert (k ∉ etaglist c').
    { rewrite Hl. intros (i & Hi & _)%elem_of_take. apply Hn. by eapply list_elem_of_lookup_2. }
    split; [split; cbn [capacity etaglist etagmap]|split; [done|]].
    + lia.
    + by constructor.
    + intros x v. rewrite lookup_insert, elem_of_cons. case_decide as Hk.
      * subst x. split; [intros [= <-]; by split; [|left]|by intros [-> _]].
      * rewrite Hm. split; [intros [??]; by split; [|right]|by intros [? [->|?]]].
    + cbn [length]. rewrite Hl, length_take. lia.
    + cbn [etaglist]. rewrite remove_node_notin, Hl by done.
      replace (Z.to_nat (capacity c)) with (S (Z.to_nat (capacity c - 1))) by lia. done.
Qed.

Lemma cache_Get_spec c k :
  cache_wf c ->
  cache_wf (cache_Get c k).2 /\ capacity (cache_Get c k).2 = capacity c /\
  (cache_Get c k).1 = bool_decide (k ∈ etaglist c) /\
  etaglist (cache_Get c k).2 =
    if bool_decide (k ∈ etaglist c) then k :: remove_node k (etaglist c) else etaglist c.
Proof.
  intros Hwf. pose proof Hwf as [H1 H2 H3 H4]. unfold cache_Get.
  destruct (etagmap c !! k) as [it|] eqn:E; cbn [fst snd].
  - apply H3 in E as [-> Hin]. rewrite bool_decide_true by done.
    split_and!; [by apply touch_wf|done..].
  - rewrite bool_decide_false; [done|].
    intros Hin. assert (etagmap c !! k = Some k) by by apply H3. congruence.
Qed.

(** ** Histories: the cache is the list of most recently used keys *)

Inductive access := ASet (k : Z) | AGet (k : Z).

Definition access_step (c : EtagCache) (a : access) : option EtagCache :=
  match a with
  | ASet k => cache_Set c k
  | AGet k => Some (cache_Get c k).2
  end.

Fixpoint access_run (c : EtagCache) (h : list access) : option EtagCache :=
  match h with
  | [] => Some c
  | a :: h => c ← access_step c a; access_run c h
  end.

(** The abstract LRU list over unbounded recency: keys by last successful use. *)
Definition lru_step (cap : nat) (l : list Z) (a : access) : list Z :=
  match a with
  | ASet k => take cap (k :: remove_node k l)
  | AGet k => if bool_decide (k ∈ l) then k :: remove_node k l else l
  end.

Lemma access_run_spec c h :
  cache_wf c ->
  exists c', access_run c h = Some c' /\ cache_wf c' /\ capacity c' = capacity c /\
    etaglist c' = foldl (lru_step (Z.to_nat (capacity c))) (etaglist c) h.
Proof.
  revert c. induction h as [|a h IH]; intros c Hwf; cbn [access_run foldl].
  - by eauto.
  - assert (exists c1, access_step c a = Some c1 /\ cache_wf c1 /\ capacity c1 = capacity c /\
      etaglist c1 = lru_step (Z.to_nat (capacity c)) (etaglist c) a) as (c1 & -> & W & Hc & Hl).
    { destruct a as [k|k]; [by apply cache_Set_spec|].
      destruct (cache_Get_spec c k Hwf) as (? & ? & _ & ?). by eauto. }
    cbn [mbind option_bind]. destruct (IH c1 W) as (c' & ? & ? & ? & Hl').
    exists c'. rewrite <- Hl, <- Hc. split_and!; [done..|congruence|done].
Qed.

(** Distinct keys of a history, latest first. *)
Fixpoint recent (h : list Z) : list Z :=
  match h with
  | [] => []
  | k :: h => k :: remove_node k (recent h)
  end.

Lemma recent_nodup h : NoDup (recent h).
Proof.
  induction h as [|k h IH]; cbn [recent]; constructor.
  - rewrite elem_of_remove_node by done. tauto.
  - by apply remove_node_nodup.
Qed.

(** Truncating before touching a key loses nothing that survives. *)
Lemma take_remove_take n k l :
  take n (remove_node k (take (S n) l)) = take n (remove_node k l).
Proof.
  revert l. induction n as [|n IH]; intros [|x l]; try done.
  cbn [take remove_node]. destruct (x =? k).
  - destruct l as [|y l]; [done|]. cbn [take]. by rewrite take_take, Nat.min_id.
  - cbn [take]. f_equal. apply IH.
Qed.

Lemma foldl_sets_recent cap h :
  (1 <= cap)%nat ->
  foldl (lru_step cap) [] (ASet <$> rev h) = take cap (recent h).
Proof.
  intros Hcap. induction h as [|k h IH]; [by destruct cap|].
  cbn [rev]. rewrite fmap_app, foldl_app, IH. cbn [fmap list_fmap foldl lru_step recent].
  destruct cap as [|n]; [lia|]. cbn [take]. f_equal. apply take_remove_take.
Qed.

(** ** The manager *)

Definition mgr_wf (m : xEtagManager) : Prop :=
  1 <= count m < 2 ^ 31 /\ length (etag_cache m) = Z.to_nat (count m) /\
  Forall cache_wf (etag_cache m).

Lemma Init_wf m cnt size : 1 <= cnt < 2 ^ 31 -> 1 <= size -> mgr_wf (Init m cnt size).
Proof.
  intros Hc Hs. split_and!; cbn [Init count etag_cache]; [lia|lia|by rewrite length_replicate|].
  apply Forall_replicate. split; cbn; [lia|constructor| |lia].
  intros k v. rewrite lookup_empty. set_solver.
Qed.

(** Every key selects a shard that exists. *)
Lemma mgr_shard m hk :
  mgr_wf m -> exists i c, cache_index m hk = Some i /\ shard m i = Some c /\
    cache_wf c /\ 0 <= i /\ etag_cache m !! Z.to_nat i = Some c.
Proof.
  intros (Hc & Hl & Hf). unfold cache_index. destruct (Z.eqb_spec (count m) 0); [lia|].
  pose proof (Z.mod_pos_bound hk (count m)).
  assert (is_i32 (hk `mod` count m)) as Hi by (unfold is_i32; lia).
  exists (hk `mod` count m). rewrite i32_id by done.
  destruct (lookup_lt_is_Some_2 (etag_cache m) (Z.to_nat (hk `mod` count m))) as [c E]; [lia|].
  exists c. unfold shard. destruct (Z.ltb_spec (hk `mod` count m) 0); [lia|].
  split_and!; [done|done| |lia|done]. by eapply Forall_lookup_1.
Qed.

Lemma SetKey_spec m k ts :
  mgr_wf m -> exists m', SetKey m k ts = Some m' /\ mgr_wf m' /\ count m' = count m /\
    exists i c c', cache_index m (hash_key k ts) = Some i /\ etag_cache m !! Z.to_nat i = Some c /\
      cache_Set c (hash_key k ts) = Some c' /\ 0 <= i /\
      etag_cache m' = <[Z.to_nat i := c']> (etag_cache m).
Proof.
  intros Hwf. destruct (mgr_shard m (hash_key k ts) Hwf) as (i & c & E1 & E2 & Hw & Hi & E3).
  destruct (cache_Set_spec c (hash_key k ts) Hw) as (c' & E4 & Hw' & _).
  unfold SetKey. rewrite E1. cbn [mbind option_bind]. rewrite E2. cbn [mbind option_bind].
  rewrite E4. cbn [mbind option_bind]. eexists. split; [done|]. destruct Hwf as (H1 & H2 & H3).
  split; [|split; [done|by eauto 10]]. split_and!; cbn [count etag_cache]; [lia|lia|by rewrite length_insert|].
  by apply Forall_insert.
Qed.

Lemma GetKey_spec m k ts :
  mgr_wf m -> exists b m', GetKey m k ts = Some (b, m') /\ mgr_wf m' /\ count m' = count m.
Proof.
  intros Hwf. destruct (mgr_shard m (hash_key k ts) Hwf) as (i & c & E1 & E2 & Hw & Hi & E3).
  destruct (cache_Get_spec c (hash_key k ts) Hw) as (Hw' & _).
  unfold GetKey. rewrite E1. cbn [mbind option_bind]. rewrite E2. cbn [mbind option_bind].
  destruct (cache_Get c (hash_key k ts)) as [b c']. cbn [snd] in Hw'.
  do 2 eexists. split; [done|]. destruct Hwf as (H1 & H2 & H3).
  split; [|done]. split_and!; cbn [count etag_cache]; [lia|lia|by rewrite length_insert|].
  by apply Forall_insert.
Qed.

(** ** Properties *)

(** C22. After any sequence of [Set] calls on a fresh cache of capacity [cap >= 1],
    [etaglist] holds exactly the [cap] most recently set distinct keys, latest
    first, and the map indexes exactly those. *)
Theorem etag_cache_is_lru (cap : Z) (history : list Z) :
  1 <= cap ->
  exists c, access_run (SetSize cache_new cap) (ASet <$> rev history) = Some c /\
    etaglist c = take (Z.to_nat cap) (recent history) /\
    (forall k, is_Some (etagmap c !! k) <-> k ∈ etaglist c) /\
    Z.of_nat (length (etaglist c)) <= cap.
Proof.
  intros Hcap. destruct (access_run_spec (SetSize cache_new cap) (ASet <$> rev history))
    as (c & E & [_ _ Hm Hsz] & Hc & Hl).
  { split; cbn; [lia|constructor| |lia]. intros. rewrite lookup_empty. set_solver. }
  exists c. split; [done|]. cbn [SetSize capacity cache_new etaglist] in *.
  rewrite foldl_sets_recent in Hl by lia. split_and!; [done| |lia].
  intros k. split; [intros [v [-> Hv]%Hm]; done|]. intros Hk. exists k. by apply Hm.
Qed.

Lemma etag_cache_is_lru_witness :
  exists c, access_run (SetSize cache_new 2) (ASet <$> rev [7; 5; 7; 3]) = Some c /\
    etaglist c = [7; 5].
Proof.
  destruct (etag_cache_is_lru 2 [7; 5; 7; 3]) as (c & E & El & _); [lia|].
  exists c. split; [exact E|]. rewrite El. reflexivity.
Defined.

(** A tag registered with [SetKey] is found by the next [GetKey] for the same
    key and timestamp, for every admissible number of shards. *)
Theorem etag_set_get (m : xEtagManager) (k : bytes) (ts : Z) :
  mgr_wf m -> exists m1 m2, SetKey m k ts = Some m1 /\ GetKey m1 k ts = Some (true, m2).
Proof.
  intros Hwf. destruct (SetKey_spec m k ts Hwf)
    as (m1 & E & Hwf1 & Hc & i & c & c' & Ei & Ec & Es & Hi & El).
  exists m1. rewrite E.
  assert (Z.to_nat i < length (etag_cache m))%nat by by eapply lookup_lt_Some.
  assert (cache_wf c) as Hw by (destruct Hwf as (_ & _ & Hf); by eapply Forall_lookup_1).
  destruct (cache_Set_spec c (hash_key k ts) Hw) as (c2 & Es2 & Hw2 & Hcap & Hl2).
  assert (c2 = c') as -> by congruence.
  unfold GetKey. assert (cache_index m1 (hash_key k ts) = Some i) as ->.
  { unfold cache_index in *. by rewrite Hc. }
  cbn [mbind option_bind]. unfold shard. destruct (Z.ltb_spec i 0); [lia|].
  rewrite El, list_lookup_insert_eq by done. cbn [mbind option_bind].
  destruct (cache_Get_spec c' (hash_key k ts) Hw2) as (_ & _ & Hb & _).
  destruct (cache_Get c' (hash_key k ts)) as [b c3]. cbn [fst] in Hb. subst b.
  rewrite bool_decide_true; [by eauto|]. rewrite Hl2.
  destruct Hw as [Hcap1 _ _ _].
  replace (Z.to_nat (capacity c)) with (S (Z.to_nat (capacity c - 1))) by lia.
  cbn [take]. by left.
Qed.

Lemma etag_set_get_witness :
  exists m1 m2, SetKey (Init etag_new 4 1000) (lit "index.html") 1467000000000 = Some m1 /\
    GetKey m1 (lit "index.html") 1467000000000 = Some (true, m2).
Proof. apply etag_set_get. apply Init_wf; lia. Defined.

(** The reported hit rate is 0 as soon as one lookup has missed: the two
    counters are divided as integers. *)
Theorem hit_rate_truncates (m : xEtagManager) :
  0 <= get_hit m < total_times m -> GetHitRate m = 0.
Proof.
  intros H. unfold GetHitRate. destruct (Z.eqb_spec (total_times m) 0); [done|].
  by apply Z.div_small.
Qed.

Lemma hit_rate_truncates_witness : GetHitRate (MkEtag 99 100 4 []) = 0.
Proof. apply hit_rate_truncates. cbn. lia. Defined.
