(* ===== verification/EtagLock.v ===== *)
(** [src/xEtagManager.cpp] under threads: [EtagCache::Get] and [EtagCache::Set]
    as the sequences of container calls they make, each an action of its own,
    between [XLOCK] and the end of the function.  The worker threads of the
    frontend share the cache. *)

From S2P Require Import Prelude MurmurHash2 Lock EtagManager.

(** What [Get] returns; [Set] returns nothing. *)
Definition result : Type := option bool.

Definition act {R} (f : EtagCache -> option EtagCache) (k : prog EtagCache R) : prog EtagCache R :=
  Act (fun c => c ← f c; Some (c, k)).

Definition set_list (l : list Z) (c : EtagCache) : EtagCache := MkCache (capacity c) l (etagmap c).

(** [etaglist.splice(etaglist.begin(), etaglist, etagmap[etagkey])] *)
Definition splice (etagkey : Z) (c : EtagCache) : option EtagCache :=
  it ← etagmap c !! etagkey; Some (set_list (splice_front it (etaglist c)) c).
(** [etagmap[etagkey] = etaglist.begin()] *)
Definition index_front (etagkey : Z) (c : EtagCache) : option EtagCache :=
  it ← head (etaglist c); Some (MkCache (capacity c) (etaglist c) (<[etagkey := it]> (etagmap c))).
(** [etagmap.erase(etaglist.back())] *)
Definition erase_back (c : EtagCache) : option EtagCache :=
  b ← last (etaglist c); Some (MkCache (capacity c) (etaglist c) (delete b (etagmap c))).
(** [etaglist.pop_back()] *)
Definition pop_back (c : EtagCache) : option EtagCache :=
  match etaglist c with [] => None | l => Some (set_list (removelast l) c) end.
(** [etaglist.push_front(etagkey)] *)
Definition push_front (etagkey : Z) (c : EtagCache) : option EtagCache := Some (set_list (etagkey :: etaglist c) c).

Definition touch (etagkey : Z) (r : result) : prog EtagCache result :=
  act (splice etagkey) (act (index_front etagkey) (Ret r)).
Definition insert_new (etagkey : Z) : prog EtagCache result :=
  act (push_front etagkey) (act (index_front etagkey) (Ret None)).

Definition Set_body (etagkey : Z) : prog EtagCache result :=
  Act (fun c =>
    match etagmap c !! etagkey with
    | None => Some (c, Act (fun c =>
        if Z.of_nat (length (etaglist c)) =? capacity c
        then Some (c, act erase_back (act pop_back (insert_new etagkey)))
        else Some (c, insert_new etagkey)))
    | Some _ => Some (c, touch etagkey None)
    end).

Definition Get_body (etagkey : Z) : prog EtagCache result :=
  Act (fun c =>
    match etagmap c !! etagkey with
    | None => Some (c, Ret (Some false))
    | Some _ => Some (c, touch etagkey (Some true))
    end).

Definition cache_body (a : access) : prog EtagCache result :=
  match a with ASet k => Set_body k | AGet k => Get_body k end.

(** The operations of [EtagManager.v], with what they return. *)
Definition cache_op (a : access) (c : EtagCache) : option (EtagCache * result) :=
  match a with
  | ASet k => c ← cache_Set c k; Some (c, None)
  | AGet k => let '(b, c) := cache_Get c k in Some (c, Some b)
  end.

Lemma run_act {R} f (k : prog EtagCache R) c : run (act f k) c = c ← f c; run k c.
Proof. unfold act. cbn [run]. by destruct (f c). Qed.

Lemma run_touch k it r c :
  etagmap c !! k = Some it ->
  run (touch k r) c = Some (MkCache (capacity c) (splice_front it (etaglist c)) (<[k := it]> (etagmap c)), r).
Proof. intros E. unfold touch. rewrite !run_act. unfold splice. rewrite E. reflexivity. Qed.

Lemma run_body a c : run (cache_body a) c = cache_op a c.
Proof.
  destruct a as [k|k]; cbn [cache_body cache_op].
  - unfold Set_body, cache_Set. cbn [run]. destruct (etagmap c !! k) as [it|] eqn:E; [by rewrite (run_touch k it)|].
    cbn [run]. unfold evict. destruct (_ =? _); [|reflexivity].
    rewrite !run_act. unfold erase_back. destruct (last (etaglist c)) as [b|] eqn:El; [|done]. cbn [mbind option_bind].
    rewrite run_act. unfold pop_back. cbn [etaglist]. by destruct (etaglist c).
  - unfold Get_body, cache_Get. cbn [run]. destruct (etagmap c !! k) as [it|] eqn:E; [by rewrite (run_touch k it)|done].
Qed.

Lemma body_safe cap a c :
  cache_wf c /\ capacity c = cap -> exists c' r, run (cache_body a) c = Some (c', r) /\ cache_wf c' /\ capacity c' = cap.
Proof.
  intros [Hw Hc]. rewrite run_body. destruct a as [k|k]; cbn [cache_op].
  - destruct (cache_Set_spec c k Hw) as (c' & -> & Hw' & Hc' & _). exists c', None. split; [done|]. by rewrite Hc', Hc.
  - destruct (cache_Get_spec c k Hw) as (Hw' & Hc' & _). destruct (cache_Get c k) as [b c']. exists c', (Some b). split; [done|]. split; [done|].
    cbn [snd] in *. congruence.
Qed.

(** Replaying the log on the sequential cache: every answer is the one that was
    given. *)
Fixpoint replay (c : EtagCache) (h : list (nat * access * result)) : option EtagCache :=
  match h with
  | [] => Some c
  | (_, a, r) :: h => '(c, r') ← cache_op a c; if decide (r = r') then replay c h else None
  end.

Lemma replay_snoc c h t a r : replay c (h ++ [(t, a, r)]) = c ← replay c h; '(c, r') ← cache_op a c; if decide (r = r') then Some c else None.
Proof.
  revert c. induction h as [|[[t' a'] r''] h IH]; intros c; cbn [app replay]; [done|].
  destruct (cache_op a' c) as [[c' r']|]; [|done]. cbn [mbind option_bind]. by destruct (decide (r'' = r')).
Qed.

Lemma history_replay c h c' : history cache_body c h c' -> replay c h = Some c'.
Proof.
  induction 1 as [c|c h c1 t a c2 r _ IH E]; [done|]. rewrite replay_snoc, IH. cbn [mbind option_bind].
  rewrite run_body in E. rewrite E. cbn [mbind option_bind]. by rewrite decide_True.
Qed.

(** C14. Whatever number of threads call [Get] and [Set] on a cache of capacity
    [cap >= 1], whatever they call and however their container calls interleave:
    nothing undefined happens, some thread can always go on until all are done,
    each thread's calls take effect in its order, the answers are those of the
    sequential cache for the calls one after the other in the order in which they
    ended, and when nobody is inside the cache is the one they leave. *)
Theorem etag_cache_is_linearizable (cap : Z) (programs : list (list access)) (schedule : list nat) :
  1 <= cap ->
  exists s, exec cache_body schedule (start (SetSize cache_new cap) programs) = Some s /\
    (exists c, replay (SetSize cache_new cap) (log s) = Some c /\ cache_wf c /\ (mutex s = None -> object s = c)) /\
    (forall t, (fun th => done_by t (log s) ++ rest th) <$> threads s !! t = programs !! t) /\
    ((exists t th, threads s !! t = Some th /\ rest th <> []) -> exists t s', turn cache_body t s = Moves s').
Proof.
  intros Hcap. pose proof (body_safe cap) as Hsafe.
  destruct (inv_exec cache_body _ Hsafe (SetSize cache_new cap) programs schedule (start (SetSize cache_new cap) programs)) as (s & E & Hi).
  { apply inv_start. split; [|done]. split; cbn; [lia|constructor| |lia]. intros. rewrite lookup_empty. set_solver. }
  exists s. split; [done|]. split; [|split; [by apply (inv_order _ _ _ _ _ Hi)|by apply (inv_progress cache_body _ Hsafe _ _ _ Hi)]].
  destruct (inv_base _ _ _ _ _ Hi) as (c & Hh & [Hw _] & Hm). exists c. split; [by apply history_replay|]. split; [done|].
  intros El. rewrite El in Hm. by destruct Hm.
Qed.

Lemma etag_cache_is_linearizable_witness :
  exists s, exec cache_body (concat (replicate 12 [0; 1; 1; 0; 2]%nat)) (start (SetSize cache_new 1) [[ASet 7; AGet 7]; [ASet 5]; [AGet 5]]) = Some s /\
    is_Some (replay (SetSize cache_new 1) (log s)) /\ length (log s) = 4%nat.
Proof.
  destruct (etag_cache_is_linearizable 1 [[ASet 7; AGet 7]; [ASet 5]; [AGet 5]] (concat (replicate 12 [0; 1; 1; 0; 2]%nat)))
    as (s & E & (c & Hr & _) & _); [lia|].
  exists s. split; [exact E|]. split; [by rewrite Hr|]. vm_compute in E. injection E as <-. reflexivity.
Defined.
