(* ===== verification/Slice.v ===== *)
(** [include/rocksdb/slice.h]: the byte ranges in which keys and values cross to
    the storage engine, and the order of its keys.

    A slice is the memory at its pointer and its size; [None] is a read past that
    memory or a failed assertion. *)

From S2P Require Import Prelude Cstd.

Record Slice := MkSlice { data_ : bytes; size_ : nat }.

Definition Slice_new : Slice := MkSlice [] 0.
Definition Slice_range (d : bytes) (n : nat) : Slice := MkSlice d n.
(** From a [std::string], and from a C string. *)
Definition Slice_string (s : bytes) : Slice := MkSlice s (length s).
Definition Slice_cstr (s : bytes) : Slice := MkSlice s (length (cstr s)).

Definition empty (s : Slice) : bool := (size_ s =? 0)%nat.

(** [operator[]] *)
Definition at_ (s : Slice) (n : nat) : option byte := if (n <? size_ s)%nat then data_ s !! n else None.

Definition clear (s : Slice) : Slice := MkSlice [] 0.

Definition remove_prefix (s : Slice) (n : nat) : option Slice :=
  if (n <=? size_ s)%nat then Some (MkSlice (drop n (data_ s)) (size_ s - n)) else None.

Definition remove_suffix (s : Slice) (n : nat) : option Slice :=
  if (n <=? size_ s)%nat then Some (MkSlice (data_ s) (size_ s - n)) else None.

(** [memcmp] of the first [n] bytes of both. *)
Definition memcmp_n (a b : bytes) (n : nat) : option Z :=
  if (n <=? length a)%nat && (n <=? length b)%nat then Some (memcmp (take n a) (take n b)) else None.

Definition starts_with (s x : Slice) : option bool :=
  if (size_ x <=? size_ s)%nat then r ← memcmp_n (data_ s) (data_ x) (size_ x); Some (r =? 0) else Some false.

Definition ends_with (s x : Slice) : option bool :=
  if (size_ x <=? size_ s)%nat
  then r ← memcmp_n (drop (size_ s - size_ x) (data_ s)) (data_ x) (size_ x); Some (r =? 0) else Some false.

(** [operator==] *)
Definition slice_eq (x y : Slice) : option bool :=
  if (size_ x =? size_ y)%nat then r ← memcmp_n (data_ x) (data_ y) (size_ x); Some (r =? 0) else Some false.
Definition slice_ne (x y : Slice) : option bool := negb <$> slice_eq x y.

Definition compare (s b : Slice) : option Z :=
  let min_len := if (size_ s <? size_ b)%nat then size_ s else size_ b in
  r ← memcmp_n (data_ s) (data_ b) min_len;
  Some (if r =? 0 then if (size_ s <? size_ b)%nat then -1 else if (size_ b <? size_ s)%nat then 1 else r else r).

(** [for (; off < len; off++)] from [off]; [n] is [len - off]. *)
Fixpoint difference_loop (n : nat) (a b : bytes) (off : nat) : option nat :=
  match n with
  | O => Some off
  | S n =>
      match a, b with
      | x :: a, y :: b => if decide (x = y) then difference_loop n a b (S off) else Some off
      | _, _ => None
      end
  end.
Definition difference_offset (s b : Slice) : option nat :=
  difference_loop (if (size_ s <? size_ b)%nat then size_ s else size_ b) (data_ s) (data_ b) 0.

(** ** What a slice is *)

(** The slice stands for [c]. *)
Definition refers (s : Slice) (c : bytes) : Prop := exists r, data_ s = c ++ r /\ size_ s = length c.

Lemma refers_string c : refers (Slice_string c) c.
Proof. exists []. by rewrite app_nil_r. Qed.

Lemma refers_cstr c : refers (Slice_cstr c) (cstr c).
Proof.
  unfold refers, Slice_cstr. cbn [data_ size_].
  assert (exists r, c = cstr c ++ r) as [r E]; [|by exists r].
  induction c as [|b c [r IH]]; [by exists []|]. cbn [cstr]. destruct (decide (b = x00)); [by eexists|]. exists r. cbn. by rewrite <- IH.
Qed.

Lemma memcmp_n_refers a b ra rb n :
  (n <= length a)%nat -> (n <= length b)%nat -> memcmp_n (a ++ ra) (b ++ rb) n = Some (memcmp (take n a) (take n b)).
Proof.
  intros Ha Hb. unfold memcmp_n. rewrite !length_app, !take_app_le by lia.
  rewrite (proj2 (Nat.leb_le _ _)), (proj2 (Nat.leb_le _ _)) by lia. done.
Qed.

Lemma memcmp_eq a : forall b, length a = length b -> (memcmp a b =? 0) = bool_decide (a = b).
Proof.
  intros b E. destruct (compare3_spec a b) as [_ H]. unfold compare3 in H. rewrite E, Z.sub_diag in H.
  destruct (Z.eqb_spec (memcmp a b) 0) as [E0|E0]; symmetry; [apply bool_decide_eq_true|apply bool_decide_eq_false]; tauto.
Qed.

(** The order of slices is the lexicographic order of their bytes, which is the
    order of the keys in [RocksDB.v]; it reads no byte past either. *)
Theorem slice_compare_orders a b ca cb :
  refers a ca -> refers b cb ->
  exists r, compare a b = Some r /\ (r < 0 <-> blt ca cb = true) /\ (r = 0 <-> ca = cb) /\ (0 < r <-> blt cb ca = true).
Proof.
  intros (ra & Ea & Sa) (rb & Eb & Sb). unfold compare. rewrite Ea, Eb, Sa, Sb.
  set (n := if (length ca <? length cb)%nat then length ca else length cb).
  assert (n = min (length ca) (length cb)) as En by (subst n; destruct (Nat.ltb_spec (length ca) (length cb)); lia).
  rewrite memcmp_n_refers by lia. cbn [mbind option_bind]. rewrite memcmp_take by lia. eexists. split; [done|].
  assert (forall r, Z.sgn r = Z.sgn (compare3 ca cb) -> (r < 0 <-> blt ca cb = true) /\ (r = 0 <-> ca = cb) /\ (0 < r <-> blt cb ca = true)) as Hr.
  { intros r Hs. destruct (compare3_spec ca cb) as [H1 H2].
    assert (0 < compare3 ca cb <-> blt cb ca = true) as H3.
    { split.
      - intros Hp. destruct (blt cb ca) eqn:E; [done|]. destruct (blt ca cb) eqn:E'; [pose proof (proj2 H1 eq_refl); lia|]. assert (compare3 ca cb = 0) by by apply H2, blt_total. lia.
      - intros E. pose proof (blt_asym _ _ E) as E'. destruct (Z.lt_total (compare3 ca cb) 0) as [L|[L|L]]; [|apply H2 in L; subst; by rewrite blt_irrefl in E|lia].
        apply H1 in L. congruence. }
    rewrite <- H1, <- H2, <- H3. lia. }
  apply Hr. unfold compare3. destruct (Z.eqb_spec (memcmp ca cb) 0) as [->|]; [|done].
  destruct (Nat.ltb_spec (length ca) (length cb)); [lia|]. destruct (Nat.ltb_spec (length cb) (length ca)); lia.
Qed.

Theorem slice_eq_spec a b ca cb : refers a ca -> refers b cb -> slice_eq a b = Some (bool_decide (ca = cb)).
Proof.
  intros (ra & Ea & Sa) (rb & Eb & Sb). unfold slice_eq. rewrite Ea, Eb, Sa, Sb.
  destruct (Nat.eqb_spec (length ca) (length cb)) as [E|E].
  - rewrite memcmp_n_refers by lia. cbn [mbind option_bind]. by rewrite E, take_ge, take_ge, memcmp_eq by lia.
  - rewrite bool_decide_false; [done|]. congruence.
Qed.

Theorem starts_with_spec s x cs cx : refers s cs -> refers x cx -> exists r, starts_with s x = Some r /\ (r = true <-> exists t, cs = cx ++ t).
Proof.
  intros (rs & Es & Ss) (rx & Ex & Sx). unfold starts_with. rewrite Es, Ex, Ss, Sx.
  destruct (Nat.leb_spec (length cx) (length cs)) as [Hl|Hl].
  - rewrite memcmp_n_refers by lia. cbn [mbind option_bind]. rewrite memcmp_eq by (rewrite !length_take; lia). rewrite (take_ge cx) by lia.
    eexists. split; [done|]. rewrite bool_decide_eq_true. split.
    + intros E. exists (drop (length cx) cs). by rewrite <- E at 1; rewrite take_drop.
    + intros [t ->]. apply take_app_length.
  - exists false. split; [done|]. split; [done|]. intros [t ->]. rewrite length_app in Hl. lia.
Qed.

Theorem ends_with_spec s x cs cx : refers s cs -> refers x cx -> exists r, ends_with s x = Some r /\ (r = true <-> exists t, cs = t ++ cx).
Proof.
  intros (rs & Es & Ss) (rx & Ex & Sx). unfold ends_with. rewrite Es, Ex, Ss, Sx.
  destruct (Nat.leb_spec (length cx) (length cs)) as [Hl|Hl].
  - rewrite drop_app_le by lia. rewrite memcmp_n_refers by (rewrite ?length_drop; lia). cbn [mbind option_bind].
    rewrite memcmp_eq by (rewrite !length_take, length_drop; lia). rewrite (take_ge cx), take_ge by (rewrite ?length_drop; lia).
    eexists. split; [done|]. rewrite bool_decide_eq_true. split.
    + intros E. exists (take (length cs - length cx) cs). rewrite <- (take_drop (length cs - length cx) cs) at 1. by rewrite E.
    + intros [t ->]. by rewrite length_app, Nat.add_sub, drop_app_length.
  - exists false. split; [done|]. split; [done|]. intros [t ->]. rewrite length_app in Hl. lia.
Qed.

Lemma remove_prefix_spec s c n : refers s c -> (n <= length c)%nat -> exists s', remove_prefix s n = Some s' /\ refers s' (drop n c).
Proof.
  intros (r & E & Sz) Hn. unfold remove_prefix. rewrite E, Sz, (proj2 (Nat.leb_le _ _)) by lia. eexists. split; [done|].
  exists r. cbn [data_ size_]. by rewrite drop_app_le, length_drop.
Qed.

Lemma remove_suffix_spec s c n : refers s c -> (n <= length c)%nat -> exists s', remove_suffix s n = Some s' /\ refers s' (take (length c - n) c).
Proof.
  intros (r & E & Sz) Hn. unfold remove_suffix. rewrite E, Sz, (proj2 (Nat.leb_le _ _)) by lia. eexists. split; [done|].
  exists (drop (length c - n) c ++ r). cbn [data_ size_]. rewrite app_assoc, take_drop, length_take. split; [done|lia].
Qed.

Lemma difference_loop_spec n : forall a b off, (n <= length a)%nat -> (n <= length b)%nat ->
  exists k, difference_loop n a b off = Some (off + k)%nat /\ (k <= n)%nat /\ take k a = take k b /\ (k < n -> a !! k <> b !! k)%nat.
Proof.
  induction n as [|n IH]; intros a b off Ha Hb; cbn [difference_loop].
  - exists 0%nat. rewrite Nat.add_0_r. split_and!; (done || lia).
  - destruct a as [|x a], b as [|y b]; cbn [length] in *; try lia. destruct (decide (x = y)) as [->|Hne].
    + destruct (IH a b (S off)) as (k & -> & Hk & Et & Hd); [lia..|]. exists (S k). split; [f_equal; lia|]. split; [lia|].
      split; [cbn; by rewrite Et|]. intros Hlt. cbn. apply Hd. lia.
    + exists 0%nat. rewrite Nat.add_0_r. split_and!; [done|lia|done|]. intros _. cbn. congruence.
Qed.

(** [difference_offset] is the length of the longest common prefix. *)
Theorem difference_offset_spec a b ca cb :
  refers a ca -> refers b cb ->
  exists k, difference_offset a b = Some k /\ (k <= length ca)%nat /\ (k <= length cb)%nat /\ take k ca = take k cb /\
    (k < length ca -> k < length cb -> ca !! k <> cb !! k)%nat.
Proof.
  intros (ra & Ea & Sa) (rb & Eb & Sb). unfold difference_offset. rewrite Ea, Eb, Sa, Sb.
  set (n := if (length ca <? length cb)%nat then length ca else length cb).
  assert (n = min (length ca) (length cb)) as En by (subst n; destruct (Nat.ltb_spec (length ca) (length cb)); lia).
  destruct (difference_loop_spec n (ca ++ ra) (cb ++ rb) 0) as (k & -> & Hk & Et & Hd); [rewrite length_app; lia..|].
  exists k. rewrite !take_app_le in Et by lia. split_and!; [done|lia|lia|done|]. intros H1 H2.
  rewrite !lookup_app_l in Hd by lia. apply Hd. lia.
Qed.
