(* ===== verification/RocksDB.v ===== *)
(** The storage engine as the program sees it ([include/rocksdb/db.h],
    [iterator.h], [status.h]).  RocksDB itself is outside the sources, so it is
    a parameter: a class of operations, a class of the documented laws the
    program relies on, and a class for the absence of I/O errors.  An in-memory
    store shows the laws can hold. *)

From S2P Require Import Prelude.
From Stdlib Require Import Sorting.Sorted.

(** ** [class Status] *)

Inductive Status :=
| kOk | kNotFound | kCorruption | kNotSupported | kInvalidArgument | kIOError
| kMergeInProgress | kIncomplete | kShutdownInProgress | kTimedOut | kAborted
| kBusy | kExpired | kTryAgain.

#[global] Instance Status_eq_dec : EqDecision Status.
Proof. solve_decision. Defined.

Definition ok (s : Status) : bool := bool_decide (s = kOk).
Definition IsNotFound (s : Status) : bool := bool_decide (s = kNotFound).

(** ** Operations *)

(** [DB] is the state of an open database and [It] that of an iterator;
    [it_bound] bounds the number of entries an iterator still has to visit and
    only serves as fuel of the loops over it. *)
Class RocksDB (DB It : Type) := {
  rdb_Put : DB -> bytes -> bytes -> DB * Status;
  rdb_Delete : DB -> bytes -> DB * Status;
  rdb_Get : DB -> bytes -> Status * bytes;
  rdb_NewIterator : DB -> It;
  it_status : It -> Status;
  it_Seek : It -> bytes -> It;
  it_SeekToFirst : It -> It;
  it_Valid : It -> bool;
  it_Next : It -> It;
  it_key : It -> bytes;
  it_bound : It -> nat
}.

(** ** Documented behaviour *)

Definition bless (a b : bytes) : Prop := blt a b = true.

(** [contents] is the map the database holds; [snapshot] is what an iterator
    ranges over and [remaining] what it has still to visit. *)
Class RocksDBSpec (DB It : Type) `{RocksDB DB It} := {
  contents : DB -> gmap bytes bytes;
  snapshot : It -> list bytes;
  remaining : It -> list bytes;
  Put_ok d k v : (rdb_Put d k v).2 = kOk -> contents (rdb_Put d k v).1 = <[k := v]> (contents d);
  Delete_ok d k : (rdb_Delete d k).2 = kOk -> contents (rdb_Delete d k).1 = delete k (contents d);
  Get_ok d k : (rdb_Get d k).1 = kOk -> contents d !! k = Some (rdb_Get d k).2;
  Get_notfound d k : (rdb_Get d k).1 = kNotFound -> contents d !! k = None;
  NewIterator_ok d :
    it_status (rdb_NewIterator d) = kOk ->
    StronglySorted bless (snapshot (rdb_NewIterator d)) /\
    forall k, k ∈ snapshot (rdb_NewIterator d) <-> is_Some (contents d !! k);
  Seek_spec it t : remaining (it_Seek it t) = filter (fun k => ble t k = true) (snapshot it);
  SeekToFirst_spec it : remaining (it_SeekToFirst it) = snapshot it;
  Valid_spec it : it_Valid it = bool_decide (remaining it <> []);
  Key_spec it k r : remaining it = k :: r -> it_key it = k;
  Next_spec it k r : remaining it = k :: r -> remaining (it_Next it) = r;
  Bound_spec it : (length (remaining it) <= it_bound it)%nat
}.

(** No I/O error: every write succeeds and every read finds or misses. *)
Class RocksDBHealthy (DB It : Type) `{RocksDB DB It} : Prop := {
  Put_healthy d k v : (rdb_Put d k v).2 = kOk;
  Delete_healthy d k : (rdb_Delete d k).2 = kOk;
  Get_healthy d k : (rdb_Get d k).1 = kOk \/ (rdb_Get d k).1 = kNotFound;
  Iterator_healthy d : it_status (rdb_NewIterator d) = kOk
}.

(** ** Consequences shared by the clients *)

Section Laws.
Context {DB It : Type} `{RocksDBSpec DB It} `{!RocksDBHealthy DB It}.

Lemma Put_contents d k v : contents (rdb_Put d k v).1 = <[k := v]> (contents d).
Proof. apply Put_ok, Put_healthy. Qed.

Lemma Delete_contents d k : contents (rdb_Delete d k).1 = delete k (contents d).
Proof. apply Delete_ok, Delete_healthy. Qed.

Lemma Get_contents d k :
  rdb_Get d k = match contents d !! k with
                | Some v => (kOk, v)
                | None => (kNotFound, (rdb_Get d k).2)
                end.
Proof.
  destruct (Get_healthy d k) as [E|E].
  - rewrite (Get_ok _ _ E). destruct (rdb_Get d k). simpl in *. by subst.
  - rewrite (Get_notfound _ _ E). destruct (rdb_Get d k). simpl in *. by subst.
Qed.

Lemma Valid_nil it : remaining it = [] -> it_Valid it = false.
Proof. intros E. rewrite Valid_spec, E. apply bool_decide_false. by intros []. Qed.

Lemma Valid_cons it k r : remaining it = k :: r -> it_Valid it = true.
Proof. intros E. rewrite Valid_spec, E. by apply bool_decide_true. Qed.
End Laws.

(** Sorted key lists with the same elements are equal. *)
Lemma bless_irrefl a : ~ bless a a.
Proof. unfold bless. by rewrite blt_irrefl. Qed.

#[global] Instance bless_trans : Transitive bless.
Proof. intros a b c. apply blt_trans. Qed.

Lemma sorted_keys_ext l1 l2 :
  StronglySorted bless l1 -> StronglySorted bless l2 -> (forall k, k ∈ l1 <-> k ∈ l2) -> l1 = l2.
Proof.
  intros H1. revert l2. induction H1 as [|a l1 Hs1 IH Hf1]; intros l2 H2 He.
  - destruct l2 as [|b l2]; [done|]. specialize (He b). set_solver.
  - destruct H2 as [|b l2 Hs2 Hf2]; [specialize (He a); set_solver|].
    rewrite Forall_forall in Hf1, Hf2.
    assert (a = b) as ->.
    { assert (a ∈ b :: l2) as [->|Ha]%elem_of_cons by (apply He; set_solver); [done|].
      assert (b ∈ a :: l1) as [->|Hb]%elem_of_cons by (apply He; set_solver); [done|].
      destruct (bless_irrefl a). etrans; [by apply Hf1|by apply Hf2]. }
    f_equal. apply IH; [done|]. intros k.
    assert (k ∈ l1 -> k <> b) by (intros Hk ->; by apply (bless_irrefl b), Hf1).
    assert (k ∈ l2 -> k <> b) by (intros Hk ->; by apply (bless_irrefl b), Hf2).
    specialize (He k). set_solver.
Qed.

Lemma sorted_filter (P : bytes -> Prop) `{!forall k, Decision (P k)} l :
  StronglySorted bless l -> StronglySorted bless (filter P l).
Proof.
  induction 1 as [|a l Hs IH Hf]; [constructor|].
  destruct (decide (P a)); [rewrite filter_cons_True by done|by rewrite filter_cons_False by done].
  constructor; [done|]. rewrite Forall_forall in Hf |- *. intros k Hk. apply list_elem_of_filter in Hk as [_ Hk]. by apply Hf.
Qed.

(** ** The in-memory store *)

Module MemStore.

Fixpoint kinsert (k : bytes) (l : list bytes) : list bytes :=
  match l with
  | [] => [k]
  | x :: l' => if blt k x then k :: l else if blt x k then x :: kinsert k l' else l
  end.

Definition sort_keys (l : list bytes) : list bytes := foldr kinsert [] l.

Record iter := MkIter { i_all : list bytes; i_rest : list bytes }.

Abbreviation store := (gmap bytes bytes).

#[global] Instance mem_rocksdb : RocksDB store iter := {|
  rdb_Put d k v := (<[k := v]> d, kOk);
  rdb_Delete d k := (delete k d, kOk);
  rdb_Get d k := match d !! k with Some v => (kOk, v) | None => (kNotFound, []) end;
  rdb_NewIterator d := MkIter (sort_keys (map_to_list d).*1) [];
  it_status _ := kOk;
  it_Seek it t := MkIter (i_all it) (filter (fun k => ble t k = true) (i_all it));
  it_SeekToFirst it := MkIter (i_all it) (i_all it);
  it_Valid it := bool_decide (i_rest it <> []);
  it_Next it := MkIter (i_all it) (tail (i_rest it));
  it_key it := default [] (head (i_rest it));
  it_bound it := length (i_rest it)
|}.

Lemma elem_of_kinsert k l x : x ∈ kinsert k l <-> x = k \/ x ∈ l.
Proof.
  induction l as [|y l IH]; simpl; [set_solver|].
  destruct (blt k y) eqn:E1; [set_solver|]. destruct (blt y k) eqn:E2; [set_solver|].
  rewrite (blt_total k y) by done. set_solver.
Qed.

Lemma kinsert_sorted k l : StronglySorted bless l -> StronglySorted bless (kinsert k l).
Proof.
  induction 1 as [|y l Hl IH Hy]; simpl; [by repeat constructor|].
  destruct (blt k y) eqn:E1.
  - repeat constructor; [done..|]. rewrite Forall_forall in Hy |- *.
    intros z Hz. etrans; [exact E1|by apply Hy].
  - destruct (blt y k) eqn:E2; [|by constructor].
    constructor; [done|]. apply Forall_forall. intros z [->|Hz]%elem_of_kinsert; [done|].
    rewrite Forall_forall in Hy. by apply Hy.
Qed.

Lemma sort_keys_sorted l : StronglySorted bless (sort_keys l).
Proof. induction l; simpl; [constructor|]. by apply kinsert_sorted. Qed.

Lemma elem_of_sort_keys l x : x ∈ sort_keys l <-> x ∈ l.
Proof. induction l; simpl; [done|]. rewrite elem_of_kinsert. set_solver. Qed.

#[global, refine] Instance mem_spec : RocksDBSpec store iter := {|
  contents d := d; snapshot it := i_all it; remaining it := i_rest it |}.
Proof.
  - done.
  - done.
  - intros d k. simpl. by destruct (d !! k).
  - intros d k. simpl. by destruct (d !! k).
  - intros d _. split; [apply sort_keys_sorted|]. intros k. simpl.
    rewrite elem_of_sort_keys, list_elem_of_fmap. split.
    + intros ([k' v] & -> & Hin%elem_of_map_to_list). by eauto.
    + intros [v Hv]. exists (k, v). split; [done|]. by apply elem_of_map_to_list.
  - done.
  - done.
  - done.
  - intros it k r E. simpl. by rewrite E.
  - intros it k r E. simpl. by rewrite E.
  - done.
Defined.

#[global] Instance mem_healthy : RocksDBHealthy store iter.
Proof. split; [done|done| |done]. intros d k. simpl. destruct (d !! k); auto. Qed.

End MemStore.
