(* ===== verification/DataBase.v ===== *)
(** [src/xDataBase.h] and [src/xDataBase.cpp]: the key-value and sorted-set
    store over RocksDB.  An operation returns [None] where the C++ code has
    undefined behaviour (a value shorter than its timestamp, a NULL or
    misconfigured ETag manager). *)

From S2P Require Import Prelude Cstd Util SortedSet MurmurHash2 EtagManager RocksDB.
From Stdlib Require Import Sorting.Sorted.

(** ** Data *)

Inductive ret_code := db_ok | db_err | db_null.

#[global] Instance ret_code_eq_dec : EqDecision ret_code.
Proof. solve_decision. Defined.

(** The numeric values of [enum ret_code], for the callers that compare them. *)
Definition ret_num (r : ret_code) : Z :=
  match r with db_ok => 0 | db_err => 1 | db_null => 2 end.

(** [class DataTypeFlag] *)
Definition FLAG_KV : byte := "k"%byte.
Definition FLAG_ZSET : byte := "s"%byte.
Definition FLAG_ZSCORE : byte := "z"%byte.

(** [struct xValue] *)
Record xValue := MkValue { timestamp : Z; strValue : bytes }.

(** [memcpy] of 8 bytes from a shorter string reads past its end. *)
Definition xValue_decode (s : bytes) : option xValue :=
  if (length s <? 8)%nat then None
  else Some (MkValue (le_Z (take 8 s)) (drop 8 s)).

Definition xValue_encode (v : xValue) : bytes := le_bytes 8 (timestamp v) ++ strValue v.

(** ** Keys *)

(** [enum DataType], each with the arguments [EncodeKey] dereferences for it. *)
Inductive DataType :=
| K_STRING (key : bytes)
| K_ZSET (key filed : bytes)
| K_ZSCORE (key filed score : bytes).

Definition EncodeKey (t : DataType) : bytes :=
  match t with
  | K_STRING key => [FLAG_KV] ++ key
  | K_ZSET key filed =>
      [FLAG_ZSET] ++ [zb (Z.of_nat (length key))] ++ key
      ++ [zb (Z.of_nat (length filed))] ++ filed
  | K_ZSCORE key filed score =>
      let s := str_to_int64 score in
      let s := i64 (encode_score s) in
      [FLAG_ZSCORE] ++ [zb (Z.of_nat (length key))] ++ key
      ++ le_bytes 8 s ++ [":"%byte] ++ filed
  end.

(** The result of [DecodeKey] and the out-parameters it assigned on the way. *)
Record Decoded := MkDecoded {
  dec_ret : bool;
  dec_key : option bytes;
  dec_member : option bytes;
  dec_score : option bytes
}.

Definition DecodeKey (rowkey : bytes) : Decoded :=
  let d := Dec.decoder_new rowkey in
  let keytype := match rowkey with b :: _ => b | [] => x00 end in
  if decide (keytype = FLAG_KV) then
    let '(r, d) := Dec.skip d 1 in
    if r =? -1 then MkDecoded false None None None
    else
      let '(r, k, d) := Dec.read_data d in
      if r =? -1 then MkDecoded false (Some k) None None
      else MkDecoded true (Some k) None None
  else if decide (keytype = FLAG_ZSCORE) then
    let '(r, d) := Dec.skip d 1 in
    if r =? -1 then MkDecoded false None None None
    else
      let '(r, k, d) := Dec.read_8_data d in
      if r =? -1 then MkDecoded false None None None
      else
        let '(r, s, d) := Dec.read_int64 d in
        if r =? -1 then MkDecoded false (Some k) None None
        else
          let sc := str (i64 (decode_score s)) in
          let '(r, d) := Dec.skip d 1 in
          if r =? -1 then MkDecoded false (Some k) None (Some sc)
          else
            let '(r, m, d) := Dec.read_data d in
            if r =? -1 then MkDecoded false (Some k) (Some m) (Some sc)
            else MkDecoded true (Some k) (Some m) (Some sc)
  else MkDecoded false None None None.

(** [SCORE_MIN] and [SCORE_MAX] of [LoadExpirationKeys]. *)
Definition SCORE_MIN : bytes := lit "0".
Definition SCORE_MAX : bytes := lit "9223372036854775807".

Section DataBase.
Context {DB It : Type} `{RocksDB DB It}.

(** [class xDataBase]: the open database, the ETag manager (NULL when not set)
    and whether it is used. *)
Record xDataBase := MkDataBase {
  db : DB;
  xEtag : option xEtagManager;
  bEtag : bool
}.

Definition set_db (x : xDataBase) (d : DB) : xDataBase := MkDataBase d (xEtag x) (bEtag x).

Definition SetEtag (x : xDataBase) (etag : option xEtagManager) (betag : bool) : xDataBase :=
  MkDataBase (db x) etag betag.

Definition GetEtag (x : xDataBase) : option xEtagManager := xEtag x.

Definition CheckEtag (x : xDataBase) (key : bytes) (ts : Z) : option (bool * xDataBase) :=
  m ← xEtag x;
  '(b, m) ← GetKey m key ts;
  Some (b, MkDataBase (db x) (Some m) (bEtag x)).

(** [if (bEtag) xEtag->SetKey(key.c_str(), ts)] *)
Definition note_etag (x : xDataBase) (key : bytes) (ts : Z) : option xDataBase :=
  if bEtag x then
    m ← xEtag x;
    m ← SetKey m (cstr key) ts;
    Some (MkDataBase (db x) (Some m) true)
  else Some x.

(** ** Plain keys *)

Definition xdb_Set (x : xDataBase) (now : timeval) (key val : bytes)
  : option (ret_code * xDataBase) :=
  let strKey := EncodeKey (K_STRING key) in
  let xVal := MkValue (getCurrentTime now) val in
  let '(d, s) := rdb_Put (db x) strKey (xValue_encode xVal) in
  let x := set_db x d in
  if negb (ok s) then Some (db_err, x)
  else
    x ← note_etag x key (timestamp xVal);
    Some (db_ok, x).

Definition xdb_Get (x : xDataBase) (key : bytes) (xval : xValue)
  : option (ret_code * xValue * xDataBase) :=
  let strKey := EncodeKey (K_STRING key) in
  let '(s, v) := rdb_Get (db x) strKey in
  if IsNotFound s then Some (db_null, xval, x)
  else if negb (ok s) then Some (db_err, xval, x)
  else
    xval ← xValue_decode v;
    x ← note_etag x key (timestamp xval);
    Some (db_ok, xval, x).

Definition xdb_Del (x : xDataBase) (key : bytes) : ret_code * xDataBase :=
  let strKey := EncodeKey (K_STRING key) in
  let '(d, s) := rdb_Delete (db x) strKey in
  (if ok s then db_ok else db_err, set_db x d).

Definition xdb_Rawdel (x : xDataBase) (key : bytes) : ret_code * xDataBase :=
  let '(d, s) := rdb_Delete (db x) key in
  (if ok s then db_ok else db_err, set_db x d).

Definition xdb_Expire (x : xDataBase) (key : bytes) : option (ret_code * xDataBase) :=
  '(ret, _, x) ← xdb_Get x key (MkValue 0 []);
  Some (if decide (ret = db_ok) then db_ok else db_err, x).

(** ** Scans *)

Fixpoint scan_key_loop (fuel : nat) (it : It) (end_key : bytes) (limit n : Z)
    (strkey : bytes) (vkey : list bytes) : list bytes :=
  match fuel with
  | O => vkey
  | S fuel =>
      if it_Valid it && (blt (it_key it) end_key && (n <? limit)) then
        let strkey := default strkey (dec_key (DecodeKey (it_key it))) in
        scan_key_loop fuel (it_Next it) end_key limit (n + 1) strkey (vkey ++ [strkey])
      else vkey
  end.

Definition xdb_ScanKey (x : xDataBase) (start end_ : bytes) (limit : Z) (vkey : list bytes)
  : ret_code * list bytes :=
  let it := rdb_NewIterator (db x) in
  if negb (ok (it_status it)) then (db_err, vkey)
  else
    let start_key := EncodeKey (K_STRING start) in
    let end_key := EncodeKey (K_STRING end_) in
    let it := it_Seek it start_key in
    (db_ok, scan_key_loop (S (it_bound it)) it end_key limit 0 [] vkey).

Fixpoint scan_loop (fuel : nat) (it : It) (end_ : bytes) (limit n : Z) (vkey : list bytes)
  : list bytes :=
  match fuel with
  | O => vkey
  | S fuel =>
      if it_Valid it && (blt (it_key it) end_ && (n <? limit)) then
        scan_loop fuel (it_Next it) end_ limit (n + 1) (vkey ++ [it_key it])
      else vkey
  end.

Definition xdb_Scan (x : xDataBase) (start end_ : bytes) (limit : Z) (vkey : list bytes)
  : ret_code * list bytes :=
  let it := rdb_NewIterator (db x) in
  if negb (ok (it_status it)) then (db_err, vkey)
  else
    let it := it_Seek it start in
    (db_ok, scan_loop (S (it_bound it)) it end_ limit 0 vkey).

(** [DecodeKey(...) == -1] compares a [bool] with -1 and never holds, so a key
    that does not decode adds the member and score left by the previous one. *)
Fixpoint load_loop (fuel : nat) (it : It) (startEnd : bytes) (limit n : Z)
    (member score : bytes) (keylist : SS.SortedSet) : ret_code * SS.SortedSet :=
  match fuel with
  | O => (db_ok, keylist)
  | S fuel =>
      if it_Valid it && (blt (it_key it) startEnd && (n <? limit)) then
        let strkey := it_key it in
        if negb (bool_decide (nth 0 strkey x00 = FLAG_ZSCORE)) then (db_err, keylist)
        else
          let r := DecodeKey strkey in
          let member := default member (dec_member r) in
          let score := default score (dec_score r) in
          let keylist := (SS.add keylist member (str_to_int64 score)).2 in
          load_loop fuel (it_Next it) startEnd limit (n + 1) member score keylist
      else (db_ok, keylist)
  end.

Definition xdb_LoadExpirationKeys (x : xDataBase) (expirekey : bytes) (keylist : SS.SortedSet)
    (limit : Z) : ret_code * SS.SortedSet :=
  let strStart := EncodeKey (K_ZSCORE expirekey [] SCORE_MIN) in
  let startEnd := EncodeKey (K_ZSCORE expirekey [] SCORE_MAX) in
  let it := rdb_NewIterator (db x) in
  if negb (ok (it_status it)) then (db_err, keylist)
  else
    let it := it_Seek it strStart in
    load_loop (S (it_bound it)) it startEnd limit 0 [] [] keylist.

(** Failed deletes are only logged. *)
Fixpoint flush_loop (fuel : nat) (it : It) (d : DB) : DB :=
  match fuel with
  | O => d
  | S fuel =>
      if it_Valid it then flush_loop fuel (it_Next it) (rdb_Delete d (it_key it)).1 else d
  end.

Definition xdb_Flushall (x : xDataBase) : ret_code * xDataBase :=
  let it := rdb_NewIterator (db x) in
  if negb (ok (it_status it)) then (db_err, x)
  else
    let it := it_SeekToFirst it in
    (db_ok, set_db x (flush_loop (S (it_bound it)) it (db x))).

(** ** Sorted sets *)

Definition xdb_Zget (x : xDataBase) (key member score : bytes) : ret_code * bytes :=
  let '(s, v) := rdb_Get (db x) (EncodeKey (K_ZSET key member)) in
  if IsNotFound s then (db_null, score)
  else if negb (ok s) then (db_err, score)
  else (db_ok, v).

Definition xdb_Zset (x : xDataBase) (key member score : bytes) : ret_code * xDataBase :=
  if bool_decide (key = []) || bool_decide (member = []) then (db_err, x)
  else
    let '(ret, old_score) := xdb_Zget x key member [] in
    if bool_decide (ret = db_null) || negb (bool_decide (old_score = score)) then
      let d :=
        if bool_decide (ret = db_null) then db x
        else (rdb_Delete (db x) (EncodeKey (K_ZSCORE key member old_score))).1 in
      let enZkey := EncodeKey (K_ZSET key member) in
      let enSkey := EncodeKey (K_ZSCORE key member score) in
      let '(d, s) := rdb_Put d enSkey [] in
      if negb (ok s) then (db_err, set_db x d)
      else
        let '(d, s) := rdb_Put d enZkey score in
        if negb (ok s) then (db_err, set_db x d) else (db_ok, set_db x d)
    else (db_err, x).

Definition xdb_Zdel (x : xDataBase) (key member : bytes) : ret_code * xDataBase :=
  if bool_decide (key = []) || bool_decide (member = []) then (db_err, x)
  else
    let '(ret, old_score) := xdb_Zget x key member [] in
    if bool_decide (ret = db_null) then (db_err, x)
    else
      let d := (rdb_Delete (db x) (EncodeKey (K_ZSCORE key member old_score))).1 in
      let '(d, s) := rdb_Delete d (EncodeKey (K_ZSET key member)) in
      (if ok s then db_ok else db_err, set_db x d).

End DataBase.

Arguments xDataBase : clear implicits.

(** ** Rows: what the keys look like *)

Abbreviation kv_key k := (EncodeKey (K_STRING k)).
Abbreviation zset_key zk m := (EncodeKey (K_ZSET zk m)).

(** The row that indexes member [m] of [zk] under score [s]: the score is
    stored big-endian so that rows sort by score. *)
Definition zrow (zk : bytes) (s : Z) (m : bytes) : bytes :=
  (FLAG_ZSCORE :: zb (Z.of_nat (length zk)) :: zk)
  ++ rev (le_bytes 8 (u64 s)) ++ ":"%byte :: m.

Definition short (s : bytes) : Prop := Z.of_nat (length s) < 2 ^ 30.

Lemma le_bytes_i64 s : le_bytes 8 (i64 s) = le_bytes 8 s.
Proof.
  rewrite <- (le_bytes_mod 8 (i64 s)), <- (le_bytes_mod 8 s).
  change (256 ^ Z.of_nat 8) with (2 ^ 64). f_equal. apply (u64_i64 s).
Qed.

Lemma EncodeKey_zscore zk m t : EncodeKey (K_ZSCORE zk m t) = zrow zk (str_to_int64 t) m.
Proof.
  unfold EncodeKey, zrow. cbn [app]. do 2 f_equal. f_equal. f_equal.
  rewrite le_bytes_i64. unfold encode_score. apply le_bytes_big_endian64, u64_range.
Qed.

Lemma EncodeKey_zscore_sdec zk m s :
  is_i64 s -> EncodeKey (K_ZSCORE zk m (sdec s)) = zrow zk s m.
Proof. intros. by rewrite EncodeKey_zscore, str_to_int64_sdec. Qed.

Lemma kv_key_inj a b : kv_key a = kv_key b -> a = b.
Proof. by intros [= ->]. Qed.

Lemma zset_key_inj zk a b : zset_key zk a = zset_key zk b -> a = b.
Proof. intros [= H]. apply app_inv_head in H. by injection H. Qed.

Lemma length_be s : length (rev (le_bytes 8 (u64 s))) = 8%nat.
Proof. by rewrite length_rev, length_le_bytes. Qed.

Lemma be_inj s t : rev (le_bytes 8 (u64 s)) = rev (le_bytes 8 (u64 t)) -> u64 s = u64 t.
Proof.
  intros H. apply (f_equal (fun l => le_Z (rev l))) in H.
  rewrite !rev_involutive, !le_Z_le_bytes in H.
  change (256 ^ Z.of_nat 8) with (2 ^ 64) in H.
  pose proof (u64_range s). pose proof (u64_range t). unfold is_u64 in *.
  by rewrite !Z.mod_small in H by lia.
Qed.

Lemma zrow_inj zk s m s' m' :
  is_i64 s -> is_i64 s' -> zrow zk s m = zrow zk s' m' -> s = s' /\ m = m'.
Proof.
  intros Hs Hs' H. unfold zrow in H. apply app_inv_head in H.
  apply app_inj_1 in H as [H1 [= H2]]; [|by rewrite !length_be].
  split; [|done]. apply be_inj in H1.
  rewrite <- (i64_u64_id s), <- (i64_u64_id s') by done. by rewrite H1.
Qed.

Lemma blt_zrow zk s m s' m' :
  blt (zrow zk s m) (zrow zk s' m')
  = (u64 s <? u64 s') || ((u64 s =? u64 s') && blt m m').
Proof.
  unfold zrow. rewrite blt_app_same, blt_app_len by by rewrite !length_be.
  assert (256 ^ Z.of_nat 8 = 2 ^ 64) as E by done.
  rewrite blt_be by (rewrite E; apply u64_range). f_equal. f_equal.
  destruct (Z.eqb_spec (u64 s) (u64 s')) as [E'|E'].
  - apply bool_decide_true. by rewrite E'.
  - apply bool_decide_false. by intros ?%be_inj.
Qed.

(** Rows of non-negative scores sort as [SortedSet] items do. *)
Lemma blt_zrow_items zk a b :
  0 <= SS.score a < 2 ^ 63 -> 0 <= SS.score b < 2 ^ 63 ->
  blt (zrow zk (SS.score a) (SS.key a)) (zrow zk (SS.score b) (SS.key b)) = SS.item_lt a b.
Proof. intros. rewrite blt_zrow, !u64_id by (unfold is_u64; lia). done. Qed.

(** ** Decoding inverts encoding *)

Lemma DecodeKey_kv k :
  Z.of_nat (length k) < 2 ^ 31 - 1 -> DecodeKey (kv_key k) = MkDecoded true (Some k) None None.
Proof.
  intros Hl. unfold DecodeKey, EncodeKey, Dec.decoder_new. cbn [app].
  rewrite decide_True by done. unfold Dec.skip. cbn [Dec.d_size Dec.d_p].
  rewrite i32_id by (unfold is_i32; cbn [length]; lia).
  destruct (Z.ltb_spec (Z.of_nat (length (FLAG_KV :: k))) 1); [cbn [length] in *; lia|].
  cbn [Z.eqb]. unfold Dec.read_data. cbn [Dec.d_size Dec.d_p].
  change (drop (Z.to_nat 1) (FLAG_KV :: k)) with k.
  replace (Z.of_nat (length (FLAG_KV :: k)) - 1) with (Z.of_nat (length k)) by (cbn [length]; lia).
  rewrite Nat2Z.id, firstn_all. destruct (Z.eqb_spec (Z.of_nat (length k)) (-1)); [lia|done].
Qed.

Lemma length_zrow zk s m : length (zrow zk s m) = (length zk + length m + 11)%nat.
Proof. unfold zrow. rewrite length_app, length_app, length_be. cbn [length]. lia. Qed.

Lemma decode_score_be s :
  is_i64 s -> str (i64 (decode_score (i64 (le_Z (rev (le_bytes 8 (u64 s))))))) = str s.
Proof.
  intros Hs. f_equal. unfold decode_score. rewrite u64_i64.
  rewrite <- big_endian64_rev by apply u64_range.
  rewrite (u64_id (big_endian64 _)) by apply big_endian64_range, u64_range.
  rewrite big_endian64_involutive by apply u64_range. by apply i64_u64_id.
Qed.

Lemma DecodeKey_zrow zk s m :
  is_i64 s -> (length zk < 256)%nat -> Z.of_nat (length zk + length m) < 2 ^ 31 - 11 ->
  DecodeKey (zrow zk s m) = MkDecoded true (Some zk) (Some m) (Some (str s)).
Proof.
  intros Hs Hz Hl. unfold DecodeKey, Dec.decoder_new.
  rewrite i32_id by (unfold is_i32; rewrite length_zrow; lia).
  rewrite length_zrow. unfold zrow at 1 2 3 4 5. cbn [app]. rewrite decide_False, decide_True by done.
  set (L := Z.of_nat (length zk + length m + 11)).
  unfold Dec.skip at 1. cbn [Dec.d_size Dec.d_p].
  destruct (Z.ltb_spec L 1); [lia|]. cbn [Z.eqb].
  change (Z.to_nat 1) with 1%nat. cbn [drop]. unfold zrow. cbn [app drop].
  unfold Dec.read_8_data. cbn [Dec.d_size Dec.d_p].
  destruct (Z.ltb_spec (L - 1) 1); [lia|]. cbn [drop].
  rewrite bz_zb_small by lia.
  destruct (Z.ltb_spec (L - 1 - 1) (Z.of_nat (length zk))); [lia|].
  destruct (Z.eqb_spec (1 + Z.of_nat (length zk)) (-1)); [lia|].
  rewrite drop_0, Nat2Z.id, take_app_length, drop_app_length.
  unfold Dec.read_int64. cbn [Dec.d_size Dec.d_p].
  rewrite u64_id by (unfold is_u64; lia).
  destruct (Z.ltb_spec (L - 1 - 1 - Z.of_nat (length zk)) 8); [lia|]. cbn [Z.eqb].
  rewrite <- (length_be s). rewrite take_app_length, drop_app_length.
  rewrite decode_score_be by done.
  unfold Dec.skip. cbn [Dec.d_size Dec.d_p].
  destruct (Z.ltb_spec (L - 1 - 1 - Z.of_nat (length zk) - 8) 1); [lia|]. cbn [Z.eqb].
  change (Z.to_nat 1) with 1%nat. cbn [drop]. rewrite drop_0. unfold Dec.read_data. cbn [Dec.d_size Dec.d_p].
  replace (L - 1 - 1 - Z.of_nat (length zk) - 8 - 1) with (Z.of_nat (length m)) by lia.
  rewrite Nat2Z.id, firstn_all.
  destruct (Z.eqb_spec (Z.of_nat (length m)) (-1)); [lia|done].
Qed.
