(* ===== verification/DataBaseSpec.v ===== *)
(** What [xDataBase] promises: a map of values with timestamps and a map of
    expiration times.  [store_rel] ties the rows in RocksDB to the two maps and
    each operation of [xDataBase] is shown to act on the maps as specified. *)

From S2P Require Import Prelude Cstd Util SortedSet MurmurHash2 EtagManager RocksDB DataBase.
From Stdlib Require Import Sorting.Sorted.

(** ** The abstraction *)

(** [kv] maps keys to values, [ttl] members of the sorted set [zk] to scores.
    Every row is one of the three shapes, and the score index agrees with the
    member index. *)
Record store_rel (zk : bytes) (m : gmap bytes bytes) (kv : gmap bytes xValue) (ttl : gmap bytes Z)
  : Prop := {
  sr_kv k : m !! kv_key k = xValue_encode <$> kv !! k;
  sr_zset mem : m !! zset_key zk mem = sdec <$> ttl !! mem;
  sr_zrow mem s : is_i64 s ->
    m !! zrow zk s mem = if decide (ttl !! mem = Some s) then Some [] else None;
  sr_i64 mem s : ttl !! mem = Some s -> is_i64 s;
  sr_ts k v : kv !! k = Some v -> is_u64 (timestamp v);
  sr_dom r : is_Some (m !! r) ->
    (exists k, r = kv_key k /\ short k) \/ (exists mem, r = zset_key zk mem) \/
    (exists s mem, is_i64 s /\ r = zrow zk s mem /\ short mem)
}.

Lemma store_rel_empty zk : store_rel zk ∅ ∅ ∅.
Proof. split; intros *; rewrite ?lookup_empty; done. Qed.

Lemma kv_zset_ne k zk mem : kv_key k <> zset_key zk mem.
Proof. done. Qed.
Lemma kv_zrow_ne k zk s mem : kv_key k <> zrow zk s mem.
Proof. done. Qed.
Lemma zset_zrow_ne zk mem zk' s mem' : zset_key zk mem <> zrow zk' s mem'.
Proof. done. Qed.

Create HintDb rows.
#[export] Hint Resolve kv_zset_ne kv_zrow_ne zset_zrow_ne not_eq_sym : rows.

(** The rows are of the three shapes. *)
Definition shaped (zk : bytes) (m : gmap bytes bytes) : Prop :=
  forall r, is_Some (m !! r) ->
    (exists k, r = kv_key k /\ short k) \/ (exists mem, r = zset_key zk mem) \/
    (exists s mem, is_i64 s /\ r = zrow zk s mem /\ short mem).

(** The scores as the member rows have them, and as the index rows have them. *)
Record rows (zk : bytes) (m : gmap bytes bytes) (kv : gmap bytes xValue) (ttl idx : gmap bytes Z) : Prop := {
  r_kv k : m !! kv_key k = xValue_encode <$> kv !! k;
  r_zset mem : m !! zset_key zk mem = sdec <$> ttl !! mem;
  r_zrow mem s : is_i64 s -> m !! zrow zk s mem = if decide (idx !! mem = Some s) then Some [] else None;
  r_i64 mem s : ttl !! mem = Some s -> is_i64 s;
  r_ts k v : kv !! k = Some v -> is_u64 (timestamp v);
  r_dom : shaped zk m
}.

Section Rows.
Context (zk : bytes).

Lemma rows_store m kv ttl : store_rel zk m kv ttl <-> rows zk m kv ttl ttl.
Proof. split; intros [H1 H2 H3 H4 H5 H6]; by split. Qed.

Lemma shaped_insert m k v :
  shaped zk m ->
  (exists k', k = kv_key k' /\ short k') \/ (exists mem, k = zset_key zk mem) \/ (exists s mem, is_i64 s /\ k = zrow zk s mem /\ short mem) ->
  shaped zk (<[k := v]> m).
Proof. intros Hm Hk r. rewrite lookup_insert. case_decide; [by subst|apply Hm]. Qed.

Lemma shaped_delete m k : shaped zk m -> shaped zk (delete k m).
Proof. intros Hm r. rewrite lookup_delete. case_decide; [by intros [? ?]|apply Hm]. Qed.

Lemma rows_kv_put m kv ttl idx k v :
  rows zk m kv ttl idx -> short k -> is_u64 (timestamp v) -> rows zk (<[kv_key k := xValue_encode v]> m) (<[k := v]> kv) ttl idx.
Proof.
  intros [H1 H2 H3 H4 H5 H6] Hk Hv. split.
  - intros k'. rewrite !lookup_insert. destruct (decide (k = k')) as [->|Hne]; [by rewrite !decide_True|].
    by rewrite !decide_False by (done || by intros ?%kv_key_inj).
  - intros mem. by rewrite lookup_insert_ne by auto with rows.
  - intros mem s Hs. rewrite lookup_insert_ne by auto with rows. by apply H3.
  - done.
  - intros k' v'. rewrite lookup_insert. case_decide; [by intros [= <-]|apply H5].
  - apply shaped_insert; [done|]. left. eauto.
Qed.

Lemma rows_kv_delete m kv ttl idx k : rows zk m kv ttl idx -> rows zk (delete (kv_key k) m) (delete k kv) ttl idx.
Proof.
  intros [H1 H2 H3 H4 H5 H6]. split.
  - intros k'. rewrite !lookup_delete. destruct (decide (k = k')) as [->|Hne]; [by rewrite !decide_True|].
    by rewrite !decide_False by (done || by intros ?%kv_key_inj).
  - intros mem. by rewrite lookup_delete_ne by auto with rows.
  - intros mem s Hs. rewrite lookup_delete_ne by auto with rows. by apply H3.
  - done.
  - intros k' v'. rewrite lookup_delete. case_decide; [done|apply H5].
  - by apply shaped_delete.
Qed.

Lemma rows_score_put m kv ttl idx mem s :
  rows zk m kv ttl idx -> is_i64 s -> rows zk (<[zset_key zk mem := sdec s]> m) kv (<[mem := s]> ttl) idx.
Proof.
  intros [H1 H2 H3 H4 H5 H6] Hs. split.
  - intros k. by rewrite lookup_insert_ne by auto with rows.
  - intros mem'. rewrite !lookup_insert. destruct (decide (mem = mem')) as [->|Hne]; [by rewrite !decide_True|].
    by rewrite !decide_False by (done || by intros ?%zset_key_inj).
  - intros mem' s' Hs'. rewrite lookup_insert_ne by auto with rows. by apply H3.
  - intros mem' s'. rewrite lookup_insert. case_decide; [by intros [= <-]|apply H4].
  - done.
  - apply shaped_insert; [done|]. right. left. eauto.
Qed.

Lemma rows_score_delete m kv ttl idx mem :
  rows zk m kv ttl idx -> rows zk (delete (zset_key zk mem) m) kv (delete mem ttl) idx.
Proof.
  intros [H1 H2 H3 H4 H5 H6]. split.
  - intros k. by rewrite lookup_delete_ne by auto with rows.
  - intros mem'. rewrite !lookup_delete. destruct (decide (mem = mem')) as [->|Hne]; [by rewrite !decide_True|].
    by rewrite !decide_False by (done || by intros ?%zset_key_inj).
  - intros mem' s' Hs'. rewrite lookup_delete_ne by auto with rows. by apply H3.
  - intros mem' s'. rewrite lookup_delete. case_decide; [done|apply H4].
  - done.
  - by apply shaped_delete.
Qed.

Lemma rows_index_put m kv ttl idx mem s :
  rows zk m kv ttl idx -> idx !! mem = None -> is_i64 s -> short mem -> rows zk (<[zrow zk s mem := []]> m) kv ttl (<[mem := s]> idx).
Proof.
  intros [H1 H2 H3 H4 H5 H6] Hn Hs Hm. split.
  - intros k. by rewrite lookup_insert_ne by auto with rows.
  - intros mem'. by rewrite lookup_insert_ne by auto with rows.
  - intros mem' s' Hs'. rewrite !lookup_insert. destruct (decide (mem = mem')) as [->|Hne].
    + destruct (decide (s = s')) as [->|Hss]; [by rewrite !decide_True|].
      rewrite decide_False by (intros [??]%zrow_inj; done). rewrite (decide_False (P := Some s = Some s')) by congruence.
      rewrite H3, Hn by done. by rewrite decide_False.
    + rewrite !decide_False by (intros [??]%zrow_inj; done). by apply H3.
  - done.
  - done.
  - apply shaped_insert; [done|]. right. right. eauto.
Qed.

Lemma rows_index_delete m kv ttl idx mem s :
  rows zk m kv ttl idx -> idx !! mem = Some s -> is_i64 s -> rows zk (delete (zrow zk s mem) m) kv ttl (delete mem idx).
Proof.
  intros [H1 H2 H3 H4 H5 H6] He Hs. split.
  - intros k. by rewrite lookup_delete_ne by auto with rows.
  - intros mem'. by rewrite lookup_delete_ne by auto with rows.
  - intros mem' s' Hs'. rewrite !lookup_delete. destruct (decide (mem = mem')) as [->|Hne].
    + rewrite (decide_False (P := None = Some s')) by done. case_decide as Hd; [done|]. rewrite H3 by done. apply decide_False. congruence.
    + rewrite decide_False by (intros [??]%zrow_inj; done). by apply H3.
  - done.
  - done.
  - by apply shaped_delete.
Qed.

Lemma rel_kv_insert m kv ttl k v :
  store_rel zk m kv ttl -> short k -> is_u64 (timestamp v) ->
  store_rel zk (<[kv_key k := xValue_encode v]> m) (<[k := v]> kv) ttl.
Proof. rewrite !rows_store. apply rows_kv_put. Qed.

Lemma rel_kv_delete m kv ttl k :
  store_rel zk m kv ttl -> store_rel zk (delete (kv_key k) m) (delete k kv) ttl.
Proof. rewrite !rows_store. apply rows_kv_delete. Qed.

(** Removing the index row of [mem], whose score was [s0] (or no row at all). *)
Lemma rel_ttl_insert m kv ttl mem s0 s :
  store_rel zk m kv ttl -> (forall s', ttl !! mem = Some s' -> s' = s0) -> is_i64 s0 ->
  is_i64 s -> short mem ->
  store_rel zk (<[zset_key zk mem := sdec s]> (<[zrow zk s mem := []]> (delete (zrow zk s0 mem) m)))
    kv (<[mem := s]> ttl).
Proof.
  rewrite !rows_store. intros Hr H0 Hs0 Hs Hm. apply rows_score_put; [|done]. rewrite <- (insert_delete_eq ttl mem s).
  apply rows_index_put; [|by rewrite lookup_delete_eq|done|done]. destruct (ttl !! mem) as [s'|] eqn:E.
  - rewrite (H0 _ eq_refl) in E. by apply rows_index_delete.
  - rewrite (delete_id ttl), delete_id; [done| |done]. rewrite (r_zrow _ _ _ _ _ Hr), E by done. by rewrite decide_False.
Qed.

Lemma rel_ttl_delete m kv ttl mem s0 :
  store_rel zk m kv ttl -> ttl !! mem = Some s0 ->
  store_rel zk (delete (zset_key zk mem) (delete (zrow zk s0 mem) m)) kv (delete mem ttl).
Proof.
  rewrite !rows_store. intros Hr E. apply rows_score_delete, rows_index_delete; [done|done|by eapply r_i64].
Qed.
End Rows.


(** ** Operations refine the maps *)

Section Refinement.
Context {DB It : Type} `{RocksDBSpec DB It} `{!RocksDBHealthy DB It} (zk : bytes).

Definition etag_ok (x : xDataBase DB) : Prop :=
  bEtag x = true -> exists m, xEtag x = Some m /\ mgr_wf m.

Definition db_rel (x : xDataBase DB) (kv : gmap bytes xValue) (ttl : gmap bytes Z) : Prop :=
  store_rel zk (contents (db x)) kv ttl /\ etag_ok x.

Lemma note_etag_ok x k ts :
  etag_ok x -> exists x', note_etag x k ts = Some x' /\ db x' = db x /\ etag_ok x'.
Proof.
  intros He. unfold note_etag. destruct (bEtag x) eqn:Eb; [|by eauto].
  destruct (He Eb) as (m & -> & Hm). cbn [mbind option_bind].
  destruct (SetKey_spec m (cstr k) ts Hm) as (m' & -> & Hm' & _). cbn [mbind option_bind].
  eexists. split; [done|]. split; [done|]. intros _. by exists m'.
Qed.

Lemma decode_encode v : is_u64 (timestamp v) -> xValue_decode (xValue_encode v) = Some v.
Proof.
  intros Hv. destruct v as [ts sv]. unfold xValue_decode, xValue_encode. cbn [timestamp strValue] in *.
  destruct (Nat.ltb_spec (length (le_bytes 8 ts ++ sv)) 8) as [Hl|_].
  { rewrite length_app, length_le_bytes in Hl. lia. }
  rewrite take_app_length', drop_app_length', le_Z_le_bytes by by rewrite length_le_bytes.
  change (256 ^ Z.of_nat 8) with (2 ^ 64). by rewrite Z.mod_small.
Qed.

Lemma getCurrentTime_u64 now : is_u64 (getCurrentTime now).
Proof. apply u64_range. Qed.

Lemma Set_refines x kv ttl now k v :
  db_rel x kv ttl -> short k ->
  exists x', xdb_Set x now k v = Some (db_ok, x') /\
    db_rel x' (<[k := MkValue (getCurrentTime now) v]> kv) ttl.
Proof.
  intros [Hr He] Hk. unfold xdb_Set. set (w := MkValue _ v).
  pose proof (Put_contents (db x) (kv_key k) (xValue_encode w)) as Hp.
  pose proof (Put_healthy (db x) (kv_key k) (xValue_encode w)) as Hh.
  destruct (rdb_Put (db x) (kv_key k) (xValue_encode w)) as [d s]. cbn [fst snd] in *. subst s.
  change (negb (ok kOk)) with false. cbn iota.
  destruct (note_etag_ok (set_db x d) k (timestamp w)) as (x' & -> & Hd & He'); [done|].
  cbn [mbind option_bind]. exists x'. split; [done|]. split; [|done].
  rewrite Hd. cbn [set_db db]. rewrite Hp. apply rel_kv_insert; [done..|].
  apply getCurrentTime_u64.
Qed.

Lemma Get_refines x kv ttl k xv :
  db_rel x kv ttl ->
  exists x', xdb_Get x k xv = Some (match kv !! k with Some v => (db_ok, v) | None => (db_null, xv) end, x')
    /\ db_rel x' kv ttl /\ db x' = db x.
Proof.
  intros [Hr He]. unfold xdb_Get. rewrite Get_contents, (sr_kv _ _ _ _ Hr).
  destruct (kv !! k) as [v|] eqn:E; cbn [fmap option_fmap option_map].
  - change (IsNotFound kOk) with false. change (negb (ok kOk)) with false. cbn iota.
    rewrite decode_encode by by eapply sr_ts. cbn [mbind option_bind].
    destruct (note_etag_ok x k (timestamp v) He) as (x' & -> & Hd & He').
    cbn [mbind option_bind]. exists x'. split; [done|]. split; [|done].
    split; [|done]. by rewrite Hd.
  - change (IsNotFound kNotFound) with true. cbn iota. exists x. by split.
Qed.

Lemma Del_refines x kv ttl k :
  db_rel x kv ttl ->
  exists x', xdb_Del x k = (db_ok, x') /\ db_rel x' (delete k kv) ttl.
Proof.
  intros [Hr He]. unfold xdb_Del.
  pose proof (Delete_contents (db x) (kv_key k)) as Hp.
  pose proof (Delete_healthy (db x) (kv_key k)) as Hh.
  destruct (rdb_Delete (db x) (kv_key k)) as [d s]. cbn [fst snd] in *. subst s.
  eexists. split; [done|]. split; [|done]. cbn [set_db db]. rewrite Hp. by apply rel_kv_delete.
Qed.

Lemma Zget_refines x kv ttl mem sc :
  db_rel x kv ttl ->
  xdb_Zget x zk mem sc = match ttl !! mem with Some s => (db_ok, sdec s) | None => (db_null, sc) end.
Proof.
  intros [Hr _]. unfold xdb_Zget. rewrite Get_contents, (sr_zset _ _ _ _ Hr).
  by destruct (ttl !! mem).
Qed.

Lemma sdec_inj a b : is_i64 a -> is_i64 b -> sdec a = sdec b -> a = b.
Proof. intros Ha Hb E. rewrite <- (str_to_int64_sdec a), <- (str_to_int64_sdec b) by done. by rewrite E. Qed.

(** [Zset] stores a new score and refuses an unchanged one. *)
Lemma Zset_refines x kv ttl mem s :
  db_rel x kv ttl -> zk <> [] -> mem <> [] -> short mem -> is_i64 s ->
  if decide (ttl !! mem = Some s) then xdb_Zset x zk mem (sdec s) = (db_err, x)
  else exists x', xdb_Zset x zk mem (sdec s) = (db_ok, x') /\ db_rel x' kv (<[mem := s]> ttl).
Proof.
  intros Hrel Hz Hm Hsh Hs. unfold xdb_Zset. rewrite !bool_decide_false by done. cbn [orb].
  rewrite (Zget_refines _ _ _ _ _ Hrel). destruct Hrel as [Hr He].
  assert (forall s0, (forall s', ttl !! mem = Some s' -> s' = s0) -> is_i64 s0 -> forall d,
    contents d = delete (zrow zk s0 mem) (contents (db x)) ->
    exists x', (let '(d, st) := rdb_Put d (EncodeKey (K_ZSCORE zk mem (sdec s))) [] in
      if negb (ok st) then (db_err, set_db x d)
      else let '(d, st) := rdb_Put d (zset_key zk mem) (sdec s) in
        if negb (ok st) then (db_err, set_db x d) else (db_ok, set_db x d)) = (db_ok, x')
      /\ db_rel x' kv (<[mem := s]> ttl)) as Hput.
  { intros s0 Hs0' Hs0 d Hd. rewrite EncodeKey_zscore_sdec by done.
    pose proof (Put_contents d (zrow zk s mem) []) as Hp1.
    pose proof (Put_healthy d (zrow zk s mem) []) as Hh1.
    destruct (rdb_Put d (zrow zk s mem) []) as [d1 st1]. cbn [fst snd] in *. subst st1.
    change (negb (ok kOk)) with false. cbn iota.
    pose proof (Put_contents d1 (zset_key zk mem) (sdec s)) as Hp2.
    pose proof (Put_healthy d1 (zset_key zk mem) (sdec s)) as Hh2.
    destruct (rdb_Put d1 (zset_key zk mem) (sdec s)) as [d2 st2]. cbn [fst snd] in *. subst st2.
    eexists. split; [done|]. split; [|done]. cbn [set_db db]. rewrite Hp2, Hp1, Hd.
    by apply rel_ttl_insert. }
  destruct (ttl !! mem) as [s0|] eqn:E.
  - rewrite bool_decide_false by done. cbn [orb].
    pose proof (sr_i64 _ _ _ _ Hr _ _ E) as Hs0.
    destruct (decide (Some s0 = Some s)) as [[= ->]|Hne].
    + by rewrite bool_decide_true.
    + rewrite bool_decide_false by (intros ?%sdec_inj; congruence). cbn [negb].
      apply (Hput s0); [by intros s' [= <-]|done|].
      by rewrite EncodeKey_zscore_sdec, Delete_contents.
  - rewrite bool_decide_true by done. cbn [orb]. rewrite decide_False by done.
    apply (Hput 0); [done|unfold is_i64; lia|].
    rewrite delete_id; [done|]. rewrite (sr_zrow _ _ _ _ Hr) by (unfold is_i64; lia).
    by rewrite decide_False by congruence.
Qed.

Lemma Zdel_refines x kv ttl mem :
  db_rel x kv ttl -> zk <> [] -> mem <> [] ->
  exists x', xdb_Zdel x zk mem = (if decide (ttl !! mem = None) then db_err else db_ok, x') /\
    db_rel x' kv (delete mem ttl).
Proof.
  intros Hrel Hz Hm. unfold xdb_Zdel. rewrite !bool_decide_false by done. cbn [orb].
  rewrite (Zget_refines _ _ _ _ _ Hrel). destruct Hrel as [Hr He].
  destruct (ttl !! mem) as [s0|] eqn:E.
  - rewrite bool_decide_false, decide_False by done.
    pose proof (sr_i64 _ _ _ _ Hr _ _ E) as Hs0. rewrite EncodeKey_zscore_sdec by done.
    set (d := (rdb_Delete (db x) (zrow zk s0 mem)).1).
    assert (contents d = delete (zrow zk s0 mem) (contents (db x))) as Hd by apply Delete_contents.
    pose proof (Delete_contents d (zset_key zk mem)) as Hp.
    pose proof (Delete_healthy d (zset_key zk mem)) as Hh.
    destruct (rdb_Delete d (zset_key zk mem)) as [d2 st]. cbn [fst snd] in *. subst st.
    eexists. split; [done|]. split; [|done]. cbn [set_db db]. rewrite Hp, Hd.
    by apply rel_ttl_delete.
  - rewrite bool_decide_true, decide_True by done. exists x. split; [done|].
    rewrite delete_id by done. done.
Qed.

(** ** Walks over an iterator *)

(** The keys a bounded walk visits. *)
Fixpoint upto (e : bytes) (l : list bytes) : list bytes :=
  match l with
  | [] => []
  | k :: l => if blt k e then k :: upto e l else []
  end.

Lemma upto_filter e l :
  StronglySorted bless l -> upto e l = filter (fun k => blt k e = true) l.
Proof.
  induction 1 as [|k l Hs IH Hf]; [done|]. cbn [upto]. destruct (blt k e) eqn:E.
  - rewrite filter_cons_True by done. by f_equal.
  - rewrite filter_cons_False by by rewrite E. symmetry. apply filter_none.
    eapply Forall_impl; [exact Hf|]. intros k' Hk Hk'. unfold bless in Hk.
    by rewrite (blt_trans _ _ _ Hk Hk') in E.
Qed.

(** The rows between two keys, in order. *)
Lemma walk_rows x a e :
  exists rows, StronglySorted bless rows /\
    upto e (remaining (it_Seek (rdb_NewIterator (db x)) a)) = rows /\
    forall r, r ∈ rows <-> is_Some (contents (db x) !! r) /\ ble a r = true /\ blt r e = true.
Proof.
  destruct (NewIterator_ok (db x)) as [Hs Hin]; [apply Iterator_healthy|].
  rewrite Seek_spec. eexists. split_and!; [|done|].
  - rewrite upto_filter by by apply sorted_filter. by apply sorted_filter, sorted_filter.
  - intros r. rewrite upto_filter by by apply sorted_filter.
    rewrite !list_elem_of_filter, Hin. tauto.
Qed.

Lemma scan_key_loop_spec (it : It) fuel e limit n strkey vkey :
  (length (remaining it) < fuel)%nat ->
  Forall (fun r => is_Some (dec_key (DecodeKey r))) (upto e (remaining it)) ->
  scan_key_loop fuel it e limit n strkey vkey
  = vkey ++ ((fun r => default [] (dec_key (DecodeKey r))) <$>
             take (Z.to_nat (limit - n)) (upto e (remaining it))).
Proof.
  revert it n strkey vkey. induction fuel as [|fuel IH]; intros it n strkey vkey Hf Hd; [lia|].
  cbn [scan_key_loop]. destruct (remaining it) as [|k r] eqn:E.
  - rewrite Valid_nil by done. cbn [andb upto]. by rewrite firstn_nil, app_nil_r.
  - rewrite (Valid_cons _ _ _ E), (Key_spec _ _ _ E). cbn [andb upto] in *.
    destruct (blt k e) eqn:Hk; cbn [andb].
    2:{ by rewrite firstn_nil, app_nil_r. }
    destruct (Z.ltb_spec n limit) as [Hn|Hn].
    + inversion Hd as [|? ? [dk Hdk] Hd']; subst. rewrite Hdk. cbn [default].
      rewrite IH; rewrite (Next_spec _ _ _ E); [|cbn [length] in Hf; lia|done].
      replace (Z.to_nat (limit - n)) with (S (Z.to_nat (limit - (n + 1)))) by lia.
      cbn [take fmap list_fmap]. rewrite Hdk. cbn [default]. by rewrite <- app_assoc.
    + replace (Z.to_nat (limit - n)) with 0%nat by lia. by rewrite app_nil_r.
Qed.

Lemma load_loop_spec (it : It) fuel e limit n (items : list SS.Item) member score keylist :
  (length (remaining it) < fuel)%nat ->
  upto e (remaining it) = (fun i => zrow zk (SS.score i) (SS.key i)) <$> items ->
  Forall (fun i => is_i64 (SS.score i) /\ short (SS.key i)) items -> (length zk < 256)%nat ->
  load_loop fuel it e limit n member score keylist
  = (db_ok, foldl (fun s i => (SS.add s (SS.key i) (SS.score i)).2) keylist
                  (take (Z.to_nat (limit - n)) items)).
Proof.
  intros Hf Hu Hi Hz. revert it n items member score keylist Hf Hu Hi.
  induction fuel as [|fuel IH]; intros it n items member score keylist Hf Hu Hi; [lia|].
  cbn [load_loop]. destruct (remaining it) as [|k r] eqn:E.
  - rewrite Valid_nil by done. cbn [andb]. destruct items; [by rewrite firstn_nil|done].
  - rewrite (Valid_cons _ _ _ E), (Key_spec _ _ _ E). cbn [andb upto] in *.
    destruct (blt k e) eqn:Hk; cbn [andb].
    2:{ destruct items; [by rewrite firstn_nil|done]. }
    destruct items as [|i items]; [done|]. cbn [fmap list_fmap] in Hu. injection Hu as -> Hu.
    inversion Hi as [|? ? [Hi64 Hsh] Hi']; subst.
    destruct (Z.ltb_spec n limit) as [Hn|Hn].
    + rewrite bool_decide_true by done. cbn [negb].
      unfold short in Hsh. rewrite DecodeKey_zrow by (done || lia). cbn [dec_member dec_score from_option id].
      rewrite str_sdec, str_to_int64_sdec by done.
      replace (Z.to_nat (limit - n)) with (S (Z.to_nat (limit - (n + 1)))) by lia.
      cbn [take foldl]. apply IH; [rewrite (Next_spec _ _ _ E); cbn [length] in Hf; lia| |done].
      by rewrite (Next_spec _ _ _ E).
    + by replace (Z.to_nat (limit - n)) with 0%nat by lia.
Qed.

(** A list every element of which has a preimage is an image. *)
Lemma Forall_preimage {A B} (f : A -> B) (P : A -> Prop) (l : list B) :
  Forall (fun b => exists a, b = f a /\ P a) l -> exists l', l = f <$> l' /\ Forall P l'.
Proof.
  induction 1 as [|b l (a & -> & Ha) Hl (l' & -> & Hl')]; [by exists []|].
  exists (a :: l'). split; [done|]. by constructor.
Qed.

Lemma sorted_preimage {A B} (f : A -> B) (R : A -> A -> Prop) (S : B -> B -> Prop) (l : list A) :
  (forall a b, a ∈ l -> b ∈ l -> S (f a) (f b) -> R a b) ->
  StronglySorted S (f <$> l) -> StronglySorted R l.
Proof.
  induction l as [|a l IH]; intros Hf Hs; [constructor|].
  cbn [fmap list_fmap] in Hs. inversion Hs as [|? ? Hs' Hall]; subst. constructor.
  - apply IH; [|done]. intros. apply Hf; set_solver.
  - apply Forall_forall. intros b Hb. rewrite Forall_forall in Hall. apply Hf; [set_solver..|].
    apply Hall, list_elem_of_fmap. by eauto.
Qed.

(** The plain keys between [start] and [end_], in order. *)
Lemma ScanKey_rows (x : xDataBase DB) (kv : gmap bytes xValue) start end_ limit v0 :
  (forall k, contents (db x) !! kv_key k = xValue_encode <$> kv !! k) -> shaped zk (contents (db x)) ->
  exists L, StronglySorted bless L /\
    (forall k, k ∈ L <-> is_Some (kv !! k) /\ ble start k = true /\ blt k end_ = true) /\
    xdb_ScanKey x start end_ limit v0 = (db_ok, v0 ++ take (Z.to_nat limit) L).
Proof.
  intros Hkv Hdom. destruct (walk_rows x (kv_key start) (kv_key end_)) as (rows & Hs & Hu & Hin).
  assert (Forall (fun r => exists k, r = kv_key k /\ short k) rows) as Hk.
  { apply Forall_forall. intros r (Hr1 & _ & Hr3)%Hin.
    destruct (Hdom r Hr1) as [?|[(mem & ->)|(s & mem & _ & -> & _)]]; [done|..];
      by cbn in Hr3. }
  apply Forall_preimage in Hk as (L & -> & HL). exists L.
  assert (forall k, k ∈ L <-> kv_key k ∈ (fun k => kv_key k) <$> L) as HkL.
  { intros k. rewrite list_elem_of_fmap. split; [by eauto|]. by intros (k' & ->%kv_key_inj & ?). }
  split_and!.
  - revert Hs. apply sorted_preimage. done.
  - intros k. rewrite HkL, Hin, Hkv, fmap_is_Some. done.
  - unfold xdb_ScanKey. rewrite Iterator_healthy. change (negb (ok kOk)) with false. cbn iota.
    f_equal. rewrite scan_key_loop_spec; rewrite ?Hu.
    + rewrite Z.sub_0_r. f_equal. rewrite <- fmap_take, <- list_fmap_compose.
      transitivity (id <$> take (Z.to_nat limit) L); [|by rewrite list_fmap_id].
      apply list_fmap_ext. intros i k Hi. unfold compose.
      apply list_elem_of_lookup_2, elem_of_take in Hi as (j & Hj & _).
      rewrite Forall_lookup in HL. specialize (HL _ _ Hj). unfold short in HL.
      by rewrite DecodeKey_kv by lia.
    + pose proof (Bound_spec (it_Seek (rdb_NewIterator (db x)) (kv_key start))). lia.
    + apply Forall_fmap. eapply Forall_impl; [exact HL|]. intros k Hk. unfold compose, short in *.
      rewrite DecodeKey_kv by lia. done.
Qed.

Lemma ScanKey_refines x kv ttl start end_ limit v0 :
  db_rel x kv ttl ->
  exists L, StronglySorted bless L /\
    (forall k, k ∈ L <-> is_Some (kv !! k) /\ ble start k = true /\ blt k end_ = true) /\
    xdb_ScanKey x start end_ limit v0 = (db_ok, v0 ++ take (Z.to_nat limit) L).
Proof. intros [Hr _]. apply ScanKey_rows; [by eapply sr_kv|by intros r; eapply sr_dom]. Qed.

(** The expirations a load reads: those with a score in [0, INT64_MAX), by
    score and key. *)
Definition due_items (ttl : gmap bytes Z) (L : list SS.Item) : Prop :=
  StronglySorted SS.ilt L /\
  forall k s, SS.MkItem k s ∈ L <-> ttl !! k = Some s /\ 0 <= s < 2 ^ 63 - 1.

(** Adding a list with one score per key. *)
Lemma load_items_spec (L : list SS.Item) :
  (forall k v v', SS.MkItem k v ∈ L -> SS.MkItem k v' ∈ L -> v = v') ->
  let s := foldl (fun s i => (SS.add s (SS.key i) (SS.score i)).2) SS.sset_new L in
  SS.wf s /\ forall k v, SS.scores s !! k = Some v <-> SS.MkItem k v ∈ L.
Proof.
  induction L as [|[k s] L IH] using rev_ind; intros Hf; cbn zeta.
  { split; [apply SS.wf_new|]. intros k v. rewrite elem_of_nil. done. }
  destruct IH as [Hw Hs].
  { intros k' v v' ? ?. apply (Hf k'); set_solver. }
  rewrite foldl_app. cbn [foldl SS.key SS.score]. set (s0 := foldl _ _ L) in *.
  destruct (SS.add_spec s0 k s Hw) as (Hw' & -> & _). split; [done|].
  intros k' v. rewrite lookup_insert, elem_of_app, list_elem_of_singleton, <- Hs.
  case_decide as Hk.
  - subst k'. split; [intros [= <-]; by right|]. intros [Hv|Hv]; [|congruence].
    f_equal. apply (Hf k); [set_solver|]. apply elem_of_app. left. by apply Hs.
  - naive_solver.
Qed.

Lemma LoadExpirationKeys_refines x kv ttl limit s0 :
  db_rel x kv ttl -> (length zk < 256)%nat ->
  exists L, due_items ttl L /\
    xdb_LoadExpirationKeys x zk s0 limit
    = (db_ok, foldl (fun s i => (SS.add s (SS.key i) (SS.score i)).2) s0 (take (Z.to_nat limit) L)).
Proof.
  intros [Hr _] Hz.
  assert (forall (a b : bytes), blt (FLAG_KV :: a) (FLAG_ZSCORE :: b) = true) as Hkz by done.
  destruct (walk_rows x (zrow zk 0 []) (zrow zk (2 ^ 63 - 1) [])) as (rows & Hs & Hu & Hin).
  assert (forall s mem, is_i64 s ->
    (ble (zrow zk 0 []) (zrow zk s mem) = true /\ blt (zrow zk s mem) (zrow zk (2 ^ 63 - 1) []) = true)
    <-> 0 <= s < 2 ^ 63 - 1) as Hb.
  { intros s mem Hi. unfold ble. rewrite !blt_zrow, !(u64_id (2 ^ 63 - 1)), !(u64_id 0) by (unfold is_u64; lia).
    assert (blt mem [] = false) as -> by by destruct mem.
    pose proof (u64_range s) as Hu64. unfold is_u64, is_i64 in *.
    rewrite !andb_false_r, !orb_false_r, negb_true_iff, Z.ltb_ge, Z.ltb_lt.
    destruct (Z_lt_le_dec s 0); [|rewrite u64_id by (unfold is_u64; lia); lia].
    unfold u64 in *. replace (s mod 2 ^ 64) with (s + 2 ^ 64); [lia|].
    apply (Z.mod_unique s (2 ^ 64) (-1)); lia. }
  assert (Forall (fun r => exists i, r = zrow zk (SS.score i) (SS.key i) /\
    (is_i64 (SS.score i) /\ short (SS.key i))) rows) as Hk.
  { apply Forall_forall. intros r (Hr1 & Hr2 & _)%Hin.
    destruct (sr_dom _ _ _ _ Hr r Hr1) as [(k & -> & _)|[(mem & ->)|(s & mem & ? & -> & ?)]].
    - by cbn in Hr2.
    - by cbn in Hr2.
    - by exists (SS.MkItem mem s). }
  apply Forall_preimage in Hk as (L & -> & HL). exists L.
  assert (forall k s, is_i64 s -> SS.MkItem k s ∈ L <-> zrow zk s k ∈ (fun i => zrow zk (SS.score i) (SS.key i)) <$> L) as HkL.
  { intros k s Hi. rewrite list_elem_of_fmap. split; [intros ?; by exists (SS.MkItem k s)|].
    intros ([k' s'] & E & Hin'). rewrite Forall_forall in HL. destruct (HL _ Hin') as [Hi' _].
    cbn [SS.score SS.key] in *. by apply zrow_inj in E as [-> ->]. }
  assert (forall k s, SS.MkItem k s ∈ L -> is_i64 s) as Hi64.
  { intros k s Hi. rewrite Forall_forall in HL. by destruct (HL _ Hi). }
  assert (forall k s, SS.MkItem k s ∈ L <-> ttl !! k = Some s /\ 0 <= s < 2 ^ 63 - 1) as HL'.
  { intros k s. split.
    - intros Hi. pose proof (Hi64 _ _ Hi) as Hs64. apply HkL, Hin in Hi as (Hi1 & Hi2 & Hi3); [|done].
      rewrite (sr_zrow _ _ _ _ Hr) in Hi1 by done. split; [|by apply (Hb s k)].
      case_decide; [done|]. by destruct Hi1.
    - intros [Ht Hsr]. assert (is_i64 s) by (unfold is_i64; lia). apply HkL, Hin; [done|].
      rewrite (sr_zrow _ _ _ _ Hr), decide_True by done. split; [done|]. by apply Hb. }
  split; [split; [|done]|].
  - revert Hs. apply sorted_preimage. intros [ka sa] [kb sb] Ha%HL' Hb'%HL' Hlt.
    unfold bless in Hlt. rewrite blt_zrow_items in Hlt by (cbn [SS.score]; lia). done.
  - unfold xdb_LoadExpirationKeys. rewrite Iterator_healthy. change (negb (ok kOk)) with false. cbn iota.
    rewrite !EncodeKey_zscore. change (str_to_int64 SCORE_MIN) with 0.
    change (str_to_int64 SCORE_MAX) with (2 ^ 63 - 1).
    rewrite (load_loop_spec _ _ _ _ _ L); [by rewrite Z.sub_0_r| |done|done|done].
    pose proof (Bound_spec (it_Seek (rdb_NewIterator (db x)) (zrow zk 0 []))). lia.
Qed.

Lemma flush_loop_spec (it : It) fuel d k :
  (length (remaining it) < fuel)%nat ->
  contents (flush_loop fuel it d) !! k = if decide (k ∈ remaining it) then None else contents d !! k.
Proof.
  revert it d. induction fuel as [|fuel IH]; intros it d Hf; [lia|].
  cbn [flush_loop]. destruct (remaining it) as [|k' r] eqn:E.
  - rewrite Valid_nil by done. by rewrite decide_False by set_solver.
  - rewrite (Valid_cons _ _ _ E), (Key_spec _ _ _ E), IH; rewrite (Next_spec _ _ _ E);
      [|cbn [length] in Hf; lia].
    rewrite Delete_contents, lookup_delete. destruct (decide (k' = k)) as [->|Hne].
    + rewrite (decide_True (P := k ∈ k :: r)) by set_solver. by case_decide.
    + apply decide_ext. set_solver.
Qed.

(** [Flushall] removes every row, of any shape. *)
Lemma Flushall_refines x :
  exists x', xdb_Flushall x = (db_ok, x') /\ contents (db x') = ∅ /\ (etag_ok x -> etag_ok x').
Proof.
  unfold xdb_Flushall. rewrite Iterator_healthy. change (negb (ok kOk)) with false. cbn iota.
  eexists. split; [done|]. split; [|done]. cbn [set_db db]. apply map_eq. intros k.
  destruct (NewIterator_ok (db x)) as [_ Hin]; [apply Iterator_healthy|].
  rewrite flush_loop_spec, SeekToFirst_spec, lookup_empty.
  - case_decide as Hk; [done|]. rewrite Hin in Hk. by apply eq_None_not_Some.
  - pose proof (Bound_spec (it_SeekToFirst (rdb_NewIterator (db x)))). lia.
Qed.

End Refinement.

(** ** The contract *)

Inductive dbop :=
| DSet (now : timeval) (k v : bytes)
| DGet (k : bytes)
| DDel (k : bytes)
| DExpire (k : bytes)
| DScanKey (start end_ : bytes) (limit : Z)
| DZget (mem : bytes)
| DZset (mem : bytes) (s : Z)
| DZdel (mem : bytes)
| DFlushall.

Inductive dbres :=
| RCode (r : ret_code)
| RValue (r : ret_code) (v : xValue)
| RKeys (r : ret_code) (l : list bytes)
| RScore (r : ret_code) (s : bytes).

Definition db_run {DB It} `{RocksDB DB It} (zk : bytes) (x : xDataBase DB) (o : dbop)
  : option (dbres * xDataBase DB) :=
  match o with
  | DSet now k v => '(r, x) ← xdb_Set x now k v; Some (RCode r, x)
  | DGet k => '(r, v, x) ← xdb_Get x k (MkValue 0 []); Some (RValue r v, x)
  | DDel k => let '(r, x) := xdb_Del x k in Some (RCode r, x)
  | DExpire k => '(r, x) ← xdb_Expire x k; Some (RCode r, x)
  | DScanKey a b n => let '(r, l) := xdb_ScanKey x a b n [] in Some (RKeys r l, x)
  | DZget mem => let '(r, s) := xdb_Zget x zk mem [] in Some (RScore r s, x)
  | DZset mem s => let '(r, x) := xdb_Zset x zk mem (sdec s) in Some (RCode r, x)
  | DZdel mem => let '(r, x) := xdb_Zdel x zk mem in Some (RCode r, x)
  | DFlushall => let '(r, x) := xdb_Flushall x in Some (RCode r, x)
  end.

Fixpoint db_runs {DB It} `{RocksDB DB It} (zk : bytes) (x : xDataBase DB) (os : list dbop)
  : option (list dbres * xDataBase DB) :=
  match os with
  | [] => Some ([], x)
  | o :: os => '(r, x) ← db_run zk x o; '(rs, x) ← db_runs zk x os; Some (r :: rs, x)
  end.

(** The keys of [kv] from [a] (included) to [b] (excluded), in byte order. *)
Definition keys_between {V} (kv : gmap bytes V) (a b : bytes) : list bytes :=
  MemStore.sort_keys (filter (fun k => ble a k = true /\ blt k b = true) (map_to_list kv).*1).

Definition abs_store : Type := gmap bytes xValue * gmap bytes Z.

Definition abs_db (st : abs_store) (o : dbop) : dbres * abs_store :=
  let '(kv, ttl) := st in
  match o with
  | DSet now k v => (RCode db_ok, (<[k := MkValue (getCurrentTime now) v]> kv, ttl))
  | DGet k =>
      (match kv !! k with Some v => RValue db_ok v | None => RValue db_null (MkValue 0 []) end, st)
  | DDel k => (RCode db_ok, (delete k kv, ttl))
  | DExpire k => (RCode (if decide (kv !! k = None) then db_err else db_ok), st)
  | DScanKey a b n => (RKeys db_ok (take (Z.to_nat n) (keys_between kv a b)), st)
  | DZget mem =>
      (match ttl !! mem with Some s => RScore db_ok (sdec s) | None => RScore db_null [] end, st)
  | DZset mem s =>
      if decide (ttl !! mem = Some s) then (RCode db_err, st)
      else (RCode db_ok, (kv, <[mem := s]> ttl))
  | DZdel mem => (RCode (if decide (ttl !! mem = None) then db_err else db_ok), (kv, delete mem ttl))
  | DFlushall => (RCode db_ok, (∅, ∅))
  end.

Fixpoint abs_dbs (st : abs_store) (os : list dbop) : list dbres * abs_store :=
  match os with
  | [] => ([], st)
  | o :: os => let '(r, st) := abs_db st o in let '(rs, st) := abs_dbs st os in (r :: rs, st)
  end.

Definition dbop_ok (o : dbop) : Prop :=
  match o with
  | DSet _ k _ => short k
  | DZset mem s => mem <> [] /\ short mem /\ is_i64 s
  | DZdel mem => mem <> []
  | _ => True
  end.

(** Operations on one key or one member, which change the rows of nothing else. *)
Definition single (o : dbop) : Prop := match o with DFlushall => False | _ => True end.

(** The member whose score an operation changes. *)
Definition member_of (o : dbop) : option bytes :=
  match o with DZset mem _ | DZdel mem => Some mem | _ => None end.

#[global] Instance short_dec k : Decision (short k).
Proof. unfold short. apply _. Defined.
#[global] Instance is_i64_dec s : Decision (is_i64 s).
Proof. unfold is_i64. apply _. Defined.
#[global] Instance dbop_ok_dec o : Decision (dbop_ok o).
Proof. destruct o; cbn [dbop_ok]; apply _. Defined.

Section Contract.
Context {DB It : Type} `{RocksDBSpec DB It} `{!RocksDBHealthy DB It} (zk : bytes).

Lemma keys_between_unique {V} (kv : gmap bytes V) a b L :
  StronglySorted bless L ->
  (forall k, k ∈ L <-> is_Some (kv !! k) /\ ble a k = true /\ blt k b = true) ->
  L = keys_between kv a b.
Proof.
  intros Hs Hin. apply sorted_keys_ext; [done|apply MemStore.sort_keys_sorted|]. intros k.
  rewrite Hin. unfold keys_between. rewrite MemStore.elem_of_sort_keys, list_elem_of_filter.
  rewrite list_elem_of_fmap. split.
  - intros [[v Hv] ?]. split; [done|]. exists (k, v). by rewrite elem_of_map_to_list.
  - intros [? ([k' v] & -> & Hv%elem_of_map_to_list)]. by eauto.
Qed.

Lemma db_run_refines x kv ttl o :
  db_rel zk x kv ttl -> zk <> [] -> dbop_ok o ->
  exists x', db_run zk x o = Some ((abs_db (kv, ttl) o).1, x') /\
    db_rel zk x' (abs_db (kv, ttl) o).2.1 (abs_db (kv, ttl) o).2.2.
Proof.
  intros Hr Hz Ho. destruct o as [now k v|k|k|k|a b n|mem|mem s|mem|]; cbn [db_run abs_db] in *.
  - destruct (Set_refines zk x kv ttl now k v Hr Ho) as (x' & -> & ?). by exists x'.
  - destruct (Get_refines zk x kv ttl k (MkValue 0 []) Hr) as (x' & -> & ? & _). exists x'.
    by destruct (kv !! k).
  - destruct (Del_refines zk x kv ttl k Hr) as (x' & -> & ?). by exists x'.
  - unfold xdb_Expire. destruct (Get_refines zk x kv ttl k (MkValue 0 []) Hr) as (x' & -> & ? & _).
    exists x'. split; [|done]. destruct (kv !! k); cbn [mbind option_bind fst];
      [rewrite decide_True, decide_False by done|rewrite decide_False, decide_True by done]; done.
  - destruct (ScanKey_refines zk x kv ttl a b n [] Hr) as (L & Hs & Hin & ->). exists x.
    by rewrite (keys_between_unique kv a b L).
  - rewrite (Zget_refines zk x kv ttl mem [] Hr). exists x. by destruct (ttl !! mem).
  - destruct Ho as (Hm & Hsh & Hi). pose proof (Zset_refines zk x kv ttl mem s Hr Hz Hm Hsh Hi) as Hzs.
    destruct (decide (ttl !! mem = Some s)); [rewrite Hzs; by exists x|].
    destruct Hzs as (x' & -> & ?). by exists x'.
  - destruct (Zdel_refines zk x kv ttl mem Hr Hz Ho) as (x' & -> & ?). by exists x'.
  - destruct (Flushall_refines x) as (x' & -> & Hc & He). exists x'. split; [done|].
    split; [|by apply He; destruct Hr]. rewrite Hc. apply store_rel_empty.
Qed.

(** C2. Over a RocksDB without I/O errors, any sequence of [Set], [Get], [Del],
    [Expire], [ScanKey], [Zget], [Zset], [Zdel] and [Flushall] on [xDataBase]
    returns what the two maps of values and scores return, never reaches the
    undefined cases, and leaves rows that represent the resulting maps. *)
Theorem database_refines_maps x kv ttl os :
  db_rel zk x kv ttl -> zk <> [] -> Forall dbop_ok os ->
  exists x', db_runs zk x os = Some ((abs_dbs (kv, ttl) os).1, x') /\
    db_rel zk x' (abs_dbs (kv, ttl) os).2.1 (abs_dbs (kv, ttl) os).2.2.
Proof.
  intros Hr Hz Ho. revert x kv ttl Hr. induction Ho as [|o os Ho _ IH]; intros x kv ttl Hr; [by exists x|].
  cbn [db_runs abs_dbs]. destruct (db_run_refines x kv ttl o Hr Hz Ho) as (x1 & -> & Hr1).
  destruct (abs_db (kv, ttl) o) as [r [kv1 ttl1]]. cbn [fst snd mbind option_bind] in *.
  destruct (IH x1 kv1 ttl1 Hr1) as (x2 & -> & Hr2). cbn [mbind option_bind].
  exists x2. by destruct (abs_dbs (kv1, ttl1) os) as [rs [kv2 ttl2]].
Qed.

(** C20. [LoadExpirationKeys] of [limit] entries into an empty set caches exactly the
    [limit] entries of least score (then key) among those with a score of at
    least 0 and below [INT64_MAX]. *)
Theorem load_expiration_keys_loads_soonest x kv ttl limit :
  db_rel zk x kv ttl -> (length zk < 256)%nat ->
  exists L s, due_items ttl L /\ xdb_LoadExpirationKeys x zk SS.sset_new limit = (db_ok, s) /\
    SS.wf s /\ forall k v, SS.scores s !! k = Some v <-> SS.MkItem k v ∈ take (Z.to_nat limit) L.
Proof.
  intros Hr Hz. destruct (LoadExpirationKeys_refines zk x kv ttl limit SS.sset_new Hr Hz) as (L & HL & E).
  exists L. eexists. split; [done|]. split; [exact E|]. apply load_items_spec.
  intros k v v' Hv Hv'. destruct HL as [_ HL].
  apply elem_of_take in Hv as (i & Hv%list_elem_of_lookup_2 & _).
  apply elem_of_take in Hv' as (j & Hv'%list_elem_of_lookup_2 & _).
  apply HL in Hv as [? _]. apply HL in Hv' as [? _]. congruence.
Qed.

End Contract.

(** ** Keys and failures *)

(** [EncodeKey] and [DecodeKey] are inverse on plain keys and on rows of the
    score index, and two rows of one sorted set with non-negative scores compare
    as bytes the way [SortedSet] compares the members. *)
Theorem row_codec (k zk m m' : bytes) (s s' : Z) :
  short k -> (length zk < 256)%nat -> short m -> 0 <= s < 2 ^ 63 -> 0 <= s' < 2 ^ 63 ->
  DecodeKey (EncodeKey (K_STRING k)) = MkDecoded true (Some k) None None /\
  DecodeKey (EncodeKey (K_ZSCORE zk m (str s))) = MkDecoded true (Some zk) (Some m) (Some (str s)) /\
  blt (EncodeKey (K_ZSCORE zk m (str s))) (EncodeKey (K_ZSCORE zk m' (str s')))
  = SS.item_lt (SS.MkItem m s) (SS.MkItem m' s').
Proof.
  intros Hk Hz Hm Hs Hs'. unfold short in *. split_and!.
  - apply DecodeKey_kv. lia.
  - rewrite str_sdec, EncodeKey_zscore_sdec, <- str_sdec by (unfold is_i64; lia).
    apply DecodeKey_zrow; unfold is_i64; lia.
  - rewrite !str_sdec, !EncodeKey_zscore_sdec by (unfold is_i64; lia).
    by apply (blt_zrow_items zk (SS.MkItem m s) (SS.MkItem m' s')).
Qed.

Lemma row_codec_witness :
  DecodeKey (EncodeKey (K_STRING (lit "a"))) = MkDecoded true (Some (lit "a")) None None /\
  blt (EncodeKey (K_ZSCORE (lit "expire") (lit "b") (str 9)))
      (EncodeKey (K_ZSCORE (lit "expire") (lit "a") (str 10))) = true.
Proof.
  destruct (row_codec (lit "a") (lit "expire") (lit "b") (lit "a") 9 10) as (H1 & _ & H3).
  - unfold short. cbn. lia.
  - cbn. lia.
  - unfold short. cbn. lia.
  - lia.
  - lia.
  - split; [exact H1|]. rewrite H3. reflexivity.
Defined.

(** ** A concrete store *)

Definition mem_db (d : MemStore.store) : xDataBase MemStore.store := MkDataBase d None false.

Lemma mem_db_empty zk : db_rel (It := MemStore.iter) zk (mem_db ∅) ∅ ∅.
Proof. split; [apply store_rel_empty|]. intros [=]. Defined.

Definition demo_ops : list dbop :=
  [DSet (Timeval 5 0) (lit "a") (lit "1"); DZset (lit "a") 7000; DGet (lit "a");
   DScanKey (lit "a") (lit "b") 10; DZset (lit "a") 7000; DDel (lit "a"); DGet (lit "a")].

Lemma database_refines_maps_witness :
  exists x', db_runs (It := MemStore.iter) (lit "expire") (mem_db ∅) demo_ops
    = Some ([RCode db_ok; RCode db_ok; RValue db_ok (MkValue 5000 (lit "1"));
             RKeys db_ok [lit "a"]; RCode db_err; RCode db_ok; RValue db_null (MkValue 0 [])], x').
Proof.
  destruct (database_refines_maps (It := MemStore.iter) (lit "expire") (mem_db ∅) ∅ ∅ demo_ops)
    as (x' & E & _).
  - apply mem_db_empty.
  - discriminate.
  - apply (bool_decide_eq_true_1 (Forall dbop_ok demo_ops)). vm_compute. reflexivity.
  - exists x'. rewrite E. vm_compute. reflexivity.
Defined.

(** The store after one [Zset]. *)
Definition demo_db : xDataBase MemStore.store :=
  (xdb_Zset (It := MemStore.iter) (mem_db ∅) (lit "expire") (lit "a") (sdec 7000)).2.

Lemma demo_db_rel : db_rel (It := MemStore.iter) (lit "expire") demo_db ∅ {[lit "a" := 7000]}.
Proof.
  pose proof (Zset_refines (It := MemStore.iter) (lit "expire") (mem_db ∅) ∅ ∅ (lit "a") 7000
    (mem_db_empty _)) as Hz.
  rewrite decide_False in Hz by by rewrite lookup_empty.
  destruct Hz as (x' & E & Hr); [done|done|unfold short; cbn; lia|unfold is_i64; lia|].
  unfold demo_db. rewrite E. exact Hr.
Qed.

Lemma load_expiration_keys_loads_soonest_witness :
  exists s, xdb_LoadExpirationKeys (It := MemStore.iter) demo_db (lit "expire") SS.sset_new 1000 = (db_ok, s)
    /\ SS.scores s !! lit "a" = Some 7000.
Proof.
  destruct (load_expiration_keys_loads_soonest (It := MemStore.iter) (lit "expire") demo_db ∅
    {[lit "a" := 7000]} 1000) as (L & s & HL & E & _).
  - apply demo_db_rel.
  - cbn. lia.
  - assert (SS.scores (xdb_LoadExpirationKeys (It := MemStore.iter) demo_db (lit "expire")
      SS.sset_new 1000).2 !! lit "a" = Some 7000) as Hc by (vm_compute; reflexivity).
    exists s. split; [exact E|]. rewrite E in Hc. exact Hc.
Defined.
