(* ===== verification/ExpireManager.v ===== *)
(** [src/xExpireManager.h] and [src/xExpireManager.cpp]: the thread that removes
    expired keys.  It keeps the soonest expirations in a [SortedSet] in front of
    the sorted set [expire] in the database. *)

From S2P Require Import Prelude Cstd Util SortedSet MurmurHash2 EtagManager RocksDB DataBase DataBaseSpec.
From stdpp Require Import sorting.
From Stdlib Require Import Sorting.Sorted.

Local Open Scope Z_scope.

Definition BATCH_SIZE : Z := 1000.

Definition time_ms (tv : timeval) : Z := tv_sec tv * 1000 + Z.quot (tv_usec tv) 1000.

(** [class ExpireManager]; the database it points to is passed along. *)
Record ExpireManager := MkExpireManager {
  expire_key : bytes;
  sort_set : SS.SortedSet;
  brun : bool;
  first_timeout : Z
}.

Definition expire_new : ExpireManager := MkExpireManager (lit "expire") SS.sset_new true 0.

Definition with_set (m : ExpireManager) (s : SS.SortedSet) : ExpireManager :=
  MkExpireManager (expire_key m) s (brun m) (first_timeout m).
Definition with_timeout (m : ExpireManager) (t : Z) : ExpireManager :=
  MkExpireManager (expire_key m) (sort_set m) (brun m) t.

Section Operations.
Context {DB It : Type} `{RocksDB DB It}.

Definition LoadExpirationKeys (x : xDataBase DB) (m : ExpireManager) (num : Z) : ExpireManager :=
  with_set m (xdb_LoadExpirationKeys x (expire_key m) (sort_set m) num).2.

(** One pass; [now] is the clock reading it compares the first score with. *)
Definition ExpireLoop (x : xDataBase DB) (m : ExpireManager) (now : timeval)
  : xDataBase DB * ExpireManager :=
  let body m :=
    match SS.front (sort_set m) with
    | Some it =>
        let m := with_timeout m (SS.score it) in
        if SS.score it <=? time_ms now then
          let '(_, x) := xdb_Del x (SS.key it) in
          let '(_, x) := xdb_Zdel x (expire_key m) (SS.key it) in
          (x, with_set m (SS.pop_front (sort_set m)).2)
        else (x, m)
    | None => (x, m)
    end in
  if SS.empty (sort_set m) then
    let m := LoadExpirationKeys x m BATCH_SIZE in
    if SS.empty (sort_set m) then (x, with_timeout m INT64_MAX) else body m
  else body m.

Definition SetTTL (m : ExpireManager) (key : bytes) (ttl : Z) : Z * ExpireManager :=
  let m := if ttl <? first_timeout m then with_timeout m ttl else m in
  let s := sort_set m in
  if negb (SS.empty s) && (ttl <=? SS.max_score s) then
    let s := (SS.add s key ttl).2 in
    let s := if BATCH_SIZE <? SS.size s then (SS.pop_back s).2 else s in
    (0, with_set m s)
  else (0, with_set m (SS.del s key).2).

(** One turn of the loop of [Dispatch]: the clock is read once for the guard
    and, when the turn does not sleep, once more by [ExpireLoop]. *)
Definition Dispatch_turn (st : xDataBase DB * ExpireManager) (clock : timeval * timeval)
  : xDataBase DB * ExpireManager :=
  let '(x, m) := st in
  if negb (brun m) then st
  else if time_ms clock.1 <? first_timeout m then st
  else ExpireLoop x m clock.2.

(** The turns of the thread for a sequence of clock readings. *)
Definition Dispatch (st : xDataBase DB * ExpireManager) (clocks : list (timeval * timeval))
  : xDataBase DB * ExpireManager := foldl Dispatch_turn st clocks.

End Operations.

(** ** The cache and the index *)

(** A live entry: one that [LoadExpirationKeys] can load. *)
Definition live (ttl : gmap bytes Z) (k : bytes) (s : Z) : Prop :=
  ttl !! k = Some s /\ 0 <= s < INT64_MAX.

(** The cache [c] holds live entries, all those below its greatest score among
    them, and no live entry is due before [ft]. *)
Record coh (c : gmap bytes Z) (ft : Z) (ttl : gmap bytes Z) : Prop := {
  co_live k s : c !! k = Some s -> live ttl k s;
  co_below k s k' s' : live ttl k s -> c !! k = None -> c !! k' = Some s' -> s' <= s;
  co_first k s : live ttl k s -> ft <= s;
  co_key k s : ttl !! k = Some s -> k <> []
}.

Lemma coh_empty ft : coh ∅ ft ∅.
Proof. split; [done| | |done]; by intros k s *; intros [? _]. Qed.

Lemma coh_first_le c ft ft' ttl :
  coh c ft ttl -> (forall k s, live ttl k s -> ft' <= s) -> coh c ft' ttl.
Proof. intros []; by split. Qed.

Lemma live_delete ttl k k' s : live (delete k ttl) k' s <-> k' <> k /\ live ttl k' s.
Proof. unfold live. rewrite lookup_delete_Some. naive_solver. Qed.

Lemma live_insert ttl k t k' s :
  0 <= t < INT64_MAX ->
  live (<[k := t]> ttl) k' s <-> (k' = k /\ s = t) \/ (k' <> k /\ live ttl k' s).
Proof.
  intros Ht. unfold live. rewrite lookup_insert_Some. naive_solver.
Qed.

Lemma coh_remove c ft ttl k : coh c ft ttl -> coh (delete k c) ft (delete k ttl).
Proof.
  intros [Hl Hb Hf Hk]. split.
  - intros k' s [? ?]%lookup_delete_Some. apply live_delete. auto.
  - intros k1 s1 k2 s2 [? ?]%live_delete Hn [? ?]%lookup_delete_Some.
    rewrite lookup_delete_ne in Hn by done. eauto.
  - intros k' s [? ?]%live_delete. eauto.
  - intros k' s [? ?]%lookup_delete_Some. eauto.
Qed.

(** Dropping a greatest entry of the cache keeps it coherent. *)
Lemma coh_evict c ft ttl k s :
  coh c ft ttl -> c !! k = Some s -> (forall k' s', c !! k' = Some s' -> s' <= s) ->
  coh (delete k c) ft ttl.
Proof.
  intros [Hl Hb Hf Hk] Hks Hmax. split; [| |done|done].
  - intros k' s' [? ?]%lookup_delete_Some. auto.
  - intros k1 s1 k2 s2 H1 Hn [? H2]%lookup_delete_Some.
    apply lookup_delete_None in Hn as [<-|Hn]; [|eauto].
    destruct (Hl _ _ Hks) as [E _]. destruct H1 as [E1 _]. assert (s1 = s) as -> by congruence. eauto.
Qed.

(** Caching a new expiration below some cached score. *)
Lemma coh_add c ft ttl k t k0 s0 :
  coh c ft ttl -> 0 <= t < INT64_MAX -> k <> [] -> c !! k0 = Some s0 -> t <= s0 ->
  coh (<[k := t]> c) (Z.min ft t) (<[k := t]> ttl).
Proof.
  intros [Hl Hb Hf Hk] Ht Hne H0 Hle. split.
  - intros k' s [[<- <-]|[? ?]]%lookup_insert_Some; apply live_insert; auto.
  - intros k1 s1 k2 s2 [[-> ->]|[Hn1 H1]]%(live_insert _ _ _ _ _ Ht) Hn H2.
    { by rewrite lookup_insert_eq in Hn. }
    rewrite lookup_insert_ne in Hn by done.
    apply lookup_insert_Some in H2 as [[<- <-]|[? ?]]; [|eauto].
    etrans; [exact Hle|eauto].
  - intros k1 s1 [[-> ->]|[Hn1 H1]]%(live_insert _ _ _ _ _ Ht); [lia|]. specialize (Hf _ _ H1). lia.
  - intros k1 s1 [[<- <-]|[? ?]]%lookup_insert_Some; eauto.
Qed.

(** Leaving a new expiration above every cached score to the database. *)
Lemma coh_skip c ft ttl k t :
  coh c ft ttl -> 0 <= t < INT64_MAX -> k <> [] -> (forall k' s', c !! k' = Some s' -> s' <= t) ->
  coh (delete k c) (Z.min ft t) (<[k := t]> ttl).
Proof.
  intros [Hl Hb Hf Hk] Ht Hne Hmax. split.
  - intros k' s [? ?]%lookup_delete_Some. apply live_insert; auto.
  - intros k1 s1 k2 s2 [[-> ->]|[Hn1 H1]]%(live_insert _ _ _ _ _ Ht) Hn [? H2]%lookup_delete_Some; [eauto|].
    rewrite lookup_delete_ne in Hn by done. eauto.
  - intros k1 s1 [[-> ->]|[Hn1 H1]]%(live_insert _ _ _ _ _ Ht); [lia|]. specialize (Hf _ _ H1). lia.
  - intros k1 s1 [[<- <-]|[? ?]]%lookup_insert_Some; eauto.
Qed.

(** The manager's invariant against the expirations in the database. *)
Record coherent (m : ExpireManager) (ttl : gmap bytes Z) : Prop := {
  co_wf : SS.wf (sort_set m);
  co_len : (length (SS.sorted_set (sort_set m)) <= 1000)%nat;
  co_coh : coh (SS.scores (sort_set m)) (first_timeout m) ttl;
  co_run : brun m = true;
  co_zk : expire_key m = lit "expire"
}.

Lemma coherent_new : coherent expire_new ∅.
Proof. split; [apply SS.wf_new|cbn; lia|apply coh_empty|done|done]. Qed.

(** An empty cache is coherent with whatever expirations are stored. *)
Lemma coherent_restart (m : ExpireManager) (ttl : gmap bytes Z) : coherent m ttl -> coherent expire_new ttl.
Proof.
  intros [_ _ Hc _ _]. split; [apply SS.wf_new|cbn; lia| |done|done].
  split; [done|done| |apply Hc]. intros k s' [_ Hs]. exact (proj1 Hs).
Qed.

Lemma empty_spec s :
  (length (SS.sorted_set s) <= 1000)%nat -> SS.wf s ->
  if SS.empty s then SS.sorted_set s = [] /\ SS.scores s = ∅ else SS.sorted_set s <> [].
Proof.
  intros Hl Hw. unfold SS.empty, SS.size. rewrite i32_id by (unfold is_i32; lia).
  destruct (Z.eqb_spec (Z.of_nat (length (SS.sorted_set s))) 0) as [E|E].
  - assert (SS.sorted_set s = []) as E' by (apply nil_length_inv; lia). split; [done|].
    pose proof (SS.front_spec s Hw) as Hf. unfold SS.front in Hf. by rewrite E' in Hf.
  - by intros E'; rewrite E' in E.
Qed.

Lemma item_lt_score a b : SS.item_lt a b = false -> SS.score b <= SS.score a.
Proof. unfold SS.item_lt. rewrite orb_false_iff, Z.ltb_ge. tauto. Qed.

Section Correctness.
Context {DB It : Type} `{RocksDBSpec DB It} `{!RocksDBHealthy DB It}.

Abbreviation zk := (lit "expire").

(** A load into an empty cache makes it hold the soonest live entries. *)
Lemma Load_coherent x kv ttl m :
  db_rel zk x kv ttl -> coherent m ttl -> SS.sorted_set (sort_set m) = [] ->
  coherent (LoadExpirationKeys x m BATCH_SIZE) ttl /\
  (SS.sorted_set (sort_set (LoadExpirationKeys x m BATCH_SIZE)) = [] ->
   forall k s, ~ live ttl k s).
Proof.
  intros Hr Hc He. unfold LoadExpirationKeys. rewrite (co_zk _ _ Hc).
  assert (sort_set m = SS.sset_new) as ->.
  { destruct (co_wf _ _ Hc) as [_ Hex]. destruct (sort_set m) as [ex so]. cbn in *. subst so.
    unfold SS.sset_new. f_equal. apply map_empty. intros k.
    destruct (ex !! k) eqn:E; [|done]. apply Hex in E as [E _]. set_solver. }
  destruct (LoadExpirationKeys_refines zk x kv ttl BATCH_SIZE SS.sset_new Hr) as (L & [Hs HL] & ->);
    [cbn; lia|]. cbn [snd]. change (Z.to_nat BATCH_SIZE) with 1000%nat.
  destruct (load_items_spec (take 1000 L)) as [Hw Hsc].
  { intros k v v' Hv Hv'.
    apply elem_of_take in Hv as (i & Hv%list_elem_of_lookup_2 & _).
    apply elem_of_take in Hv' as (j & Hv'%list_elem_of_lookup_2 & _).
    apply HL in Hv as [? _]. apply HL in Hv' as [? _]. congruence. }
  set (c := foldl _ _ _) in *.
  assert (SS.sorted_set c = take 1000 L) as Hlist.
  { apply (StronglySorted_unique_strong SS.ilt).
    - intros a b _ _ Hab Hba. assert (SS.ilt a a) as Hi by (etrans; [exact Hab|exact Hba]).
      unfold SS.ilt in Hi. by rewrite SS.item_lt_irrefl in Hi.
    - by destruct Hw.
    - apply (StronglySorted_app_1_l _ _ (drop 1000 L)). by rewrite take_drop.
    - apply NoDup_Permutation.
      + apply SS.sorted_NoDup. by destruct Hw.
      + apply (sublist_NoDup _ L); [by apply SS.sorted_NoDup|apply sublist_take].
      + intros [k v]. by rewrite <- Hsc, SS.scores_elem. }
  split.
  - pose proof (co_coh _ _ Hc) as [_ _ Hf Hk].
    split; cbn [with_set sort_set first_timeout brun expire_key]; try apply Hc; [done| |].
    { rewrite Hlist, length_take. lia. }
    split; [| |done|done].
    + intros k s Hks. apply Hsc, elem_of_take in Hks as (i & Hks%list_elem_of_lookup_2 & _).
      by apply HL in Hks.
    + intros k s k' s' Hks Hn Hk'. apply HL in Hks. apply Hsc in Hk'.
      assert (SS.MkItem k s ∈ drop 1000 L) as Hd.
      { rewrite <- (take_drop 1000 L) in Hks. apply elem_of_app in Hks as [Hks|Hks]; [|done].
        apply Hsc in Hks. congruence. }
      rewrite <- (take_drop 1000 L) in Hs.
      by apply (SS.ilt_score (SS.MkItem k' s') (SS.MkItem k s)), (StronglySorted_app_1_elem_of _ _ _ _ _ Hs).
  - cbn [with_set sort_set]. rewrite Hlist. intros E k s Hk. apply HL in Hk.
    destruct L; [set_solver|done].
Qed.

(** The first cached entry is a live entry of least score. *)
Lemma front_least m ttl it :
  coherent m ttl -> SS.front (sort_set m) = Some it ->
  live ttl (SS.key it) (SS.score it) /\ forall k s, live ttl k s -> SS.score it <= s.
Proof.
  intros Hc Ef. pose proof (SS.front_spec _ (co_wf _ _ Hc)) as Hf. rewrite Ef in Hf.
  destruct Hf as [Hin Hmin]. destruct (co_coh _ _ Hc) as [Hl Hb _ _]. split; [by apply Hl|].
  intros k s Hk. destruct (SS.scores (sort_set m) !! k) as [s'|] eqn:E; [|by eapply Hb].
  assert (s' = s) as -> by (destruct (Hl _ _ E) as [? _], Hk as [? _]; congruence).
  by apply (item_lt_score (SS.MkItem k s)), Hmin.
Qed.

(** What one pass may do: nothing when no live entry is due, otherwise remove
    one of least score, from both maps. *)
Definition expire_step (now : Z) (st st' : abs_store) : Prop :=
  (st' = st /\ forall k s, live st.2 k s -> now < s) \/
  exists k s, live st.2 k s /\ s <= now /\ (forall k' s', live st.2 k' s' -> s <= s') /\
    st' = (delete k st.1, delete k st.2).

Lemma ExpireLoop_refines x kv ttl m now :
  db_rel zk x kv ttl -> coherent m ttl ->
  exists x' m' kv' ttl', ExpireLoop x m now = (x', m') /\
    db_rel zk x' kv' ttl' /\ coherent m' ttl' /\ expire_step (time_ms now) (kv, ttl) (kv', ttl').
Proof.
  intros Hr Hc.
  assert (forall m, coherent m ttl -> SS.sorted_set (sort_set m) <> [] ->
    exists x' m' kv' ttl',
      (match SS.front (sort_set m) with
       | Some it =>
           let m := with_timeout m (SS.score it) in
           if SS.score it <=? time_ms now then
             let '(_, x) := xdb_Del x (SS.key it) in
             let '(_, x) := xdb_Zdel x (expire_key m) (SS.key it) in
             (x, with_set m (SS.pop_front (sort_set m)).2)
           else (x, m)
       | None => (x, m)
       end) = (x', m') /\
      db_rel zk x' kv' ttl' /\ coherent m' ttl' /\ expire_step (time_ms now) (kv, ttl) (kv', ttl')) as Hbody.
  { clear m Hc. intros m Hc Hne.
    destruct (SS.front (sort_set m)) as [it|] eqn:Ef.
    2:{ unfold SS.front in Ef. by destruct (SS.sorted_set (sort_set m)). }
    destruct (front_least m ttl it Hc Ef) as [Hlive Hmin].
    pose proof (coh_first_le _ _ (SS.score it) _ (co_coh _ _ Hc) Hmin) as Hcoh.
    destruct (Z.leb_spec (SS.score it) (time_ms now)) as [Hdue|Hdue]; cbn zeta.
    - destruct (Del_refines zk x kv ttl (SS.key it) Hr) as (x1 & -> & Hr1).
      cbn [with_timeout expire_key sort_set]. rewrite (co_zk _ _ Hc).
      destruct (Zdel_refines zk x1 (delete (SS.key it) kv) ttl (SS.key it) Hr1) as (x2 & -> & Hr2);
        [done|eapply co_key; [apply Hcoh|apply Hlive]|].
      eexists _, _, _, _. split; [done|]. split; [exact Hr2|]. split.
      + destruct (SS.pop_front_spec _ (co_wf _ _ Hc)) as [Hw Hsc]. rewrite Ef in Hsc.
        split; cbn [with_set with_timeout sort_set first_timeout brun]; [done| | |by apply Hc|by apply Hc].
        * pose proof (co_len _ _ Hc). etrans; [|done]. unfold SS.pop_front.
          destruct (SS.sorted_set (sort_set m)) eqn:E; [done|].
          apply sublist_length, SS.set_erase_sublist.
        * rewrite Hsc. by apply coh_remove.
      + right. exists (SS.key it), (SS.score it). by split_and!.
    - eexists _, _, _, _. split; [done|]. split; [exact Hr|]. split.
      + destruct Hc. by split.
      + left. split; [done|]. intros k s Hk. specialize (Hmin _ _ Hk). lia. }
  unfold ExpireLoop. pose proof (empty_spec _ (co_len _ _ Hc) (co_wf _ _ Hc)) as He.
  destruct (SS.empty (sort_set m)); [|by apply Hbody]. destruct He as [He _].
  destruct (Load_coherent x kv ttl m Hr Hc He) as [Hc' Hnone]. set (m1 := LoadExpirationKeys x m BATCH_SIZE) in *.
  pose proof (empty_spec _ (co_len _ _ Hc') (co_wf _ _ Hc')) as He1.
  destruct (SS.empty (sort_set m1)); [|by apply Hbody]. destruct He1 as [He1 _].
  specialize (Hnone He1). eexists _, _, _, _. split; [done|]. split; [exact Hr|]. split.
  - destruct Hc' as [? ? Hcoh ? ?]. split; [done..| |done|done].
    apply (coh_first_le _ _ _ _ Hcoh). intros k s Hk. by destruct (Hnone k s).
  - left. split; [done|]. intros k s Hk. by destruct (Hnone k s).
Qed.

Lemma max_score_spec s :
  SS.wf s -> (exists k, SS.scores s !! k = Some (SS.max_score s) /\
    forall k' s', SS.scores s !! k' = Some s' -> s' <= SS.max_score s) \/ SS.scores s = ∅.
Proof.
  intros Hw. pose proof (SS.back_spec s Hw) as Hb. unfold SS.max_score.
  destruct (SS.back s) as [it|]; [left|by right]. destruct Hb as [Hin Hmax]. exists (SS.key it).
  split; [done|]. intros k' s' Hk. by apply (item_lt_score it (SS.MkItem k' s')), Hmax.
Qed.

Lemma length_add s k t :
  (length (SS.sorted_set (SS.add s k t).2) <= S (length (SS.sorted_set s)))%nat.
Proof.
  assert (forall it l, (length (SS.set_insert it l) <= S (length l))%nat) as Hi.
  { intros it l. induction l as [|a l IH]; [done|]. cbn [SS.set_insert length].
    destruct (SS.item_lt it a); [done|]. destruct (SS.item_lt a it); cbn [length]; lia. }
  unfold SS.add. destruct (SS.existed s !! k) as [it|]; cbn [snd SS.sorted_set]; [|apply Hi].
  destruct (SS.score it =? t); cbn [snd SS.sorted_set]; [lia|].
  etrans; [apply Hi|]. apply le_n_S, sublist_length, SS.set_erase_sublist.
Qed.

Lemma length_pop_back s :
  (length (SS.sorted_set s) <= 1001)%nat -> (length (SS.sorted_set (SS.pop_back s).2) <= 1000)%nat.
Proof.
  intros Hl. unfold SS.pop_back. destruct (last (SS.sorted_set s)) as [it|] eqn:E; cbn [snd SS.sorted_set].
  - apply last_Some_elem_of, SS.length_set_erase in E. lia.
  - apply last_None in E. rewrite E. cbn. lia.
Qed.

(** [SetTTL] makes the cache coherent with the expirations it is told about,
    whether or not the database has them yet. *)
Lemma SetTTL_coherent m ttl k t :
  coherent m ttl -> 0 <= t < INT64_MAX -> k <> [] ->
  (SetTTL m k t).1 = 0 /\ coherent (SetTTL m k t).2 (<[k := t]> ttl).
Proof.
  intros Hc Ht Hk. unfold SetTTL.
  assert ((if t <? first_timeout m then with_timeout m t else m)
    = with_timeout m (Z.min (first_timeout m) t)) as ->.
  { destruct (Z.ltb_spec t (first_timeout m)) as [?|?]; [by rewrite Z.min_r by lia|].
    rewrite Z.min_l by lia. by destruct m. }
  cbn [with_timeout sort_set]. pose proof (empty_spec _ (co_len _ _ Hc) (co_wf _ _ Hc)) as He.
  pose proof (co_len _ _ Hc) as Hlen. pose proof (co_coh _ _ Hc) as Hcoh.
  pose proof (co_wf _ _ Hc) as Hw. set (s := sort_set m) in *.
  assert (forall s', SS.wf s' -> (length (SS.sorted_set s') <= 1000)%nat ->
    coh (SS.scores s') (Z.min (first_timeout m) t) (<[k := t]> ttl) ->
    coherent (with_set (with_timeout m (Z.min (first_timeout m) t)) s') (<[k := t]> ttl)) as Hset.
  { intros s' ? ? ?. split; [done..|by apply Hc|by apply Hc]. }
  destruct (negb (SS.empty s) && (t <=? SS.max_score s)) eqn:Eg; cbn [fst snd]; (split; [done|]).
  - apply andb_true_iff in Eg as [Ene%negb_true_iff Hle%Z.leb_le].
    destruct (SS.add_spec s k t Hw) as (Hw1 & Hsc1 & _). pose proof (length_add s k t) as Hl1.
    set (s1 := (SS.add s k t).2) in *.
    assert (coh (SS.scores s1) (Z.min (first_timeout m) t) (<[k := t]> ttl)) as Hc1.
    { rewrite Hsc1. destruct (max_score_spec s Hw) as [(k0 & Hk0 & _)|E]; [by eapply coh_add|].
      pose proof (SS.front_spec s Hw) as Hf. rewrite Ene in He. unfold SS.front in Hf.
      destruct (SS.sorted_set s); [done|]. destruct Hf as [Hf _]. by rewrite E in Hf. }
    unfold SS.size at 1. rewrite i32_id by (unfold is_i32; lia).
    destruct (Z.ltb_spec BATCH_SIZE (Z.of_nat (length (SS.sorted_set s1)))) as [Hb|Hb]; unfold BATCH_SIZE in Hb.
    + destruct (SS.pop_back_spec s1 Hw1) as [Hw2 Hsc2]. apply Hset; [done|apply length_pop_back; lia|].
      rewrite Hsc2. pose proof (SS.back_spec s1 Hw1) as Hbk.
      destruct (SS.back s1) as [it|]; [|done]. destruct Hbk as [Hin Hmax].
      eapply coh_evict; [done..|]. intros k' s' Hk'.
      by apply (item_lt_score it (SS.MkItem k' s')), Hmax.
    + apply Hset; [done|lia|done].
  - destruct (SS.del_spec s k Hw) as (Hw1 & Hsc1 & _). apply Hset; [done| |].
    + etrans; [|exact Hlen]. unfold SS.del. destruct (SS.existed s !! k); [|done].
      apply sublist_length, SS.set_erase_sublist.
    + rewrite Hsc1. apply coh_skip; [done..|]. intros k' s' Hk'.
      apply andb_false_iff in Eg as [Ee%negb_false_iff|Hgt%Z.leb_gt].
      * rewrite Ee in He. destruct He as [_ E]. by rewrite E in Hk'.
      * destruct (max_score_spec s Hw) as [(k0 & _ & Hmax)|E]; [|by rewrite E in Hk'].
        specialize (Hmax _ _ Hk'). lia.
Qed.

(** Turns of the thread, on the maps. *)
Lemma Dispatch_turn_refines x kv ttl m c :
  db_rel zk x kv ttl -> coherent m ttl ->
  exists x' m' kv' ttl', Dispatch_turn (x, m) c = (x', m') /\
    db_rel zk x' kv' ttl' /\ coherent m' ttl' /\
    (expire_step (time_ms c.1) (kv, ttl) (kv', ttl') \/ expire_step (time_ms c.2) (kv, ttl) (kv', ttl')).
Proof.
  intros Hr Hc. cbn [Dispatch_turn]. rewrite (co_run _ _ Hc). cbn [negb].
  destruct (Z.ltb_spec (time_ms c.1) (first_timeout m)) as [Hlt|_].
  - eexists _, _, _, _. split; [done|]. split; [exact Hr|]. split; [exact Hc|]. left. left.
    split; [done|]. intros k s Hk. pose proof (co_first _ _ _ (co_coh _ _ Hc) _ _ Hk). lia.
  - destruct (ExpireLoop_refines x kv ttl m c.2 Hr Hc) as (x' & m' & kv' & ttl' & ? & ? & ? & ?).
    by eauto 10.
Qed.

(** The entries of [ttl] that are due at [t]. *)
Definition due (t : Z) (ttl : gmap bytes Z) : gmap bytes Z :=
  filter (fun p => 0 <= p.2 < INT64_MAX /\ p.2 <= t) ttl.

Lemma due_live t ttl k s : due t ttl !! k = Some s <-> live ttl k s /\ s <= t.
Proof. unfold due, live. rewrite map_lookup_filter_Some. cbn [snd]. tauto. Qed.

(** Between two states: every key is untouched in both maps, or it was due at
    [hi] and is gone from both. *)
Definition only_expired (hi : Z) (st st' : abs_store) : Prop :=
  forall k, (st'.1 !! k = st.1 !! k /\ st'.2 !! k = st.2 !! k) \/
    (is_Some (due hi st.2 !! k) /\ st'.1 !! k = None /\ st'.2 !! k = None).

Lemma expire_step_only lo hi now st st' :
  expire_step now st st' -> lo <= now <= hi ->
  only_expired hi st st' /\
  (base.size (due lo st'.2) <= base.size (due lo st.2) - 1)%nat.
Proof.
  intros [[-> Hn]|(k & s & Hk & Hs & Hmin & ->)] Hr; cbn [fst snd].
  - split; [by left|].
    assert (due lo st.2 = ∅) as ->; [|by rewrite map_size_empty].
    apply map_empty. intros k. destruct (due lo st.2 !! k) as [s|] eqn:E; [|done].
    apply due_live in E as [Hk ?]. specialize (Hn _ _ Hk). lia.
  - split.
    + intros k'. destruct (decide (k = k')) as [<-|Hne].
      * right. cbn [fst snd]. rewrite !lookup_delete_eq. split; [|done]. exists s. apply due_live. split; [done|lia].
      * left. cbn [fst snd]. by rewrite !lookup_delete_ne.
    + assert (due lo (delete k st.2) = delete k (due lo st.2)) as ->.
      { unfold due. apply map_filter_delete. }
      destruct (due lo st.2 !! k) as [s'|] eqn:E.
      * rewrite map_size_delete_Some by by rewrite E. lia.
      * rewrite delete_id by done. assert (due lo st.2 = ∅) as ->; [|by rewrite map_size_empty].
        apply map_empty. intros k'. destruct (due lo st.2 !! k') as [s'|] eqn:E'; [|done].
        apply due_live in E' as [Hk' ?]. pose proof (Hmin _ _ Hk').
        assert (due lo st.2 !! k = Some s) by (apply due_live; split; [done|lia]). congruence.
Qed.

Lemma only_expired_trans hi a b c :
  only_expired hi a b -> only_expired hi b c -> only_expired hi a c.
Proof.
  intros Hab Hbc k. destruct (Hab k) as [[E1 E2]|(Hd & E1 & E2)], (Hbc k) as [[E3 E4]|(Hd' & E3 & E4)].
  - left. split; congruence.
  - right. split; [|done]. destruct Hd' as [s [[Hl Hl'] Hs]%due_live]. exists s.
    apply due_live. split; [|done]. split; [congruence|done].
  - right. split; [done|]. split; congruence.
  - by right.
Qed.

Lemma Dispatch_refines x kv ttl m cs lo hi :
  db_rel zk x kv ttl -> coherent m ttl ->
  Forall (fun c => lo <= time_ms c.1 <= hi /\ lo <= time_ms c.2 <= hi) cs ->
  exists x' m' kv' ttl', Dispatch (x, m) cs = (x', m') /\
    db_rel zk x' kv' ttl' /\ coherent m' ttl' /\ only_expired hi (kv, ttl) (kv', ttl') /\
    (base.size (due lo ttl') <= base.size (due lo ttl) - length cs)%nat.
Proof.
  intros Hr Hc Hcs. revert x kv ttl m Hr Hc.
  induction Hcs as [|c cs [Hc1 Hc2] _ IH]; intros x kv ttl m Hr Hc.
  { eexists _, _, _, _. split; [done|]. split; [exact Hr|]. split; [exact Hc|]. split; [by left|]. cbn. lia. }
  destruct (Dispatch_turn_refines x kv ttl m c Hr Hc) as (x1 & m1 & kv1 & ttl1 & E1 & Hr1 & Hco1 & Hs).
  assert (only_expired hi (kv, ttl) (kv1, ttl1) /\
    (base.size (due lo ttl1) <= base.size (due lo ttl) - 1)%nat) as [Ho1 Hd1].
  { destruct Hs as [Hs|Hs]; by apply (expire_step_only lo hi) in Hs. }
  destruct (IH x1 kv1 ttl1 m1 Hr1 Hco1) as (x2 & m2 & kv2 & ttl2 & E2 & Hr2 & Hco2 & Ho2 & Hd2).
  exists x2, m2, kv2, ttl2. split_and!; [|done|done|by eapply only_expired_trans|cbn [length]; lia].
  unfold Dispatch in *. cbn [foldl]. by rewrite E1.
Qed.

(** C3. The expiration thread never removes a key before its time and, given one
    turn per due key, removes every one: whatever the clock reads between [lo]
    and [hi], each key is either untouched or was due at [hi] and is gone with
    its expiration, and every key due at [lo] is gone. *)
Theorem expired_keys_and_only_those_are_removed x kv ttl m cs lo hi :
  db_rel zk x kv ttl -> coherent m ttl ->
  Forall (fun c => lo <= time_ms c.1 <= hi /\ lo <= time_ms c.2 <= hi) cs ->
  (base.size (due lo ttl) <= length cs)%nat ->
  exists x' m' kv' ttl', Dispatch (x, m) cs = (x', m') /\
    db_rel zk x' kv' ttl' /\ coherent m' ttl' /\ only_expired hi (kv, ttl) (kv', ttl') /\
    forall k s, live ttl k s -> s <= lo -> kv' !! k = None /\ ttl' !! k = None.
Proof.
  intros Hr Hc Hcs Hn.
  destruct (Dispatch_refines x kv ttl m cs lo hi Hr Hc Hcs) as (x' & m' & kv' & ttl' & E & Hr' & Hc' & Ho & Hd).
  exists x', m', kv', ttl'. split_and!; [done..|]. intros k s Hk Hs.
  assert (due lo ttl' = ∅) as Hnone by (apply map_size_empty_inv; lia).
  destruct (Ho k) as [[_ E2]|(_ & E1 & E2)]; [|done]. cbn [fst snd] in E2.
  assert (due lo ttl' !! k = Some s) as Hbad.
  { apply due_live. split; [|done]. destruct Hk. split; [congruence|done]. }
  by rewrite Hnone in Hbad.
Qed.

(** C19. Giving a key an expiration, as SET EX and EXPIRE do ([Zset] into the
    sorted set of expirations, and [SetTTL], in either order and however often):
    the database then holds the new expiration for the key and the others as they
    were, and the cache is coherent with what it holds: nothing cached is stale,
    nothing sooner than the cache's last entry is missing, and the thread wakes up
    in time for the new key.  [Zset] refuses only an expiration the key has
    already. *)
Theorem set_ttl_keeps_cache_coherent x kv ttl m k t :
  db_rel zk x kv ttl -> coherent m ttl -> 0 <= t < INT64_MAX -> k <> [] -> short k ->
  exists ret x' m', xdb_Zset x (expire_key m) k (sdec t) = (ret, x') /\ SetTTL m k t = (0, m') /\
    (ret = if decide (ttl !! k = Some t) then db_err else db_ok) /\
    db_rel zk x' kv (<[k := t]> ttl) /\ coherent m' (<[k := t]> ttl) /\ coherent (SetTTL m' k t).2 (<[k := t]> ttl).
Proof.
  intros Hr Hc Ht Hk Hs. rewrite (co_zk _ _ Hc). pose proof (Zset_refines zk x kv ttl k t Hr ltac:(done) Hk Hs) as Hz.
  destruct (SetTTL_coherent m ttl k t Hc Ht Hk) as [H1 Hc1]. destruct (SetTTL m k t) as [r m']. cbn [fst snd] in *. subst r.
  destruct (SetTTL_coherent m' _ k t Hc1 Ht Hk) as [_ Hc2]. rewrite insert_insert_eq in Hc2.
  destruct (decide (ttl !! k = Some t)) as [E|E].
  - exists db_err, x, m'. split; [apply Hz; unfold is_i64, INT64_MAX in *; lia|]. split_and!; [done|done| |done|done]. by rewrite insert_id.
  - destruct Hz as (x' & -> & Hr'); [unfold is_i64, INT64_MAX in *; lia|]. exists db_ok, x', m'. by split_and!.
Qed.

End Correctness.

(** ** A concrete run *)

Lemma coherent_demo : coherent expire_new {[lit "a" := 7000]}.
Proof.
  split; [apply SS.wf_new|cbn; lia| |done|done].
  split; [done|done| |]; cbn [expire_new first_timeout].
  - intros k s [[_ <-]%lookup_singleton_Some _]. lia.
  - by intros k s [<- _]%lookup_singleton_Some.
Qed.

Lemma expired_keys_and_only_those_are_removed_witness :
  exists x' m' kv' ttl',
    Dispatch (It := MemStore.iter) (demo_db, expire_new) [(Timeval 8 0, Timeval 8 500)] = (x', m') /\
    db_rel (It := MemStore.iter) (lit "expire") x' kv' ttl' /\ ttl' !! lit "a" = None.
Proof.
  destruct (expired_keys_and_only_those_are_removed (It := MemStore.iter) demo_db ∅ {[lit "a" := 7000]}
    expire_new [(Timeval 8 0, Timeval 8 500)] 8000 8000) as (x' & m' & kv' & ttl' & E & Hr & _ & _ & Hd).
  - apply demo_db_rel.
  - apply coherent_demo.
  - repeat constructor; vm_compute; discriminate.
  - vm_compute. lia.
  - exists x', m', kv', ttl'. split; [exact E|]. split; [exact Hr|].
    apply (Hd (lit "a") 7000); [|lia]. split; [reflexivity|unfold INT64_MAX; lia].
Defined.

Lemma set_ttl_keeps_cache_coherent_witness :
  exists x' m', xdb_Zset (It := MemStore.iter) demo_db (lit "expire") (lit "b") (lit "9000") = (db_ok, x') /\
    SetTTL expire_new (lit "b") 9000 = (0, m') /\
    xdb_Zget (It := MemStore.iter) x' (lit "expire") (lit "b") [] = (db_ok, lit "9000") /\
    coherent m' (<[lit "b" := 9000]> {[lit "a" := 7000]}).
Proof.
  destruct (set_ttl_keeps_cache_coherent (It := MemStore.iter) demo_db ∅ {[lit "a" := 7000]} expire_new (lit "b") 9000)
    as (ret & x' & m' & E1 & E2 & Er & Hr & Hc & _).
  - apply demo_db_rel.
  - apply coherent_demo.
  - unfold INT64_MAX. lia.
  - discriminate.
  - apply (bool_decide_eq_true_1 (short _)). vm_compute. reflexivity.
  - exists x', m'. cbn in Er. subst ret. split; [exact E1|]. split; [exact E2|]. split; [|exact Hc].
    exact (Zget_refines (It := MemStore.iter) (lit "expire") x' ∅ _ (lit "b") [] Hr).
Defined.
