(* ===== verification/Crash.v ===== *)
(** The database when the process is killed between two writes.

    [Crashing] is a storage engine that performs only the next [n] writes: the
    code of [xDataBase] runs on it unchanged, and what is then in the engine is
    what a process that dies after its [n]-th write leaves on the disk (each
    write of RocksDB is atomic and survives the process). *)

From S2P Require Import Prelude Cstd Util SortedSet MurmurHash2 EtagManager RocksDB DataBase DataBaseSpec ExpireManager.

(** ** The engine *)

#[export] Instance Crashing {DB It} `{RocksDB DB It} : RocksDB (DB * nat) It := {|
  rdb_Put x k v :=
    match x with
    | (d, O) => ((d, O), kShutdownInProgress)
    | (d, S n) => let '(d, s) := rdb_Put d k v in ((d, n), s)
    end;
  rdb_Delete x k :=
    match x with
    | (d, O) => ((d, O), kShutdownInProgress)
    | (d, S n) => let '(d, s) := rdb_Delete d k in ((d, n), s)
    end;
  rdb_Get x k := rdb_Get x.1 k;
  rdb_NewIterator x := rdb_NewIterator x.1;
  it_status := it_status;
  it_Seek := it_Seek;
  it_SeekToFirst := it_SeekToFirst;
  it_Valid := it_Valid;
  it_Next := it_Next;
  it_key := it_key;
  it_bound := it_bound
|}.

(** [x] with [n] writes left. *)
Definition doomed {DB} (x : xDataBase DB) (n : nat) : xDataBase (DB * nat) := MkDataBase (db x, n) (xEtag x) (bEtag x).

(** What the disk holds when the operations [os] are cut off after [n] writes. *)
Definition after_crash {DB It} `{RocksDB DB It} (zk : bytes) (x : xDataBase DB) (n : nat) (os : list dbop) : option DB :=
  (fun r => (db r.2).1) <$> db_runs zk (doomed x n) os.

(** ** The writes of an operation *)

Inductive write := WPut (k v : bytes) | WDelete (k : bytes).

Definition apply_write (m : gmap bytes bytes) (w : write) : gmap bytes bytes :=
  match w with WPut k v => <[k := v]> m | WDelete k => delete k m end.

Definition apply_writes (ws : list write) (m : gmap bytes bytes) : gmap bytes bytes := foldl apply_write m ws.

(** In the order of the code: the index row first. *)
Definition writes_of (zk : bytes) (st : abs_store) (o : dbop) : list write :=
  match o with
  | DSet now k v => [WPut (kv_key k) (xValue_encode (MkValue (getCurrentTime now) v))]
  | DDel k => [WDelete (kv_key k)]
  | DZset mem s =>
      if decide (st.2 !! mem = Some s) then []
      else
        match st.2 !! mem with Some s0 => [WDelete (zrow zk s0 mem)] | None => [] end
        ++ [WPut (zrow zk s mem) []; WPut (zset_key zk mem) (sdec s)]
  | DZdel mem =>
      match st.2 !! mem with
      | Some s0 => [WDelete (zrow zk s0 mem); WDelete (zset_key zk mem)]
      | None => []
      end
  | _ => []
  end.

Section Crash.
Context {DB It : Type} `{RocksDBSpec DB It} `{!RocksDBHealthy DB It} (zk : bytes).

(** The engine performs the write, or is down. *)
Lemma crash_put (d : DB) n k v :
  exists d' s, rdb_Put (d, n) k v = ((d', pred n), s) /\ contents d' = apply_writes (take n [WPut k v]) (contents d) /\ (ok s = false <-> n = O).
Proof.
  destruct n as [|n]; cbn.
  - exists d, kShutdownInProgress. done.
  - pose proof (Put_contents d k v) as Hp. pose proof (Put_healthy d k v) as Hh. destruct (rdb_Put d k v) as [d' s]. cbn in *. subst s.
    exists d', kOk. split; [done|]. split; [by rewrite take_nil|]. done.
Qed.

Lemma crash_delete (d : DB) n k :
  exists d' s, rdb_Delete (d, n) k = ((d', pred n), s) /\ contents d' = apply_writes (take n [WDelete k]) (contents d) /\ (ok s = false <-> n = O).
Proof.
  destruct n as [|n]; cbn.
  - exists d, kShutdownInProgress. done.
  - pose proof (Delete_contents d k) as Hp. pose proof (Delete_healthy d k) as Hh. destruct (rdb_Delete d k) as [d' s]. cbn in *. subst s.
    exists d', kOk. split; [done|]. split; [by rewrite take_nil|]. done.
Qed.

(** Running [o] on the doomed database leaves what the first [n] of its writes
    leave. *)
Definition cut (x : xDataBase DB) (n : nat) (o : dbop) (ws : list write) : Prop :=
  exists r x', db_run zk (doomed x n) o = Some (r, doomed x' (n - length ws)) /\
    contents (db x') = apply_writes (take n ws) (contents (db x)) /\ etag_ok x'.

Lemma note_etag_doomed (x : xDataBase DB) n k ts :
  etag_ok x -> exists x', note_etag (doomed x n) k ts = Some (doomed x' n) /\ db x' = db x /\ etag_ok x'.
Proof.
  intros He. destruct (note_etag_ok x k ts He) as (x' & E & Hd & He'). exists x'. split; [|done].
  unfold note_etag in *. cbn [bEtag xEtag doomed db] in *. destruct (bEtag x) eqn:Eb; [|by injection E as ->].
  destruct (xEtag x) as [m|]; [|done]. cbn [mbind option_bind] in *. destruct (SetKey m (cstr k) ts) as [m'|]; [|done].
  cbn [mbind option_bind] in *. by injection E as <-.
Qed.

Lemma cut_nothing x n o r : etag_ok x -> db_run zk (doomed x n) o = Some (r, doomed x n) -> cut x n o [].
Proof. intros He E. exists r, x. rewrite E, Nat.sub_0_r, take_nil. done. Qed.

Lemma cut_set x n now k v : etag_ok x -> cut x n (DSet now k v) [WPut (kv_key k) (xValue_encode (MkValue (getCurrentTime now) v))].
Proof.
  intros He. unfold cut. cbn [db_run]. unfold xdb_Set. cbn [doomed db].
  set (w := MkValue (getCurrentTime now) v).
  destruct (crash_put (db x) n (kv_key k) (xValue_encode w)) as (d & s & -> & Hd & Hs).
  destruct n as [|n].
  - rewrite (proj2 Hs eq_refl). cbn [negb mbind option_bind]. exists (RCode db_err), (set_db x d). split; [done|]. split; [exact Hd|exact He].
  - destruct (ok s) eqn:Eo; [|discriminate (proj1 Hs eq_refl)]. cbn [negb pred].
    destruct (note_etag_doomed (set_db x d) n k (timestamp w) He) as (x' & E & Hx & He').
    change (set_db (doomed x (S n)) (d, n)) with (doomed (set_db x d) n). rewrite E. cbn [mbind option_bind].
    exists (RCode db_ok), x'. split; [cbn [length Nat.sub]; by rewrite Nat.sub_0_r|]. split; [by rewrite Hx|done].
Qed.

Lemma cut_get (x : xDataBase DB) (n : nat) (k : bytes) (kv : gmap bytes xValue) :
  (forall k, contents (db x) !! kv_key k = xValue_encode <$> kv !! k) -> (forall k v, kv !! k = Some v -> is_u64 (timestamp v)) ->
  etag_ok x -> exists r x', xdb_Get (doomed x n) k (MkValue 0 []) = Some (r, doomed x' n) /\ db x' = db x /\ etag_ok x'.
Proof.
  intros Hkv Hts He. unfold xdb_Get. cbn [doomed db rdb_Get Crashing fst]. rewrite Get_contents, Hkv.
  destruct (kv !! k) as [v|] eqn:E; cbn [fmap option_fmap option_map].
  - change (IsNotFound kOk) with false. change (negb (ok kOk)) with false. cbv iota.
    rewrite decode_encode by by eapply Hts. cbn [mbind option_bind].
    destruct (note_etag_doomed x n k (timestamp v) He) as (x' & Hx & Hd & He'). rewrite Hx. cbn [mbind option_bind]. eauto.
  - change (IsNotFound kNotFound) with true. cbv iota. eauto.
Qed.

Lemma cut_del x n k : etag_ok x -> cut x n (DDel k) [WDelete (kv_key k)].
Proof.
  intros He. unfold cut. cbn [db_run]. unfold xdb_Del. cbn [doomed db].
  destruct (crash_delete (db x) n (kv_key k)) as (d & s & -> & Hd & Hs). eexists _, (set_db x d). split; [|done].
  cbn [length]. by rewrite Nat.sub_1_r.
Qed.

Lemma zget_doomed x n mem kv ttl :
  db_rel (It := It) zk x kv ttl ->
  xdb_Zget (doomed x n) zk mem [] = match ttl !! mem with Some s => (db_ok, sdec s) | None => (db_null, []) end.
Proof. intros Hr. rewrite <- (Zget_refines zk x kv ttl mem [] Hr). done. Qed.

Lemma take_two n (w1 w2 : write) m : apply_writes (take (pred n) [w2]) (apply_writes (take n [w1]) m) = apply_writes (take n [w1; w2]) m.
Proof. by destruct n as [|[|n]]. Qed.

(** The two rows of a score are written in turn. *)
Lemma cut_two_puts (x : xDataBase DB) (d : DB) n k1 k2 v2 ws :
  etag_ok x -> contents d = apply_writes (take n ws) (contents (db x)) ->
  exists r x', (let '(d1, s) := rdb_Put (d, (n - length ws)%nat) k1 [] in
     if negb (ok s) then (db_err, set_db (doomed x n) d1)
     else let '(d2, s) := rdb_Put d1 k2 v2 in
       if negb (ok s) then (db_err, set_db (doomed x n) d2) else (db_ok, set_db (doomed x n) d2))
    = (r, doomed x' (n - length (ws ++ [WPut k1 []; WPut k2 v2]))) /\
    contents (db x') = apply_writes (take n (ws ++ [WPut k1 []; WPut k2 v2])) (contents (db x)) /\ etag_ok x'.
Proof.
  intros He Hd. rewrite length_app. cbn [length].
  assert (forall w, apply_writes (take n (ws ++ w)) (contents (db x)) = apply_writes (take (n - length ws) w) (contents d)) as Hw.
  { intros w. rewrite take_app. unfold apply_writes. rewrite foldl_app. by rewrite Hd. }
  rewrite Hw. destruct (crash_put d (n - length ws) k1 []) as (d1 & s1 & -> & Hd1 & Hs1).
  destruct (ok s1) eqn:E1; cbn [negb].
  - destruct (crash_put d1 (pred (n - length ws)) k2 v2) as (d2 & s2 & -> & Hd2 & Hs2).
    exists (if ok s2 then db_ok else db_err), (set_db x d2). split; [|split; [|done]].
    + assert ((n - (length ws + 2))%nat = pred (pred (n - length ws))) as -> by lia. by destruct (ok s2).
    + cbn [set_db db]. by rewrite Hd2, Hd1, take_two.
  - pose proof (proj1 Hs1 eq_refl) as E0. exists db_err, (set_db x d1). split; [|split; [|done]].
    + assert ((n - (length ws + 2))%nat = pred (n - length ws)) as -> by lia. done.
    + cbn [set_db db]. rewrite Hd1, E0. done.
Qed.

Lemma cut_zset x n mem s kv ttl :
  db_rel (It := It) zk x kv ttl -> zk <> [] -> mem <> [] -> is_i64 s -> cut x n (DZset mem s) (writes_of zk (kv, ttl) (DZset mem s)).
Proof.
  intros Hr Hz Hm Hs. pose proof Hr as [Hrel He].
  destruct (decide (ttl !! mem = Some s)) as [E|Hne].
  { cbn [writes_of snd]. rewrite decide_True by done. apply (cut_nothing x n (DZset mem s) (RCode db_err) He).
    cbn [db_run]. unfold xdb_Zset. rewrite !bool_decide_false by done. cbn [orb].
    rewrite (zget_doomed x n mem kv ttl Hr), E, bool_decide_false by done. by rewrite bool_decide_true by done. }
  unfold cut. cbn [db_run writes_of snd]. unfold xdb_Zset. rewrite (decide_False (P := ttl !! mem = Some s)) by done.
  rewrite !bool_decide_false by done. cbn [orb]. rewrite (zget_doomed x n mem kv ttl Hr). rewrite !EncodeKey_zscore_sdec by done.
  destruct (ttl !! mem) as [s0|] eqn:E.
  - pose proof (sr_i64 _ _ _ _ Hrel _ _ E) as Hs0. rewrite bool_decide_false by done. cbn [orb].
    rewrite bool_decide_false by (intros ?%sdec_inj; congruence). cbn [negb]. rewrite EncodeKey_zscore_sdec by done.
      destruct (crash_delete (db x) n (zrow zk s0 mem)) as (d & st & Ed & Hd & _). cbn [doomed db]. rewrite Ed. cbn [fst].
      destruct (cut_two_puts x d n (zrow zk s mem) (zset_key zk mem) (sdec s) [WDelete (zrow zk s0 mem)] He Hd) as (r & x' & E2 & Hx & He').
      cbn [length] in E2. rewrite Nat.sub_1_r in E2. rewrite E2. exists (RCode r), x'. done.
  - rewrite bool_decide_true by done. cbn [orb].
    destruct (cut_two_puts x (db x) n (zrow zk s mem) (zset_key zk mem) (sdec s) [] He) as (r & x' & E2 & Hx & He'); [by rewrite take_nil|].
    cbn [length] in E2. rewrite Nat.sub_0_r in E2. cbn [doomed db]. rewrite E2. exists (RCode r), x'. done.
Qed.

Lemma cut_zdel x n mem kv ttl :
  db_rel (It := It) zk x kv ttl -> zk <> [] -> mem <> [] -> cut x n (DZdel mem) (writes_of zk (kv, ttl) (DZdel mem)).
Proof.
  intros Hr Hz Hm. pose proof Hr as [Hrel He]. cbn [writes_of snd].
  destruct (ttl !! mem) as [s0|] eqn:E.
  - pose proof (sr_i64 _ _ _ _ Hrel _ _ E) as Hs0. unfold cut. cbn [db_run]. unfold xdb_Zdel.
    rewrite !bool_decide_false by done. cbn [orb]. rewrite (zget_doomed x n mem kv ttl Hr), E, bool_decide_false by done.
    rewrite EncodeKey_zscore_sdec by done.
    destruct (crash_delete (db x) n (zrow zk s0 mem)) as (d & st & Ed & Hd & _). cbn [doomed db]. rewrite Ed. cbn [fst].
    destruct (crash_delete d (pred n) (zset_key zk mem)) as (d2 & st2 & Ed2 & Hd2 & _). rewrite Ed2.
    exists (RCode (if ok st2 then db_ok else db_err)), (set_db x d2). split; [|split; [|done]].
    + cbn [length]. assert ((n - 2)%nat = pred (pred n)) as -> by lia. done.
    + cbn [set_db db]. by rewrite Hd2, Hd, <- take_two.
  - apply (cut_nothing x n (DZdel mem) (RCode db_err) He). cbn [db_run]. unfold xdb_Zdel.
    rewrite !bool_decide_false by done. cbn [orb]. rewrite (zget_doomed x n mem kv ttl Hr), E. by rewrite bool_decide_true.
Qed.

Lemma cut_op x n o kv ttl :
  db_rel (It := It) zk x kv ttl -> zk <> [] -> dbop_ok o -> single o -> cut x n o (writes_of zk (kv, ttl) o).
Proof.
  intros Hr Hz Ho Hs. pose proof Hr as [Hrel He]. destruct o as [now k v|k|k|k|a b m|mem|mem s|mem|]; cbn [single] in Hs; try done.
  - by apply cut_set.
  - destruct (cut_get x n k kv (sr_kv _ _ _ _ Hrel) (sr_ts _ _ _ _ Hrel) He) as ([r v] & x' & E & Hd & He'). exists (RValue r v), x'. cbn [db_run]. rewrite E. cbn [mbind option_bind].
    cbn [writes_of length]. rewrite Nat.sub_0_r, take_nil, Hd. done.
  - by apply cut_del.
  - destruct (cut_get x n k kv (sr_kv _ _ _ _ Hrel) (sr_ts _ _ _ _ Hrel) He) as ([r v] & x' & E & Hd & He'). eexists _, x'. cbn [db_run]. unfold xdb_Expire. rewrite E. cbn [mbind option_bind].
    cbn [writes_of length]. rewrite Nat.sub_0_r, take_nil, Hd. done.
  - destruct (xdb_ScanKey (doomed x n) a b m []) as [r l] eqn:E. apply (cut_nothing x n _ (RKeys r l) He). cbn [db_run]. by rewrite E.
  - destruct (xdb_Zget (doomed x n) zk mem []) as [r l] eqn:E. apply (cut_nothing x n _ (RScore r l) He). cbn [db_run]. by rewrite E.
  - destruct Ho as (Hm & _ & Hi). by eapply cut_zset.
  - by eapply cut_zdel.
Qed.

(** All the writes are the operation. *)
Lemma writes_are_op o kv ttl m :
  store_rel zk m kv ttl -> dbop_ok o -> single o ->
  store_rel zk (apply_writes (writes_of zk (kv, ttl) o) m) (abs_db (kv, ttl) o).2.1 (abs_db (kv, ttl) o).2.2.
Proof.
  intros Hr Ho Hs. destruct o as [now k v|k|k|k|a b l|mem|mem s|mem|]; cbn [single] in Hs; try done; cbn [writes_of abs_db snd fst].
  - apply rel_kv_insert; [done..|apply getCurrentTime_u64].
  - by apply rel_kv_delete.
  - destruct Ho as (_ & Hsh & Hi). destruct (decide (ttl !! mem = Some s)) as [E|Hne]; [done|]. cbn [fst snd].
    destruct (ttl !! mem) as [s0|] eqn:E.
    + apply (rel_ttl_insert zk m kv ttl mem s0 s Hr); [|by eapply sr_i64|done..]. intros s'. rewrite E. by intros [= ->].
    + rewrite <- (delete_id m (zrow zk 0 mem)) at 1; [apply (rel_ttl_insert zk m kv ttl mem 0 s Hr); try done|].
      * intros s'. by rewrite E.
      * rewrite (sr_zrow _ _ _ _ Hr) by done. rewrite E. by rewrite decide_False.
  - destruct (ttl !! mem) as [s0|] eqn:E; cbn [apply_writes foldl apply_write].
    + by apply rel_ttl_delete.
    + by rewrite delete_id.
Qed.

(** Operations the writes suffice for. *)
Fixpoint completed (st : abs_store) (n : nat) (os : list dbop) : nat :=
  match os with
  | [] => O
  | o :: os =>
      let w := length (writes_of zk st o) in
      if decide (w <= n)%nat then S (completed (abs_db st o).2 (n - w) os) else O
  end.

(** The values and the scores are those of [st]; so are the index rows, except
    those of the member [om]. *)
Definition rows_but (m : gmap bytes bytes) (st : abs_store) (om : option bytes) : Prop :=
  (forall k, m !! kv_key k = xValue_encode <$> st.1 !! k) /\
  (forall mem, m !! zset_key zk mem = sdec <$> st.2 !! mem) /\
  (forall mem s, is_i64 s -> om <> Some mem -> m !! zrow zk s mem = if decide (st.2 !! mem = Some s) then Some [] else None).

Definition write_key (w : write) : bytes := match w with WPut k _ | WDelete k => k end.

Lemma apply_writes_other ws m k : Forall (fun w => write_key w <> k) ws -> apply_writes ws m !! k = m !! k.
Proof.
  intros Hw. revert m. induction Hw as [|w ws Hk _ IH]; intros m; [done|].
  change (apply_writes (w :: ws) m) with (apply_writes ws (apply_write m w)). rewrite IH.
  destruct w; cbn [apply_write write_key] in *; [by rewrite lookup_insert_ne|by rewrite lookup_delete_ne].
Qed.

Lemma zrow_member s m s' m' : zrow zk s m = zrow zk s' m' -> m = m'.
Proof. intros H'. unfold zrow in H'. apply app_inv_head in H'. by apply app_inj_1 in H' as [_ [= ?]]; [|by rewrite !length_be]. Qed.

(** An operation cut off has changed index rows of its member only. *)
Lemma cut_writes_index kv ttl o n m :
  store_rel zk m kv ttl -> (n < length (writes_of zk (kv, ttl) o))%nat ->
  Forall (fun w => exists mem s, member_of o = Some mem /\ write_key w = zrow zk s mem) (take n (writes_of zk (kv, ttl) o)).
Proof.
  intros Hr Hn. destruct o as [now k v|k|k|k|a b l|mem|mem s|mem|]; cbn [writes_of snd length member_of] in *; try lia.
  - by assert (n = 0)%nat as -> by lia.
  - by assert (n = 0)%nat as -> by lia.
  - destruct (decide (ttl !! mem = Some s)); [cbn in Hn; lia|]. destruct (ttl !! mem) as [s0|]; cbn [app length take] in *.
    + destruct n as [|[|[|n]]]; [by constructor|..|lia]; repeat constructor; cbn [write_key]; eauto.
    + destruct n as [|[|n]]; [by constructor|..|lia]; repeat constructor; cbn [write_key]; eauto.
  - destruct (ttl !! mem) as [s0|]; cbn [length] in *; [|lia].
    destruct n as [|[|n]]; [by constructor|..|lia]; repeat constructor; cbn [write_key]; eauto.
Qed.

Lemma store_rel_rows m kv ttl om : store_rel zk m kv ttl -> rows_but m (kv, ttl) om.
Proof. intros [H1 H2 H3 _ _ _]. split; [done|]. split; [done|]. intros mem s Hs _. by apply H3. Qed.

Lemma rows_but_cut kv ttl o n m :
  store_rel zk m kv ttl -> (n < length (writes_of zk (kv, ttl) o))%nat ->
  rows_but (apply_writes (take n (writes_of zk (kv, ttl) o)) m) (kv, ttl) (member_of o).
Proof.
  intros Hr Hn. pose proof (cut_writes_index kv ttl o n m Hr Hn) as Hw. destruct (store_rel_rows m kv ttl (member_of o) Hr) as (H1 & H2 & H3).
  split; [|split].
  - intros k. rewrite apply_writes_other; [apply H1|]. eapply Forall_impl; [exact Hw|]. intros w (mem & s & _ & ->). auto with rows.
  - intros k. rewrite apply_writes_other; [apply H2|]. eapply Forall_impl; [exact Hw|]. intros w (mem & s & _ & ->). auto with rows.
  - intros mem s Hs Hne. rewrite apply_writes_other; [by apply H3|]. eapply Forall_impl; [exact Hw|].
    intros w (mem' & s' & E & ->) Em%zrow_member. congruence.
Qed.

(** ** What a crash leaves *)

(** With no write left the code runs on and changes nothing. *)
Lemma stalled (x : xDataBase DB) (o : dbop) (kv : gmap bytes xValue) :
  (forall k, contents (db x) !! kv_key k = xValue_encode <$> kv !! k) -> (forall k v, kv !! k = Some v -> is_u64 (timestamp v)) ->
  etag_ok x -> single o -> exists r x', db_run zk (doomed x 0) o = Some (r, doomed x' 0) /\ db x' = db x /\ etag_ok x'.
Proof.
  intros Hkv Hts He Hs.
  destruct o as [now k v|k|k|k|a b m|mem|mem s|mem|]; cbn [single] in Hs; try done; cbn [db_run].
  - by exists (RCode db_err), x.
  - destruct (cut_get x 0 k kv Hkv Hts He) as ([r v] & x' & E & Hd & He'). exists (RValue r v), x'. by rewrite E.
  - by exists (RCode db_err), x.
  - destruct (cut_get x 0 k kv Hkv Hts He) as ([r v] & x' & E & Hd & He'). unfold xdb_Expire. rewrite E. cbn [mbind option_bind]. eauto.
  - destruct (xdb_ScanKey (doomed x 0) a b m []) as [r l] eqn:E. by exists (RKeys r l), x.
  - destruct (xdb_Zget (doomed x 0) zk mem []) as [r l] eqn:E. by exists (RScore r l), x.
  - exists (RCode db_err), x. split; [|done]. unfold xdb_Zset. destruct (_ || _); [done|].
    destruct (xdb_Zget (doomed x 0) zk mem []) as [r l]. destruct (_ || _); [|done]. by destruct (bool_decide (r = db_null)).
  - exists (RCode db_err), x. split; [|done]. unfold xdb_Zdel. destruct (_ || _); [done|].
    destruct (xdb_Zget (doomed x 0) zk mem []) as [r l]. by destruct (bool_decide (r = db_null)).
Qed.

Lemma stalled_ops (x : xDataBase DB) (os : list dbop) (kv : gmap bytes xValue) :
  (forall k, contents (db x) !! kv_key k = xValue_encode <$> kv !! k) -> (forall k v, kv !! k = Some v -> is_u64 (timestamp v)) ->
  etag_ok x -> Forall single os -> after_crash zk x 0 os = Some (db x).
Proof.
  intros Hkv Hts He Hs. unfold after_crash. revert x Hkv He.
  induction Hs as [|o os Ho _ IH]; intros x Hkv He; [done|]. cbn [db_runs].
  destruct (stalled x o kv Hkv Hts He Ho) as (r & x' & -> & Hd & He'). cbn [mbind option_bind].
  specialize (IH x'). rewrite Hd in IH. specialize (IH Hkv He'). by destruct (db_runs zk (doomed x' 0) os) as [[rs x2]|].
Qed.

(** C13. A process killed after any number of writes of a sequence of operations on
    single keys and members (any but [Flushall], which deletes row by row and may
    be cut off anywhere)
    leaves the values and the scores of a prefix of the sequence, and index rows
    that agree with them except for the member of the one operation cut off. *)
Theorem crash_leaves_a_prefix x kv ttl n os :
  db_rel zk x kv ttl -> zk <> [] -> Forall dbop_ok os -> Forall single os ->
  exists d, after_crash zk x n os = Some d /\
    let j := completed (kv, ttl) n os in
    rows_but (contents d) (abs_dbs (kv, ttl) (take j os)).2 (os !! j ≫= member_of).
Proof.
  intros Hr Hz Ho. revert x kv ttl n Hr. induction Ho as [|o os Ho _ IH]; intros x kv ttl n Hr Hs.
  { exists (db x). split; [done|]. cbn. destruct Hr as [Hr _]. by apply store_rel_rows. }
  inversion Hs as [|? ? Hso Hs']; subst. pose proof Hr as [Hrel He].
  destruct (cut_op x n o kv ttl Hr Hz Ho Hso) as (r & x' & E & Hc & He'). cbn [completed].
  unfold after_crash in *. cbn [db_runs]. rewrite E. cbn [mbind option_bind].
  destruct (decide _) as [Hle|Hlt].
  - rewrite take_ge in Hc by done. destruct (abs_db (kv, ttl) o) as [ra [kv' ttl']] eqn:Ea.
    pose proof (writes_are_op o kv ttl _ Hrel Ho Hso) as Hw. rewrite Ea, <- Hc in Hw.
    destruct (IH x' kv' ttl' (n - length (writes_of zk (kv, ttl) o))%nat (conj Hw He') Hs') as (d & Ed & Hd).
    exists d. cbn [snd take lookup list_lookup abs_dbs]. rewrite Ea. split.
    + by destruct (db_runs zk (doomed x' _) os) as [[rs x2]|].
    + by destruct (abs_dbs (kv', ttl') (take (completed (kv', ttl') (n - length (writes_of zk (kv, ttl) o)) os) os)) as [rs st].
  - assert ((n - length (writes_of zk (kv, ttl) o))%nat = O) as -> by lia.
    pose proof (rows_but_cut kv ttl o n _ Hrel ltac:(lia)) as Hb. rewrite <- Hc in Hb.
    pose proof (stalled_ops x' os kv (proj1 Hb) (sr_ts _ _ _ _ Hrel) He' Hs') as Hst. unfold after_crash in Hst.
    exists (db x'). cbn [take abs_dbs snd lookup list_lookup mbind option_bind]. split; [|exact Hb].
    by destruct (db_runs zk (doomed x' 0) os) as [[rs x2]|].
Qed.
End Crash.

(** ** A key killed half way *)

Definition crash_ops : list dbop :=
  [DSet (Timeval 5 0) (lit "a") (lit "1"); DZset (lit "a") 7000; DSet (Timeval 6 0) (lit "b") (lit "2")].

Lemma crash_leaves_a_prefix_witness :
  exists d, after_crash (It := MemStore.iter) (lit "expire") (mem_db ∅) 2 crash_ops = Some d /\
    rows_but (lit "expire") (contents (It := MemStore.iter) d) ({[lit "a" := MkValue 5000 (lit "1")]}, ∅) (Some (lit "a")).
Proof.
  destruct (crash_leaves_a_prefix (It := MemStore.iter) (lit "expire") (mem_db ∅) ∅ ∅ 2 crash_ops) as (d & E & Hd).
  - apply mem_db_empty.
  - discriminate.
  - apply (bool_decide_eq_true_1 (Forall dbop_ok crash_ops)). vm_compute. reflexivity.
  - repeat constructor.
  - exists d. split; [exact E|]. exact Hd.
Defined.

(** What is left of [Zset] of ["a"] with score 7000, killed before its last write. *)
Definition orphaned : xDataBase MemStore.store := mem_db (<[zrow (lit "expire") 7000 (lit "a") := []]> ∅).

(** A turn of the expiration thread at eight seconds. *)
Definition turn_at_8 (st : xDataBase MemStore.store * ExpireManager) : xDataBase MemStore.store * ExpireManager :=
  Dispatch_turn (It := MemStore.iter) st (Timeval 8 0, Timeval 8 0).

(** [Set] of ["a"] between two turns. *)
Definition set_then_turn (st : xDataBase MemStore.store * ExpireManager) (v : bytes)
  : option (ret_code * (xDataBase MemStore.store * ExpireManager)) :=
  '(r, x) ← xdb_Set (It := MemStore.iter) st.1 (Timeval 8 0) (lit "a") v; Some (r, turn_at_8 (x, st.2)).

(** [Zset] writes the index row before the score.  A process killed between the
    two leaves an index row that nothing removes: the expiration thread of every
    later process loads it, finds it due, deletes the key, fails in [Zdel]
    (which looks for the score) and is back where it was, so that whatever is
    stored under the key, with no expiration at all, is deleted again. *)
Theorem half_an_expiration_deletes_forever :
  after_crash (It := MemStore.iter) (lit "expire") (mem_db ∅) 1 [DZset (lit "a") 7000] = Some (db orphaned) /\
  xdb_Zget (It := MemStore.iter) orphaned (lit "expire") (lit "a") [] = (db_null, []) /\
  (turn_at_8 (orphaned, expire_new)).1 = orphaned /\
  forall v, set_then_turn (turn_at_8 (orphaned, expire_new)) v = Some (db_ok, turn_at_8 (orphaned, expire_new)).
Proof.
  split; [vm_cast_no_check (eq_refl (Some (db orphaned)))|]. split; [vm_cast_no_check (eq_refl (db_null, [] : bytes))|].
  split; [vm_cast_no_check (eq_refl orphaned)|]. intros v. vm_cast_no_check (eq_refl (Some (db_ok, turn_at_8 (orphaned, expire_new)))).
Qed.
