(* ===== verification/Concurrent.v ===== *)
(** [src/xDataBase.cpp] under threads.  The server's HTTP workers, its Redis
    thread and its expiration thread call one [xDataBase] without a lock: each
    operation is here the sequence of its calls to RocksDB (each atomic) and to the
    ETag manager, and other threads run between any two of them.  A scan is one
    call, for its iterator is a snapshot. *)

From S2P Require Import Prelude Cstd Util SortedSet MurmurHash2 EtagManager RocksDB DataBase DataBaseSpec Lock.
From Stdlib Require Import Sorting.Sorted.

(** ** The operations taken apart *)

Section Programs.
Context {DB It : Type} `{RocksDB DB It} (zk : bytes).

Definition db_action (A : Type) : Type := (A -> prog (xDataBase DB) dbres) -> prog (xDataBase DB) dbres.

(** A call that writes, and one that only reads. *)
Definition writing (f : DB -> DB * Status) : db_action Status :=
  fun k => Act (fun x => let '(d, s) := f (db x) in Some (set_db x d, k s)).
Definition reading {A} (f : xDataBase DB -> A) : db_action A :=
  fun k => Act (fun x => Some (x, k (f x))).
(** [if (bEtag) xEtag->SetKey(...)] *)
Definition noting (key : bytes) (ts : Z) (p : prog (xDataBase DB) dbres) : prog (xDataBase DB) dbres :=
  Act (fun x => x ← note_etag x key ts; Some (x, p)).
Definition undefined : prog (xDataBase DB) dbres := Act (fun _ => None).

Definition Set_prog (now : timeval) (key val : bytes) : prog (xDataBase DB) dbres :=
  let xVal := MkValue (getCurrentTime now) val in
  writing (fun d => rdb_Put d (EncodeKey (K_STRING key)) (xValue_encode xVal)) (fun s =>
    if negb (ok s) then Ret (RCode db_err) else noting key (timestamp xVal) (Ret (RCode db_ok))).

Definition Get_prog (key : bytes) (xval : xValue) (k : ret_code -> xValue -> dbres) : prog (xDataBase DB) dbres :=
  reading (fun x => rdb_Get (db x) (EncodeKey (K_STRING key))) (fun '(s, v) =>
    if IsNotFound s then Ret (k db_null xval)
    else if negb (ok s) then Ret (k db_err xval)
    else match xValue_decode v with
         | Some xval => noting key (timestamp xval) (Ret (k db_ok xval))
         | None => undefined
         end).

Definition Del_prog (key : bytes) : prog (xDataBase DB) dbres :=
  writing (fun d => rdb_Delete d (EncodeKey (K_STRING key))) (fun s => Ret (RCode (if ok s then db_ok else db_err))).

(** [Zset] from its last [Put], from the [Put] before it, and from the start. *)
Definition Zset_score (key member score : bytes) : prog (xDataBase DB) dbres :=
  writing (fun d => rdb_Put d (EncodeKey (K_ZSET key member)) score) (fun s => Ret (RCode (if negb (ok s) then db_err else db_ok))).
Definition Zset_index (key member score : bytes) : prog (xDataBase DB) dbres :=
  writing (fun d => rdb_Put d (EncodeKey (K_ZSCORE key member score)) []) (fun s =>
    if negb (ok s) then Ret (RCode db_err) else Zset_score key member score).
Definition Zset_delete (key member score old_score : bytes) : prog (xDataBase DB) dbres :=
  writing (fun d => rdb_Delete d (EncodeKey (K_ZSCORE key member old_score))) (fun _ => Zset_index key member score).
Definition Zset_prog (key member score : bytes) : prog (xDataBase DB) dbres :=
  if bool_decide (key = []) || bool_decide (member = []) then Ret (RCode db_err)
  else reading (fun x => xdb_Zget x key member []) (fun '(ret, old_score) =>
    if bool_decide (ret = db_null) || negb (bool_decide (old_score = score)) then
      if bool_decide (ret = db_null) then Zset_index key member score else Zset_delete key member score old_score
    else Ret (RCode db_err)).

Definition Zdel_score (key member : bytes) : prog (xDataBase DB) dbres :=
  writing (fun d => rdb_Delete d (EncodeKey (K_ZSET key member))) (fun s => Ret (RCode (if ok s then db_ok else db_err))).
Definition Zdel_index (key member old_score : bytes) : prog (xDataBase DB) dbres :=
  writing (fun d => rdb_Delete d (EncodeKey (K_ZSCORE key member old_score))) (fun _ => Zdel_score key member).
Definition Zdel_prog (key member : bytes) : prog (xDataBase DB) dbres :=
  if bool_decide (key = []) || bool_decide (member = []) then Ret (RCode db_err)
  else reading (fun x => xdb_Zget x key member []) (fun '(ret, old_score) =>
    if bool_decide (ret = db_null) then Ret (RCode db_err) else Zdel_index key member old_score).

(** [Flushall] deletes the rows its iterator shows, one call each. *)
Fixpoint flush_prog (fuel : nat) (it : It) : prog (xDataBase DB) dbres :=
  match fuel with
  | O => Ret (RCode db_ok)
  | S fuel =>
      if it_Valid it then writing (fun d => rdb_Delete d (it_key it)) (fun _ => flush_prog fuel (it_Next it))
      else Ret (RCode db_ok)
  end.
Definition Flushall_prog : prog (xDataBase DB) dbres :=
  reading (fun x => rdb_NewIterator (db x)) (fun it =>
    if negb (ok (it_status it)) then Ret (RCode db_err)
    else let it := it_SeekToFirst it in flush_prog (S (it_bound it)) it).

Definition db_prog (o : dbop) : prog (xDataBase DB) dbres :=
  match o with
  | DSet now k v => Set_prog now k v
  | DGet k => Get_prog k (MkValue 0 []) RValue
  | DDel k => Del_prog k
  | DExpire k => Get_prog k (MkValue 0 []) (fun r _ => RCode (if decide (r = db_ok) then db_ok else db_err))
  | DScanKey a b n => reading (fun x => xdb_ScanKey x a b n []) (fun '(r, l) => Ret (RKeys r l))
  | DZget mem => reading (fun x => xdb_Zget x zk mem []) (fun '(r, s) => Ret (RScore r s))
  | DZset mem s => Zset_prog zk mem (sdec s)
  | DZdel mem => Zdel_prog zk mem
  | DFlushall => Flushall_prog
  end.

Lemma run_flush fuel : forall it x, run (flush_prog fuel it) x = Some (set_db x (flush_loop fuel it (db x)), RCode db_ok).
Proof.
  induction fuel as [|fuel IH]; intros it x; cbn [flush_prog flush_loop]; [by destruct x|].
  destruct (it_Valid it); [|by destruct x]. unfold writing. cbn [run]. destruct (rdb_Delete (db x) (it_key it)) as [d st]. by rewrite IH.
Qed.

(** Without interruption the calls are the operation. *)
Lemma run_db_prog o x : run (db_prog o) x = '(r, x) ← db_run zk x o; Some (x, r).
Proof.
  destruct o as [now k v|k|k|k|a b n|mem|mem s|mem|]; cbn [db_prog db_run].
  - unfold Set_prog, xdb_Set, writing, noting. cbn [run]. destruct (rdb_Put _ _ _) as [d st]. destruct (ok st); cbn [negb run mbind option_bind]; [|done].
    by destruct (note_etag _ _ _).
  - unfold Get_prog, xdb_Get, reading, noting. cbn [run]. destruct (rdb_Get _ _) as [st v]. destruct (IsNotFound st); [done|].
    destruct (ok st); cbn [negb run]; [|done]. destruct (xValue_decode v); [|done]. cbn [run mbind option_bind]. by destruct (note_etag _ _ _).
  - unfold Del_prog, xdb_Del, writing. cbn [run]. by destruct (rdb_Delete _ _).
  - unfold Get_prog, xdb_Expire, xdb_Get, reading, noting. cbn [run]. destruct (rdb_Get _ _) as [st v]. destruct (IsNotFound st); [done|].
    destruct (ok st); cbn [negb run]; [|done]. destruct (xValue_decode v); [|done]. cbn [run mbind option_bind]. by destruct (note_etag _ _ _).
  - unfold reading. cbn [run]. by destruct (xdb_ScanKey _ _ _ _ _).
  - unfold reading. cbn [run]. by destruct (xdb_Zget _ _ _ _).
  - unfold Zset_prog, xdb_Zset, reading. destruct (_ || _); [done|]. cbn [run]. destruct (xdb_Zget _ _ _ _) as [ret old].
    unfold Zset_delete, Zset_index, Zset_score, writing. destruct (bool_decide (ret = db_null)); cbn [orb run].
    + destruct (rdb_Put _ _ _) as [d st]. destruct (ok st); cbn [negb run set_db db]; [|done]. destruct (rdb_Put d _ _) as [d2 st2]. by destruct (ok st2).
    + destruct (bool_decide (old = sdec s)); cbn [negb run]; [done|]. destruct (rdb_Delete _ _) as [d0 st0]. cbn [run set_db db fst].
      destruct (rdb_Put _ _ _) as [d st]. destruct (ok st); cbn [negb run set_db db]; [|done]. destruct (rdb_Put d _ _) as [d2 st2]. by destruct (ok st2).
  - unfold Zdel_prog, xdb_Zdel, reading. destruct (_ || _); [done|]. cbn [run]. destruct (xdb_Zget _ _ _ _) as [ret old].
    destruct (bool_decide (ret = db_null)); [done|]. unfold Zdel_index, Zdel_score, writing. cbn [run]. destruct (rdb_Delete _ _) as [d0 st0].
    cbn [run set_db db fst]. by destruct (rdb_Delete d0 _).
  - unfold Flushall_prog, xdb_Flushall, reading. cbn [run]. destruct (negb _); [done|]. cbv zeta. by rewrite run_flush.
Qed.
End Programs.

(** ** Threads without a lock *)

Section Threads.
Context {St Op R : Type} (body : Op -> prog St R).

Definition free_turn (t : nat) (s : system) : outcome :=
  match threads s !! t with
  | Some (Idle (o :: todo)) =>
      Moves (MkSystem (mutex s) (object s) (<[t := Inside o (body o) todo]> (threads s)) (log s))
  | Some (Inside o (Act k) todo) =>
      match k (object s) with
      | Some (x, p) => Moves (MkSystem (mutex s) x (<[t := Inside o p todo]> (threads s)) (log s))
      | None => Undefined
      end
  | Some (Inside o (Ret r) todo) =>
      Moves (MkSystem (mutex s) (object s) (<[t := Idle todo]> (threads s)) (log s ++ [(t, o, r)]))
  | _ => Waits
  end.

Fixpoint free_exec (schedule : list nat) (s : system) : option (@system St Op R) :=
  match schedule with
  | [] => Some s
  | t :: schedule =>
      match free_turn t s with Moves s => free_exec schedule s | Waits => free_exec schedule s | Undefined => None end
  end.

(** What thread [t] did, in a log. *)
Definition entries (t : nat) (h : list (nat * Op * R)) : list (nat * Op * R) := filter (fun e => e.1.1 = t) h.

Lemma entries_snoc t t' o r h :
  entries t (h ++ [(t', o, r)]) = if (t' =? t)%nat then entries t h ++ [(t', o, r)] else entries t h.
Proof.
  unfold entries. rewrite filter_app. cbn [filter list_filter fst]. destruct (Nat.eqb_spec t' t) as [->|Hne].
  - by rewrite decide_True.
  - rewrite decide_False by done. by rewrite app_nil_r.
Qed.
End Threads.

(** ** Steps of one operation *)

Section Linearizable.
Context {DB It : Type} `{RocksDBSpec DB It} `{!RocksDBHealthy DB It} (zk : bytes) (owner : bytes -> nat).

(** Thread [t] may run [o]: scores are changed by the owner of their member. *)
Definition op_fits (t : nat) (o : dbop) : Prop :=
  dbop_ok o /\ single o /\ forall mem, member_of o = Some mem -> owner mem = t.

#[export] Instance owned_dec t (om : option bytes) : Decision (forall mem, om = Some mem -> owner mem = t).
Proof.
  destruct om as [mem|]; [|by left]. destruct (decide (owner mem = t)) as [E|Hne]; [left; by intros ? [= <-]|right; auto].
Defined.
#[export] Instance single_dec o : Decision (single o).
Proof. destruct o; cbn [single]; apply _. Defined.
#[export] Instance op_fits_dec t o : Decision (op_fits t o).
Proof. unfold op_fits. apply _. Defined.

(** Where an operation stands that has not taken effect yet. *)
Inductive pending (ttl idx : gmap bytes Z) : dbop -> prog (xDataBase DB) dbres -> Prop :=
| p_start o : (forall mem, member_of o = Some mem -> idx !! mem = ttl !! mem) -> pending ttl idx o (db_prog zk o)
| p_zset_delete mem s s0 :
    ttl !! mem = Some s0 -> idx !! mem = Some s0 -> s0 <> s -> pending ttl idx (DZset mem s) (Zset_delete zk mem (sdec s) (sdec s0))
| p_zset_index mem s :
    ttl !! mem <> Some s -> idx !! mem = None -> pending ttl idx (DZset mem s) (Zset_index zk mem (sdec s))
| p_zset_score mem s :
    ttl !! mem <> Some s -> idx !! mem = Some s -> pending ttl idx (DZset mem s) (Zset_score zk mem (sdec s))
| p_zdel_index mem s0 :
    ttl !! mem = Some s0 -> idx !! mem = Some s0 -> pending ttl idx (DZdel mem) (Zdel_index zk mem (sdec s0))
| p_zdel_score mem s0 :
    ttl !! mem = Some s0 -> idx !! mem = None -> pending ttl idx (DZdel mem) (Zdel_score zk mem).

(** One that has: nothing is left but to note an ETag and to return. *)
Definition settled (r : dbres) (p : prog (xDataBase DB) dbres) : Prop :=
  p = Ret r \/ exists f, p = Act f /\ forall x, etag_ok x -> exists x', f x = Some (x', Ret r) /\ db x' = db x /\ etag_ok x'.

Lemma settled_noting k ts r : settled r (noting k ts (Ret r)).
Proof.
  right. eexists. split; [done|]. intros x He. destruct (note_etag_ok x k ts He) as (x' & E & Hd & He'). exists x'. by rewrite E.
Qed.

Lemma put_step (d : DB) k v : exists d', rdb_Put d k v = (d', kOk) /\ contents d' = <[k := v]> (contents d).
Proof.
  pose proof (Put_contents d k v) as Hp. pose proof (Put_healthy d k v) as Hh. destruct (rdb_Put d k v) as [d' s]. cbn in *. subst s. by exists d'.
Qed.

Lemma delete_step (d : DB) k : exists d', rdb_Delete d k = (d', kOk) /\ contents d' = delete k (contents d).
Proof.
  pose proof (Delete_contents d k) as Hp. pose proof (Delete_healthy d k) as Hh. destruct (rdb_Delete d k) as [d' s]. cbn in *. subst s. by exists d'.
Qed.

Lemma Zget_rows (x : xDataBase DB) kv ttl idx mem :
  rows zk (contents (db x)) kv ttl idx ->
  xdb_Zget x zk mem [] = match ttl !! mem with Some s => (db_ok, sdec s) | None => (db_null, []) end.
Proof. intros Hr. unfold xdb_Zget. rewrite Get_contents, (r_zset _ _ _ _ _ Hr). by destruct (ttl !! mem). Qed.

(** A step of a pending operation: it stays pending and only the index moves, or
    it takes effect. *)
Definition advances (x' : xDataBase DB) (kv : gmap bytes xValue) (ttl idx : gmap bytes Z) (o : dbop) (p' : prog (xDataBase DB) dbres) : Prop :=
  etag_ok x' /\ exists kv' ttl' idx', rows zk (contents (db x')) kv' ttl' idx' /\
    (forall mem, member_of o <> Some mem -> ttl' !! mem = ttl !! mem /\ idx' !! mem = idx !! mem) /\
    ((kv' = kv /\ ttl' = ttl /\ pending ttl' idx' o p') \/
     (exists r, abs_db (kv, ttl) o = (r, (kv', ttl')) /\ settled r p' /\ forall mem, member_of o = Some mem -> idx' !! mem = ttl' !! mem)).

(** Taking effect without touching the scores. *)
Lemma takes_effect x' kv ttl idx kv' o p r :
  etag_ok x' -> rows zk (contents (db x')) kv' ttl idx -> abs_db (kv, ttl) o = (r, (kv', ttl)) -> settled r p ->
  (forall mem, member_of o = Some mem -> idx !! mem = ttl !! mem) -> advances x' kv ttl idx o p.
Proof. intros He Hr Ha Hp Hi. split; [done|]. exists kv', ttl, idx. split; [done|]. split; [done|]. right. eauto. Qed.

Lemma get_step (x : xDataBase DB) kv ttl idx key (k : ret_code -> xValue -> dbres) o :
  rows zk (contents (db x)) kv ttl idx -> etag_ok x -> member_of o = None ->
  abs_db (kv, ttl) o = (match kv !! key with Some v => k db_ok v | None => k db_null (MkValue 0 []) end, (kv, ttl)) ->
  exists f x' p', Get_prog key (MkValue 0 []) k = Act f /\ f x = Some (x', p') /\ advances x' kv ttl idx o p'.
Proof.
  intros Hr He Hm Ha. do 3 eexists. split; [done|]. split; [done|]. cbn beta. rewrite Get_contents, (r_kv _ _ _ _ _ Hr).
  destruct (kv !! key) as [v|] eqn:E; cbn [fmap option_fmap option_map].
  - change (IsNotFound kOk) with false. change (negb (ok kOk)) with false. cbv iota.
    rewrite decode_encode by (by eapply r_ts). eapply takes_effect; [done|done|done|apply settled_noting|]. by rewrite Hm.
  - change (IsNotFound kNotFound) with true. cbv iota. eapply takes_effect; [done|done|done|by left|]. by rewrite Hm.
Qed.

Lemma start_step t x kv ttl idx o :
  zk <> [] -> rows zk (contents (db x)) kv ttl idx -> etag_ok x -> op_fits t o -> (forall mem, member_of o = Some mem -> idx !! mem = ttl !! mem) ->
  exists f x' p', db_prog zk o = Act f /\ f x = Some (x', p') /\ advances x' kv ttl idx o p'.
Proof.
  intros Hz Hr He (Ho & Hs & _) Hi. destruct o as [now k v|k|k|k|a b n|mem|mem s|mem|]; cbn [single] in Hs; try done; cbn [db_prog].
  - destruct (put_step (db x) (kv_key k) (xValue_encode (MkValue (getCurrentTime now) v))) as (d & E & Hd).
    do 3 eexists. split; [done|]. split; [by rewrite E|]. eapply takes_effect; [done| |done|apply settled_noting|done].
    cbn [set_db db]. rewrite Hd. apply rows_kv_put; [done|done|apply getCurrentTime_u64].
  - by apply get_step.
  - destruct (delete_step (db x) (kv_key k)) as (d & E & Hd). do 3 eexists. split; [done|]. split; [by rewrite E|].
    eapply takes_effect; [done| |done|by left|done]. cbn [set_db db]. rewrite Hd. by apply rows_kv_delete.
  - apply get_step; [done|done|done|]. cbn [abs_db]. destruct (kv !! k) eqn:E.
    + by rewrite decide_False.
    + by rewrite decide_True by done.
  - do 3 eexists. split; [done|]. split; [done|]. cbn beta.
    destruct (ScanKey_rows zk x kv a b n [] (r_kv _ _ _ _ _ Hr) (r_dom _ _ _ _ _ Hr)) as (L & HL & Hin & ->).
    rewrite (keys_between_unique kv a b L) by done. eapply takes_effect; [done|done|done|by left|done].
  - do 3 eexists. split; [done|]. split; [done|]. cbn beta. rewrite (Zget_rows _ _ _ _ _ Hr).
    destruct (ttl !! mem) eqn:E; (eapply takes_effect; [done|done|cbn [abs_db]; by rewrite E|by left|done]).
  - destruct Ho as (Hm & Hsh & Hi64). specialize (Hi mem eq_refl). unfold Zset_prog. rewrite !bool_decide_false by done. cbn [orb].
    do 3 eexists. split; [done|]. split; [done|]. cbn beta. rewrite (Zget_rows _ _ _ _ _ Hr). destruct (ttl !! mem) as [s0|] eqn:E.
    + rewrite (bool_decide_false (db_ok = db_null)) by done. cbn [orb]. pose proof (r_i64 _ _ _ _ _ Hr _ _ E) as Hs0.
      destruct (decide (s0 = s)) as [->|Hne].
      * rewrite bool_decide_true by done. eapply takes_effect; [done|done| |by left|].
        -- cbn [abs_db]. by rewrite decide_True.
        -- intros mem' [= <-]. congruence.
      * rewrite bool_decide_false by (intros ?%sdec_inj; congruence). cbn [negb]. split; [done|]. exists kv, ttl, idx. split; [done|]. split; [done|].
        left. split; [done|]. split; [done|]. by apply p_zset_delete.
    + rewrite bool_decide_true by done. cbn [orb]. split; [done|]. exists kv, ttl, idx. split; [done|]. split; [done|].
      left. split; [done|]. split; [done|]. apply p_zset_index; [congruence|done].
  - specialize (Hi mem eq_refl). cbn in Ho. unfold Zdel_prog. rewrite !bool_decide_false by done. cbn [orb].
    do 3 eexists. split; [done|]. split; [done|]. cbn beta. rewrite (Zget_rows _ _ _ _ _ Hr). destruct (ttl !! mem) as [s0|] eqn:E.
    + rewrite (bool_decide_false (db_ok = db_null)) by done. split; [done|]. exists kv, ttl, idx. split; [done|]. split; [done|].
      left. split; [done|]. split; [done|]. by apply p_zdel_index.
    + rewrite bool_decide_true by done. eapply takes_effect; [done|done| |by left|].
      * cbn [abs_db]. rewrite decide_True by done. by rewrite delete_id.
      * intros mem' [= <-]. congruence.
Qed.

Lemma pending_step t x kv ttl idx o p :
  zk <> [] -> rows zk (contents (db x)) kv ttl idx -> etag_ok x -> op_fits t o -> pending ttl idx o p ->
  exists f x' p', p = Act f /\ f x = Some (x', p') /\ advances x' kv ttl idx o p'.
Proof.
  intros Hz Hr He Hf Hp. pose proof Hf as (Ho & _ & _). destruct Hp as [o Hi|mem s s0 Ht Hx Hne|mem s Ht Hx|mem s Ht Hx|mem s0 Ht Hx|mem s0 Ht Hx].
  - by eapply start_step.
  - pose proof (r_i64 _ _ _ _ _ Hr _ _ Ht) as Hs0. destruct (delete_step (db x) (zrow zk s0 mem)) as (d & E & Hd).
    do 3 eexists. split; [done|]. cbn beta. rewrite EncodeKey_zscore_sdec, E by done. split; [done|]. split; [done|].
    exists kv, ttl, (delete mem idx). split; [cbn [set_db db]; rewrite Hd; by apply rows_index_delete|]. split.
    + intros mem' Hm. cbn in Hm. by rewrite lookup_delete_ne by congruence.
    + left. split; [done|]. split; [done|]. apply p_zset_index; [congruence|]. by rewrite lookup_delete_eq.
  - destruct Ho as (_ & Hsh & Hs). destruct (put_step (db x) (zrow zk s mem) []) as (d & E & Hd).
    do 3 eexists. split; [done|]. cbn beta. rewrite EncodeKey_zscore_sdec, E by done. split; [done|]. split; [done|].
    exists kv, ttl, (<[mem := s]> idx). split; [cbn [set_db db]; rewrite Hd; by apply rows_index_put|]. split.
    + intros mem' Hm. cbn in Hm. by rewrite lookup_insert_ne by congruence.
    + left. split; [done|]. split; [done|]. apply p_zset_score; [done|]. by rewrite lookup_insert_eq.
  - destruct Ho as (_ & _ & Hs). destruct (put_step (db x) (zset_key zk mem) (sdec s)) as (d & E & Hd).
    do 3 eexists. split; [done|]. cbn beta. rewrite E. split; [done|]. split; [done|].
    exists kv, (<[mem := s]> ttl), idx. split; [cbn [set_db db]; rewrite Hd; by apply rows_score_put|]. split.
    + intros mem' Hm. cbn in Hm. by rewrite lookup_insert_ne by congruence.
    + right. exists (RCode db_ok). cbn [abs_db]. rewrite decide_False by done. split; [done|]. split; [by left|].
      intros mem' [= <-]. by rewrite lookup_insert_eq.
  - pose proof (r_i64 _ _ _ _ _ Hr _ _ Ht) as Hs0. destruct (delete_step (db x) (zrow zk s0 mem)) as (d & E & Hd).
    do 3 eexists. split; [done|]. cbn beta. rewrite EncodeKey_zscore_sdec, E by done. split; [done|]. split; [done|].
    exists kv, ttl, (delete mem idx). split; [cbn [set_db db]; rewrite Hd; by apply rows_index_delete|]. split.
    + intros mem' Hm. cbn in Hm. by rewrite lookup_delete_ne by congruence.
    + left. split; [done|]. split; [done|]. apply (p_zdel_score _ _ _ s0); [done|]. by rewrite lookup_delete_eq.
  - destruct (delete_step (db x) (zset_key zk mem)) as (d & E & Hd).
    do 3 eexists. split; [done|]. cbn beta. rewrite E. split; [done|]. split; [done|].
    exists kv, (delete mem ttl), idx. split; [cbn [set_db db]; rewrite Hd; by apply rows_score_delete|]. split.
    + intros mem' Hm. cbn in Hm. by rewrite lookup_delete_ne by congruence.
    + right. exists (RCode db_ok). cbn [abs_db]. rewrite decide_False by congruence. split; [done|]. split; [by left|].
      intros mem' [= <-]. by rewrite lookup_delete_eq.
Qed.

(** ** All threads *)

(** Thread [t], when [h] is the order in which operations took effect and [l] that
    in which they returned. *)
Inductive thread_ok (ttl idx : gmap bytes Z) (t : nat) (h l : list (nat * dbop * dbres)) : @thread (xDataBase DB) dbop dbres -> Prop :=
| t_idle todo :
    entries t h = entries t l -> (forall mem, owner mem = t -> idx !! mem = ttl !! mem) -> thread_ok ttl idx t h l (Idle todo)
| t_pending o p todo :
    entries t h = entries t l -> pending ttl idx o p ->
    (forall mem, owner mem = t -> member_of o <> Some mem -> idx !! mem = ttl !! mem) -> thread_ok ttl idx t h l (Inside o p todo)
| t_settled o p r todo :
    entries t h = entries t l ++ [(t, o, r)] -> settled r p ->
    (forall mem, owner mem = t -> idx !! mem = ttl !! mem) -> thread_ok ttl idx t h l (Inside o p todo).

Lemma pending_frame ttl idx ttl' idx' o p :
  (forall mem, member_of o = Some mem -> ttl' !! mem = ttl !! mem /\ idx' !! mem = idx !! mem) -> pending ttl idx o p -> pending ttl' idx' o p.
Proof.
  intros Hm Hp. destruct Hp as [o Hi|mem s s0 Ht Hx Hne|mem s Ht Hx|mem s Ht Hx|mem s0 Ht Hx|mem s0 Ht Hx];
    [|destruct (Hm mem eq_refl) as [Et Ex] ..].
  - apply p_start. intros mem E. destruct (Hm _ E) as [-> ->]. auto.
  - apply p_zset_delete; congruence.
  - apply p_zset_index; congruence.
  - apply p_zset_score; congruence.
  - apply p_zdel_index; congruence.
  - apply (p_zdel_score _ _ _ s0); congruence.
Qed.

(** What another thread does leaves a thread as it is. *)
Lemma thread_frame ttl idx t h l th ttl' idx' h' l' :
  (forall o p todo, th = Inside o p todo -> op_fits t o) -> (forall mem, owner mem = t -> ttl' !! mem = ttl !! mem /\ idx' !! mem = idx !! mem) ->
  entries t h' = entries t h -> entries t l' = entries t l -> thread_ok ttl idx t h l th -> thread_ok ttl' idx' t h' l' th.
Proof.
  intros Hf Hm Eh El Ht. destruct Ht as [todo E Ha|o p todo E Hp Ha|o p r todo E Hp Ha].
  - apply t_idle; [congruence|]. intros mem Ho. destruct (Hm _ Ho) as [-> ->]. auto.
  - destruct (Hf _ _ _ eq_refl) as (_ & _ & Hown). apply t_pending; [congruence| |].
    + eapply pending_frame; [|done]. auto.
    + intros mem Ho. destruct (Hm _ Ho) as [-> ->]. auto.
  - eapply t_settled; [by rewrite Eh, El|done|]. intros mem Ho. destruct (Hm _ Ho) as [-> ->]. auto.
Qed.

Context (st0 : abs_store) (programs : list (list dbop)).

Definition ops_of (h : list (nat * dbop * dbres)) : list dbop := (fun e => e.1.2) <$> h.
Definition results_of (h : list (nat * dbop * dbres)) : list dbres := snd <$> h.

(** [h] explains the state: the operations that took effect, one after the other
    on two maps, returned what they return here and left what the rows hold. *)
Record explains (h : list (nat * dbop * dbres)) (s : system) : Prop := {
  ex_maps : exists kv ttl idx, rows zk (contents (db (object s))) kv ttl idx /\ etag_ok (object s) /\
    abs_dbs st0 (ops_of h) = (results_of h, (kv, ttl)) /\
    (forall t th, threads s !! t = Some th -> thread_ok ttl idx t h (log s) th) /\
    (forall mem, threads s !! owner mem = None -> idx !! mem = ttl !! mem);
  ex_order : forall t, (fun th => done_by t (log s) ++ rest th) <$> threads s !! t = programs !! t
}.

Lemma abs_dbs_snoc st os o :
  abs_dbs st (os ++ [o]) = ((abs_dbs st os).1 ++ [(abs_db (abs_dbs st os).2 o).1], (abs_db (abs_dbs st os).2 o).2).
Proof.
  revert st. induction os as [|o' os IH]; intros st; cbn [app abs_dbs].
  - cbn [fst snd]. by destruct (abs_db st o).
  - destruct (abs_db st o') as [r st']. rewrite IH. by destruct (abs_dbs st' os).
Qed.

Lemma fits_inside s h t o p todo :
  (forall t os, programs !! t = Some os -> Forall (op_fits t) os) -> explains h s -> threads s !! t = Some (Inside o p todo) -> op_fits t o.
Proof.
  intros Hp Hi Et. pose proof (ex_order _ _ Hi t) as Ho. rewrite Et in Ho. cbn [fmap option_fmap option_map rest] in Ho.
  specialize (Hp t _ (eq_sym Ho)). apply Forall_app in Hp as [_ Hp]. by inversion Hp.
Qed.

(** The threads after thread [t] changed what is its own. *)
Lemma others_ok s h t th' x' kv' ttl idx ttl' idx' h' l' :
  (forall t os, programs !! t = Some os -> Forall (op_fits t) os) -> explains h s ->
  (forall t th, threads s !! t = Some th -> thread_ok ttl idx t h (log s) th) -> (forall mem, threads s !! owner mem = None -> idx !! mem = ttl !! mem) ->
  (forall mem, owner mem <> t -> ttl' !! mem = ttl !! mem /\ idx' !! mem = idx !! mem) ->
  (forall u, u <> t -> entries u h' = entries u h /\ entries u l' = entries u (log s) /\ done_by u l' = done_by u (log s)) ->
  is_Some (threads s !! t) -> (forall th, threads s !! t = Some th -> done_by t l' ++ rest th' = done_by t (log s) ++ rest th) ->
  rows zk (contents (db x')) kv' ttl' idx' -> etag_ok x' -> abs_dbs st0 (ops_of h') = (results_of h', (kv', ttl')) ->
  thread_ok ttl' idx' t h' l' th' ->
  explains h' (MkSystem (mutex s) x' (<[t := th']> (threads s)) l').
Proof.
  intros Hp Hi Hth Hno Hm Hu [th Et] Hd Hr He Ha Hok. split.
  - exists kv', ttl', idx'. cbn [object threads log]. split; [done|]. split; [done|]. split; [done|]. split.
    + intros u thu Eu. destruct (decide (u = t)) as [->|Hne].
      * rewrite list_lookup_insert_eq in Eu by (by eapply lookup_lt_Some). by injection Eu as <-.
      * rewrite list_lookup_insert_ne in Eu by done. destruct (Hu u Hne) as (Eh & El & _).
        eapply (thread_frame ttl idx u h (log s) thu); [|intros mem Ho; apply Hm; congruence|done|done|by apply Hth].
        intros o p todo ->. by eapply fits_inside.
    + intros mem Ho. destruct (decide (owner mem = t)) as [E|Hne].
      * rewrite E, list_lookup_insert_eq in Ho by (by eapply lookup_lt_Some). done.
      * rewrite list_lookup_insert_ne in Ho by done. destruct (Hm mem Hne) as [-> ->]. auto.
  - eapply (order_step programs s _ t); [exact Et|done| |by apply Hd|by apply ex_order with (h := h)].
    intros u Hne. cbn [log]. by destruct (Hu u Hne) as (_ & _ & ?).
Qed.

Lemma step_explained t h s :
  zk <> [] -> (forall t os, programs !! t = Some os -> Forall (op_fits t) os) -> explains h s ->
  match free_turn (db_prog zk) t s with
  | Moves s' => exists h', explains h' s' /\ h `prefix_of` h'
  | Waits => True
  | Undefined => False
  end.
Proof.
  intros Hz Hp Hi. pose proof (ex_maps _ _ Hi) as (kv & ttl & idx & Hr & He & Ha & Hth & Hno). unfold free_turn.
  destruct (threads s !! t) as [[[|o todo]|o p todo]|] eqn:Et; [done| | |done].
  - exists h. split; [|done]. specialize (Hth _ _ Et) as Hok. inversion Hok as [? E Hag| |]; subst.
    eapply (others_ok s h t (Inside o (db_prog zk o) todo) (object s) kv ttl idx ttl idx h (log s)); try done.
    + intros th. rewrite Et. by intros [= <-].
    + apply t_pending; [done| |auto]. apply p_start. intros mem Hm. apply Hag.
      pose proof (ex_order _ _ Hi t) as Ho. rewrite Et in Ho. specialize (Hp t _ (eq_sym Ho)). apply Forall_app in Hp as [_ Hp].
      inversion Hp as [|? ? (_ & _ & Hown) _]; subst. auto.
  - pose proof (fits_inside s h t o p todo Hp Hi Et) as Hf. specialize (Hth _ _ Et) as Hok. inversion Hok as [|? ? ? E Hpe Hag|? ? r ? E Hse Hag]; subst.
    + destruct (pending_step t (object s) kv ttl idx o p Hz Hr He Hf Hpe) as (f & x' & p' & -> & -> & He' & kv' & ttl' & idx' & Hr' & Hm & Hcase).
      pose proof Hf as (_ & _ & Hown).
      assert (forall mem, owner mem <> t -> ttl' !! mem = ttl !! mem /\ idx' !! mem = idx !! mem) as Hm' by (intros mem Hne; apply Hm; intros Em%Hown; done).
      destruct Hcase as [(-> & -> & Hpe')|(r & Hab & Hse & Heq)].
      * exists h. split; [|done]. eapply (others_ok s h t _ x' kv ttl idx ttl idx' h (log s)); try done.
        -- intros th. rewrite Et. by intros [= <-].
        -- apply t_pending; [done|done|]. intros mem Ho Hne. destruct (Hm mem Hne) as [_ ->]. auto.
      * exists (h ++ [(t, o, r)]). split; [|by apply prefix_app_r].
        eapply (others_ok s h t _ x' kv' ttl idx ttl' idx' _ (log s)); try done.
        -- intros u Hne. rewrite entries_snoc. by destruct (Nat.eqb_spec t u).
        -- intros th. rewrite Et. by intros [= <-].
        -- unfold ops_of, results_of in *. rewrite !fmap_app. cbn [fmap list_fmap fst snd]. rewrite abs_dbs_snoc, Ha. cbn [fst snd]. by rewrite Hab.
        -- eapply t_settled; [by rewrite entries_snoc, Nat.eqb_refl, E|done|]. intros mem Ho.
           destruct (decide (member_of o = Some mem)) as [Em|Hne]; [auto|]. destruct (Hm mem Hne) as [-> ->]. auto.
    + destruct Hse as [->|(f & -> & Hf')].
      * exists h. split; [|done]. eapply (others_ok s h t (Idle todo) (object s) kv ttl idx ttl idx h (log s ++ [(t, o, r)])); try done.
        -- intros u Hne. rewrite entries_snoc, done_by_snoc. by destruct (Nat.eqb_spec t u).
        -- intros th. rewrite Et. intros [= <-]. by rewrite done_by_snoc, Nat.eqb_refl, <- app_assoc.
        -- apply t_idle; [|done]. by rewrite entries_snoc, Nat.eqb_refl, E.
      * destruct (Hf' _ He) as (x' & -> & Hd & He'). exists h. split; [|done].
        eapply (others_ok s h t _ x' kv ttl idx ttl idx h (log s)); try done.
        -- intros th. rewrite Et. by intros [= <-].
        -- by rewrite Hd.
        -- eapply t_settled; [done|by left|done].
Qed.

(** The orders explain every state of an execution and only grow. *)
Lemma exec_explained schedule h s :
  zk <> [] -> (forall t os, programs !! t = Some os -> Forall (op_fits t) os) -> explains h s ->
  exists H : nat -> list (nat * dbop * dbres), H O = h /\
    (forall n, exists s', free_exec (db_prog zk) (take n schedule) s = Some s' /\ explains (H n) s') /\
    (forall n, H n `prefix_of` H (S n)).
Proof.
  intros Hz Hp. revert h s. induction schedule as [|t schedule IH]; intros h s Hi.
  - exists (fun _ => h). split; [done|]. split; [|done]. intros n. exists s. by rewrite take_nil.
  - pose proof (step_explained t h s Hz Hp Hi) as Ht.
    assert (exists h1 s1, h `prefix_of` h1 /\ explains h1 s1 /\ forall l, free_exec (db_prog zk) (t :: l) s = free_exec (db_prog zk) l s1) as (h1 & s1 & Hpre & Hi1 & Hstep).
    { destruct (free_turn (db_prog zk) t s) as [s1| |] eqn:E; [|exists h, s; split_and!; [done|done|]|done].
      - destruct Ht as (h1 & ? & ?). exists h1, s1. split_and!; [done|done|]. intros l. cbn [free_exec]. by rewrite E.
      - intros l. cbn [free_exec]. by rewrite E. }
    destruct (IH h1 s1 Hi1) as (H1 & H10 & Hex & Hmono).
    exists (fun n => match n with O => h | S n => H1 n end). split; [done|]. split.
    + intros [|n]; [by exists s|]. cbn [take]. rewrite Hstep. apply Hex.
    + intros [|n]; [by rewrite H10|apply Hmono].
Qed.

Lemma start_explained x :
  db_rel (It := It) zk x st0.1 st0.2 -> explains [] (start x programs).
Proof.
  intros [Hr He]. split.
  - exists st0.1, st0.2, st0.2. cbn [start object threads log]. split; [by apply rows_store|]. split; [done|].
    split; [by destruct st0|]. split; [|done]. intros t th. rewrite list_lookup_fmap. destruct (programs !! t); [|done].
    intros [= <-]. by apply t_idle.
  - intros t. cbn [start threads log]. rewrite list_lookup_fmap. by destruct (programs !! t).
Qed.
End Linearizable.

(** C12. Threads share an [xDataBase] without a lock, and the score of each member is
    changed by one thread only.  They call any operations but [Flushall], which
    deletes row by row and is not linearizable ([flushall_is_seen_half_done]).
    However their calls to the storage engine interleave, nothing undefined happens
    and there is an order of
    the operations, growing as they take effect (so that it keeps the order of
    operations that do not overlap) and holding each thread's own in its order, in
    which the two maps of values and scores return to every operation what it
    returned; whenever nobody is inside an operation, the rows represent the maps
    that order leaves. *)
Theorem database_is_linearizable {DB It : Type} `{RocksDBSpec DB It} `{!RocksDBHealthy DB It} (zk : bytes)
    (owner : bytes -> nat) (x : xDataBase DB) kv ttl (programs : list (list dbop)) (schedule : list nat) :
  db_rel (It := It) zk x kv ttl -> zk <> [] -> (forall t os, programs !! t = Some os -> Forall (op_fits owner t) os) ->
  exists H : nat -> list (nat * dbop * dbres), H O = [] /\ forall n, H n `prefix_of` H (S n) /\
    exists s, free_exec (db_prog zk) (take n schedule) (start x programs) = Some s /\
    (abs_dbs (kv, ttl) (ops_of (H n))).1 = results_of (H n) /\
    (forall t th, threads s !! t = Some th ->
      entries t (H n) = entries t (log s) \/ exists o p todo r, th = Inside o p todo /\ entries t (H n) = entries t (log s) ++ [(t, o, r)]) /\
    (forall t, (fun th => done_by t (log s) ++ rest th) <$> threads s !! t = programs !! t) /\
    ((forall t o p todo, threads s !! t <> Some (Inside o p todo)) ->
      db_rel (It := It) zk (object s) (abs_dbs (kv, ttl) (ops_of (H n))).2.1 (abs_dbs (kv, ttl) (ops_of (H n))).2.2).
Proof.
  intros Hr Hz Hp. destruct (exec_explained zk owner (kv, ttl) programs schedule [] (start x programs) Hz Hp (start_explained zk owner (kv, ttl) programs x Hr))
    as (H' & H0' & Hex & Hmono).
  exists H'. split; [done|]. intros n. split; [apply Hmono|]. destruct (Hex n) as (s & E & [(kv' & ttl' & idx & Hrows & He & Ha & Hth & Hno) Ho]).
  exists s. split; [done|]. rewrite Ha. cbn [fst snd]. split; [done|]. split; [|split; [done|]].
  - intros t th Et. specialize (Hth _ _ Et). inversion Hth; subst; eauto 10.
  - intros Hidle. split; [|done]. apply rows_store. assert (idx = ttl') as <-; [|done]. apply map_eq. intros mem.
    destruct (threads s !! owner mem) as [th|] eqn:Et; [|auto]. specialize (Hth _ _ Et).
    destruct Hth as [todo _ Hag|o p todo|o p r todo]; [auto|by destruct (Hidle _ _ _ _ Et)..].
Qed.

(** ** Two threads *)

Definition writer_ops : list dbop := [DSet (Timeval 5 0) (lit "a") (lit "1"); DZset (lit "a") 7000; DZset (lit "a") 9000].
Definition reader_ops : list dbop := [DZget (lit "a"); DGet (lit "a"); DScanKey (lit "a") (lit "b") 10].

Lemma database_is_linearizable_witness :
  exists h s, free_exec (db_prog (It := MemStore.iter) (lit "expire")) (concat (replicate 16 [0; 1]%nat)) (start (mem_db ∅) [writer_ops; reader_ops]) = Some s /\
    (abs_dbs (∅, ∅) (ops_of h)).1 = results_of h /\ length (log s) = 6%nat.
Proof.
  destruct (database_is_linearizable (It := MemStore.iter) (lit "expire") (fun _ => 0%nat) (mem_db ∅) ∅ ∅ [writer_ops; reader_ops]
    (concat (replicate 16 [0; 1]%nat))) as (H & _ & Hn).
  - apply mem_db_empty.
  - discriminate.
  - intros t os Ht. destruct t as [|[|t]]; cbn in Ht; [injection Ht as <-|injection Ht as <-|discriminate];
      apply (bool_decide_eq_true_1 (Forall _ _)); vm_compute; reflexivity.
  - destruct (Hn 32%nat) as (_ & s & E & Hh & _). exists (H 32%nat), s. split; [exact E|]. split; [exact Hh|].
    assert (length ∘ log <$> free_exec (db_prog (It := MemStore.iter) (lit "expire")) (take 32 (concat (replicate 16 [0; 1]%nat)))
      (start (mem_db ∅) [writer_ops; reader_ops]) = Some 6%nat) as El by (vm_compute; reflexivity).
    rewrite E in El. cbn in El. injection El as El. exact El.
Defined.

(** Two threads that change the score of one member: [Zdel] (the expiration
    thread removing an expired key) finds the old score, then [Zset] (a client
    giving the key a new expiration) runs from start to end, then [Zdel] goes on.
    Both succeed, and the new index row is left without its score: the rows
    represent no maps at all, and every later process finds the row due and deletes the key
    again and again ([half_an_expiration_deletes_forever]). *)
Theorem racing_expirations_leave_an_orphan :
  free_exec (db_prog (It := MemStore.iter) (lit "expire")) [0; 0; 1; 1; 1; 1; 1; 1; 0; 0; 0]%nat
    (start demo_db [[DZdel (lit "a")]; [DZset (lit "a") 9000]])
  = Some (MkSystem None (mem_db (<[zrow (lit "expire") 9000 (lit "a") := []]> ∅)) [Idle []; Idle []]
      [(1%nat, DZset (lit "a") 9000, RCode db_ok); (0%nat, DZdel (lit "a"), RCode db_ok)]) /\
  forall kv ttl, ~ store_rel (lit "expire") (<[zrow (lit "expire") 9000 (lit "a") := []]> ∅) kv ttl.
Proof.
  split.
  2:{ intros kv ttl Hr. pose proof (sr_zrow _ _ _ _ Hr (lit "a") 9000) as Hx. pose proof (sr_zset _ _ _ _ Hr (lit "a")) as Hz.
      rewrite lookup_insert_eq in Hx. rewrite lookup_insert_ne, lookup_empty in Hz by done.
      destruct (decide (ttl !! lit "a" = Some 9000)) as [E|]; [by rewrite E in Hz|]. by specialize (Hx ltac:(unfold is_i64; lia)). }
  vm_cast_no_check (eq_refl (Some (MkSystem None (mem_db (<[zrow (lit "expire") 9000 (lit "a") := []]> ∅)) [Idle []; Idle []]
      [(1%nat, DZset (lit "a") 9000, RCode db_ok); (0%nat, DZdel (lit "a"), RCode db_ok)] : @system (xDataBase MemStore.store) dbop dbres))).
Qed.

(** A client reads [a] and then [b] while another one flushes them: it finds the
    first gone and the second still there, which no order of the three operations
    gives, for [Flushall] deletes row by row. *)
Definition two_keys : xDataBase MemStore.store :=
  mem_db (<[kv_key (lit "a") := xValue_encode (MkValue 5 (lit "1"))]> (<[kv_key (lit "b") := xValue_encode (MkValue 5 (lit "2"))]> ∅)).
Definition two_values : abs_store := (<[lit "a" := MkValue 5 (lit "1")]> (<[lit "b" := MkValue 5 (lit "2")]> ∅), ∅).

Theorem flushall_is_seen_half_done :
  log <$> free_exec (db_prog (It := MemStore.iter) (lit "expire")) [0; 0; 0; 1; 1; 1; 1; 1; 1; 1; 1]%nat
    (start two_keys [[DFlushall]; [DGet (lit "a"); DGet (lit "b")]])
  = Some [(1%nat, DGet (lit "a"), RValue db_null (MkValue 0 [])); (1%nat, DGet (lit "b"), RValue db_ok (MkValue 5 (lit "2")))] /\
  (fun ops => (abs_dbs two_values ops).1) <$> [[DFlushall; DGet (lit "a"); DGet (lit "b")]; [DGet (lit "a"); DFlushall; DGet (lit "b")];
    [DGet (lit "a"); DGet (lit "b"); DFlushall]]
  = [[RCode db_ok; RValue db_null (MkValue 0 []); RValue db_null (MkValue 0 [])];
     [RValue db_ok (MkValue 5 (lit "1")); RCode db_ok; RValue db_null (MkValue 0 [])];
     [RValue db_ok (MkValue 5 (lit "1")); RValue db_ok (MkValue 5 (lit "2")); RCode db_ok]].
Proof. split; vm_compute; reflexivity. Qed.
