(* ===== verification/LogRace.v ===== *)
(** [common/xLog.cpp] under threads.  [CLogger::logMessage] takes
    [_fileSizeMutex] only around the test of the size and the rotation; the
    message itself is written to [_fd] without it.

    A call is here the sequence of what it does to the logger and to the files,
    and other threads run in between: the beginning, up to where [_fd] is read as
    the argument of [writev]; the [writev]; what the mutex guards, as one step
    (also where the mutex of the list of files is taken). *)

From S2P Require Import Prelude Cstd Util Log LogSpec SortedSet MurmurHash2 EtagManager RocksDB DataBase DataBaseSpec Lock Concurrent.

Section Threads.
Context (can_open : bytes -> bool) (localtime : Z -> tm) (strftime : bytes -> tm -> option bytes).

Definition log_prog (level : Z) (file : bytes) (line : Z) (function text : bytes) (tv : timeval) (t : Z)
  : prog (CLogger * Disk) unit :=
  Act (fun '(l, d) =>
    if _level l <? level then Some ((l, d), Ret tt)
    else
      '(l, d) ← (if negb (_check l =? 0) && bool_decide (is_Some (_name l)) then checkFile can_open l d else Some (l, d));
      data ← trim_newlines (rev (take (Z.to_nat (max_log_size - 1)) text));
      head ← log_head level (localtime (tv_sec tv)) (tv_usec tv) file line function;
      head ← sent_head head;
      let fd := _fd l in
      Some ((l, d),
        Act (fun '(l, d) =>
          let d := writev fd (head ++ data ++ [x0a]) d in
          Some ((l, d),
            if _maxFileSize l =? 0 then Ret tt
            else
              Act (fun '(l, d) =>
                let offset := lseek_end (_fd l) d in
                if (0 <=? offset) && (_maxFileSize l <=? offset)
                then '(l, d) ← rotateLog can_open localtime strftime None None t l d; Some ((l, d), Ret tt)
                else Some ((l, d), Ret tt)))))).

(** A call that is not interrupted is [logMessage]. *)
Lemma run_log_prog level file line function text tv t l d :
  run (log_prog level file line function text tv t) (l, d) =
    '(l, d) ← logMessage can_open localtime strftime level file line function text tv t l d; Some ((l, d), tt).
Proof.
  unfold log_prog, logMessage. cbn [run]. destruct (_level l <? level); [done|].
  destruct (if negb (_check l =? 0) && _ then _ else _) as [[l1 d1]|]; cbn [mbind option_bind]; [|done].
  destruct (trim_newlines _) as [data|]; cbn [mbind option_bind]; [|done].
  destruct (log_head _ _ _ _ _ _) as [head|]; cbn [mbind option_bind]; [|done].
  destruct (sent_head head) as [head'|]; cbn [mbind option_bind run]; [|done].
  destruct (_maxFileSize l1 =? 0); cbn [run]; [done|]. destruct (_ && _); cbn [run]; [|done].
  by destruct (rotateLog _ _ _ _ _ _ _ _) as [[]|].
Qed.

Definition event_prog (e : Event) : prog (CLogger * Disk) unit :=
  log_prog (e_level e) (e_file e) (e_line e) (e_function e) (e_text e) (e_tv e) (e_t e).
End Threads.

(** Two threads log a message each.  The first has read [_fd] when the second
    writes its line and, the file being full, rotates the log: the descriptor is
    closed (or is a connection's by now), and the line of the first is in neither
    file. *)
Definition first_line : Event := MkEvent 2 (lit "a.cpp") 7 (lit "main") (lit "first") (Timeval 1 0) 1.
Definition second_line : Event := MkEvent 2 (lit "a.cpp") 9 (lit "main") (lit "second") (Timeval 1 0) 1.

Theorem rotation_loses_a_line :
  (fun s => (text_of (object s).2 (lit "x.log"), text_of (object s).2 (lit "x.log.20150101000001"), (fun e => e_text e.1.2) <$> log s)) <$>
    free_exec (event_prog any_file demo_time no_strftime) [0; 0; 1; 1; 1; 1; 1; 0; 0; 0]%nat
      (start demo_start [[first_line]; [second_line]])
  = Some ([], line_of demo_time 3 second_line, [lit "second"; lit "first"]).
Proof. vm_compute. reflexivity. Qed.
