(* ===== verification/RedisServerLib.v ===== *)
(** [common/xRedisServerLib.h] and [common/xRedisServerLib.cpp]: the connections
    of the Redis-protocol server, the incremental parser of requests, the
    command table and the replies.

    Libevent is outside the model: a connection keeps the bytes its input
    buffer holds ([input]) and an operation returns the bytes it hands to
    [bufferevent_write].  Allocation does not fail, except for the impossible
    sizes that a negative count asks for.  [None] is undefined behaviour. *)

From S2P Require Import Prelude Cstd.

Definition CR : byte := x0d.
Definition LF : byte := x0a.
Definition CRLF : bytes := [CR; LF].

Definition TIMEOUT_CLOSE : Z := 3600.
Definition CMD_CALLBACK_MAX : nat := 64.
Definition INT_MAX : Z := 2 ^ 31 - 1.

(** [class xRedisConnectorBase]: [argv] is [None] while the pointer is NULL and
    otherwise holds the arguments read so far. *)
Record xRedisConnectorBase := MkConn {
  argv : option (list bytes);
  argnum : Z;
  parsed : Z;
  cmdbuffer : bytes;
  activetime : Z;
  sid : Z;
  input : bytes
}.

Definition argc (c : xRedisConnectorBase) : Z := Z.of_nat (length (default [] (argv c))).

Definition conn_new (now id : Z) : xRedisConnectorBase := MkConn None 0 0 [] (u32 now) id [].

(** [cmdbuffer.erase(0, parsed)] *)
Definition FreeArg (c : xRedisConnectorBase) : xRedisConnectorBase :=
  MkConn None 0 0 (drop (Z.to_nat (parsed c)) (cmdbuffer c)) (activetime c) (sid c) (input c).

Definition OnTimer (c : xRedisConnectorBase) (now : Z) : bool :=
  if TIMEOUT_CLOSE <? now - activetime c then false else true.

(** ** Parsing requests *)

(** The copy loop of [ParaseLength] into [char tmp[11]]; [i] indexes both the
    text and [tmp], a write past the array is undefined. *)
Fixpoint length_loop (ptr : bytes) (i : nat) (tmp : bytes) : option (nat * bytes) :=
  match ptr with
  | [] => None
  | b :: ptr =>
      if decide (b = LF) then Some (i, tmp)
      else if decide (b = CR) then length_loop ptr (S i) tmp
      else if (i <? 11)%nat then length_loop ptr (S i) (<[i := b]> tmp)
      else None
  end.

(** The consumed length and [head_count], which stays 0 when nothing is read.
    [strtol] needs a terminated string. *)
Definition ParaseLength (ptr : bytes) (size : Z) : option (Z * Z) :=
  match find_first (fun b => bool_decide (b = LF)) (take (Z.to_nat size) ptr) with
  | None => Some (0, 0)
  | Some _ =>
      '(i, tmp) ← length_loop (drop 1 ptr) 0 (replicate 11 x00);
      if bool_decide (x00 ∈ tmp) then
        let head_count := i32 (st_value (strtoll tmp)) in
        if 0 =? head_count then Some (0, head_count)
        else Some (Z.of_nat i + 2, head_count)
      else None
  end.

(** [argv[argc++] = sdsnewlen(ptr, len)]: a NULL [argv] or a negative length is
    undefined. *)
Definition push_arg (c : xRedisConnectorBase) (a : bytes) : option xRedisConnectorBase :=
  l ← argv c;
  Some (MkConn (Some (l ++ [a])) (argnum c - 1) (parsed c) (cmdbuffer c) (activetime c) (sid c) (input c)).

Definition ParaseData (c : xRedisConnectorBase) (ptr : bytes) (size : Z)
  : option (Z * xRedisConnectorBase) :=
  if negb (bool_decide (nth 0 ptr x00 = "$"%byte)) then Some (0, c)
  else
    '(ret, len) ← ParaseLength ptr size;
    if ret =? 0 then Some (0, c)
    else
      let ptr := drop (Z.to_nat ret) ptr in
      let size := size - ret in
      if INT_MAX <? len + 2 then None
      else if size <? len + 2 then Some (0, c)
      else if len <? 0 then None
      else
        c ← push_arg c (take (Z.to_nat len) ptr);
        Some (ret + len + 2, c).

Definition add_parsed (c : xRedisConnectorBase) (p : Z) : xRedisConnectorBase :=
  MkConn (argv c) (argnum c) (parsed c + p) (cmdbuffer c) (activetime c) (sid c) (input c).

(** [while (argnum > 0)]: every turn but the last consumes input. *)
Fixpoint parse_args (fuel : nat) (c : xRedisConnectorBase) (ptr : bytes) (size : Z)
  : option xRedisConnectorBase :=
  match fuel with
  | O => Some c
  | S fuel =>
      if 0 <? argnum c then
        '(p, c) ← ParaseData c ptr size;
        if p =? 0 then Some c
        else parse_args fuel (add_parsed c p) (drop (Z.to_nat p) ptr) (size - p)
      else Some c
  end.

(** [argv = malloc(sizeof(sds) * argnum)]: NULL for a negative count. *)
Definition start_args (c : xRedisConnectorBase) (num pos : Z) : xRedisConnectorBase :=
  MkConn (if num <? 0 then None else Some []) num (parsed c + pos) (cmdbuffer c) (activetime c) (sid c) (input c).

Definition set_active (c : xRedisConnectorBase) (now : Z) : xRedisConnectorBase :=
  MkConn (argv c) (argnum c) (parsed c) (cmdbuffer c) (u32 now) (sid c) (input c).

(** ** Replies *)

(** [vsnprintf] into [char szBuf[256]], then a write of the length it would
    have needed: more than 256 bytes is a read past the array. *)
Definition NetPrintf (text : bytes) : option bytes :=
  if (length text <=? 255)%nat then Some text
  else if (length text =? 256)%nat then Some (take 255 text ++ [x00])
  else None.

Definition SendStatusReply (s : bytes) : option bytes := NetPrintf (lit "+" ++ cstr s ++ CRLF).
Definition SendNullReply : option bytes := NetPrintf (lit "$-1" ++ CRLF).
Definition SendErrReply (errtype errmsg : bytes) : option bytes :=
  NetPrintf (lit "-" ++ cstr errtype ++ lit " " ++ cstr errmsg ++ CRLF).
Definition SendIntReply (ret : Z) : option bytes := NetPrintf (lit ":" ++ sdec ret ++ CRLF).

Definition SendBulkReply (s : bytes) : option bytes :=
  h ← NetPrintf (lit "$" ++ udec (Z.of_nat (length s)) ++ CRLF);
  Some (h ++ s ++ CRLF).

Fixpoint send_bulks (l : list bytes) : option bytes :=
  match l with
  | [] => Some []
  | s :: l => a ← SendBulkReply s; b ← send_bulks l; Some (a ++ b)
  end.

Definition SendMultiBulkReply (l : list bytes) : option bytes :=
  h ← NetPrintf (lit "*" ++ udec (Z.of_nat (length l)) ++ CRLF);
  b ← send_bulks l;
  Some (h ++ b).

(** ** Commands *)

Section Server.
(** The state the command handlers act on. *)
Context {St : Type}.

(** A handler gets the arguments and gives the bytes it sends. *)
Definition CmdCallback : Type := list bytes -> St -> option (bytes * St).

(** [mCmdTables]: the entries in use, in order. *)
Definition CmdTable : Type := list (bytes * CmdCallback).

Definition SetCmdTable (t : CmdTable) (cmd : bytes) (fun_ : CmdCallback) : bool * CmdTable :=
  if (CMD_CALLBACK_MAX <=? length t)%nat then (false, t) else (true, t ++ [(cmd, fun_)]).

(** The search stops at an unused entry; a full table has none. *)
Fixpoint table_search (t : CmdTable) (cmd : bytes) : option CmdCallback :=
  match t with
  | [] => None
  | (c, f) :: t => if strcasecmp_eq c cmd then Some f else table_search t cmd
  end.

Definition GetCmdProcessFun (t : CmdTable) (cmd : bytes) : option (option CmdCallback) :=
  match table_search t cmd with
  | Some f => Some (Some f)
  | None => if (length t <? CMD_CALLBACK_MAX)%nat then Some None else None
  end.

(** What a request does apart from the connection. *)
Definition run_cmd (t : CmdTable) (args : list bytes) (st : St) : option (bytes * St) :=
  name ← head args;
  cmd ← GetCmdProcessFun t name;
  match cmd with
  | Some cb => cb args st
  | None => out ← SendErrReply name (lit "not suport"); Some (out, st)
  end.

Definition DoCmd (t : CmdTable) (c : xRedisConnectorBase) (st : St)
  : option (bytes * xRedisConnectorBase * St) :=
  args ← argv c;
  '(out, st) ← run_cmd t args st;
  Some (out, FreeArg c, st).

Definition finish_cmd (t : CmdTable) (c : xRedisConnectorBase) (st : St)
  : option (bool * bytes * xRedisConnectorBase * St) :=
  if argnum c =? 0 then '(out, c, st) ← DoCmd t c st; Some (true, out, c, st)
  else Some (false, [], c, st).

(** With [argnum] 0 and a non-NULL [argv], [FreeArg] would erase the buffer
    that is being read: undefined, and never reached. *)
Definition ProcessCmd (t : CmdTable) (now : Z) (c : xRedisConnectorBase) (st : St)
  : option (bool * bytes * xRedisConnectorBase * St) :=
  let c := set_active c now in
  let size := i32 (Z.of_nat (length (cmdbuffer c))) in
  if 0 =? size then Some (false, [], c, st)
  else
    let ptr := drop (Z.to_nat (parsed c)) (cmdbuffer c) in
    let size := size - parsed c in
    if argnum c =? 0 then
      if bool_decide (nth 0 ptr x00 = "*"%byte) then
        '(pos, num) ← ParaseLength ptr size;
        if 0 =? pos then Some (false, [], c, st)
        else
          match argv c with
          | Some _ => None
          | None =>
              let ptr := drop (Z.to_nat pos) ptr in
              c ← parse_args (S (length ptr)) (start_args c num pos) ptr (size - pos);
              finish_cmd t c st
          end
      else Some (false, [], c, st)
    else
      c ← parse_args (S (length ptr)) c ptr size;
      finish_cmd t c st.

(** [while (ProcessCmd(pConnector))]: every command erases its text. *)
Fixpoint process_loop (fuel : nat) (t : CmdTable) (now : Z) (c : xRedisConnectorBase) (st : St)
  : option (bytes * xRedisConnectorBase * St) :=
  match fuel with
  | O => Some ([], c, st)
  | S fuel =>
      '(b, out, c, st) ← ProcessCmd t now c st;
      if (b : bool) then
        '(out', c, st) ← process_loop fuel t now c st;
        Some (out ++ out', c, st)
      else Some (out, c, st)
  end.

(** [data] has arrived in the input buffer.  A single byte is left there. *)
Definition ReadCallback (t : CmdTable) (now : Z) (c : xRedisConnectorBase) (data : bytes) (st : St)
  : option (bytes * xRedisConnectorBase * St) :=
  let inp := input c ++ data in
  let c :=
    if (length inp <? 2)%nat
    then MkConn (argv c) (argnum c) (parsed c) (cmdbuffer c) (activetime c) (sid c) inp
    else MkConn (argv c) (argnum c) (parsed c) (cmdbuffer c ++ inp) (activetime c) (sid c) [] in
  if bool_decide (cmdbuffer c = []) then Some ([], c, st)
  else process_loop (S (length (cmdbuffer c))) t now c st.

(** Data arriving in several pieces. *)
Fixpoint feed (t : CmdTable) (now : Z) (c : xRedisConnectorBase) (chunks : list bytes) (st : St)
  : option (bytes * xRedisConnectorBase * St) :=
  match chunks with
  | [] => Some ([], c, st)
  | d :: chunks =>
      '(out, c, st) ← ReadCallback t now c d st;
      '(out', c, st) ← feed t now c chunks st;
      Some (out ++ out', c, st)
  end.

(** ** Connections *)

(** [class xRedisServerBase] without libevent. *)
Record xRedisServerBase := MkServer {
  connectionmap : gmap Z xRedisConnectorBase;
  sessionbase : Z;
  mCmdTables : CmdTable
}.

Definition server_new : xRedisServerBase := MkServer ∅ 1000 [].

(** [connectionmap.insert] keeps an entry that is there. *)
Definition MallocConnection (s : xRedisServerBase) (now : Z) : xRedisServerBase :=
  let id := sessionbase s in
  MkServer
    (match connectionmap s !! id with
     | Some _ => connectionmap s
     | None => <[id := conn_new now id]> (connectionmap s)
     end)
    (u32 (id + 1)) (mCmdTables s).

(** A connection is waiting: [fd] is what [accept] returned. *)
Definition AcceptCallback (s : xRedisServerBase) (fd now : Z) : xRedisServerBase :=
  if fd <? 0 then s else MallocConnection s now.

Definition FindConnection (s : xRedisServerBase) (id : Z) : option xRedisConnectorBase :=
  connectionmap s !! id.

Definition FreeConnection (s : xRedisServerBase) (id : Z) : bool * xRedisServerBase :=
  match connectionmap s !! id with
  | None => (false, s)
  | Some _ => (true, MkServer (delete id (connectionmap s)) (sessionbase s) (mCmdTables s))
  end.

(** The timer of connection [id] fires: it is set again ([true]) or the
    connection is closed. *)
Definition TimeoutCallback (s : xRedisServerBase) (id now : Z) : bool * xRedisServerBase :=
  match connectionmap s !! id with
  | None => (false, s)
  | Some c => if OnTimer c now then (true, s) else (false, (FreeConnection s id).2)
  end.

(** Every event [ErrorCallback] gets closes the connection. *)
Definition ErrorCallback (s : xRedisServerBase) (id : Z) : xRedisServerBase :=
  (FreeConnection s id).2.

End Server.

Arguments CmdCallback : clear implicits.
Arguments CmdTable : clear implicits.
Arguments xRedisServerBase : clear implicits.
