(* ===== verification/RedisServerLibSpec.v ===== *)
(** What the request parser of [xRedisServerLib.cpp] promises: the commands a
    client encodes are executed in order whatever pieces they arrive in, the
    connection's bookkeeping stays consistent on any input, and the inputs on
    which it does not work. *)

From S2P Require Import Prelude Cstd RedisServerLib.

(** ** Requests, as clients write them *)

Definition enc_head (t : byte) (n : nat) : bytes := t :: udec (Z.of_nat n) ++ CRLF.
Definition enc_bulk (a : bytes) : bytes := enc_head "$" (length a) ++ a ++ CRLF.
Definition enc_args (l : list bytes) : bytes := concat (enc_bulk <$> l).
Definition enc_cmd (l : list bytes) : bytes := enc_head "*" (length l) ++ enc_args l.
Definition enc_cmds (l : list (list bytes)) : bytes := concat (enc_cmd <$> l).

(** A request with at least one argument and no empty ones. *)
Definition cmd_ok (l : list bytes) : Prop := l <> [] /\ Forall (fun a => a <> []) l.

(** ** Lengths *)

Lemma udec_digits n : Forall (fun b => isdigit b = true) (udec (Z.of_nat n)).
Proof. apply udec_spec. lia. Qed.

Lemma length_udec_int n : Z.of_nat n < 2 ^ 31 -> (length (udec (Z.of_nat n)) <= 10)%nat.
Proof.
  intros Hn. unfold udec.
  pose proof (length_udec_aux (S (Z.to_nat (Z.log2 (Z.of_nat n)))) 9 (Z.of_nat n) []) as H.
  cbn [length] in H. change (10 ^ Z.of_nat 10) with 10000000000 in H. lia.
Qed.

Lemma length_loop_digits ds rest done k :
  Forall (fun b => isdigit b = true) ds -> (length done + k = 11)%nat -> (length ds < k)%nat ->
  length_loop (ds ++ CRLF ++ rest) (length done) (done ++ replicate k x00)
  = Some ((length done + length ds + 1)%nat, done ++ ds ++ replicate (k - length ds) x00).
Proof.
  intros Hds. revert done k. induction Hds as [|b ds Hb Hds IH]; intros done k Hk Hlt.
  - cbn [app length]. unfold CRLF. cbn [app length_loop].
    rewrite (decide_False (P := CR = LF)), !decide_True by done. f_equal. f_equal; [lia|].
    by rewrite Nat.sub_0_r.
  - cbn [app length_loop length] in *. rewrite !decide_False by (intros ->; done).
    destruct (Nat.ltb_spec (length done) 11); [|lia].
    destruct k as [|k]; [lia|]. cbn [replicate].
    replace (<[length done := b]> (done ++ x00 :: replicate k x00)) with ((done ++ [b]) ++ replicate k x00).
    2:{ rewrite <- (Nat.add_0_r (length done)) at 1. rewrite insert_app_r, <- app_assoc. done. }
    replace (S (length done)) with (length (done ++ [b])) by (rewrite length_app; cbn; lia).
    rewrite IH by (rewrite ?length_app; cbn [length]; lia).
    rewrite length_app. cbn [length]. f_equal. f_equal; [lia|]. rewrite <- app_assoc. done.
Qed.

Lemma head_no_LF t n p q :
  t <> LF -> enc_head t n = p ++ q -> q <> [] -> LF ∉ p.
Proof.
  intros Ht E Hq. destruct q as [|y q _] using rev_ind; [done|]. unfold enc_head, CRLF in E.
  change (t :: udec (Z.of_nat n) ++ [CR; LF]) with ((t :: udec (Z.of_nat n)) ++ [CR] ++ [LF]) in E.
  rewrite !app_assoc in E. apply app_inj_tail in E as [E _].
  assert (LF ∉ p ++ q) as Hn; [|set_solver]. rewrite <- E.
  rewrite elem_of_app, elem_of_cons, list_elem_of_singleton. intros [[Hl|Hl]|Hl]; [by subst| |done].
  pose proof (udec_digits n) as Hd. rewrite Forall_forall in Hd. by specialize (Hd _ Hl).
Qed.

Lemma find_first_in P s b : b ∈ s -> P b = true -> is_Some (find_first P s).
Proof.
  intros Hin Hb. induction s as [|b' s IH]; [set_solver|]. cbn [find_first].
  destruct (P b') eqn:E; [by eexists|]. apply elem_of_cons in Hin as [->|Hin]; [congruence|].
  destruct (IH Hin) as [i ->]. by eexists.
Qed.

(** A complete header is read, whatever follows; a part of one is not. *)
Lemma ParaseLength_head t n rest :
  (0 < n)%nat -> Z.of_nat n < 2 ^ 31 -> t <> LF ->
  ParaseLength (enc_head t n ++ rest) (Z.of_nat (length (enc_head t n ++ rest)))
  = Some (Z.of_nat (length (enc_head t n)), Z.of_nat n).
Proof.
  intros H0 Hn Ht. unfold ParaseLength. rewrite Nat2Z.id, firstn_all.
  destruct (find_first_in (fun b => bool_decide (b = LF)) (enc_head t n ++ rest) LF) as [i ->].
  { unfold enc_head, CRLF. set_solver. } { by apply bool_decide_true. }
  unfold enc_head. rewrite <- app_comm_cons, <- app_assoc. change (drop 1 (?x :: ?l)) with l. cbn [drop].
  pose proof (length_udec_int n Hn) as Hl. pose proof (udec_digits n) as Hd.
  pose proof (length_loop_digits (udec (Z.of_nat n)) rest [] 11 Hd) as E. cbn [app length] in E.
  rewrite E by lia. cbn [mbind option_bind].
  rewrite bool_decide_true.
  2:{ apply elem_of_app. right. apply elem_of_replicate. split; [done|lia]. }
  assert (udec (Z.of_nat n) = sdec (Z.of_nat n)) as Es.
  { unfold sdec. by destruct (Z.ltb_spec (Z.of_nat n) 0); [lia|]. }
  set (z := replicate _ x00).
  assert (i32 (st_value (strtoll (udec (Z.of_nat n) ++ z))) = Z.of_nat n) as ->.
  { rewrite Es, strtoll_sdec; [by apply i32_id; unfold is_i32; cbn; lia|unfold is_i64; lia|].
    subst z. by destruct (11 - length (udec (Z.of_nat n)))%nat. }
  destruct (Z.eqb_spec 0 (Z.of_nat n)); [lia|]. f_equal. f_equal.
  cbn [length]. rewrite length_app. cbn [CRLF length]. lia.
Qed.

Lemma ParaseLength_part p size : LF ∉ p -> ParaseLength p size = Some (0, 0).
Proof.
  intros Hn. unfold ParaseLength. rewrite find_first_None; [done|].
  apply Forall_forall. intros b Hb. apply bool_decide_false. intros ->.
  apply elem_of_take in Hb as (i & Hb%list_elem_of_lookup_2 & _). done.
Qed.

(** A text that arrives in order contains all of [h] or lacks some of it. *)
Lemma prefix_cases (p f h r : bytes) :
  p ++ f = h ++ r ->
  (exists q, p = h ++ q /\ r = q ++ f) \/ (exists h', h' <> [] /\ h = p ++ h' /\ f = h' ++ r).
Proof.
  intros E. apply app_eq_inv in E as [?|(k & -> & ->)]; [by left|].
  destruct k as [|b k]; [left|right].
  - exists []. by rewrite !app_nil_r.
  - by exists (b :: k).
Qed.

(** ** One argument *)

Definition pushed (c : xRedisConnectorBase) (a : bytes) (done : list bytes) : xRedisConnectorBase :=
  MkConn (Some (done ++ [a])) (argnum c - 1) (parsed c) (cmdbuffer c) (activetime c) (sid c) (input c).

(** The header of an argument has been received, and [q] after it. *)
Lemma ParaseData_head c (a q : bytes) done :
  a <> [] -> argv c = Some done ->
  Z.of_nat (length (enc_head "$" (length a)) + (length a + 2)) < 2 ^ 31 ->
  ParaseData c (enc_head "$" (length a) ++ q) (Z.of_nat (length (enc_head "$" (length a) ++ q)))
  = if (length q <? length a + 2)%nat then Some (0, c)
    else Some (Z.of_nat (length (enc_head "$" (length a))) + Z.of_nat (length a) + 2,
               pushed c (take (length a) q) done).
Proof.
  intros Ha Hv Hlen. assert ((0 < length a)%nat) as Ha' by (destruct a; [done|cbn; lia]).
  unfold ParaseData. change (nth 0 (enc_head "$" (length a) ++ q) x00) with "$"%byte.
  rewrite bool_decide_true by done. cbn [negb].
  rewrite ParaseLength_head by (done || lia). cbn [mbind option_bind].
  destruct (Z.eqb_spec (Z.of_nat (length (enc_head "$" (length a)))) 0); [done|].
  rewrite !Nat2Z.id, drop_app_length, length_app.
  replace (Z.of_nat (length (enc_head "$" (length a)) + length q) - Z.of_nat (length (enc_head "$" (length a))))
    with (Z.of_nat (length q)) by lia. unfold INT_MAX.
  destruct (Z.ltb_spec (2 ^ 31 - 1) (Z.of_nat (length a) + 2)); [lia|].
  destruct (Nat.ltb_spec (length q) (length a + 2)).
  - by destruct (Z.ltb_spec (Z.of_nat (length q)) (Z.of_nat (length a) + 2)); [|lia].
  - destruct (Z.ltb_spec (Z.of_nat (length q)) (Z.of_nat (length a) + 2)); [lia|].
    destruct (Z.ltb_spec (Z.of_nat (length a)) 0); [lia|].
    unfold push_arg. rewrite Hv. done.
Qed.

Lemma ParaseData_spec c p f a rest done :
  p ++ f = enc_bulk a ++ rest -> a <> [] -> argv c = Some done -> Z.of_nat (length (enc_bulk a)) < 2 ^ 31 ->
  (exists q, p = enc_bulk a ++ q /\ rest = q ++ f /\
     ParaseData c p (Z.of_nat (length p)) = Some (Z.of_nat (length (enc_bulk a)), pushed c a done)) \/
  ((length p < length (enc_bulk a))%nat /\ f <> [] /\ ParaseData c p (Z.of_nat (length p)) = Some (0, c)).
Proof.
  intros E Ha Hv Hlen. unfold enc_bulk in E, Hlen. rewrite <- app_assoc in E. rewrite !length_app in Hlen.
  assert ((0 < length a)%nat) as Ha' by (destruct a; [done|cbn; lia]).
  cbn [CRLF length] in Hlen.
  apply prefix_cases in E as [(q & -> & E)|(h & Hh & Eh & ->)].
  2:{ right. split_and!.
    - unfold enc_bulk. rewrite Eh, !length_app. destruct h; [done|cbn [length]; lia].
    - by destruct h.
    - unfold ParaseData. destruct p as [|b p]; [done|].
      assert (b = "$"%byte) as -> by (unfold enc_head in Eh; by injection Eh).
      rewrite bool_decide_true by done. cbn [negb].
      by rewrite ParaseLength_part by by apply (head_no_LF "$" (length a) _ h). }
  pose proof (ParaseData_head c a q done Ha Hv Hlen) as Hgen.
  destruct (Nat.ltb_spec (length q) (length a + 2)) as [Hq|Hq].
  - right. split_and!; [|..|exact Hgen].
    + unfold enc_bulk. rewrite !length_app. cbn [CRLF length]. lia.
    + intros ->. rewrite app_nil_r in E. apply (f_equal length) in E. rewrite !length_app in E.
      cbn [CRLF length] in E. lia.
  - left. symmetry in E. apply prefix_cases in E as [(r & -> & Er)|(h & Hh & Er & _)].
    + exists r. split; [unfold enc_bulk; by rewrite !app_assoc|]. split; [done|].
      rewrite Hgen, <- app_assoc, take_app_length. unfold enc_bulk. rewrite !length_app. cbn [CRLF length].
      do 2 f_equal. lia.
    + apply (f_equal length) in Er. rewrite !length_app in Er. cbn [CRLF length] in Er.
      destruct h; [done|cbn [length] in Er; lia].
Qed.

(** ** All the arguments that have arrived *)

Definition advanced (c : xRedisConnectorBase) (l : list bytes) (n p : Z) : xRedisConnectorBase :=
  MkConn (Some l) n (parsed c + p) (cmdbuffer c) (activetime c) (sid c) (input c).

Lemma enc_args_cons a l : enc_args (a :: l) = enc_bulk a ++ enc_args l.
Proof. done. Qed.

Lemma enc_args_app l1 l2 : enc_args (l1 ++ l2) = enc_args l1 ++ enc_args l2.
Proof. unfold enc_args. by rewrite fmap_app, concat_app. Qed.

Lemma enc_bulk_pos a : (0 < length (enc_bulk a))%nat.
Proof. unfold enc_bulk, enc_head. cbn [app length]. lia. Qed.

Lemma parse_args_spec left : forall fuel c p f rest done,
  p ++ f = enc_args left ++ rest -> Forall (fun a => a <> []) left ->
  Z.of_nat (length (enc_args left)) < 2 ^ 31 ->
  argv c = Some done -> argnum c = Z.of_nat (length left) -> (length p < fuel)%nat ->
  exists l1 l2 q, left = l1 ++ l2 /\ p = enc_args l1 ++ q /\ q ++ f = enc_args l2 ++ rest /\
    (f = [] -> l2 = []) /\
    parse_args fuel c p (Z.of_nat (length p))
    = Some (advanced c (done ++ l1) (Z.of_nat (length l2)) (Z.of_nat (length (enc_args l1)))).
Proof.
  induction left as [|a left IH]; intros fuel c p f rest done E Hne Hlen Hv Hnum Hf;
    (destruct fuel as [|fuel]; [lia|]); cbn [parse_args]; rewrite Hnum.
  - exists [], [], p. split_and!; [done..|]. cbn [length Z.of_nat Z.ltb Z.compare]. cbn.
    rewrite app_nil_r. unfold advanced. rewrite Z.add_0_r. destruct c; cbn in *. by subst.
  - destruct (Z.ltb_spec 0 (Z.of_nat (length (a :: left)))); [|cbn [length] in *; lia].
    inversion Hne as [|? ? Ha Hne']; subst. rewrite enc_args_cons, <- app_assoc in E.
    rewrite enc_args_cons, length_app in Hlen.
    destruct (ParaseData_spec c p f a (enc_args left ++ rest) done E Ha Hv) as
      [(q & -> & Eq & ->)|(Hshort & Hf' & ->)]; [lia| |]; cbn [mbind option_bind].
    + pose proof (enc_bulk_pos a). destruct (Z.eqb_spec (Z.of_nat (length (enc_bulk a))) 0); [lia|].
      rewrite Nat2Z.id, drop_app_length, length_app.
      replace (Z.of_nat (length (enc_bulk a) + length q) - Z.of_nat (length (enc_bulk a)))
        with (Z.of_nat (length q)) by lia.
      destruct (IH fuel (add_parsed (pushed c a done) (Z.of_nat (length (enc_bulk a)))) q f rest (done ++ [a]))
        as (l1 & l2 & q' & -> & -> & E' & Hfl & ->).
      * done.
      * done.
      * lia.
      * done.
      * cbn [add_parsed pushed argnum]. rewrite Hnum. cbn [length]. lia.
      * rewrite length_app in Hf. lia.
      * exists (a :: l1), l2, q'. split_and!; [done| |done|done|].
        { by rewrite enc_args_cons, <- app_assoc. }
        unfold advanced, add_parsed, pushed. cbn [parsed cmdbuffer activetime sid input].
        rewrite <- app_assoc, enc_args_cons, length_app, Nat2Z.inj_add, Z.add_assoc. done.
    + rewrite Z.eqb_refl. exists [], (a :: left), p. split_and!; [done|done| |done|].
      { by rewrite enc_args_cons, <- app_assoc. }
      rewrite app_nil_r. unfold advanced. change (Z.of_nat (length (enc_args []))) with 0.
      rewrite Z.add_0_r. rewrite <- Hnum. destruct c; cbn in *. by subst.
Qed.

(** ** Whole requests *)

Section Server.
Context {St : Type} (t : CmdTable St) (now : Z).

(** The connection [c] has read part of the encoding of [cmds], and [f] is the
    part that has not arrived.  Between requests nothing is kept; within one,
    some arguments have been read. *)
Inductive awaiting (c : xRedisConnectorBase) (f : bytes) (cmds : list (list bytes)) : Prop :=
| await_start : argv c = None -> argnum c = 0 -> parsed c = 0 ->
    cmdbuffer c ++ f = enc_cmds cmds -> awaiting c f cmds
| await_args done left later : left <> [] -> cmds = (done ++ left) :: later ->
    argv c = Some done -> argnum c = Z.of_nat (length left) ->
    0 < parsed c <= Z.of_nat (length (cmdbuffer c)) ->
    drop (Z.to_nat (parsed c)) (cmdbuffer c) ++ f = enc_args left ++ enc_cmds later ->
    awaiting c f cmds.

(** One turn of [ProcessCmd] waits for more input, which is then missing, or
    executes the first request and erases it. *)
Definition turn (c : xRedisConnectorBase) (st : St) (f : bytes) (cmds : list (list bytes))
    (r : option (bool * bytes * xRedisConnectorBase * St)) : Prop :=
  (exists c', r = Some (false, [], c', st) /\ awaiting c' f cmds /\ input c' = input c /\
     cmdbuffer c' = cmdbuffer c /\ (f = [] -> cmds = [])) \/
  (exists args later c', cmds = args :: later /\ awaiting c' f later /\ input c' = input c /\
     (length (cmdbuffer c') < length (cmdbuffer c))%nat /\
     r = ('(out, st') ← run_cmd t args st; Some (true, out, c', st'))).

Lemma finish_spec c st f (done l1 l2 : list bytes) later c0 (P : Z) q :
  c = advanced c0 (done ++ l1) (Z.of_nat (length l2)) P -> (done ++ l1 ++ l2 <> []) ->
  0 < parsed c0 + P <= Z.of_nat (length (cmdbuffer c0)) ->
  drop (Z.to_nat (parsed c0 + P)) (cmdbuffer c0) = q ->
  q ++ f = enc_args l2 ++ enc_cmds later -> (f = [] -> l2 = []) ->
  turn c0 st f ((done ++ l1 ++ l2) :: later) (finish_cmd t c st).
Proof.
  intros -> Hne Hr Hq Hf Hl. unfold finish_cmd. cbn [advanced argnum].
  destruct l2 as [|b l2].
  - right. exists (done ++ l1), later, (FreeArg (advanced c0 (done ++ l1) 0 P)).
    rewrite app_nil_r. split; [done|]. split; [|split; [done|split]].
    + apply await_start; [done..|]. unfold FreeArg, advanced. cbn [cmdbuffer parsed]. by rewrite Hq.
    + unfold FreeArg, advanced. cbn [cmdbuffer parsed]. rewrite length_drop. lia.
    + cbn [length Z.of_nat Z.eqb]. unfold DoCmd. cbn [advanced argv mbind option_bind].
      by destruct (run_cmd t (done ++ l1) st) as [[out st']|].
  - left. destruct (Z.eqb_spec (Z.of_nat (length (b :: l2))) 0) as [E|_]; [cbn [length] in E; lia|].
    eexists. split; [done|]. split; [|split; [done|split; [done|by intros E%Hl]]].
    apply (await_args _ _ _ (done ++ l1) (b :: l2) later); [done|by rewrite <- app_assoc|done|done|done|].
    unfold advanced. cbn [cmdbuffer parsed]. by rewrite Hq.
Qed.

Lemma enc_cmds_cons l cmds : enc_cmds (l :: cmds) = enc_head "*" (length l) ++ enc_args l ++ enc_cmds cmds.
Proof. unfold enc_cmds. cbn [fmap list_fmap concat]. unfold enc_cmd. by rewrite <- app_assoc. Qed.

Lemma length_args_le l : (length l <= length (enc_args l))%nat.
Proof.
  induction l as [|a l IH]; [done|]. rewrite enc_args_cons, length_app. pose proof (enc_bulk_pos a).
  cbn [length]. lia.
Qed.

Lemma ProcessCmd_start c f cmds st :
  argv c = None -> argnum c = 0 -> parsed c = 0 -> cmdbuffer c ++ f = enc_cmds cmds ->
  Forall cmd_ok cmds -> Z.of_nat (length (cmdbuffer c ++ f)) < 2 ^ 31 ->
  turn c st f cmds (ProcessCmd t now c st).
Proof.
  intros Hv Hn Hp E Hok Hlen. unfold ProcessCmd. cbn [set_active cmdbuffer parsed argnum argv].
  rewrite i32_id by (unfold is_i32; rewrite length_app in Hlen; lia). rewrite Hn, Hp, Hv.
  assert (awaiting (set_active c now) f cmds) as Haw by by apply await_start.
  assert ((f = [] -> cmds = []) -> turn c st f cmds (Some (false, [], set_active c now, st))) as Hwait.
  { intros Hf. left. by exists (set_active c now). }
  destruct (Z.eqb_spec 0 (Z.of_nat (length (cmdbuffer c)))) as [E0|E0].
  { apply Hwait. intros ->. symmetry in E0. rewrite app_nil_r in E.
    rewrite (nil_length_inv (cmdbuffer c)) in E by lia. destruct cmds; [done|].
    by rewrite enc_cmds_cons in E. }
  change (Z.to_nat 0) with 0%nat. rewrite drop_0, Z.sub_0_r, Z.eqb_refl.
  destruct cmds as [|args later].
  { apply app_nil in E as [E _]. by rewrite E in E0. }
  inversion Hok as [|? ? [Hargs Hne] Hok']; subst. rewrite enc_cmds_cons in E. rewrite E in Hlen.
  rewrite !length_app in Hlen. pose proof (length_args_le args) as Hla.
  assert ((0 < length args)%nat) as Hpos by (destruct args; [done|cbn; lia]).
  apply prefix_cases in E as [(q & Eb & E)|(h & Hh & Eh & ->)].
  - rewrite Eb. change (nth 0 (enc_head "*" (length args) ++ q) x00) with "*"%byte.
    rewrite bool_decide_true by done.
    rewrite ParaseLength_head by (done || lia). cbn [mbind option_bind].
    destruct (Z.eqb_spec 0 (Z.of_nat (length (enc_head "*" (length args))))); [done|].
    rewrite Nat2Z.id, drop_app_length, length_app.
    replace (Z.of_nat (length (enc_head "*" (length args)) + length q) - Z.of_nat (length (enc_head "*" (length args))))
      with (Z.of_nat (length q)) by lia.
    set (c1 := start_args _ _ _).
    destruct (parse_args_spec args (S (length q)) c1 q f (enc_cmds later) []) as
      (l1 & l2 & q' & -> & -> & Eq & Hl & ->); [done|done|lia| |done|lia|].
    { subst c1. unfold start_args. cbn [argv]. by destruct (Z.ltb_spec (Z.of_nat (length args)) 0); [lia|]. }
    cbn [mbind option_bind app].
    assert (forall r, turn c1 st f ((l1 ++ l2) :: later) r -> turn c st f ((l1 ++ l2) :: later) r) as Htr.
    { intros r. unfold turn. subst c1. done. }
    apply Htr. apply (finish_spec _ st f [] l1 l2 later c1 (Z.of_nat (length (enc_args l1))) q'); try done.
    all: subst c1; unfold start_args; cbn [parsed cmdbuffer]; cbn [set_active parsed cmdbuffer]; rewrite Hp, ?Eb.
    + rewrite !length_app. unfold enc_head. cbn [length]. lia.
    + rewrite Z.add_0_l, <- Nat2Z.inj_add, Nat2Z.id, app_assoc, <- length_app, drop_app_length. done.
  - destruct (cmdbuffer c) as [|b buf] eqn:Eb; [done|].
    assert (b = "*"%byte) as -> by (unfold enc_head in Eh; by injection Eh).
    cbn [nth]. rewrite bool_decide_true by done.
    rewrite ParaseLength_part by by apply (head_no_LF "*" (length args) _ h).
    cbn [mbind option_bind Z.eqb]. apply Hwait. intros [? _]%app_nil. done.
Qed.

Lemma ProcessCmd_spec c f cmds st :
  awaiting c f cmds -> Forall cmd_ok cmds ->
  Z.of_nat (length (cmdbuffer c ++ f)) < 2 ^ 31 ->
  turn c st f cmds (ProcessCmd t now c st).
Proof.
  intros [Hv Hn Hp E|done left later Hleft -> Hv Hn Hp E] Hok Hlen; [by apply ProcessCmd_start|].
  unfold ProcessCmd. cbn [set_active cmdbuffer parsed argnum argv].
  rewrite i32_id by (unfold is_i32; rewrite length_app in Hlen; lia).
  assert ((0 < length left)%nat) as Hpos by (destruct left; [done|cbn; lia]).
  inversion Hok as [|? ? [Hargs Hne] Hok']; subst.
  destruct (Z.eqb_spec 0 (Z.of_nat (length (cmdbuffer c)))) as [E0|E0].
  { left. exists (set_active c now). split; [done|]. split; [|split; [done|split; [done|]]].
    - by apply (await_args _ _ _ done left later).
    - intros ->. symmetry in E0. rewrite app_nil_r, (nil_length_inv (cmdbuffer c)), drop_nil in E by lia.
      destruct left; [done|]. by rewrite enc_args_cons in E. }
  rewrite Hn. destruct (Z.eqb_spec (Z.of_nat (length left)) 0); [lia|].
  set (p := drop (Z.to_nat (parsed c)) (cmdbuffer c)) in *.
  assert (Z.of_nat (length (cmdbuffer c)) - parsed c = Z.of_nat (length p)) as ->.
  { subst p. rewrite length_drop. lia. }
  destruct (parse_args_spec left (S (length p)) (set_active c now) p f (enc_cmds later) done) as
    (l1 & l2 & q & -> & Ep & Eq & Hl & ->); [done| | |done|done|lia|].
  { by apply Forall_app in Hne as [_ ?]. }
  { apply (f_equal length) in E. rewrite !length_app in E.
    rewrite length_app in Hlen. subst p. rewrite length_drop in E. lia. }
  cbn [mbind option_bind].
  assert (forall r, turn (set_active c now) st f ((done ++ l1 ++ l2) :: later) r ->
    turn c st f ((done ++ l1 ++ l2) :: later) r) as Htr by done.
  apply Htr. eapply (finish_spec _ st f done l1 l2 later _ _ q); [done|done| | |done|done];
    cbn [set_active parsed cmdbuffer].
  - assert (length p = length (enc_args l1) + length q)%nat as Hpl by by rewrite Ep, length_app.
    subst p. rewrite length_drop in Hpl. lia.
  - rewrite Z2Nat.inj_add, <- drop_drop, Nat2Z.id by lia. fold p. rewrite Ep. apply drop_app_length.
Qed.

(** All the requests, one after the other. *)
Fixpoint run_cmds (cmds : list (list bytes)) (st : St) : option (bytes * St) :=
  match cmds with
  | [] => Some ([], st)
  | l :: cmds => '(out, st) ← run_cmd t l st; '(out', st) ← run_cmds cmds st; Some (out ++ out', st)
  end.

Lemma run_cmds_app l1 l2 st :
  run_cmds (l1 ++ l2) st
  = ('(o1, st) ← run_cmds l1 st; '(o2, st) ← run_cmds l2 st; Some (o1 ++ o2, st)).
Proof.
  revert st. induction l1 as [|l l1 IH]; intros st; cbn [app run_cmds mbind option_bind].
  - by destruct (run_cmds l2 st) as [[]|].
  - destruct (run_cmd t l st) as [[o st1]|]; [|done]. cbn [mbind option_bind]. rewrite IH.
    destruct (run_cmds l1 st1) as [[o1 st2]|]; [|done]. cbn [mbind option_bind].
    destruct (run_cmds l2 st2) as [[o2 st3]|]; [|done]. cbn [mbind option_bind]. by rewrite app_assoc.
Qed.

(** The loop of [ReadCallback] executes the requests that are complete. *)
Lemma process_loop_spec fuel : forall c f cmds st,
  awaiting c f cmds -> Forall cmd_ok cmds -> Z.of_nat (length (cmdbuffer c ++ f)) < 2 ^ 31 ->
  (length (cmdbuffer c) < fuel)%nat ->
  exists l1 l2 c', cmds = l1 ++ l2 /\ awaiting c' f l2 /\ input c' = input c /\
    (length (cmdbuffer c') <= length (cmdbuffer c))%nat /\ (f = [] -> l2 = []) /\
    process_loop fuel t now c st = ('(out, st') ← run_cmds l1 st; Some (out, c', st')).
Proof.
  induction fuel as [|fuel IH]; intros c f cmds st Haw Hok Hlen Hf; [lia|]. cbn [process_loop].
  destruct (ProcessCmd_spec c f cmds st Haw Hok Hlen) as
    [(c' & -> & Haw' & Hi & Hb & Hnil)|(args & later & c' & -> & Haw' & Hi & Hlt & ->)].
  - exists [], cmds, c'. split_and!; [done..|by rewrite Hb|done|done].
  - inversion Hok as [|? ? Hok1 Hok2]; subst. rewrite length_app in *.
    assert (forall st1, exists l1 l2 c2, later = l1 ++ l2 /\ awaiting c2 f l2 /\ input c2 = input c' /\
      (length (cmdbuffer c2) <= length (cmdbuffer c'))%nat /\ (f = [] -> l2 = []) /\
      process_loop fuel t now c' st1 = ('(out, st') ← run_cmds l1 st1; Some (out, c2, st'))) as HI.
    { intros st1. apply IH; [done|done|rewrite length_app; lia|lia]. }
    destruct (run_cmd t args st) as [[out st1]|] eqn:Er; cbn [mbind option_bind].
    + destruct (HI st1) as (l1 & l2 & c2 & -> & Haw2 & Hi2 & Hb2 & Hnil & ->).
      exists (args :: l1), l2, c2. split_and!; [done|done|congruence|lia|done|].
      cbn [run_cmds]. rewrite Er. cbn [mbind option_bind].
      by destruct (run_cmds l1 st1) as [[]|].
    + destruct (HI st) as (l1 & l2 & c2 & -> & Haw2 & Hi2 & Hb2 & Hnil & _).
      exists (args :: l1), l2, c2. split_and!; [done|done|congruence|lia|done|].
      cbn [run_cmds]. by rewrite Er.
Qed.

Lemma awaiting_more c f d cmds :
  awaiting c (d ++ f) cmds ->
  awaiting (MkConn (argv c) (argnum c) (parsed c) (cmdbuffer c ++ d) (activetime c) (sid c) []) f cmds.
Proof.
  intros [Hv Hn Hp E|done left later Hleft -> Hv Hn Hp E].
  - apply await_start; [done..|]. cbn [cmdbuffer]. by rewrite <- app_assoc.
  - apply (await_args _ _ _ done left later); [done..| |]; cbn [cmdbuffer parsed].
    + rewrite length_app. lia.
    + rewrite drop_app_le by lia. by rewrite <- app_assoc.
Qed.

Lemma awaiting_later c f b cmds :
  awaiting c f cmds ->
  awaiting (MkConn (argv c) (argnum c) (parsed c) (cmdbuffer c) (activetime c) (sid c) b) f cmds.
Proof.
  intros [Hv Hn Hp E|done left later Hleft -> Hv Hn Hp E]; [by apply await_start|].
  by apply (await_args _ _ _ done left later).
Qed.

Lemma awaiting_nil c cmds : awaiting c [] cmds -> cmdbuffer c = [] -> cmds = [].
Proof.
  intros [Hv Hn Hp E|done left later Hleft -> Hv Hn Hp E] Hb; rewrite Hb in *.
  - destruct cmds; [done|]. by rewrite enc_cmds_cons in E.
  - cbn [length] in Hp. lia.
Qed.

(** One read: what is complete has been executed, unless a byte is held back. *)
Lemma ReadCallback_spec c f d cmds st :
  awaiting c (input c ++ d ++ f) cmds -> Forall cmd_ok cmds ->
  Z.of_nat (length (cmdbuffer c ++ input c ++ d ++ f)) < 2 ^ 31 ->
  exists l1 l2 c', cmds = l1 ++ l2 /\ awaiting c' (input c' ++ f) l2 /\
    (length (cmdbuffer c' ++ input c' ++ f) <= length (cmdbuffer c ++ input c ++ d ++ f))%nat /\
    (input c' ++ f = [] -> l2 = []) /\ ((2 <= length (input c ++ d))%nat -> input c' = []) /\
    ReadCallback t now c d st = ('(out, st') ← run_cmds l1 st; Some (out, c', st')).
Proof.
  intros Haw Hok Hlen. rewrite app_assoc in Haw. unfold ReadCallback.
  set (c1 := if (length (input c ++ d) <? 2)%nat then _ else _).
  assert (awaiting c1 (input c1 ++ f) cmds /\
    length (cmdbuffer c1 ++ input c1 ++ f) = length (cmdbuffer c ++ input c ++ d ++ f) /\
    ((2 <= length (input c ++ d))%nat -> input c1 = [])) as (Haw1 & Hl1 & Hin1).
  { subst c1. destruct (Nat.ltb_spec (length (input c ++ d)) 2); cbn [input cmdbuffer].
    - split; [by apply awaiting_later|]. split; [by rewrite <- app_assoc|lia].
    - split; [by apply awaiting_more|]. cbn [app]. by rewrite <- !app_assoc. }
  clearbody c1. case_bool_decide as Hb.
  - exists [], cmds, c1. split_and!; [done|done|lia| |done|done]. intros E. rewrite E in Haw1.
    by eapply awaiting_nil.
  - destruct (process_loop_spec (S (length (cmdbuffer c1))) c1 (input c1 ++ f) cmds st) as
      (l1 & l2 & c' & -> & Haw' & Hi & Hbuf & Hnil & ->); [done|done|lia|lia|].
    exists l1, l2, c'. rewrite <- Hi in *. split_and!; [done|done| |done|done|done].
    rewrite <- Hl1, !(length_app (cmdbuffer _)). rewrite Hi. lia.
Qed.

Lemma feed_spec chunks : forall c cmds st,
  awaiting c (input c ++ concat chunks) cmds -> Forall cmd_ok cmds ->
  Z.of_nat (length (cmdbuffer c ++ input c ++ concat chunks)) < 2 ^ 31 ->
  (input c ++ concat chunks = [] -> cmds = []) ->
  exists l1 l2 c', cmds = l1 ++ l2 /\ awaiting c' (input c') l2 /\ (input c' = [] -> l2 = []) /\
    (forall d, last chunks = Some d -> (2 <= length d)%nat -> input c' = []) /\
    feed t now c chunks st = ('(out, st') ← run_cmds l1 st; Some (out, c', st')).
Proof.
  induction chunks as [|d chunks IH]; intros c cmds st Haw Hok Hlen Hnil; cbn [feed concat] in *.
  { rewrite app_nil_r in *. exists [], cmds, c. by split_and!. }
  destruct (ReadCallback_spec c (concat chunks) d cmds st Haw Hok Hlen) as
    (l1 & l2 & c1 & -> & Haw1 & Hlen1 & Hnil1 & Hin1 & ->).
  apply Forall_app in Hok as [Hok1 Hok2].
  assert (forall st1, exists m1 m2 c2, l2 = m1 ++ m2 /\ awaiting c2 (input c2) m2 /\ (input c2 = [] -> m2 = []) /\
    (forall d', last (d :: chunks) = Some d' -> (2 <= length d')%nat -> input c2 = []) /\
    feed t now c1 chunks st1 = ('(out, st') ← run_cmds m1 st1; Some (out, c2, st'))) as HI.
  { intros st1. destruct (IH c1 l2 st1) as (m1 & m2 & c2 & ? & ? & ? & Hl & E); [done|done|lia|done|].
    exists m1, m2, c2. split_and!; [done..| |done]. destruct chunks as [|d2 chunks]; [|exact Hl].
    intros d' [= <-] Hd. cbn [feed] in E.
    destruct (run_cmds m1 st1) as [[]|]; cbn [mbind option_bind] in E; [|done].
    injection E as _ <- _. apply Hin1. rewrite length_app. lia. }
  destruct (run_cmds l1 st) as [[o1 st1]|] eqn:E1; cbn [mbind option_bind].
  - destruct (HI st1) as (m1 & m2 & c2 & -> & Haw2 & Hnil2 & Hl2 & ->). exists (l1 ++ m1), m2, c2.
    split_and!; [by rewrite app_assoc|done|done|done|]. rewrite run_cmds_app, E1. cbn [mbind option_bind].
    by destruct (run_cmds m1 st1) as [[]|].
  - destruct (HI st) as (m1 & m2 & c2 & -> & Haw2 & Hnil2 & Hl2 & _). exists (l1 ++ m1), m2, c2.
    split_and!; [by rewrite app_assoc|done|done|done|]. by rewrite run_cmds_app, E1.
Qed.

Lemma feed_all chunks cmds id st :
  concat chunks = enc_cmds cmds -> Forall cmd_ok cmds -> Z.of_nat (length (enc_cmds cmds)) < 2 ^ 31 ->
  exists l1 l2 c', cmds = l1 ++ l2 /\
    feed t now (conn_new now id) chunks st = ('(out, st') ← run_cmds l1 st; Some (out, c', st')) /\
    (forall d, last chunks = Some d -> (2 <= length d)%nat -> input c' = []) /\
    (input c' = [] -> l2 = [] /\ argv c' = None /\ argnum c' = 0 /\ cmdbuffer c' = []).
Proof.
  intros E Hok Hlen.
  destruct (feed_spec chunks (conn_new now id) cmds st) as (l1 & l2 & c' & -> & Haw & Hnil & Hlast & ->).
  - by apply await_start.
  - done.
  - cbn [conn_new cmdbuffer input app]. by rewrite E.
  - cbn [conn_new cmdbuffer input app]. rewrite E. destruct cmds; [done|]. by rewrite enc_cmds_cons.
  - exists l1, l2, c'. split; [done|]. split; [done|]. split; [done|]. intros Hi. specialize (Hnil Hi). subst l2.
    split; [done|]. rewrite Hi in Haw. destruct Haw as [Hv Hn _ Eb|]; [|done].
    rewrite app_nil_r in Eb. done.
Qed.

(** C5. However a client's requests, each of one or more arguments none of which
    is empty and together of less than 2^31 bytes, are cut into pieces, the server
    executes a prefix of them, in order and each once.  When the last piece has two
    bytes or more, or no byte is held back in the input buffer, it has executed them
    all and the connection is back in its initial state.  (An empty argument is
    excluded because it stalls the connection, [empty_argument_stalls].) *)
Theorem requests_execute_in_order chunks cmds id st :
  concat chunks = enc_cmds cmds -> Forall cmd_ok cmds -> Z.of_nat (length (enc_cmds cmds)) < 2 ^ 31 ->
  exists l1 l2 c', cmds = l1 ++ l2 /\
    feed t now (conn_new now id) chunks st = ('(out, st') ← run_cmds l1 st; Some (out, c', st')) /\
    (forall d, last chunks = Some d -> (2 <= length d)%nat -> input c' = []) /\
    (input c' = [] -> l2 = [] /\ argv c' = None /\ argnum c' = 0 /\ cmdbuffer c' = []).
Proof. apply feed_all. Qed.

(** ** Any input *)

(** What holds of a connection whatever the peer sends. *)
Record conn_wf (c : xRedisConnectorBase) : Prop := {
  wf_parsed : 0 <= parsed c <= Z.of_nat (length (cmdbuffer c));
  wf_idle : argnum c = 0 -> argv c = None /\ parsed c = 0;
  wf_busy : 0 < argnum c -> is_Some (argv c) /\ 0 < parsed c;
  wf_neg : argnum c < 0 -> argv c = None;
  wf_neg_parsed : argnum c < 0 -> 0 < parsed c
}.

Lemma length_loop_bound ptr i tmp j tmp' :
  length_loop ptr i tmp = Some (j, tmp') -> (i <= j < i + length ptr)%nat.
Proof.
  revert i tmp. induction ptr as [|b ptr IH]; intros i tmp; [done|]. cbn [length_loop length].
  case_decide; [intros [= <- <-]; lia|]. case_decide; [intros E%IH; lia|].
  destruct (i <? 11)%nat; [|done]. intros E%IH. lia.
Qed.

Lemma ParaseLength_bound ptr size r n :
  ptr <> [] -> ParaseLength ptr size = Some (r, n) ->
  (r = 0 \/ n <> 0 /\ 2 <= r <= Z.of_nat (length ptr)).
Proof.
  intros Hp. unfold ParaseLength. destruct (find_first _ _); [|intros [= <- <-]; by left].
  destruct (length_loop _ _ _) as [[i tmp]|] eqn:El; [|done]. cbn [mbind option_bind].
  apply length_loop_bound in El. destruct (bool_decide _); [|done].
  destruct (Z.eqb_spec 0 (i32 (st_value (strtoll tmp)))); intros [= <- <-]; [by left|right].
  rewrite length_drop in El. destruct ptr; [done|]. cbn [length] in *. lia.
Qed.

Lemma ParaseData_bound c ptr size p c' :
  ParaseData c ptr size = Some (p, c') -> size = Z.of_nat (length ptr) ->
  (p = 0 /\ c' = c) \/
  (2 <= p <= size /\ exists a l, argv c = Some l /\
     c' = MkConn (Some (l ++ [a])) (argnum c - 1) (parsed c) (cmdbuffer c) (activetime c) (sid c) (input c)).
Proof.
  intros E ->. unfold ParaseData in E. destruct ptr as [|b ptr]; [cbn in E; injection E as <- <-; by left|].
  destruct (negb _); [injection E as <- <-; by left|].
  destruct (ParaseLength _ _) as [[r n]|] eqn:El; [|done]. cbn [mbind option_bind] in E.
  apply ParaseLength_bound in El; [|done].
  destruct (Z.eqb_spec r 0); [injection E as <- <-; by left|].
  destruct (INT_MAX <? n + 2); [done|]. destruct (Z.ltb_spec (Z.of_nat (length (b :: ptr)) - r) (n + 2)).
  { injection E as <- <-. by left. }
  destruct (Z.ltb_spec n 0); [done|]. unfold push_arg in E.
  destruct (argv c) as [l|]; [|done]. cbn [mbind option_bind] in E. injection E as <- <-.
  right. split; [lia|]. by eauto.
Qed.

(** The arguments in hand and those missing add up to the announced count. *)
Lemma parse_args_wf fuel : forall c ptr c' l,
  parse_args fuel c ptr (Z.of_nat (length ptr)) = Some c' -> 0 < argnum c -> argv c = Some l ->
  0 <= parsed c -> parsed c + Z.of_nat (length ptr) <= Z.of_nat (length (cmdbuffer c)) ->
  cmdbuffer c' = cmdbuffer c /\ 0 <= argnum c' /\
  parsed c <= parsed c' <= Z.of_nat (length (cmdbuffer c)) /\
  exists l', argv c' = Some l' /\ Z.of_nat (length l') + argnum c' = Z.of_nat (length l) + argnum c.
Proof.
  induction fuel as [|fuel IH]; intros c ptr c' l E Hn Hv Hp Hb.
  { injection E as <-. split_and!; [done|lia|lia|lia|by eauto]. }
  cbn [parse_args] in E. destruct (Z.ltb_spec 0 (argnum c)); [|lia].
  destruct (ParaseData c ptr _) as [[p c1]|] eqn:Ed; [|done]. cbn [mbind option_bind] in E.
  apply ParaseData_bound in Ed as [[-> ->]|(Hr & a & l0 & Hv0 & ->)]; [|..|done].
  { injection E as <-. split_and!; [done|lia|lia|lia|by eauto]. }
  assert (l0 = l) as -> by congruence.
  destruct (Z.eqb_spec p 0); [lia|].
  replace (Z.of_nat (length ptr) - p) with (Z.of_nat (length (drop (Z.to_nat p) ptr))) in E
    by (rewrite length_drop; lia).
  set (c2 := add_parsed _ _) in E. destruct (decide (argnum c = 1)) as [E1|E1].
  - assert (c' = c2) as ->.
    { destruct fuel; [by injection E|]. cbn [parse_args] in E.
      destruct (Z.ltb_spec 0 (argnum c2)); [subst c2; cbn in *; lia|]. by injection E. }
    subst c2. cbn. split_and!; [done|lia|lia|lia|]. eexists. split; [done|]. rewrite length_app. cbn. lia.
  - apply (IH c2 _ _ (l ++ [a])) in E; subst c2; cbn in *; [|lia|done|lia|rewrite length_drop; lia].
    destruct E as (E2 & ? & ? & l' & ? & Hl). rewrite length_app in Hl. cbn in Hl.
    split_and!; [done|lia|lia|lia|]. exists l'. split; [done|lia].
Qed.

(** Finishing a request, or waiting for the rest of it. *)
Lemma finish_wf c0 c st b out c' st' l :
  finish_cmd t c st = Some (b, out, c', st') -> argv c = Some l -> cmdbuffer c = cmdbuffer c0 ->
  0 <= argnum c -> 0 < parsed c <= Z.of_nat (length (cmdbuffer c)) ->
  conn_wf c' /\ if b then (length (cmdbuffer c') < length (cmdbuffer c0))%nat else cmdbuffer c' = cmdbuffer c0.
Proof.
  intros E Hv Hb Hn Hp. unfold finish_cmd in E. destruct (Z.eqb_spec (argnum c) 0) as [E0|E0].
  - unfold DoCmd in E. rewrite Hv in E. cbn [mbind option_bind] in E.
    destruct (run_cmd t l st) as [[o s]|]; [|done]. cbn [mbind option_bind] in E. injection E as <- <- <- <-.
    unfold FreeArg. split.
    + split; cbn [argv argnum parsed cmdbuffer]; [lia|done|lia|lia|lia].
    + cbn [cmdbuffer]. rewrite length_drop, <- Hb. lia.
  - injection E as <- <- <- <-. split; [|done]. split; [lia|lia|rewrite Hv; split; [by eexists|lia]|lia|lia].
Qed.

(** Resuming a request, or starting one whose header has just been read. *)
Lemma args_wf c0 c (ptr : bytes) st (b : bool) out c' st' :
  (c1 ← parse_args (S (length ptr)) c ptr (Z.of_nat (length ptr)); finish_cmd t c1 st)
  = Some (b, out, c', st') ->
  argnum c <> 0 -> (if argnum c <? 0 then argv c = None else is_Some (argv c)) -> 0 < parsed c ->
  parsed c + Z.of_nat (length ptr) = Z.of_nat (length (cmdbuffer c)) -> cmdbuffer c = cmdbuffer c0 ->
  conn_wf c' /\ if b then (length (cmdbuffer c') < length (cmdbuffer c0))%nat else cmdbuffer c' = cmdbuffer c0.
Proof.
  intros E Hn Hv Hp Hb Hc0.
  destruct (parse_args (S (length ptr)) c ptr (Z.of_nat (length ptr))) as [c2|] eqn:Ea; [|done].
  cbn [mbind option_bind] in E. destruct (Z.ltb_spec (argnum c) 0) as [Hneg|Hneg].
  - assert (c2 = c) as ->.
    { cbn [parse_args] in Ea. destruct (Z.ltb_spec 0 (argnum c)); [lia|]. by injection Ea. }
    unfold finish_cmd in E. destruct (Z.eqb_spec (argnum c) 0); [lia|].
    injection E as <- <- <- <-. split; [|done]. split; [lia|lia|lia|done|done].
  - destruct Hv as [l Hv]. apply (parse_args_wf _ _ ptr c2 l) in Ea; [|lia|done|lia|lia].
    destruct Ea as (Eb & ? & ? & l' & Hv2 & _).
    eapply finish_wf; [exact E|exact Hv2|congruence|done|]. rewrite Eb. lia.
Qed.

Lemma ProcessCmd_wf c st b out c' st' :
  conn_wf c -> Z.of_nat (length (cmdbuffer c)) < 2 ^ 31 -> ProcessCmd t now c st = Some (b, out, c', st') ->
  conn_wf c' /\ if b then (length (cmdbuffer c') < length (cmdbuffer c))%nat else cmdbuffer c' = cmdbuffer c.
Proof.
  intros Hwf Hlen E. pose proof (wf_parsed _ Hwf) as Hp.
  assert (conn_wf (set_active c now)) as Hwf' by by destruct Hwf; split.
  unfold ProcessCmd in E. cbn [set_active cmdbuffer parsed argnum argv] in E.
  rewrite i32_id in E by (unfold is_i32; lia).
  destruct (Z.eqb_spec 0 (Z.of_nat (length (cmdbuffer c)))); [by injection E as <- <- <- <-|].
  set (ptr := drop (Z.to_nat (parsed c)) (cmdbuffer c)) in E.
  assert (Z.of_nat (length (cmdbuffer c)) - parsed c = Z.of_nat (length ptr)) as Hsz.
  { subst ptr. rewrite length_drop. lia. }
  rewrite Hsz in E. destruct (Z.eqb_spec (argnum c) 0) as [Hn|Hn].
  - destruct (wf_idle _ Hwf Hn) as [Hv Hp0]. rewrite Hv in E.
    destruct (bool_decide _) eqn:Estar; [|by injection E as <- <- <- <-].
    destruct (ParaseLength ptr _) as [[pos num]|] eqn:El; [|done]. cbn [mbind option_bind] in E.
    assert (ptr <> []) as Hptr by by destruct ptr.
    destruct (ParaseLength_bound _ _ _ _ Hptr El) as [->|[Hnum Hpos]]; [by injection E as <- <- <- <-|].
    destruct (Z.eqb_spec 0 pos); [lia|].
    assert (length (drop (Z.to_nat pos) ptr) = length ptr - Z.to_nat pos)%nat as Hq by apply length_drop.
    replace (Z.of_nat (length ptr) - pos) with (Z.of_nat (length (drop (Z.to_nat pos) ptr))) in E by lia.
    eapply args_wf; [exact E|..]; cbn [start_args set_active argnum argv parsed cmdbuffer];
      [done| |lia|lia|done]. destruct (num <? 0); [done|by eexists].
  - assert (0 < parsed c \/ argnum c < 0) as Hpp.
    { destruct (decide (argnum c < 0)); [by right|]. left. apply (wf_busy _ Hwf). lia. }
    eapply args_wf; [exact E|..]; cbn [set_active argnum argv parsed cmdbuffer]; [done| | |lia|done].
    + destruct (Z.ltb_spec (argnum c) 0); [by apply (wf_neg _ Hwf)|]. apply (wf_busy _ Hwf). lia.
    + destruct Hpp; [done|]. apply (wf_neg_parsed _ Hwf). lia.
Qed.

Lemma process_loop_wf fuel : forall c st,
  conn_wf c -> Z.of_nat (length (cmdbuffer c)) < 2 ^ 31 -> (length (cmdbuffer c) < fuel)%nat ->
  (forall n, process_loop (fuel + n) t now c st = process_loop fuel t now c st) /\
  forall out c' st', process_loop fuel t now c st = Some (out, c', st') -> conn_wf c'.
Proof.
  induction fuel as [|fuel IH]; intros c st Hwf Hlen Hf; [lia|]. cbn [Nat.add process_loop].
  destruct (ProcessCmd t now c st) as [[[[b o] c1] st1]|] eqn:E; [|done]. cbn [mbind option_bind].
  destruct (ProcessCmd_wf _ _ _ _ _ _ Hwf Hlen E) as [Hwf1 Hb].
  destruct b; [|by split; [|intros ??? [= <- <- <-]]].
  destruct (IH c1 st1 Hwf1) as [IH1 IH2]; [lia|lia|]. split.
  - intros n. by rewrite IH1.
  - intros out c' st' E'. destruct (process_loop fuel t now c1 st1) as [[[o1 c2] st2]|]; [|done].
    cbn [mbind option_bind] in E'. injection E' as <- <- <-. by eapply IH2.
Qed.

(** *** What undefined behaviour comes from *)

Lemma length_loop_none line rest : forall i tmp, LF ∉ line -> length_loop (line ++ LF :: rest) i tmp = None ->
  exists j b, line !! j = Some b /\ b <> CR /\ (11 <= i + j)%nat.
Proof.
  induction line as [|b line IH]; intros i tmp Hn E; cbn [app length_loop] in E; [by rewrite decide_True in E|].
  apply not_elem_of_cons in Hn as [Hb Hn]. rewrite decide_False in E by done. destruct (decide (b = CR)) as [->|Hc].
  - destruct (IH _ _ Hn E) as (j & b' & Hj & ? & ?). exists (S j), b'. split; [done|]. split; [done|lia].
  - destruct (Nat.ltb_spec i 11).
    + destruct (IH _ _ Hn E) as (j & b' & Hj & ? & ?). exists (S j), b'. split; [done|]. split; [done|lia].
    + exists 0%nat, b. split; [done|]. split; [done|lia].
Qed.

(** The last character of [tmp] stays 0 unless the tenth place of the line has one. *)
Lemma length_loop_last line rest : forall i tmp j tmp', LF ∉ line -> (i <= 10)%nat -> tmp !! 10%nat = Some x00 ->
  length_loop (line ++ LF :: rest) i tmp = Some (j, tmp') ->
  tmp' !! 10%nat = Some x00 \/ exists b, line !! (10 - i)%nat = Some b /\ b <> CR.
Proof.
  assert (forall line i tmp j tmp', LF ∉ line -> (10 < i)%nat -> tmp !! 10%nat = Some x00 ->
    length_loop (line ++ LF :: rest) i tmp = Some (j, tmp') -> tmp' !! 10%nat = Some x00) as Hpast.
  { intros l. induction l as [|b l IH]; intros i tmp j tmp' Hn Hi H10 E; cbn [app length_loop] in E.
    { rewrite decide_True in E by done. by injection E as _ <-. }
    apply not_elem_of_cons in Hn as [Hb Hn]. rewrite decide_False in E by done. case_decide; [by eapply IH in E; [|done|lia|]|].
    destruct (i <? 11)%nat; [|done]. eapply IH in E; [done|done|lia|]. rewrite list_lookup_insert_ne by lia. done. }
  induction line as [|b line IH]; intros i tmp j tmp' Hn Hi H10 E; cbn [app length_loop] in E.
  { rewrite decide_True in E by done. injection E as _ <-. by left. }
  apply not_elem_of_cons in Hn as [Hb Hn]. rewrite decide_False in E by done. destruct (decide (i = 10%nat)) as [->|Hne].
  - destruct (decide (b = CR)) as [->|Hc]; [left; by eapply Hpast in E; [|done|lia|]|]. right. exists b. by rewrite Nat.sub_diag.
  - assert (forall tmp, tmp !! 10%nat = Some x00 -> length_loop (line ++ LF :: rest) (S i) tmp = Some (j, tmp') ->
      tmp' !! 10%nat = Some x00 \/ exists b', (b :: line) !! (10 - i)%nat = Some b' /\ b' <> CR) as Hrec.
    { intros tmp0 Ht E0. apply IH in E0; [|done|lia|done]. replace (10 - i)%nat with (S (10 - S i)) by lia. exact E0. }
    case_decide; [by eapply Hrec|]. destruct (Nat.ltb_spec i 11); [|lia]. eapply Hrec; [|exact E]. rewrite list_lookup_insert_ne by lia. done.
Qed.

(** A header the parser cannot take: a line with a character other than CR past
    the tenth, which is written past the end of [tmp] or leaves it unterminated, or
    the header of an argument with a negative length or one next to [INT_MAX]. *)
Definition undefined_header (s : bytes) : Prop :=
  (exists tag line rest i b, s = tag :: line ++ LF :: rest /\ LF ∉ line /\ line !! i = Some b /\ b <> CR /\ (10 <= i)%nat) \/
  (exists line r n, s = "$"%byte :: line /\ ParaseLength s (Z.of_nat (length s)) = Some (r, n) /\ (n < 0 \/ INT_MAX < n + 2)).

Lemma ParaseLength_none tag s : tag <> LF -> ParaseLength (tag :: s) (Z.of_nat (length (tag :: s))) = None -> undefined_header (tag :: s).
Proof.
  intros Ht. unfold ParaseLength. rewrite Nat2Z.id, firstn_all.
  destruct (find_first _ (tag :: s)) as [k|] eqn:Ef; [|done]. cbn [drop].
  assert (LF ∈ s) as (line & rest & -> & Hn)%list_elem_of_split_l.
  { destruct (decide (LF ∈ s)) as [|Hno]; [done|]. rewrite find_first_None in Ef; [done|]. apply Forall_forall. intros b Hb.
    apply bool_decide_false. intros ->. apply elem_of_cons in Hb as [E|E]; [by apply Ht|done]. }
  intros E. left. destruct (length_loop (line ++ LF :: rest) 0 (replicate 11 x00)) as [[i tmp]|] eqn:El.
  - rewrite drop_0, El in E. cbn [mbind option_bind] in E.
    destruct (bool_decide (x00 ∈ tmp)) eqn:Ex; [by destruct (0 =? i32 (st_value (strtoll tmp)))|]. apply bool_decide_eq_false in Ex.
    apply length_loop_last in El as [H10|(b & Hb & Hc)]; [|by exists tag, line, rest, 10%nat, b|done|lia|done].
    destruct Ex. by eapply list_elem_of_lookup_2.
  - destruct (length_loop_none _ _ _ _ Hn El) as (j & b & Hb & Hc & Hj). exists tag, line, rest, j, b. split_and!; [done..|lia].
Qed.

Lemma ParaseData_none c ptr : is_Some (argv c) -> ParaseData c ptr (Z.of_nat (length ptr)) = None -> undefined_header ptr.
Proof.
  intros [l Hl] E. unfold ParaseData in E. destruct ptr as [|b ptr]; [done|]. cbn [nth] in E.
  destruct (bool_decide (b = "$"%byte)) eqn:Eb; [|done]. apply bool_decide_eq_true in Eb as ->. cbn [negb] in E.
  destruct (ParaseLength _ _) as [[r n]|] eqn:El; cbn [mbind option_bind] in E; [|by apply ParaseLength_none].
  destruct (Z.eqb_spec r 0); [done|]. right. exists ptr, r, n. split; [done|]. split; [done|].
  destruct (Z.ltb_spec INT_MAX (n + 2)); [by right|]. destruct (_ - r <? n + 2); [done|]. destruct (Z.ltb_spec n 0); [by left|].
  unfold push_arg in E. by rewrite Hl in E.
Qed.

Lemma parse_args_none fuel : forall c, 0 <= parsed c -> is_Some (argv c) ->
  let ptr := drop (Z.to_nat (parsed c)) (cmdbuffer c) in
  parse_args fuel c ptr (Z.of_nat (length ptr)) = None -> exists p, undefined_header (drop p (cmdbuffer c)).
Proof.
  induction fuel as [|fuel IH]; intros c Hp Hv ptr E; [done|]. cbn [parse_args] in E. destruct (0 <? argnum c); [|done].
  destruct (ParaseData c ptr (Z.of_nat (length ptr))) as [[q c1]|] eqn:Ed; cbn [mbind option_bind] in E.
  2:{ exists (Z.to_nat (parsed c)). by eapply ParaseData_none. }
  apply ParaseData_bound in Ed as [[-> ->]|(Hr & a & l0 & Hv0 & ->)]; [done| |done].
  destruct (Z.eqb_spec q 0); [done|]. set (c2 := add_parsed _ _) in E.
  assert (drop (Z.to_nat q) ptr = drop (Z.to_nat (parsed c2)) (cmdbuffer c2)) as Eq.
  { subst ptr c2. cbn [add_parsed parsed cmdbuffer]. rewrite drop_drop. f_equal. lia. }
  replace (Z.of_nat (length ptr) - q) with (Z.of_nat (length (drop (Z.to_nat q) ptr))) in E by (rewrite length_drop; lia).
  rewrite Eq in E. destruct (IH c2) as [p Hu]; [subst c2; cbn; lia|by eexists|exact E|]. by exists p.
Qed.

(** Some handler, called for a request, does something undefined. *)
Definition undefined_command : Prop := exists args st, args <> [] /\ run_cmd t args st = None.

Lemma args_none c (ptr : bytes) st :
  (c1 ← parse_args (S (length ptr)) c ptr (Z.of_nat (length ptr)); finish_cmd t c1 st) = None ->
  argnum c <> 0 -> (if argnum c <? 0 then argv c = None else is_Some (argv c)) -> 0 < parsed c ->
  parsed c + Z.of_nat (length ptr) = Z.of_nat (length (cmdbuffer c)) -> ptr = drop (Z.to_nat (parsed c)) (cmdbuffer c) ->
  (exists p, undefined_header (drop p (cmdbuffer c))) \/ undefined_command.
Proof.
  intros E Hn Hv Hp Hb Hptr. destruct (Z.ltb_spec (argnum c) 0) as [Hneg|Hneg].
  - cbn [parse_args] in E. destruct (Z.ltb_spec 0 (argnum c)); [lia|]. cbn [mbind option_bind] in E. unfold finish_cmd in E.
    by destruct (Z.eqb_spec (argnum c) 0).
  - destruct (parse_args _ c ptr _) as [c2|] eqn:Ea.
    2:{ left. rewrite Hptr in Ea. eapply parse_args_none; [|exact Hv|exact Ea]. lia. }
    destruct Hv as [l Hv]. apply (parse_args_wf _ _ ptr c2 l) in Ea; [|lia|done|lia|lia].
    destruct Ea as (_ & ? & _ & l' & Hv2 & Hl). cbn [mbind option_bind] in E. unfold finish_cmd in E.
    destruct (Z.eqb_spec (argnum c2) 0); [|done]. right. unfold DoCmd in E. rewrite Hv2 in E. cbn [mbind option_bind] in E.
    destruct (run_cmd t l' st) as [[]|] eqn:Er; [done|]. exists l', st. split; [|done]. intros ->. cbn in Hl. lia.
Qed.

Lemma ProcessCmd_none c st :
  conn_wf c -> Z.of_nat (length (cmdbuffer c)) < 2 ^ 31 -> ProcessCmd t now c st = None ->
  (exists p, undefined_header (drop p (cmdbuffer c))) \/ undefined_command.
Proof.
  intros Hwf Hlen E. pose proof (wf_parsed _ Hwf) as Hp.
  unfold ProcessCmd in E. cbn [set_active cmdbuffer parsed argnum argv] in E. rewrite i32_id in E by (unfold is_i32; lia).
  destruct (Z.eqb_spec 0 (Z.of_nat (length (cmdbuffer c)))); [done|].
  set (ptr := drop (Z.to_nat (parsed c)) (cmdbuffer c)) in E.
  assert (Z.of_nat (length (cmdbuffer c)) - parsed c = Z.of_nat (length ptr)) as Hsz by (subst ptr; rewrite length_drop; lia).
  rewrite Hsz in E. destruct (Z.eqb_spec (argnum c) 0) as [Hn|Hn].
  - destruct (wf_idle _ Hwf Hn) as [Hv Hp0]. rewrite Hv in E.
    destruct (bool_decide (nth 0 ptr x00 = "*"%byte)) eqn:Estar; [|done]. apply bool_decide_eq_true in Estar.
    destruct (ParaseLength ptr _) as [[pos num]|] eqn:El; cbn [mbind option_bind] in E.
    2:{ left. exists (Z.to_nat (parsed c)). fold ptr. destruct ptr as [|b ptr']; [done|]. cbn in Estar. subst b. by apply ParaseLength_none. }
    assert (ptr <> []) as Hptr by by destruct ptr.
    destruct (ParaseLength_bound _ _ _ _ Hptr El) as [->|[Hnum Hpos]]; [done|]. destruct (Z.eqb_spec 0 pos); [lia|].
    assert (length (drop (Z.to_nat pos) ptr) = length ptr - Z.to_nat pos)%nat as Hq by apply length_drop.
    replace (Z.of_nat (length ptr) - pos) with (Z.of_nat (length (drop (Z.to_nat pos) ptr))) in E by lia.
    apply args_none in E; [exact E|done|cbn [start_args set_active argnum argv]; by destruct (num <? 0)|cbn; lia|cbn; lia|].
    cbn [start_args set_active parsed cmdbuffer]. subst ptr. rewrite drop_drop. f_equal. lia.
  - assert (0 < parsed c \/ argnum c < 0) as Hpp.
    { destruct (decide (argnum c < 0)); [by right|]. left. apply (wf_busy _ Hwf). lia. }
    apply args_none in E; [exact E|done| | |cbn; lia|done].
    + cbn [set_active argnum argv]. destruct (Z.ltb_spec (argnum c) 0); [by apply (wf_neg _ Hwf)|]. apply (wf_busy _ Hwf). lia.
    + cbn [set_active parsed]. destruct Hpp; [done|]. apply (wf_neg_parsed _ Hwf). lia.
Qed.

Lemma parse_args_buffer fuel : forall c ptr size c', parse_args fuel c ptr size = Some c' -> cmdbuffer c' = cmdbuffer c.
Proof.
  induction fuel as [|fuel IH]; intros c ptr size c' E; cbn [parse_args] in E; [by injection E as <-|].
  destruct (0 <? argnum c); [|by injection E as <-]. destruct (ParaseData c ptr size) as [[p c1]|] eqn:Ed; cbn [mbind option_bind] in E; [|done].
  assert (cmdbuffer c1 = cmdbuffer c) as <-.
  { unfold ParaseData in Ed. destruct (negb _); [by simplify_eq|]. destruct (ParaseLength _ _) as [[r n]|]; cbn [mbind option_bind] in Ed; [|done].
    destruct (r =? 0); [by simplify_eq|]. destruct (INT_MAX <? n + 2); [done|].
    destruct (size - r <? n + 2); [by simplify_eq|]. destruct (n <? 0); [done|]. unfold push_arg in Ed.
    destruct (argv c); cbn [mbind option_bind] in Ed; [by simplify_eq|done]. }
  destruct (p =? 0); [by injection E as <-|]. by apply IH in E.
Qed.

Lemma ProcessCmd_buffer c st b out c' st' : ProcessCmd t now c st = Some (b, out, c', st') -> exists k, cmdbuffer c' = drop k (cmdbuffer c).
Proof.
  assert (forall c1 c2 b out c' st', cmdbuffer c2 = cmdbuffer c1 -> finish_cmd t c2 st = Some (b, out, c', st') ->
    exists k, cmdbuffer c' = drop k (cmdbuffer c1)) as Hfin.
  { clear. intros c1 c2 b out c' st' Hb E. unfold finish_cmd in E. destruct (argnum c2 =? 0).
    - unfold DoCmd in E. destruct (argv c2) as [l|]; cbn [mbind option_bind] in E; [|done]. destruct (run_cmd t l st) as [[o s]|]; cbn [mbind option_bind] in E; [|done].
      injection E as _ _ <- _. exists (Z.to_nat (parsed c2)). by rewrite <- Hb.
    - injection E as _ _ <- _. by exists 0%nat. }
  intros E. unfold ProcessCmd in E. cbn [set_active cmdbuffer parsed argnum argv] in E.
  assert (exists k, cmdbuffer c = drop k (cmdbuffer c)) as Hsame by by exists 0%nat.
  destruct (0 =? _); [by injection E as _ _ <- _|]. destruct (argnum c =? 0).
  - destruct (bool_decide _); [|by injection E as _ _ <- _]. destruct (ParaseLength _ _) as [[pos num]|]; cbn [mbind option_bind] in E; [|done].
    destruct (0 =? pos); [by injection E as _ _ <- _|]. destruct (argv c); [done|].
    destruct (parse_args _ _ _ _) as [c2|] eqn:Ea; cbn [mbind option_bind] in E; [|done]. apply parse_args_buffer in Ea. by eapply (Hfin c) in E.
  - destruct (parse_args _ _ _ _) as [c2|] eqn:Ea; cbn [mbind option_bind] in E; [|done]. apply parse_args_buffer in Ea. by eapply (Hfin c) in E.
Qed.

Lemma process_loop_none fuel : forall c st,
  conn_wf c -> Z.of_nat (length (cmdbuffer c)) < 2 ^ 31 -> process_loop fuel t now c st = None ->
  (exists p, undefined_header (drop p (cmdbuffer c))) \/ undefined_command.
Proof.
  induction fuel as [|fuel IH]; intros c st Hwf Hlen E; [done|]. cbn [process_loop] in E.
  destruct (ProcessCmd t now c st) as [[[[b o] c1] st1]|] eqn:Ep; cbn [mbind option_bind] in E; [|by eapply ProcessCmd_none].
  destruct b; [|done]. destruct (ProcessCmd_wf _ _ _ _ _ _ Hwf Hlen Ep) as [Hwf1 Hlt]. apply ProcessCmd_buffer in Ep as [k Hk].
  destruct (process_loop fuel t now c1 st1) as [[[]]|] eqn:El; cbn [mbind option_bind] in E; [done|].
  destruct (IH c1 st1 Hwf1) as [[p Hu]|Hu]; [lia|done| |by right]. left. exists (k + p)%nat. by rewrite <- drop_drop, <- Hk.
Qed.


End Server.

(** ** Requests the parser cannot take *)

(** An empty argument is never read: [ParaseLength] reports the length 0 as
    an incomplete header, so the request waits forever, whatever follows, and
    the connection executes nothing more. *)
Theorem empty_argument_stalls {St} (t : CmdTable St) now id st rest :
  let c := conn_new now id in
  let msg := lit "*1" ++ CRLF ++ lit "$0" ++ CRLF ++ CRLF ++ rest in
  Z.of_nat (length msg) < 2 ^ 31 ->
  exists c', ReadCallback t now c msg st = Some ([], c', st) /\ argnum c' = 1 /\ argv c' = Some [] /\ parsed c' = 4.
Proof.
  intros c msg Hlen. set (tl := lit "$0" ++ CRLF ++ CRLF ++ rest).
  assert (msg = enc_head "*" 1 ++ tl) as Emsg by done. clearbody msg. subst msg.
  assert (length (enc_head "*" 1 ++ tl) = 4 + length tl)%nat as Hl by done.
  unfold ReadCallback. subst c. cbn [conn_new input app argv argnum parsed cmdbuffer activetime sid].
  destruct (Nat.ltb_spec (length (enc_head "*" 1 ++ tl)) 2); [lia|].
  cbn [app cmdbuffer]. rewrite bool_decide_false by done.
  rewrite Hl. cbn [process_loop]. unfold ProcessCmd at 1.
  cbn [set_active cmdbuffer parsed argnum argv activetime sid input]. rewrite Hl in *.
  rewrite i32_id by (unfold is_i32; lia). destruct (Z.eqb_spec 0 (Z.of_nat (4 + length tl))); [lia|].
  change (Z.to_nat 0) with 0%nat. rewrite drop_0, Z.sub_0_r, Z.eqb_refl.
  change (nth 0 (enc_head "*" 1 ++ tl) x00) with "*"%byte. rewrite bool_decide_true by done.
  rewrite <- Hl, ParaseLength_head by (done || lia). cbn [mbind option_bind].
  change (length (enc_head "*" 1)) with 4%nat. change (0 =? Z.of_nat 4) with false. cbn iota.
  change (drop (Z.to_nat (Z.of_nat 4)) (enc_head "*" 1 ++ tl)) with tl. set (c1 := start_args _ _ _).
  assert (forall sz, sz = Z.of_nat (length tl) -> parse_args (S (length tl)) c1 tl sz = Some c1) as Hpa.
  { intros sz ->. cbn [parse_args]. change (0 <? argnum c1) with true. cbn iota.
    unfold ParaseData. change (nth 0 tl x00) with "$"%byte. rewrite bool_decide_true by done. cbn [negb].
    unfold ParaseLength. rewrite Nat2Z.id, firstn_all. subst tl. unfold CRLF. cbn. done. }
  rewrite Hpa by lia.
  cbn [mbind option_bind]. unfold finish_cmd. change (argnum c1 =? 0) with false. cbn iota.
  by exists c1.
Qed.

Lemma empty_argument_stalls_witness :
  exists c', ReadCallback (St := unit) [] 0 (conn_new 0 1000)
    (lit "*1" ++ CRLF ++ lit "$0" ++ CRLF ++ CRLF ++ lit "*1") tt = Some ([], c', tt) /\ argnum c' = 1.
Proof.
  destruct (empty_argument_stalls (St := unit) [] 0 1000 tt (lit "*1")) as (c' & E & H & _).
  - vm_compute. reflexivity.
  - exists c'. split; [exact E|exact H].
Defined.

(** A length of more than ten characters is written past the end of [tmp]:
    twelve digits, say, reach undefined behaviour in [ParaseLength]. *)
Theorem long_length_overflows (tag : byte) (ds rest : bytes) :
  Forall (fun b => isdigit b = true) ds -> (11 < length ds)%nat -> tag <> LF ->
  ParaseLength (tag :: ds ++ CRLF ++ rest) (Z.of_nat (length (tag :: ds ++ CRLF ++ rest))) = None.
Proof.
  intros Hd Hl Ht. unfold ParaseLength. rewrite Nat2Z.id, firstn_all.
  destruct (find_first_in (fun b => bool_decide (b = LF)) (tag :: ds ++ CRLF ++ rest) LF) as [i ->].
  { unfold CRLF. set_solver. } { by apply bool_decide_true. }
  cbn [drop].
  assert (forall i tmp, (i <= 11)%nat -> (11 < length ds + i)%nat -> length_loop (ds ++ CRLF ++ rest) i tmp = None) as Hloop.
  { clear Hl. induction Hd as [|b ds Hb Hd IH]; intros j tmp Hj Hlt; [cbn in Hlt; lia|].
    cbn [app length_loop]. rewrite !decide_False by (intros ->; done).
    destruct (Nat.ltb_spec j 11); [|done]. apply IH; cbn [length] in *; lia. }
  by rewrite Hloop by (cbn [length]; lia).
Qed.

Lemma long_length_overflows_witness :
  ParaseLength ("*"%byte :: lit "000000000001" ++ CRLF ++ []) 15 = None.
Proof.
  apply (long_length_overflows "*" (lit "000000000001") []).
  - repeat constructor.
  - cbn. lia.
  - discriminate.
Defined.

(** The reply to an unknown command quotes it through a 256-byte buffer but
    writes the untruncated length: with a name of more than 242 bytes the
    server reads past the buffer. *)
Theorem unknown_command_reply {St} (t : CmdTable St) (name : bytes) args st :
  table_search t name = None -> (length t < CMD_CALLBACK_MAX)%nat -> Forall (fun b => b <> x00) name ->
  run_cmd t (name :: args) st =
    if (length name <=? 241)%nat then Some (lit "-" ++ name ++ lit " not suport" ++ CRLF, st)
    else if (length name =? 242)%nat then Some (lit "-" ++ name ++ lit " not suport" ++ [CR; x00], st)
    else None.
Proof.
  intros Hs Ht Hn. unfold run_cmd. cbn [head mbind option_bind]. unfold GetCmdProcessFun. rewrite Hs.
  destruct (Nat.ltb_spec (length t) CMD_CALLBACK_MAX); [|lia]. cbn [mbind option_bind].
  unfold SendErrReply. rewrite (cstr_id name Hn). change (cstr (lit "not suport")) with (lit "not suport").
  unfold NetPrintf. rewrite !length_app. cbn [length lit CRLF].
  change (length (lit "-")) with 1%nat. change (length (lit " ")) with 1%nat.
  change (length (lit "not suport")) with 10%nat. change (length CRLF) with 2%nat.
  destruct (Nat.leb_spec (length name) 241) as [Hl|Hl].
  - by destruct (Nat.leb_spec (1 + (length name + (1 + (10 + 2)))) 255); [|lia].
  - destruct (Nat.leb_spec (1 + (length name + (1 + (10 + 2)))) 255); [lia|].
    destruct (Nat.eqb_spec (length name) 242) as [E|E].
    + destruct (Nat.eqb_spec (1 + (length name + (1 + (10 + 2)))) 256); [|lia]. cbn [mbind option_bind].
      do 2 f_equal. change (lit "-" ++ name ++ lit " " ++ lit "not suport" ++ CRLF)
        with ("-"%byte :: name ++ lit " not suport" ++ [CR; LF]).
      change (lit "-" ++ name ++ lit " not suport" ++ [CR; x00])
        with ("-"%byte :: name ++ lit " not suport" ++ [CR; x00]).
      cbn [take app]. f_equal. rewrite take_app, E, firstn_all2 by lia. rewrite <- app_assoc. done.
    + by destruct (Nat.eqb_spec (1 + (length name + (1 + (10 + 2)))) 256); [lia|].
Qed.

Lemma unknown_command_reply_witness :
  run_cmd (St := unit) [] [replicate 243 "A"%byte] tt = None.
Proof.
  rewrite (unknown_command_reply [] (replicate 243 "A"%byte) [] tt).
  - reflexivity.
  - reflexivity.
  - unfold CMD_CALLBACK_MAX. cbn. lia.
  - apply Forall_replicate. discriminate.
Defined.

(** ** Replies *)

Lemma NetPrintf_short text : (length text <= 255)%nat -> NetPrintf text = Some text.
Proof. intros Hl. unfold NetPrintf. by destruct (Nat.leb_spec (length text) 255); [|lia]. Qed.

Lemma length_enc_head tag n : Z.of_nat n < 2 ^ 63 -> (length (enc_head tag n) <= 23)%nat.
Proof.
  intros Hn. unfold enc_head. cbn [length]. rewrite length_app.
  pose proof (length_sdec_i64 (Z.of_nat n)) as Hl. unfold sdec in Hl.
  destruct (Z.ltb_spec (Z.of_nat n) 0); [lia|]. cbn [CRLF length]. unfold is_i64 in Hl. lia.
Qed.

Lemma NetPrintf_head tag n :
  Z.of_nat n < 2 ^ 63 -> NetPrintf (enc_head tag n) = Some (enc_head tag n).
Proof. intros Hn. apply NetPrintf_short. pose proof (length_enc_head tag n Hn). lia. Qed.

Lemma SendBulkReply_enc s : Z.of_nat (length s) < 2 ^ 63 -> SendBulkReply s = Some (enc_bulk s).
Proof.
  intros Hl. unfold SendBulkReply.
  change (lit "$" ++ udec (Z.of_nat (length s)) ++ CRLF) with (enc_head "$" (length s)).
  by rewrite NetPrintf_head.
Qed.

(** A multi-bulk reply is the encoding of its elements in the format of
    requests (with empty elements allowed), so a list of non-empty strings sent
    as a reply parses back to the same list; no reply header is truncated. *)
Theorem multi_bulk_reply_format l :
  Z.of_nat (length l) < 2 ^ 63 -> Forall (fun s => Z.of_nat (length s) < 2 ^ 63) l ->
  SendMultiBulkReply l = Some (enc_cmd l).
Proof.
  intros Hn Hl. unfold SendMultiBulkReply.
  change (lit "*" ++ udec (Z.of_nat (length l)) ++ CRLF) with (enc_head "*" (length l)).
  rewrite NetPrintf_head by done. cbn [mbind option_bind].
  assert (send_bulks l = Some (enc_args l)) as ->; [|done].
  clear Hn. induction Hl as [|s l Hs Hl IH]; [done|]. cbn [send_bulks].
  rewrite SendBulkReply_enc, IH by done. done.
Qed.

Lemma multi_bulk_reply_format_witness :
  SendMultiBulkReply [lit "a"; []] = Some (lit "*2" ++ CRLF ++ lit "$1" ++ CRLF ++ lit "a" ++ CRLF
    ++ lit "$0" ++ CRLF ++ CRLF).
Proof.
  rewrite (multi_bulk_reply_format [lit "a"; []]).
  - reflexivity.
  - vm_compute. reflexivity.
  - repeat constructor; vm_compute; reflexivity.
Defined.

(** ** Connections *)

(** Every connection is filed under its own session id, below the next one. *)
Definition server_wf {St} (s : xRedisServerBase St) : Prop :=
  is_u32 (sessionbase s) /\
  forall id c, connectionmap s !! id = Some c -> sid c = id /\ id < sessionbase s /\ conn_wf c.

Lemma conn_new_wf now id : conn_wf (conn_new now id).
Proof. split; cbn; done || lia. Qed.

(** Until the 32-bit session ids run out, [AcceptCallback] gives an
    accepted connection an id of its own, where [FindConnection] finds it and from where
    [FreeConnection] removes it and nothing else; a connection is closed by its
    timer exactly when it has been idle for more than an hour. *)
Theorem connections_are_filed_by_session {St} (s : xRedisServerBase St) fd now later :
  server_wf s -> 0 <= fd -> sessionbase s < 2 ^ 32 - 1 ->
  let id := sessionbase s in
  let s1 := AcceptCallback s fd now in
  server_wf s1 /\ FindConnection s1 id = Some (conn_new now id) /\
  (forall id', id' <> id -> FindConnection s1 id' = FindConnection s id') /\
  FreeConnection s1 id = (true, MkServer (connectionmap s) (id + 1) (mCmdTables s)) /\
  ((TimeoutCallback s1 id later).1 = true <-> later - u32 now <= TIMEOUT_CLOSE).
Proof.
  intros [Hu Hwf] Hfd Hlt id s1. unfold is_u32 in Hu.
  assert (connectionmap s !! id = None) as Hnone.
  { destruct (connectionmap s !! id) eqn:E; [|done]. apply Hwf in E as (_ & ? & _). subst id. lia. }
  assert (s1 = MkServer (<[id := conn_new now id]> (connectionmap s)) (id + 1) (mCmdTables s)) as ->.
  { subst s1 id. unfold AcceptCallback, MallocConnection. destruct (Z.ltb_spec fd 0); [lia|]. rewrite Hnone, u32_id by (unfold is_u32; lia). done. }
  unfold FindConnection, FreeConnection, TimeoutCallback. cbn [connectionmap sessionbase mCmdTables].
  rewrite !lookup_insert_eq. split_and!.
  - split; [unfold is_u32; cbn [sessionbase]; subst id; lia|]. cbn [sessionbase connectionmap]. intros id' c.
    rewrite lookup_insert_Some. intros [[<- <-]|[Hne E]].
    + split; [done|]. split; [lia|]. apply conn_new_wf.
    + apply Hwf in E as (? & ? & ?). split; [done|]. split; [subst id; lia|done].
  - done.
  - intros id' Hne. by rewrite lookup_insert_ne.
  - rewrite delete_insert_id by done. done.
  - unfold OnTimer. cbn [conn_new activetime].
    destruct (Z.ltb_spec TIMEOUT_CLOSE (later - u32 now)); cbn [fst]; split; intros; done || lia.
Qed.

Lemma connections_are_filed_by_session_witness :
  FindConnection (AcceptCallback (server_new (St := unit)) 7 5) 1000 = Some (conn_new 5 1000).
Proof.
  destruct (connections_are_filed_by_session (server_new (St := unit)) 7 5 6) as (_ & H & _).
  - split; [unfold is_u32; cbn; lia|]. intros id c E. discriminate E.
  - lia.
  - vm_compute. reflexivity.
  - exact H.
Defined.

(** ** Witnesses for the parser *)

(** A server with one command, which echoes its last argument. *)
Definition echo_table : CmdTable unit :=
  (SetCmdTable [] (lit "echo") (fun args st => Some (default [] (last args), st))).2.

Definition echo_text : bytes := enc_cmds [[lit "ECHO"; lit "ab"]; [lit "echo"; lit "c"]].

Lemma requests_execute_in_order_witness :
  exists c', feed echo_table 0 (conn_new 0 1000) [take 9 echo_text; drop 9 echo_text] tt
    = Some (lit "abc", c', tt).
Proof.
  destruct (requests_execute_in_order echo_table 0 [take 9 echo_text; drop 9 echo_text]
    [[lit "ECHO"; lit "ab"]; [lit "echo"; lit "c"]] 1000 tt) as (l1 & l2 & c' & El & E & Hlast & Hall).
  - reflexivity.
  - repeat constructor; discriminate.
  - vm_compute. reflexivity.
  - destruct (Hall (Hlast (drop 9 echo_text) eq_refl ltac:(vm_compute; lia))) as (-> & _).
    rewrite app_nil_r in El. subst l1. exists c'. rewrite E. reflexivity.
Defined.

