(* ===== verification/RedisServer.v ===== *)
(** [src/xRedisServer.h] and [src/xRedisServer.cpp]: the commands of the
    Redis-protocol server over the database and the expiration manager.

    A handler gets the arguments of the request and gives the bytes it sends.
    The state carries the successive readings of the clock, one per call of
    [gettimeofday].  [None] is undefined behaviour (signed overflow, and what
    the components below leave undefined). *)

From S2P Require Import Prelude Cstd Util SortedSet MurmurHash2 EtagManager RocksDB DataBase DataBaseSpec ExpireManager RedisServerLib RedisServerLibSpec.

(** A signed 64-bit result. *)
Definition int64 (z : Z) : option Z := if bool_decide (is_i64 z) then Some z else None.

Section Handlers.
Context {DB It : Type} `{RocksDB DB It}.

(** [xRedisServer]: the database and the expiration manager, with the clock. *)
Record RedisState := MkRedis {
  xdb : xDataBase DB;
  expiremgr : ExpireManager;
  clock : nat -> timeval
}.

(** The next reading of the clock, and the readings after it. *)
Definition reading (st : RedisState) : timeval := clock st 0%nat.
Definition rest (f : nat -> timeval) : nat -> timeval := fun i => f (S i).

Abbreviation handler := (list bytes -> RedisState -> option (bytes * RedisState)).

(** A reply and the state the handler leaves. *)
Definition reply (out : option bytes) (st : RedisState) : option (bytes * RedisState) :=
  o ← out; Some (o, st).

Definition ProcessCmd_get : handler := fun argv st =>
  if negb (length argv =? 2)%nat then reply (SendErrReply (lit "arg error") (lit "arg error")) st
  else
    let key := nth 1 argv [] in
    '(ret, val, x) ← xdb_Get (xdb st) key (MkValue 0 []);
    let st := MkRedis x (expiremgr st) (clock st) in
    match ret with
    | db_ok => reply (SendBulkReply (strValue val)) st
    | db_null => reply SendNullReply st
    | db_err => Some ([], st)
    end.

(** The expiration time of a relative time to live in seconds. *)
Definition expired_at (tm : timeval) (ttl_arg : bytes) : option Z :=
  p ← int64 (str_to_int64 ttl_arg * 1000);
  int64 (time_ms tm + p).

Definition ProcessCmd_set : handler := fun argv st =>
  if (length argv =? 3)%nat then
    '(_, x) ← xdb_Set (xdb st) (reading st) (nth 1 argv []) (nth 2 argv []);
    reply (SendStatusReply (lit "OK")) (MkRedis x (expiremgr st) (rest (clock st)))
  else if (length argv =? 5)%nat && strcasecmp_eq (lit "ex") (nth 3 argv []) then
    let key := nth 1 argv [] in
    let val := nth 2 argv [] in
    expired ← expired_at (reading st) (cstr (nth 4 argv []));
    let st := MkRedis (xdb st) (expiremgr st) (rest (clock st)) in
    let ttl_data := sdec expired in
    '(_, x) ← xdb_Set (xdb st) (reading st) key val;
    let '(_, m) := SetTTL (expiremgr st) key expired in
    let '(ret, x) := xdb_Zset x (expire_key m) key ttl_data in
    if decide (ret = db_ok) then
      let '(_, m) := SetTTL m key expired in
      reply (SendStatusReply (lit "OK")) (MkRedis x m (rest (clock st)))
    else reply SendNullReply (MkRedis x m (rest (clock st)))
  else reply (SendErrReply (lit "set error ") (lit "argc error")) st.

Definition ProcessCmd_del : handler := fun argv st =>
  if negb (length argv =? 2)%nat then reply (SendErrReply (lit "del error") (lit "arg error")) st
  else
    let '(ret, x) := xdb_Del (xdb st) (nth 1 argv []) in
    reply (SendIntReply (if decide (ret = db_ok) then 1 else 0)) (MkRedis x (expiremgr st) (clock st)).

Definition ProcessCmd_expire : handler := fun argv st =>
  if negb (length argv =? 3)%nat then reply (SendErrReply (lit "expire error") (lit "arg error")) st
  else
    let key := nth 1 argv [] in
    expired ← expired_at (reading st) (nth 2 argv []);
    let st := MkRedis (xdb st) (expiremgr st) (rest (clock st)) in
    let ttl_data := sdec expired in
    '(ret, _, x) ← xdb_Get (xdb st) key (MkValue 0 []);
    if decide (ret = db_ok) then
      let '(ret, x) := xdb_Zset x (expire_key (expiremgr st)) key ttl_data in
      if decide (ret = db_ok) then
        reply (SendIntReply 1) (MkRedis x (SetTTL (expiremgr st) key expired).2 (clock st))
      else reply (SendIntReply 0) (MkRedis x (expiremgr st) (clock st))
    else reply (SendIntReply 0) (MkRedis x (expiremgr st) (clock st)).

Definition ProcessCmd_ttl : handler := fun argv st =>
  if negb (length argv =? 2)%nat then reply (SendErrReply (lit "ttl error") (lit "arg error")) st
  else
    let '(ret, score) := xdb_Zget (xdb st) (expire_key (expiremgr st)) (nth 1 argv []) [] in
    match ret with
    | db_ok =>
        d ← int64 (str_to_int64 score - time_ms (reading st));
        reply (SendIntReply (Z.quot d 1000)) (MkRedis (xdb st) (expiremgr st) (rest (clock st)))
    | db_null => reply (SendIntReply (-2)) st
    | db_err => reply (SendIntReply 0) st
    end.

(** The start, end, limit and whether the results are deleted, by the number
    of arguments and the keyword. *)
Definition scan_args (argv : list bytes) : option (bytes * bytes * Z * bool) :=
  let argc := length argv in
  let a i := nth i argv [] in
  let cEnd := [zb 255] in
  if (argc =? 5)%nat && strcasecmp_eq (lit "limit") (a 3%nat) then
    Some (a 1%nat, a 2%nat, atoi (cstr (a 4%nat)), false)
  else if (argc =? 4)%nat && strcasecmp_eq (lit "limit") (a 2%nat) then
    Some (a 1%nat, cEnd, atoi (cstr (a 3%nat)), false)
  else if (argc =? 4)%nat && strcasecmp_eq (lit "del") (a 3%nat) then
    Some (a 1%nat, a 2%nat, INT_MAX, true)
  else if (argc =? 3)%nat then Some (a 1%nat, a 2%nat, INT_MAX, false)
  else if (argc =? 2)%nat then Some (a 1%nat, cEnd, INT_MAX, false)
  else None.

Definition del_all (x : xDataBase DB) (keys : list bytes) : xDataBase DB :=
  foldl (fun x k => (xdb_Del x k).2) x keys.

(** [ret < 0] never holds of a [ret_code]. *)
Definition ProcessCmd_scan : handler := fun argv st =>
  match scan_args argv with
  | None => reply (SendErrReply (lit "scan error") (lit "arg error")) st
  | Some (start, end_, limit, del_result) =>
      let '(ret, vResult) := xdb_ScanKey (xdb st) start end_ limit [] in
      if ret_num ret <? 0 then reply (SendErrReply (lit "xdb error") (lit "scankey error")) st
      else if (del_result : bool) then
        reply (SendIntReply (Z.of_nat (length vResult)))
          (MkRedis (del_all (xdb st) vResult) (expiremgr st) (clock st))
      else reply (SendMultiBulkReply vResult) st
  end.

Definition ProcessCmd_flushall : handler := fun argv st =>
  let '(ret, x) := xdb_Flushall (xdb st) in
  let st := MkRedis x (expiremgr st) (clock st) in
  if decide (ret = db_ok) then reply (SendStatusReply (lit "OK")) st else Some ([], st).

(** Each registration must succeed for the next to be made. *)
Definition SystemCmdRegister (t : CmdTable RedisState) : bool * CmdTable RedisState :=
  foldl (fun '(ok, t) '(name, h) => if (ok : bool) then SetCmdTable t name h else (false, t)) (true, t)
    [(lit "set", ProcessCmd_set); (lit "get", ProcessCmd_get); (lit "del", ProcessCmd_del);
     (lit "expire", ProcessCmd_expire); (lit "ttl", ProcessCmd_ttl); (lit "scan", ProcessCmd_scan);
     (lit "flushall", ProcessCmd_flushall)].

Definition redis_table : CmdTable RedisState := (SystemCmdRegister []).2.

(** [Init]: the commands and a manager; its thread is [Dispatch]. *)
Definition redis_init (x : xDataBase DB) (clock : nat -> timeval) : RedisState :=
  MkRedis x expire_new clock.

End Handlers.

Arguments RedisState : clear implicits.
