(* ===== verification/RedisServerSpec.v ===== *)
(** What the Redis-protocol server promises its clients: its replies and its
    state are those of a map of values with a map of expiration times. *)

From S2P Require Import Prelude Cstd Util SortedSet MurmurHash2 EtagManager RocksDB DataBase DataBaseSpec ExpireManager RedisServerLib RedisServerLibSpec RedisServer.

(** ** Requests and what they mean *)

Inductive request :=
| RGet (k : bytes)
| RSet (k v : bytes)
| RSetEx (k v : bytes) (secs : Z)
| RDel (k : bytes)
| RExpire (k : bytes) (secs : Z)
| RTtl (k : bytes)
| RScan (a b : bytes) (limit : Z)
| RScanDel (a b : bytes).

Definition req_args (r : request) : list bytes :=
  match r with
  | RGet k => [lit "get"; k]
  | RSet k v => [lit "set"; k; v]
  | RSetEx k v n => [lit "set"; k; v; lit "ex"; sdec n]
  | RDel k => [lit "del"; k]
  | RExpire k n => [lit "expire"; k; sdec n]
  | RTtl k => [lit "ttl"; k]
  | RScan a b n => [lit "scan"; a; b; lit "limit"; sdec n]
  | RScanDel a b => [lit "scan"; a; b; lit "del"]
  end.

Record abs_redis := MkAbs {
  ab_kv : gmap bytes xValue;
  ab_ttl : gmap bytes Z;
  ab_clock : nat -> timeval
}.

Definition nil_reply : bytes := lit "$-1" ++ CRLF.
Definition ok_reply : bytes := lit "+OK" ++ CRLF.
Definition int_reply (n : Z) : bytes := lit ":" ++ sdec n ++ CRLF.

Definition abs_request (s : abs_redis) (r : request) : bytes * abs_redis :=
  let '(MkAbs kv ttl clk) := s in
  match r with
  | RGet k => (match kv !! k with Some v => enc_bulk (strValue v) | None => nil_reply end, s)
  | RSet k v => (ok_reply, MkAbs (<[k := MkValue (getCurrentTime (clk 0%nat)) v]> kv) ttl (rest clk))
  | RSetEx k v n =>
      let e := time_ms (clk 0%nat) + n * 1000 in
      (if decide (ttl !! k = Some e) then nil_reply else ok_reply,
       MkAbs (<[k := MkValue (getCurrentTime (clk 1%nat)) v]> kv) (<[k := e]> ttl) (rest (rest clk)))
  | RDel k => (int_reply 1, MkAbs (delete k kv) ttl clk)
  | RExpire k n =>
      let e := time_ms (clk 0%nat) + n * 1000 in
      if decide (kv !! k = None \/ ttl !! k = Some e) then (int_reply 0, MkAbs kv ttl (rest clk))
      else (int_reply 1, MkAbs kv (<[k := e]> ttl) (rest clk))
  | RTtl k =>
      match ttl !! k with
      | Some e => (int_reply (Z.quot (e - time_ms (clk 0%nat)) 1000), MkAbs kv ttl (rest clk))
      | None => (int_reply (-2), s)
      end
  | RScan a b n => (enc_cmd (take (Z.to_nat n) (keys_between kv a b)), s)
  | RScanDel a b =>
      let l := take (Z.to_nat INT_MAX) (keys_between kv a b) in
      (int_reply (Z.of_nat (length l)), MkAbs (foldl (fun kv k => delete k kv) kv l) ttl clk)
  end.

Fixpoint abs_requests (s : abs_redis) (rs : list request) : bytes * abs_redis :=
  match rs with
  | [] => ([], s)
  | r :: rs => let '(o, s) := abs_request s r in let '(o', s) := abs_requests s rs in (o ++ o', s)
  end.

(** Keys and values a client can send, times to live of less than 2^50 s. *)
Definition key_ok (k : bytes) : Prop := k <> [] /\ short k.

Definition request_ok (r : request) : Prop :=
  match r with
  | RGet k | RDel k | RTtl k => key_ok k
  | RSet k v => key_ok k /\ v <> []
  | RSetEx k v n => key_ok k /\ v <> [] /\ 0 <= n < 2 ^ 50
  | RExpire k n => key_ok k /\ 0 <= n < 2 ^ 50
  | RScan a b n => a <> [] /\ b <> [] /\ is_i32 n
  | RScanDel a b => a <> [] /\ b <> [] /\ strcasecmp_eq (lit "limit") b = false
  end.

Definition value_ok (v : bytes) : Prop := Z.of_nat (length v) < 2 ^ 63.

Definition small_value (r : request) : Prop :=
  match r with RSet _ v | RSetEx _ v _ => value_ok v | _ => True end.

Definition clock_ok (clk : nat -> timeval) : Prop := forall i, 0 <= time_ms (clk i) < 2 ^ 62.

(** ** The invariant of the server *)

Section Refinement.
Context {DB It : Type} `{RocksDBSpec DB It} `{!RocksDBHealthy DB It}.

Abbreviation zk := (lit "expire").

Record sys_inv (st : RedisState DB) (s : abs_redis) : Prop := {
  si_db : db_rel zk (xdb st) (ab_kv s) (ab_ttl s);
  si_cache : coherent (expiremgr st) (ab_ttl s);
  si_live k e : ab_ttl s !! k = Some e -> 0 <= e < INT64_MAX;
  si_val k v : ab_kv s !! k = Some v -> value_ok (strValue v);
  si_clock : clock st = ab_clock s;
  si_time : clock_ok (ab_clock s)
}.

Lemma clock_ok_rest clk : clock_ok clk -> clock_ok (rest clk).
Proof. intros Hc i. apply Hc. Qed.

Lemma int64_id z : is_i64 z -> int64 z = Some z.
Proof. intros. unfold int64. by rewrite bool_decide_true. Qed.

Lemma expired_at_sdec tm n :
  0 <= time_ms tm < 2 ^ 62 -> 0 <= n < 2 ^ 50 -> expired_at tm (sdec n) = Some (time_ms tm + n * 1000).
Proof.
  intros Ht Hn. unfold expired_at. rewrite str_to_int64_sdec by (unfold is_i64; lia).
  rewrite int64_id by (unfold is_i64; lia). cbn [mbind option_bind]. apply int64_id. unfold is_i64. lia.
Qed.

Lemma SendIntReply_int n : is_i64 n -> SendIntReply n = Some (int_reply n).
Proof.
  intros Hn. unfold SendIntReply, int_reply. apply NetPrintf_short.
  pose proof (length_sdec_i64 n Hn). rewrite !length_app. cbn. lia.
Qed.

Lemma si_expired s n : clock_ok (ab_clock s) -> 0 <= n < 2 ^ 50 ->
  0 <= time_ms (ab_clock s 0%nat) + n * 1000 < INT64_MAX.
Proof. intros Hc Hn. specialize (Hc 0%nat). unfold INT64_MAX. lia. Qed.

(** The state after new values, expirations and clock readings. *)
Lemma sys_inv_intro x m kv ttl clk :
  db_rel zk x kv ttl -> coherent m ttl -> (forall k e, ttl !! k = Some e -> 0 <= e < INT64_MAX) ->
  (forall k v, kv !! k = Some v -> value_ok (strValue v)) -> clock_ok clk ->
  sys_inv (MkRedis x m clk) (MkAbs kv ttl clk).
Proof. by split. Qed.

Lemma live_insert_all (ttl : gmap bytes Z) k e :
  (forall k e, ttl !! k = Some e -> 0 <= e < INT64_MAX) -> 0 <= e < INT64_MAX ->
  forall k' e', <[k := e]> ttl !! k' = Some e' -> 0 <= e' < INT64_MAX.
Proof. intros Ha He k' e' [[<- <-]|[? ?]]%lookup_insert_Some; eauto. Qed.

Lemma values_insert_all (kv : gmap bytes xValue) k w :
  (forall k v, kv !! k = Some v -> value_ok (strValue v)) -> value_ok (strValue w) ->
  forall k' v', <[k := w]> kv !! k' = Some v' -> value_ok (strValue v').
Proof. intros Ha He k' e' [[<- <-]|[? ?]]%lookup_insert_Some; eauto. Qed.

(** What every command is shown to do. *)
Definition refines (h : list bytes -> RedisState DB -> option (bytes * RedisState DB)) (r : request) : Prop :=
  forall st s, sys_inv st s -> request_ok r -> small_value r ->
  exists st', h (req_args r) st = Some ((abs_request s r).1, st') /\ sys_inv st' (abs_request s r).2.

Lemma get_refines k : refines ProcessCmd_get (RGet k).
Proof.
  intros st [kv ttl clk] [Hdb Hc Hl Hv Hk Ht] _ _. cbn [ab_kv ab_ttl ab_clock] in *. unfold ProcessCmd_get.
  cbn [req_args length Nat.eqb negb nth abs_request].
  destruct (Get_refines zk (xdb st) kv ttl k (MkValue 0 []) Hdb) as (x' & -> & Hr & _).
  cbn [mbind option_bind]. eexists. destruct (kv !! k) as [v|] eqn:E; cbn [fst snd].
  - rewrite SendBulkReply_enc by by eapply Hv. split; [done|]. by split.
  - split; [done|]. by split.
Qed.

Lemma set_refines k v : refines ProcessCmd_set (RSet k v).
Proof.
  intros st [kv ttl clk] [Hdb Hc Hl Hv Hk Ht] [[_ Hs] _] Hsm. cbn [ab_kv ab_ttl ab_clock] in *.
  unfold ProcessCmd_set. cbn [req_args length Nat.eqb nth abs_request].
  destruct (Set_refines zk (xdb st) kv ttl (reading st) k v Hdb Hs) as (x' & -> & Hr).
  cbn [mbind option_bind]. eexists. split; [done|]. cbn [snd]. unfold reading in Hr. rewrite Hk in *.
  apply sys_inv_intro; [done|done|done| |by apply clock_ok_rest]. by apply values_insert_all.
Qed.

Lemma setex_refines k v n : refines ProcessCmd_set (RSetEx k v n).
Proof.
  intros st [kv ttl clk] [Hdb Hc Hl Hv Hk Ht] [[Hne Hs] [_ Hn]] Hsm. cbn [ab_kv ab_ttl ab_clock] in *.
  unfold ProcessCmd_set. cbn [req_args length Nat.eqb nth abs_request andb].
  change (strcasecmp_eq (lit "ex") (lit "ex")) with true. cbn iota.
  rewrite cstr_id by apply sdec_no_nul. unfold reading. rewrite expired_at_sdec by (done || by rewrite Hk).
  cbn [mbind option_bind xdb expiremgr clock]. rewrite Hk. set (e := time_ms (clk 0%nat) + n * 1000).
  pose proof (si_expired (MkAbs kv ttl clk) n Ht Hn) as He. cbn [ab_clock] in He. fold e in He.
  destruct (Set_refines zk (xdb st) kv ttl (rest clk 0%nat) k v Hdb Hs) as (x1 & -> & Hr1).
  cbn [mbind option_bind].
  destruct (SetTTL_coherent (expiremgr st) ttl k e Hc He Hne) as [_ Hc1].
  destruct (SetTTL (expiremgr st) k e) as [r1 m1]. cbn [snd] in Hc1. rewrite (co_zk _ _ Hc1).
  assert (is_i64 e) as Hi by (unfold is_i64, INT64_MAX in *; lia).
  pose proof (Zset_refines zk x1 _ ttl k e Hr1 ltac:(done) Hne Hs Hi) as Hz.
  destruct (decide (ttl !! k = Some e)) as [Heq|Hneq].
  - rewrite Hz, decide_False by done. eexists. split; [done|]. cbn [snd].
    rewrite (insert_id ttl) in * by done. apply sys_inv_intro; [done|done|done| |by apply clock_ok_rest, clock_ok_rest].
    by apply values_insert_all.
  - destruct Hz as (x2 & -> & Hr2). rewrite decide_True by done.
    destruct (SetTTL_coherent m1 _ k e Hc1 He Hne) as [_ Hc2]. rewrite insert_insert_eq in Hc2.
    destruct (SetTTL m1 k e) as [r2 m2]. cbn [snd] in Hc2. eexists. split; [done|]. cbn [snd].
    apply sys_inv_intro; [done|done| | |by apply clock_ok_rest, clock_ok_rest].
    + by apply live_insert_all.
    + by apply values_insert_all.
Qed.

Lemma del_refines k : refines ProcessCmd_del (RDel k).
Proof.
  intros st [kv ttl clk] [Hdb Hc Hl Hv Hk Ht] _ _. cbn [ab_kv ab_ttl ab_clock] in *.
  unfold ProcessCmd_del. cbn [req_args length Nat.eqb negb nth abs_request].
  destruct (Del_refines zk (xdb st) kv ttl k Hdb) as (x' & -> & Hr). rewrite decide_True by done.
  eexists. split; [done|]. cbn [snd]. rewrite Hk. apply sys_inv_intro; [done|done|done| |done].
  intros k' v' [_ ?]%lookup_delete_Some. eauto.
Qed.

Lemma expire_refines k n : refines ProcessCmd_expire (RExpire k n).
Proof.
  intros st [kv ttl clk] [Hdb Hc Hl Hv Hk Ht] [[Hne Hs] Hn] _. cbn [ab_kv ab_ttl ab_clock] in *.
  unfold ProcessCmd_expire. cbn [req_args length Nat.eqb negb nth abs_request].
  unfold reading. rewrite expired_at_sdec by (done || by rewrite Hk).
  cbn [mbind option_bind xdb expiremgr clock]. rewrite Hk. set (e := time_ms (clk 0%nat) + n * 1000).
  pose proof (si_expired (MkAbs kv ttl clk) n Ht Hn) as He. cbn [ab_clock] in He. fold e in He.
  destruct (Get_refines zk (xdb st) kv ttl k (MkValue 0 []) Hdb) as (x1 & -> & Hr1 & _).
  cbn [mbind option_bind]. assert (is_i64 e) as Hi by (unfold is_i64, INT64_MAX in *; lia).
  destruct (kv !! k) as [v|] eqn:Ev; cbn [fst snd].
  2:{ rewrite (decide_True (P := None = None \/ _)) by by left. rewrite decide_False by done.
    eexists. split; [done|]. cbn [snd]. apply sys_inv_intro; [done|done|done|done|by apply clock_ok_rest]. }
  rewrite decide_True by done. rewrite (co_zk _ _ Hc).
  pose proof (Zset_refines zk x1 _ ttl k e Hr1 ltac:(done) Hne Hs Hi) as Hz.
  destruct (decide (ttl !! k = Some e)) as [Heq|Hneq].
  - rewrite Hz, decide_False by done. rewrite (decide_True (P := _ \/ _)) by by right.
    eexists. split; [done|]. cbn [snd]. apply sys_inv_intro; [done|done|done|done|by apply clock_ok_rest].
  - destruct Hz as (x2 & -> & Hr2). rewrite decide_True by done.
    rewrite (decide_False (P := _ \/ _)) by (intros [?|?]; done).
    destruct (SetTTL_coherent _ ttl k e Hc He Hne) as [_ Hc1].
    eexists. split; [done|]. cbn [snd]. apply sys_inv_intro; [done|done| |done|by apply clock_ok_rest].
    by apply live_insert_all.
Qed.

Lemma ttl_refines k : refines ProcessCmd_ttl (RTtl k).
Proof.
  intros st [kv ttl clk] [Hdb Hc Hl Hv Hk Ht] _ _. cbn [ab_kv ab_ttl ab_clock] in *.
  unfold ProcessCmd_ttl. cbn [req_args length Nat.eqb negb nth abs_request].
  rewrite (co_zk _ _ Hc), (Zget_refines zk (xdb st) kv ttl k [] Hdb).
  destruct (ttl !! k) as [e|] eqn:E.
  - pose proof (Hl _ _ E) as Hle. pose proof (Ht 0%nat) as Ht0. unfold reading. rewrite Hk.
    unfold INT64_MAX in Hle. rewrite str_to_int64_sdec by (unfold is_i64; lia).
    rewrite int64_id by (unfold is_i64; lia). cbn [mbind option_bind].
    rewrite SendIntReply_int.
    + eexists. split; [done|]. cbn [snd]. apply sys_inv_intro; [done|done|done|done|by apply clock_ok_rest].
    + set (d := e - time_ms (clk 0%nat)). assert (- 2 ^ 63 <= d < 2 ^ 63) as Hd by (subst d; lia).
      unfold is_i64. pose proof (Z.quot_rem' d 1000). pose proof (Z.rem_bound_abs d 1000). lia.
  - eexists. split; [done|]. by split.
Qed.

Lemma keys_between_short (x : xDataBase DB) kv ttl a b :
  db_rel zk x kv ttl -> Forall (fun k => Z.of_nat (length k) < 2 ^ 63) (keys_between kv a b).
Proof.
  intros [Hr _]. apply Forall_forall. intros k Hk. unfold keys_between in Hk.
  apply MemStore.elem_of_sort_keys, list_elem_of_filter in Hk as [_ Hk].
  apply list_elem_of_fmap in Hk as ([k' v] & -> & Hk%elem_of_map_to_list). cbn [fst].
  assert (is_Some (contents (db x) !! kv_key k')) as Hs.
  { rewrite (sr_kv _ _ _ _ Hr), Hk. by eexists. }
  destruct (sr_dom _ _ _ _ Hr _ Hs) as [(k2 & <-%kv_key_inj & Hsh)|[(? & ?)|(? & ? & _ & ? & _)]];
    [unfold short in Hsh; lia|done|done].
Qed.

Lemma ScanKey_keys (x : xDataBase DB) kv ttl a b n :
  db_rel zk x kv ttl -> xdb_ScanKey x a b n [] = (db_ok, take (Z.to_nat n) (keys_between kv a b)).
Proof.
  intros Hr. destruct (ScanKey_refines zk x kv ttl a b n [] Hr) as (L & Hs & Hin & ->).
  by rewrite (keys_between_unique kv a b L).
Qed.

Lemma scan_refines a b n : refines ProcessCmd_scan (RScan a b n).
Proof.
  intros st [kv ttl clk] Hinv (_ & _ & Hn) _. destruct Hinv as [Hdb Hc Hl Hv Hk Ht] eqn:Ei.
  cbn [ab_kv ab_ttl ab_clock] in *. unfold ProcessCmd_scan, scan_args. cbn [req_args length Nat.eqb andb nth].
  change (strcasecmp_eq (lit "limit") (lit "limit")) with true. cbn iota.
  rewrite cstr_id, atoi_sdec by (done || apply sdec_no_nul).
  rewrite (ScanKey_keys _ kv ttl) by done. cbn [ret_num Z.ltb Z.compare].
  rewrite multi_bulk_reply_format.
  - eexists. split; [done|]. exact Hinv.
  - rewrite length_take. unfold is_i32 in Hn. lia.
  - apply Forall_take. by eapply keys_between_short.
Qed.

Lemma del_all_refines x kv ttl l :
  db_rel zk x kv ttl -> db_rel zk (del_all x l) (foldl (fun kv k => delete k kv) kv l) ttl.
Proof.
  revert x kv. induction l as [|k l IH]; intros x kv Hr; [done|]. unfold del_all. cbn [foldl].
  destruct (Del_refines zk x kv ttl k Hr) as (x' & -> & Hr'). by apply IH.
Qed.

Lemma scandel_refines a b : refines ProcessCmd_scan (RScanDel a b).
Proof.
  intros st [kv ttl clk] [Hdb Hc Hl Hv Hk Ht] (_ & _ & Hb) _. cbn [ab_kv ab_ttl ab_clock] in *.
  unfold ProcessCmd_scan, scan_args. cbn [req_args length Nat.eqb andb nth abs_request]. rewrite Hb.
  change (strcasecmp_eq (lit "del") (lit "del")) with true. cbn iota.
  rewrite (ScanKey_keys _ kv ttl) by done. cbn [ret_num Z.ltb Z.compare].
  rewrite SendIntReply_int.
  - eexists. split; [done|]. cbn [snd]. rewrite Hk. apply sys_inv_intro; [by apply del_all_refines|done|done| |done].
    intros k v Hkv. apply (Hv k). revert Hkv. clear. set (l := take _ _). clearbody l. revert kv.
    induction l as [|k' l IH]; intros kv; [done|]. cbn [foldl]. intros E%IH. by apply lookup_delete_Some in E as [_ ?].
  - rewrite length_take. unfold is_i64, INT_MAX. lia.
Qed.

(** Requests of less than 2 GB hold small values. *)
Lemma small_requests rs (n : Z) :
  n = 2 ^ 31 -> Z.of_nat (length (enc_cmds (req_args <$> rs))) < n -> Forall small_value rs.
Proof.
  intros ->. induction rs as [|r rs IH]; intros Hl; [constructor|].
  cbn [fmap list_fmap] in Hl. rewrite enc_cmds_cons, !length_app in Hl. constructor; [|apply IH; lia].
  assert (forall v, v ∈ req_args r -> value_ok v) as Hv.
  { intros v Hin. unfold value_ok. assert (length v <= length (enc_args (req_args r)))%nat; [|lia].
    clear -Hin. induction Hin as [v l|v a l Hin IH] using list_elem_of_ind.
    - rewrite enc_args_cons, length_app. unfold enc_bulk. rewrite !length_app. lia.
    - rewrite enc_args_cons, length_app. lia. }
  destruct r; cbn [small_value]; try done; apply Hv; cbn [req_args]; set_solver.
Qed.

(** ** The command table *)

Lemma run_cmd_refines st s r :
  sys_inv st s -> request_ok r -> small_value r ->
  exists st', run_cmd redis_table (req_args r) st = Some ((abs_request s r).1, st') /\
    sys_inv st' (abs_request s r).2.
Proof.
  intros Hi Ho Hs. destruct r as [k|k v|k v n|k|k n|k|a b n|a b].
  - by apply get_refines.
  - by apply set_refines.
  - by apply setex_refines.
  - by apply del_refines.
  - by apply expire_refines.
  - by apply ttl_refines.
  - by apply scan_refines.
  - by apply scandel_refines.
Qed.

Lemma run_cmds_refine rs st s :
  sys_inv st s -> Forall request_ok rs -> Forall small_value rs ->
  exists st', run_cmds redis_table (req_args <$> rs) st = Some ((abs_requests s rs).1, st') /\
    sys_inv st' (abs_requests s rs).2.
Proof.
  intros Hi Ho. revert st s Hi. induction Ho as [|r rs Hr Ho IH]; intros st s Hi Hs; [by exists st|].
  inversion Hs as [|? ? Hs1 Hs2]; subst. cbn [fmap list_fmap run_cmds abs_requests].
  destruct (run_cmd_refines st s r Hi Hr Hs1) as (st1 & -> & Hi1). cbn [mbind option_bind].
  destruct (abs_request s r) as [o s1]. cbn [fst snd] in *.
  destruct (IH st1 s1 Hi1 Hs2) as (st2 & -> & Hi2). cbn [mbind option_bind].
  exists st2. by destruct (abs_requests s1 rs).
Qed.

Lemma request_cmd_ok r : request_ok r -> cmd_ok (req_args r).
Proof.
  assert (forall n, sdec n <> []) as Hd.
  { intros n. unfold sdec. destruct (Z.ltb_spec n 0); [done|]. by apply udec_spec. }
  intros Ho. split; [by destruct r|].
  destruct r; unfold request_ok, key_ok in Ho; cbn [req_args]; repeat constructor; done || tauto || apply Hd.
Qed.

(** C4. A client session: the requests GET, SET, SET EX, DEL, EXPIRE, TTL and SCAN in
    any order ([request_ok]: no empty argument, which would stall the connection,
    keys below 2^30 bytes, times below 2^50 seconds; no FLUSHALL), of less than 2^31
    bytes in all, cut into pieces in any way of which the last has at least two
    bytes.  The server's output is the sequence of replies of the abstract store,
    its final state represents the abstract one, with a coherent cache of
    expirations, and nothing undefined is reached. *)
Theorem redis_session_correct chunks rs id now st s :
  sys_inv st s -> Forall request_ok rs ->
  Z.of_nat (length (enc_cmds (req_args <$> rs))) < 2 ^ 31 ->
  concat chunks = enc_cmds (req_args <$> rs) -> (exists d, last chunks = Some d /\ (2 <= length d)%nat) ->
  exists c' st', feed redis_table now (conn_new now id) chunks st = Some ((abs_requests s rs).1, c', st') /\
    sys_inv st' (abs_requests s rs).2 /\ argv c' = None /\ cmdbuffer c' = [].
Proof.
  intros Hi Ho Hlen Hcat (d & Hd & Hd2).
  assert (Forall cmd_ok (req_args <$> rs)) as Hok.
  { apply Forall_fmap. eapply Forall_impl; [exact Ho|]. apply request_cmd_ok. }
  destruct (feed_all redis_table now chunks (req_args <$> rs) id st) as (l1 & l2 & c' & El & -> & Hin & Hall); [done..|].
  destruct (Hall (Hin d Hd Hd2)) as (-> & Hv & _ & Hb). rewrite app_nil_r in El. subst l1.
  destruct (run_cmds_refine rs st s Hi Ho) as (st' & -> & Hi').
  - eapply small_requests; [|exact Hlen]. done.
  - cbn [mbind option_bind]. by exists c', st'.
Qed.

(** The turns of the expiration thread keep the invariant and remove from the
    abstract store what is due. *)
Lemma Dispatch_sys_inv st s cs lo hi :
  sys_inv st s -> Forall (fun c => lo <= time_ms c.1 <= hi /\ lo <= time_ms c.2 <= hi) cs ->
  exists x m kv ttl, Dispatch (xdb st, expiremgr st) cs = (x, m) /\
    sys_inv (MkRedis x m (clock st)) (MkAbs kv ttl (ab_clock s)) /\
    only_expired hi (ab_kv s, ab_ttl s) (kv, ttl) /\
    (base.size (due lo ttl) <= base.size (due lo (ab_ttl s)) - length cs)%nat.
Proof.
  intros [Hdb Hc Hl Hv Hk Ht] Hcs.
  destruct (Dispatch_refines (xdb st) (ab_kv s) (ab_ttl s) (expiremgr st) cs lo hi Hdb Hc Hcs)
    as (x & m & kv & ttl & -> & Hdb' & Hc' & Ho & Hd).
  exists x, m, kv, ttl. split; [done|]. rewrite Hk. split; [|done].
  apply sys_inv_intro; [done|done| | |done].
  - intros k e E. destruct (Ho k) as [[_ E2]|(_ & _ & E2)]; cbn [fst snd] in E2; [|congruence].
    apply (Hl k). congruence.
  - intros k v E. destruct (Ho k) as [[E1 _]|(_ & E1 & _)]; cbn [fst snd] in E1; [|congruence].
    apply (Hv k). congruence.
Qed.

(** A key with an expiration, after turns of the thread: [GET] gives its value
    before its time, and nothing after it, given a turn per expiration. *)
Lemma dispatch_then_get st s k v e cs lo hi :
  sys_inv st s -> key_ok k -> ab_kv s !! k = Some v -> ab_ttl s !! k = Some e ->
  Forall (fun c => lo <= time_ms c.1 <= hi /\ lo <= time_ms c.2 <= hi) cs ->
  (base.size (ab_ttl s) <= length cs)%nat ->
  exists x m out st2,
    Dispatch (xdb st, expiremgr st) cs = (x, m) /\
    run_cmd redis_table (req_args (RGet k)) (MkRedis x m (clock st)) = Some (out, st2) /\
    (hi < e -> out = enc_bulk (strValue v)) /\ (e <= lo -> out = nil_reply).
Proof.
  intros Hi Hk Hv Ht Hcs Hn. pose proof (si_live _ _ Hi _ _ Ht) as He.
  destruct (Dispatch_sys_inv st s cs lo hi Hi Hcs) as (x & m & kv2 & ttl2 & E2 & Hi2 & Hoe & Hd).
  destruct (run_cmd_refines _ _ (RGet k) Hi2 Hk I) as (st2 & E3 & _).
  eexists x, m, _, st2. split; [exact E2|]. split; [exact E3|].
  cbn [abs_request fst]. specialize (Hoe k). cbn [fst snd] in Hoe. rewrite Hv, Ht in Hoe. split.
  - intros Hhi. destruct Hoe as [[-> _]|([s' Hs'] & _ & _)]; [done|].
    apply due_live in Hs' as [[Es _] ?]. rewrite Ht in Es. injection Es as <-. lia.
  - intros Hlo. destruct Hoe as [[_ Ek]|(_ & -> & _)]; [|done]. exfalso.
    assert (base.size (due lo (ab_ttl s)) <= base.size (ab_ttl s))%nat as Hsz by apply map_size_filter.
    assert (due lo ttl2 = ∅) as Hnone by (apply map_size_empty_inv; lia).
    assert (due lo ttl2 !! k = Some e) as Hbad by (apply due_live; done).
    by rewrite Hnone in Hbad.
Qed.

(** What [SET k v EX n] leaves. *)
Lemma set_ex_state st s k v n :
  sys_inv st s -> request_ok (RSetEx k v n) -> value_ok v ->
  exists out st1 s1 w, run_cmd redis_table (req_args (RSetEx k v n)) st = Some (out, st1) /\ sys_inv st1 s1 /\
    ab_kv s1 !! k = Some w /\ strValue w = v /\ ab_ttl s1 !! k = Some (time_ms (clock st 0%nat) + n * 1000) /\
    (base.size (ab_ttl s1) <= S (base.size (ab_ttl s)))%nat.
Proof.
  intros Hi Ho Hv. destruct (run_cmd_refines st s _ Hi Ho Hv) as (st1 & E1 & Hi1). pose proof (si_clock _ _ Hi) as Hk.
  destruct s as [kv ttl clk]. cbn [abs_request fst snd ab_clock ab_ttl] in *. rewrite Hk.
  eexists _, st1, _, _. split; [exact E1|]. split; [exact Hi1|]. cbn [ab_kv ab_ttl]. rewrite !lookup_insert_eq.
  split_and!; try done. rewrite map_size_insert. destruct (ttl !! k); cbn; lia.
Qed.


End Refinement.

(** ** Concrete sessions *)

Definition still (t : timeval) : nat -> timeval := fun _ => t.

Definition demo_redis : RedisState MemStore.store := redis_init (mem_db ∅) (still (Timeval 5 0)).

Lemma demo_redis_inv : sys_inv (It := MemStore.iter) demo_redis (MkAbs ∅ ∅ (still (Timeval 5 0))).
Proof.
  split; cbn [ab_kv ab_ttl ab_clock demo_redis redis_init xdb expiremgr clock].
  - apply mem_db_empty.
  - apply coherent_new.
  - done.
  - done.
  - done.
  - intros i. change (time_ms (still (Timeval 5 0) i)) with 5000. lia.
Qed.

Definition demo_requests : list request := [RSet (lit "a") (lit "1"); RGet (lit "a")].

Lemma redis_session_correct_witness :
  exists c' st', feed (redis_table (It := MemStore.iter)) 5 (conn_new 5 1000)
      [take 20 (enc_cmds (req_args <$> demo_requests)); drop 20 (enc_cmds (req_args <$> demo_requests))]
      demo_redis
    = Some (ok_reply ++ enc_bulk (lit "1"), c', st').
Proof.
  destruct (redis_session_correct (It := MemStore.iter)
    [take 20 (enc_cmds (req_args <$> demo_requests)); drop 20 (enc_cmds (req_args <$> demo_requests))]
    demo_requests 1000 5 demo_redis (MkAbs ∅ ∅ (still (Timeval 5 0)))) as (c' & st' & E & _).
  - apply demo_redis_inv.
  - repeat constructor; discriminate.
  - vm_compute. reflexivity.
  - reflexivity.
  - eexists. split; [reflexivity|]. vm_compute. lia.
  - exists c', st'. exact E.
Defined.


(** The reply to the last of a few commands, with two turns of the thread. *)
Definition flush_scenario : option bytes :=
  let t := redis_table (It := MemStore.iter) in
  let turn tv (st : RedisState MemStore.store) :=
    let '(x, m) := Dispatch (It := MemStore.iter) (xdb st, expiremgr st) [(tv, tv)] in MkRedis x m (clock st) in
  '(_, st) ← run_cmd t [lit "set"; lit "a"; lit "1"; lit "ex"; lit "10"] demo_redis;
  '(_, st) ← run_cmd t [lit "flushall"] (turn (Timeval 6 0) st);
  '(_, st) ← run_cmd t [lit "set"; lit "a"; lit "2"] st;
  '(out, _) ← run_cmd t [lit "get"; lit "a"] (turn (Timeval 16 0) st);
  Some out.

(** [FLUSHALL] does not clear the cached expirations: after
    [SET a 1 EX 10], a turn of the thread that caches it, and [FLUSHALL], a new
    value for [a] without expiration is deleted when the forgotten time comes. *)
Theorem flushall_leaves_stale_expirations : flush_scenario = Some nil_reply.
Proof. vm_compute. reflexivity. Qed.
