(* ===== verification/RedisLiveness.v ===== *)
(** Expiration in an endless run of the Redis server: commands of clients and turns
    of the expiration thread in any order, the thread never stopped for good. *)

From S2P Require Import Prelude Cstd Util SortedSet MurmurHash2 EtagManager RocksDB DataBase DataBaseSpec ExpireManager RedisServerLib RedisServerLibSpec RedisServer RedisServerSpec.

(** ** Endless runs *)

(** What happens next: a command, or a turn of the thread with its readings of the
    clock. *)
Inductive event := Cmd (r : request) | Turn (c : timeval * timeval).

Definition schedule : Type := nat -> event.
Definition later (n : nat) (sched : schedule) : schedule := fun i => sched (n + i)%nat.

(** The thread always gets another turn. *)
Definition fair (sched : schedule) : Prop := forall i, exists j c, (i <= j)%nat /\ sched j = Turn c.

(** Commands that give the key a value or an expiration. *)
Definition touches (k : bytes) (r : request) : bool :=
  match r with RSet k' _ | RSetEx k' _ _ | RExpire k' _ => bool_decide (k' = k) | _ => false end.

(** A command a client can send that leaves the key alone; a turn after [e]. *)
Definition event_ok (k : bytes) (e : Z) (ev : event) : Prop :=
  match ev with
  | Cmd r => request_ok r /\ small_value r /\ touches k r = false
  | Turn c => e < time_ms c.1 /\ e < time_ms c.2
  end.

Definition clock_after (e : Z) (clk : nat -> timeval) : Prop := forall i, e < time_ms (clk i).

Section Liveness.
Context {DB It : Type} `{RocksDBSpec DB It} `{!RocksDBHealthy DB It}.

Definition sys_step (ev : event) (st : RedisState DB) : option (RedisState DB) :=
  match ev with
  | Cmd r => '(_, st) ← run_cmd redis_table (req_args r) st; Some st
  | Turn c => let '(x, m) := Dispatch_turn (xdb st, expiremgr st) c in Some (MkRedis x m (clock st))
  end.

Fixpoint sys_run (sched : schedule) (n : nat) (st : RedisState DB) : option (RedisState DB) :=
  match n with
  | O => Some st
  | S n => st ← sys_step (sched 0%nat) st; sys_run (later 1 sched) n st
  end.

Lemma sys_run_add n : forall sched m st,
  sys_run sched (n + m) st = (st' ← sys_run sched n st; sys_run (later n sched) m st').
Proof.
  induction n as [|n IH]; intros sched m st; [done|]. cbn [Nat.add sys_run].
  destruct (sys_step (sched 0%nat) st) as [st1|]; [|done]. cbn [mbind option_bind]. rewrite IH. done.
Qed.

Lemma fair_later n sched : fair sched -> fair (later n sched).
Proof.
  intros Hf i. destruct (Hf (n + i)%nat) as (j & c & Hj & E). exists (j - n)%nat, c. split; [lia|].
  unfold later. by replace (n + (j - n))%nat with j by lia.
Qed.

(** *** One event *)

Lemma due_size_mono (e : Z) (t1 t2 : gmap bytes Z) :
  (forall k s, live t1 k s -> s <= e -> live t2 k s) -> (base.size (due e t1) <= base.size (due e t2))%nat.
Proof.
  intros Hs. apply map_subseteq_size, map_subseteq_spec. intros k s Hk. apply due_live in Hk as [Hl He].
  apply due_live. split; [by apply Hs|done].
Qed.

(** A new expiration that is later than [e] is not among those due at [e]. *)
Lemma due_insert_later (e e' : Z) (k : bytes) (ttl : gmap bytes Z) :
  e < e' -> (base.size (due e (<[k := e']> ttl)) <= base.size (due e ttl))%nat.
Proof.
  intros Hlt. apply due_size_mono. intros k' s [Hk Hs] Hse. rewrite lookup_insert_Some in Hk.
  destruct Hk as [[<- <-]|[_ Hk]]; [lia|]. by split.
Qed.

Lemma abs_request_effect s r k e :
  request_ok r -> touches k r = false -> clock_after e (ab_clock s) ->
  let s' := (abs_request s r).2 in
  ab_ttl s' !! k = ab_ttl s !! k /\ (ab_kv s !! k = None -> ab_kv s' !! k = None) /\
  (base.size (due e (ab_ttl s')) <= base.size (due e (ab_ttl s)))%nat /\ clock_after e (ab_clock s').
Proof.
  intros Ho Ht Hc. destruct s as [kv ttl clk]. cbn [ab_clock] in Hc.
  assert (clock_after e (rest clk)) as Hr by (intros i; apply Hc).
  assert (clock_after e (rest (rest clk))) as Hrr by (intros i; apply Hc). pose proof (Hc 0%nat) as Hc0.
  destruct r as [k'|k' v|k' v n|k'|k' n|k'|a b n|a b]; cbn [abs_request snd ab_kv ab_ttl ab_clock touches request_ok] in *;
    try (apply bool_decide_eq_false in Ht).
  - by destruct (kv !! k').
  - split; [done|]. split; [by rewrite lookup_insert_ne|done].
  - split; [by rewrite lookup_insert_ne|]. split; [by rewrite lookup_insert_ne|]. split; [|done]. apply due_insert_later. lia.
  - split; [done|]. split; [|done]. intros Hk. rewrite lookup_delete_None. by right.
  - case_decide; cbn [snd ab_kv ab_ttl ab_clock]; [done|]. split; [by rewrite lookup_insert_ne|]. split; [done|]. split; [|done].
    apply due_insert_later. lia.
  - by destruct (ttl !! k').
  - done.
  - split; [done|]. split; [|done]. generalize (take (Z.to_nat INT_MAX) (keys_between kv a b)) as l. intros l. revert kv.
    induction l as [|x l IH]; intros kv Hk; cbn [foldl]; [done|]. apply IH. rewrite lookup_delete_None. by right.
Qed.

(** The key waits for its removal, or is gone. *)
Definition pending (k : bytes) (e : Z) (s : abs_redis) : Prop := ab_ttl s !! k = Some e.
Definition gone (k : bytes) (s : abs_redis) : Prop := ab_ttl s !! k = None /\ ab_kv s !! k = None.

Lemma cmd_step st s r k e :
  sys_inv st s -> event_ok k e (Cmd r) -> clock_after e (clock st) ->
  exists st' s', sys_step (Cmd r) st = Some st' /\ sys_inv st' s' /\ clock_after e (clock st') /\
    (pending k e s -> pending k e s') /\ (gone k s -> gone k s') /\
    (base.size (due e (ab_ttl s')) <= base.size (due e (ab_ttl s)))%nat.
Proof.
  intros Hi (Ho & Hv & Ht) Hc. destruct (run_cmd_refines st s r Hi Ho Hv) as (st' & E & Hi'). cbn [sys_step]. rewrite E. cbn [mbind option_bind].
  rewrite (si_clock _ _ Hi) in Hc. destruct (abs_request_effect s r k e Ho Ht Hc) as (H1 & H2 & H3 & H4).
  exists st', (abs_request s r).2. split; [done|]. split; [done|]. rewrite (si_clock _ _ Hi'). split; [done|].
  unfold pending, gone. rewrite H1. split; [done|]. split; [|done]. intros [Hn Hk]. split; [done|by apply H2].
Qed.

Lemma turn_step st s c k e :
  sys_inv st s -> event_ok k e (Turn c) ->
  exists st' s', sys_step (Turn c) st = Some st' /\ sys_inv st' s' /\ clock st' = clock st /\
    (pending k e s -> pending k e s' \/ gone k s') /\ (gone k s -> gone k s') /\
    (base.size (due e (ab_ttl s')) <= base.size (due e (ab_ttl s)) - 1)%nat.
Proof.
  intros Hi [Hc1 Hc2].
  destruct (Dispatch_sys_inv st s [c] e (Z.max (time_ms c.1) (time_ms c.2)) Hi) as (x & m & kv & ttl & E & Hi' & Ho & Hd).
  { constructor; [lia|constructor]. }
  cbn [Dispatch foldl] in E. cbn [sys_step]. rewrite E. eexists _, _. split; [done|]. split; [exact Hi'|]. split; [done|].
  unfold pending, gone. cbn [ab_kv ab_ttl]. specialize (Ho k). cbn [fst snd] in Ho.
  split; [|split; [|done]].
  - intros Hp. destruct Ho as [[_ Hk]|(_ & Hk & Ht)]; [left; by rewrite Hk|by right].
  - intros [Ht Hk]. destruct Ho as [[-> ->]|(_ & -> & ->)]; done.
Qed.

(** Any event: the key goes on waiting or is gone, and a turn of the thread brings
    its removal nearer. *)
Lemma event_step ev st s k e :
  sys_inv st s -> clock_after e (clock st) -> event_ok k e ev ->
  exists st' s', sys_step ev st = Some st' /\ sys_inv st' s' /\ clock_after e (clock st') /\
    (pending k e s -> pending k e s' \/ gone k s') /\ (gone k s -> gone k s') /\
    (base.size (due e (ab_ttl s')) <= base.size (due e (ab_ttl s)) - (if ev is Turn _ then 1 else 0))%nat.
Proof.
  intros Hi Hc Ho. destruct ev as [r|c].
  - destruct (cmd_step st s r k e Hi Ho Hc) as (st' & s' & E & Hi' & Hc' & Hp & Hg & Hd).
    exists st', s'. split_and!; try done; [by left; apply Hp|lia].
  - destruct (turn_step st s c k e Hi Ho) as (st' & s' & E & Hi' & Hc' & Hp & Hg & Hd).
    exists st', s'. rewrite Hc'. by split_and!.
Qed.

(** *** Whole runs *)

(** What is gone stays gone. *)
Lemma gone_stays m : forall sched st s k e,
  sys_inv st s -> clock_after e (clock st) -> (forall i, event_ok k e (sched i)) -> gone k s ->
  exists st' s', sys_run sched m st = Some st' /\ sys_inv st' s' /\ gone k s'.
Proof.
  induction m as [|m IH]; intros sched st s k e Hi Hc Ho Hg; [by exists st, s|]. cbn [sys_run].
  destruct (event_step (sched 0%nat) st s k e Hi Hc (Ho _)) as (st1 & s1 & -> & Hi1 & Hc1 & _ & Hg1 & _).
  cbn [mbind option_bind]. apply (IH (later 1 sched) st1 s1 k e Hi1 Hc1); [|by apply Hg1]. intros i. apply Ho.
Qed.

Lemma pending_due st s k e : sys_inv st s -> pending k e s -> (0 < base.size (due e (ab_ttl s)))%nat.
Proof.
  intros Hi Hp. destruct (decide (base.size (due e (ab_ttl s)) = 0%nat)) as [Hz|?]; [|lia].
  apply map_size_empty_inv in Hz. assert (due e (ab_ttl s) !! k = Some e) as Hd.
  { apply due_live. split; [|lia]. split; [done|]. by apply (si_live _ _ Hi k). }
  by rewrite Hz in Hd.
Qed.

(** Up to the next turn of the thread, which is [j] events away. *)
Lemma run_to_turn j : forall sched st s k e c,
  sys_inv st s -> clock_after e (clock st) -> (forall i, event_ok k e (sched i)) -> pending k e s -> sched j = Turn c ->
  exists n st' s', sys_run sched n st = Some st' /\ sys_inv st' s' /\ clock_after e (clock st') /\
    (gone k s' \/ (pending k e s' /\ (base.size (due e (ab_ttl s')) < base.size (due e (ab_ttl s)))%nat)).
Proof.
  induction j as [|j IH]; intros sched st s k e c Hi Hc Ho Hp Ej;
    pose proof (pending_due st s k e Hi Hp) as Hpos;
    destruct (event_step (sched 0%nat) st s k e Hi Hc (Ho _)) as (st1 & s1 & E1 & Hi1 & Hc1 & Hp1 & _ & Hd1).
  - exists 1%nat, st1, s1. cbn [sys_run]. rewrite E1. split_and!; try done. rewrite Ej in Hd1.
    destruct (Hp1 Hp) as [?|?]; [right|by left]. split; [done|lia].
  - destruct (Hp1 Hp) as [Hp1'|Hg].
    + destruct (IH (later 1 sched) st1 s1 k e c Hi1 Hc1 (fun i => Ho _) Hp1' Ej) as (n & st' & s' & E & Hi' & Hc' & Hor).
      exists (S n), st', s'. cbn [sys_run]. rewrite E1. split_and!; try done.
      destruct Hor as [?|[? ?]]; [by left|right]. split; [done|]. destruct (sched 0%nat); lia.
    + exists 1%nat, st1, s1. cbn [sys_run]. rewrite E1. split_and!; try done. by left.
Qed.

Lemma pending_then_gone n : forall sched st s k e,
  sys_inv st s -> clock_after e (clock st) -> (forall i, event_ok k e (sched i)) -> fair sched ->
  pending k e s -> (base.size (due e (ab_ttl s)) <= n)%nat ->
  exists i st' s', sys_run sched i st = Some st' /\ sys_inv st' s' /\ clock_after e (clock st') /\ gone k s'.
Proof.
  induction n as [|n IH]; intros sched st s k e Hi Hc Ho Hf Hp Hn; [pose proof (pending_due st s k e Hi Hp); lia|].
  destruct (Hf 0%nat) as (j & c & _ & Ej).
  destruct (run_to_turn j sched st s k e c Hi Hc Ho Hp Ej) as (i & st1 & s1 & E1 & Hi1 & Hc1 & [Hg|[Hp1 Hd]]).
  - by exists i, st1, s1.
  - destruct (IH (later i sched) st1 s1 k e Hi1 Hc1 (fun i' => Ho _) (fair_later i sched Hf) Hp1) as (i' & st2 & s2 & E2 & ?); [lia|].
    exists (i + i')%nat, st2, s2. rewrite sys_run_add, E1. by split.
Qed.

(** C10. An expired key is eventually removed, for good: in an endless run of the
    server, in which clients send any commands that do not set the key or its
    expiration again (other keys may be set without end) and the expiration
    thread always gets another turn, no event is stuck, and from some point on
    [GET] of the key finds nothing. *)
Theorem expired_key_is_eventually_gone sched st s k e :
  sys_inv st s -> key_ok k -> ab_ttl s !! k = Some e -> clock_after e (clock st) ->
  (forall i, event_ok k e (sched i)) -> fair sched ->
  exists n, forall m, (n <= m)%nat -> exists st_m st',
    sys_run sched m st = Some st_m /\
    run_cmd redis_table (req_args (RGet k)) st_m = Some (nil_reply, st').
Proof.
  intros Hi Hk Hp Hc Ho Hf.
  destruct (pending_then_gone _ sched st s k e Hi Hc Ho Hf Hp (le_n _)) as (n & st1 & s1 & E1 & Hi1 & Hc1 & Hg).
  exists n. intros m Hm.
  destruct (gone_stays (m - n) (later n sched) st1 s1 k e Hi1 Hc1 (fun i => Ho _) Hg) as (st2 & s2 & E2 & Hi2 & [_ Hg2]).
  destruct (run_cmd_refines st2 s2 (RGet k) Hi2 Hk I) as (st3 & E3 & _). exists st2, st3. split.
  - replace m with (n + (m - n))%nat by lia. rewrite sys_run_add, E1. exact E2.
  - rewrite E3. destruct s2 as [kv ttl clk]. cbn [abs_request fst ab_kv] in *. by rewrite Hg2.
Qed.

End Liveness.

(** The server after [SET a 1 EX 10] at second 5, its clock at second 20. *)
Definition demo_waiting : option (RedisState MemStore.store) :=
  '(_, st) ← run_cmd (redis_table (It := MemStore.iter)) (req_args (RSetEx (lit "a") (lit "1") 10)) demo_redis;
  Some (MkRedis (xdb st) (expiremgr st) (still (Timeval 20 0))).

(** Another client sets another key between any two turns of the thread. *)
Definition demo_schedule : schedule := fun i =>
  if Nat.even i then Cmd (RSetEx (lit "b") (lit "2") 10) else Turn (Timeval 20 0, Timeval 20 0).

Lemma expired_key_is_eventually_gone_witness :
  exists st n, demo_waiting = Some st /\ forall m, (n <= m)%nat -> exists st_m st',
    sys_run (It := MemStore.iter) demo_schedule m st = Some st_m /\
    run_cmd (redis_table (It := MemStore.iter)) (req_args (RGet (lit "a"))) st_m = Some (nil_reply, st').
Proof.
  destruct (run_cmd_refines (It := MemStore.iter) demo_redis (MkAbs ∅ ∅ (still (Timeval 5 0)))
    (RSetEx (lit "a") (lit "1") 10) demo_redis_inv) as (st & E & Hi).
  { repeat split; discriminate || lia. }
  { unfold small_value, value_ok. cbn. lia. }
  unfold demo_waiting. rewrite E. cbn [mbind option_bind].
  destruct (expired_key_is_eventually_gone (It := MemStore.iter) demo_schedule
    (MkRedis (xdb st) (expiremgr st) (still (Timeval 20 0)))
    (MkAbs (ab_kv (abs_request (MkAbs ∅ ∅ (still (Timeval 5 0))) (RSetEx (lit "a") (lit "1") 10)).2) {[lit "a" := 15000]} (still (Timeval 20 0)))
    (lit "a") 15000) as (n & Hn).
  - destruct Hi as [Hdb Hco Hl Hv _ _]. apply sys_inv_intro; [exact Hdb|exact Hco|exact Hl|exact Hv|].
    intros i. change (time_ms (still (Timeval 20 0) i)) with 20000. lia.
  - by split.
  - reflexivity.
  - intros i. change (time_ms (clock _ i)) with 20000. lia.
  - intros i. unfold demo_schedule. destruct (Nat.even i); cbn [event_ok].
    + split; [repeat split; discriminate || lia|]. split; [unfold small_value, value_ok; cbn; lia|reflexivity].
    + change (time_ms _) with 20000. lia.
  - intros i. exists (2 * i + 1)%nat, (Timeval 20 0, Timeval 20 0). split; [lia|]. unfold demo_schedule.
    by rewrite Nat.add_comm, Nat.even_add, Nat.even_mul.
  - eexists _, n. split; [reflexivity|exact Hn].
Defined.
