(* ===== verification/Interleaving.v ===== *)
(** The expiration thread between its own steps: nothing locks the cache or the
    database between the calls it makes, so the commands of clients, which the
    event loop's thread runs, come between them.

    Here each call on the database and on the cache is one step, which is more
    than the code grants: the two threads change the same [SortedSet] without a
    lock. *)

From S2P Require Import Prelude Cstd Util SortedSet MurmurHash2 EtagManager RocksDB DataBase DataBaseSpec ExpireManager RedisServerLib RedisServerLibSpec RedisServer RedisServerSpec.

(** ** The steps of the thread *)

(** Where the thread is in [ExpireLoop]: before it, or with a key it found due
    before [Del], before [Zdel], before [pop_front]. *)
Inductive pc := Idle | Picked (key : bytes) | Deleted (key : bytes) | Unlisted.

(** The items in the cache. *)
Abbreviation cached m := (SS.sorted_set (sort_set m)).

Section Steps.
Context {DB It : Type} `{RocksDB DB It}.

(** The test of [Dispatch] and the beginning of [ExpireLoop]. *)
Definition pick (x : xDataBase DB) (m : ExpireManager) (c : timeval * timeval) : ExpireManager * pc :=
  let look m :=
    match SS.front (sort_set m) with
    | Some it =>
        let m := with_timeout m (SS.score it) in
        if SS.score it <=? time_ms c.2 then (m, Picked (SS.key it)) else (m, Idle)
    | None => (m, Idle)
    end in
  if negb (brun m) then (m, Idle)
  else if time_ms c.1 <? first_timeout m then (m, Idle)
  else if SS.empty (sort_set m) then
    let m := LoadExpirationKeys x m BATCH_SIZE in
    if SS.empty (sort_set m) then (with_timeout m INT64_MAX, Idle) else look m
  else look m.

Definition thread_step (c : timeval * timeval) (st : RedisState DB * pc) : RedisState DB * pc :=
  let '(MkRedis x m clk, p) := st in
  match p with
  | Idle => let '(m, p) := pick x m c in (MkRedis x m clk, p)
  | Picked k => (MkRedis (xdb_Del x k).2 m clk, Deleted k)
  | Deleted k => (MkRedis (xdb_Zdel x (expire_key m) k).2 m clk, Unlisted)
  | Unlisted => (MkRedis x (with_set m (SS.pop_front (sort_set m)).2) clk, Idle)
  end.

(** Undisturbed, the steps are a turn. *)
Lemma steps_are_a_turn x m clk c :
  let '(x', m') := Dispatch_turn (x, m) c in
  thread_step c (MkRedis x m clk, Idle) = (MkRedis x' m' clk, Idle) \/
  thread_step c (thread_step c (thread_step c (thread_step c (MkRedis x m clk, Idle)))) = (MkRedis x' m' clk, Idle).
Proof.
  assert (forall m1, let look := match SS.front (sort_set m1) with
    | Some it => let m := with_timeout m1 (SS.score it) in
        if SS.score it <=? time_ms c.2 then (m, Picked (SS.key it)) else (m, Idle)
    | None => (m1, Idle) end in
    let '(x', m') := match SS.front (sort_set m1) with
    | Some it =>
        let m := with_timeout m1 (SS.score it) in
        if SS.score it <=? time_ms c.2 then
          let '(_, x) := xdb_Del x (SS.key it) in
          let '(_, x) := xdb_Zdel x (expire_key m) (SS.key it) in
          (x, with_set m (SS.pop_front (sort_set m)).2)
        else (x, m)
    | None => (x, m1) end in
    let st := let '(m, p) := look in (MkRedis x m clk, p) in
    st = (MkRedis x' m' clk, Idle) \/ thread_step c (thread_step c (thread_step c st)) = (MkRedis x' m' clk, Idle)) as Hlook.
  { intros m1. cbn zeta. destruct (SS.front (sort_set m1)) as [it|]; cbv beta iota; [|by left].
    destruct (SS.score it <=? time_ms c.2); cbv beta iota; [|by left].
    destruct (xdb_Del x (SS.key it)) as [r1 x1] eqn:E1.
    destruct (xdb_Zdel x1 (expire_key (with_timeout m1 (SS.score it))) (SS.key it)) as [r2 x2] eqn:E2.
    right. cbn [thread_step]. rewrite E1. cbn [snd]. by rewrite E2. }
  cbn [Dispatch_turn thread_step]. unfold pick, ExpireLoop. destruct (negb (brun m)); [by left|].
  destruct (time_ms c.1 <? first_timeout m); [by left|]. destruct (SS.empty (sort_set m)); cbv zeta; [|apply Hlook].
  destruct (SS.empty (sort_set (LoadExpirationKeys x m BATCH_SIZE))); [by left|apply Hlook].
Qed.

(** *** Commands do not look at the cache *)

(** A manager that has at most learnt one expiration more. *)
Definition learns (k : bytes) (e : Z) (m m' : ExpireManager) : Prop :=
  expire_key m' = expire_key m /\ brun m' = brun m /\ forall it, it ∈ cached m' -> it ∈ cached m \/ it = SS.MkItem k e.

Lemma add_items s k e it : it ∈ SS.sorted_set (SS.add s k e).2 -> it ∈ SS.sorted_set s \/ it = SS.MkItem k e.
Proof.
  unfold SS.add. destruct (SS.existed s !! k) as [it2|]; cbn [snd SS.sorted_set].
  - destruct (_ =? e); cbn [snd SS.sorted_set]; [by left|]. intros [->|Hin]%SS.elem_of_set_insert; [by right|left].
    eapply elem_of_sublist; [exact Hin|apply SS.set_erase_sublist].
  - intros [->|Hin]%SS.elem_of_set_insert; [by right|by left].
Qed.

Lemma del_items s k it : it ∈ SS.sorted_set (SS.del s k).2 -> it ∈ SS.sorted_set s.
Proof.
  unfold SS.del. destruct (SS.existed s !! k) as [it2|]; cbn [snd SS.sorted_set]; [|done]. intros Hin.
  eapply elem_of_sublist; [exact Hin|apply SS.set_erase_sublist].
Qed.

Lemma pop_back_items s it : it ∈ SS.sorted_set (SS.pop_back s).2 -> it ∈ SS.sorted_set s.
Proof.
  unfold SS.pop_back. destruct (last _) as [it2|]; cbn [snd SS.sorted_set]; [|done]. intros Hin.
  eapply elem_of_sublist; [exact Hin|apply SS.set_erase_sublist].
Qed.

Lemma pop_front_items s it : it ∈ SS.sorted_set (SS.pop_front s).2 -> it ∈ SS.sorted_set s.
Proof.
  unfold SS.pop_front. destruct s as [ex [|it2 l]]; [done|]. cbn [snd SS.sorted_set]. intros Hin.
  eapply elem_of_sublist; [exact Hin|apply SS.set_erase_sublist].
Qed.

Lemma SetTTL_learns m k e : learns k e m (SetTTL m k e).2.
Proof.
  unfold SetTTL, learns. set (m1 := if e <? first_timeout m then with_timeout m e else m).
  assert (expire_key m1 = expire_key m /\ brun m1 = brun m /\ sort_set m1 = sort_set m) as (E1 & E2 & E3)
    by (subst m1; by destruct (e <? first_timeout m)).
  rewrite E3. destruct (_ && _); cbn [snd with_set expire_key brun sort_set]; (split; [done|]; split; [done|]); intros it.
  - destruct (BATCH_SIZE <? _); [intros Hin%pop_back_items|intros Hin]; by apply add_items.
  - intros Hin%del_items. by left.
Qed.

Lemma learns_twice k e m m1 m2 : learns k e m m1 -> learns k e m1 m2 -> learns k e m m2.
Proof.
  intros (E1 & E2 & H1) (E3 & E4 & H2). split; [congruence|]. split; [congruence|]. intros it [Hin| ->]%H2; [by apply H1|by right].
Qed.

(** What a handler makes of the cache: nothing, or it learns the expiration that
    SET EX, or an EXPIRE that replies 1, computes from the clock. *)
Definition touch : Type := list bytes -> timeval -> bytes -> ExpireManager -> ExpireManager -> Prop.

Definition untouched : touch := fun _ _ _ m m' => m' = m.
Definition set_touch : touch := fun argv tm _ m m' =>
  m' = m \/ length argv = 5%nat /\ exists e, expired_at tm (cstr (nth 4 argv [])) = Some e /\ learns (nth 1 argv []) e m m'.
Definition expire_touch : touch := fun argv tm o m m' =>
  m' = m \/ SendIntReply 1 = Some o /\ exists e, expired_at tm (nth 2 argv []) = Some e /\ learns (nth 1 argv []) e m m'.

(** The reply of a handler and what it does to the database do not depend on the
    cache. *)
Definition cache_free (Q : touch) (h : list bytes -> RedisState DB -> option (bytes * RedisState DB)) : Prop :=
  forall argv x m m0 clk o st', expire_key m = expire_key m0 -> h argv (MkRedis x m0 clk) = Some (o, st') ->
  exists m', h argv (MkRedis x m clk) = Some (o, MkRedis (xdb st') m' (clock st')) /\ expire_key m' = expire_key m /\
    Q argv (clk 0%nat) o m m'.

Lemma SetTTL_key m k t : expire_key (SetTTL m k t).2 = expire_key m.
Proof. apply SetTTL_learns. Qed.

Lemma reply_cache msg x m m0 clk o st' :
  reply (DB := DB) msg (MkRedis x m0 clk) = Some (o, st') ->
  reply msg (MkRedis x m clk) = Some (o, MkRedis (xdb st') m (clock st')).
Proof. unfold reply. intros E. destruct msg; cbn [mbind option_bind] in *; [|done]. by injection E as <- <-. Qed.

Lemma reply_text msg x m0 clk o st' : reply (DB := DB) msg (MkRedis x m0 clk) = Some (o, st') -> msg = Some o.
Proof. unfold reply. intros E. destruct msg; cbn [mbind option_bind] in *; [|done]. by injection E as <- <-. Qed.

(** Closes a branch: the reply is made with the cache as it was. *)
Ltac reply_done m := intros E; exists m; (split; [first [exact (reply_cache _ _ _ _ _ _ _ E)|by injection E as <- <-]|split; [done|first [done|by left]]]).

Lemma get_cache_free : cache_free untouched ProcessCmd_get.
Proof.
  intros argv x m m0 clk o st' Hk. unfold ProcessCmd_get. destruct (negb _); [reply_done m|]. cbn [xdb expiremgr clock].
  destruct (xdb_Get x _ _) as [[[ret val] x1]|]; cbn [mbind option_bind]; [|done]. destruct ret; reply_done m.
Qed.

Lemma set_cache_free : cache_free set_touch ProcessCmd_set.
Proof.
  intros argv x m m0 clk o st' Hk. unfold ProcessCmd_set. destruct (length argv =? 3)%nat; cbn [xdb expiremgr clock].
  { unfold reading. cbn [clock]. destruct (xdb_Set x _ _ _) as [[r1 x1]|]; cbn [mbind option_bind]; [reply_done m|done]. }
  destruct ((length argv =? 5)%nat && _) eqn:E5; [|reply_done m]. apply andb_prop in E5 as [E5%Nat.eqb_eq _].
  unfold reading. cbn [clock]. destruct (expired_at _ _) as [e|] eqn:Ee; cbn [mbind option_bind]; [|done].
  destruct (xdb_Set x _ _ _) as [[r1 x1]|]; cbn [mbind option_bind]; [|done].
  pose proof (SetTTL_learns m0 (nth 1 argv []) e) as H0. pose proof (SetTTL_learns m (nth 1 argv []) e) as H1.
  destruct (SetTTL m0 (nth 1 argv []) e) as [r2 m1], (SetTTL m (nth 1 argv []) e) as [r3 m2]. cbn [snd] in *.
  assert (expire_key m1 = expire_key m2) as -> by (destruct H0 as [-> _], H1 as [-> _]; done).
  destruct (xdb_Zset x1 _ _ _) as [ret x2]. destruct (decide (ret = db_ok)).
  - pose proof (SetTTL_learns m2 (nth 1 argv []) e) as H2.
    destruct (SetTTL m1 (nth 1 argv []) e) as [r4 m3], (SetTTL m2 (nth 1 argv []) e) as [r5 m4]. cbn [snd] in H2.
    pose proof (learns_twice _ _ _ _ _ H1 H2) as H3.
    intros E. exists m4. split; [exact (reply_cache _ _ _ _ _ _ _ E)|]. split; [apply H3|]. right. eauto.
  - intros E. exists m2. split; [exact (reply_cache _ _ _ _ _ _ _ E)|]. split; [apply H1|]. right. eauto.
Qed.

Lemma del_cache_free : cache_free untouched ProcessCmd_del.
Proof.
  intros argv x m m0 clk o st' Hk. unfold ProcessCmd_del. destruct (negb _); [reply_done m|]. cbn [xdb expiremgr clock].
  destruct (xdb_Del x _) as [ret x1]. reply_done m.
Qed.

Lemma expire_cache_free : cache_free expire_touch ProcessCmd_expire.
Proof.
  intros argv x m m0 clk o st' Hk. unfold ProcessCmd_expire. destruct (negb _); [reply_done m|]. unfold reading. cbn [xdb expiremgr clock].
  destruct (expired_at _ _) as [e|] eqn:Ee; cbn [mbind option_bind xdb expiremgr clock]; [|done].
  destruct (xdb_Get x _ _) as [[[ret val] x1]|]; cbn [mbind option_bind]; [|done]. destruct (decide (ret = db_ok)); [|reply_done m].
  rewrite Hk. destruct (xdb_Zset x1 _ _ _) as [ret2 x2]. destruct (decide (ret2 = db_ok)); [|rewrite <- Hk; reply_done m].
  rewrite <- Hk. pose proof (SetTTL_learns m (nth 1 argv []) e) as Hl. intros E. exists (SetTTL m (nth 1 argv []) e).2.
  split; [exact (reply_cache _ _ _ _ _ _ _ E)|]. split; [apply Hl|]. right. split; [exact (reply_text _ _ _ _ _ _ E)|]. eauto.
Qed.

Lemma ttl_cache_free : cache_free untouched ProcessCmd_ttl.
Proof.
  intros argv x m m0 clk o st' Hk. unfold ProcessCmd_ttl. destruct (negb _); [reply_done m|]. cbn [xdb expiremgr clock].
  rewrite Hk. destruct (xdb_Zget x _ _ _) as [ret score]. unfold reading. cbn [clock]. rewrite <- Hk.
  destruct ret; [destruct (int64 _); cbn [mbind option_bind]; [|done]| |]; reply_done m.
Qed.

Lemma scan_cache_free : cache_free untouched ProcessCmd_scan.
Proof.
  intros argv x m m0 clk o st' Hk. unfold ProcessCmd_scan. destruct (scan_args argv) as [[[[a b] l] del]|]; [|reply_done m].
  cbn [xdb expiremgr clock]. destruct (xdb_ScanKey x _ _ _ _) as [ret keys]. destruct (ret_num ret <? 0); [reply_done m|].
  destruct del; reply_done m.
Qed.

(** What a request makes of the cache. *)
Definition request_touch (r : request) : touch :=
  match r with RSet _ _ | RSetEx _ _ _ => set_touch | RExpire _ _ => expire_touch | _ => untouched end.

Lemma run_cmd_cache_free r x m m0 clk o st' :
  expire_key m = expire_key m0 -> run_cmd redis_table (req_args r) (MkRedis x m0 clk) = Some (o, st') ->
  exists m', run_cmd redis_table (req_args r) (MkRedis x m clk) = Some (o, MkRedis (xdb st') m' (clock st')) /\
    expire_key m' = expire_key m /\ request_touch r (req_args r) (clk 0%nat) o m m'.
Proof.
  intros Hk E. destruct r.
  - exact (get_cache_free _ x m m0 clk o st' Hk E).
  - exact (set_cache_free _ x m m0 clk o st' Hk E).
  - exact (set_cache_free _ x m m0 clk o st' Hk E).
  - exact (del_cache_free _ x m m0 clk o st' Hk E).
  - exact (expire_cache_free _ x m m0 clk o st' Hk E).
  - exact (ttl_cache_free _ x m m0 clk o st' Hk E).
  - exact (scan_cache_free _ x m m0 clk o st' Hk E).
  - exact (scan_cache_free _ x m m0 clk o st' Hk E).
Qed.

End Steps.

(** ** Any interleaving *)

(** What happens next: a command of a client, or a step of the thread. *)
Inductive action := Command (r : request) | Thread (c : timeval * timeval).

Definition action_ok (a : action) : Prop :=
  match a with Command r => request_ok r /\ small_value r | Thread _ => True end.

(** [e] was the expiration of [k] at one of the moments of [hist]. *)
Definition recorded (hist : list (gmap bytes Z)) (k : bytes) (e : Z) : Prop :=
  exists ttl, ttl ∈ hist /\ ttl !! k = Some e.

(** What a step of the thread may do to the store when its clock reads [now]:
    begin with a key, while the thread is [running] and an expiration that the key
    had at some moment has been reached, remove its value, remove its expiration,
    end. *)
Inductive abs_thread (running : bool) (hist : list (gmap bytes Z)) (now : Z) : abs_redis * pc -> abs_redis * pc -> Prop :=
| at_wait s : abs_thread running hist now (s, Idle) (s, Idle)
| at_pick s k e : running = true -> recorded hist k e -> e <= now -> abs_thread running hist now (s, Idle) (s, Picked k)
| at_del kv ttl clk k : abs_thread running hist now (MkAbs kv ttl clk, Picked k) (MkAbs (delete k kv) ttl clk, Deleted k)
| at_zdel kv ttl clk k : abs_thread running hist now (MkAbs kv ttl clk, Deleted k) (MkAbs kv (delete k ttl) clk, Unlisted)
| at_pop s : abs_thread running hist now (s, Unlisted) (s, Idle).

(** A run, with the expirations after each command so far. *)
Inductive abs_run (running : bool) : list (gmap bytes Z) -> abs_redis * pc -> list action -> list bytes -> abs_redis * pc -> Prop :=
| ar_nil hist s : abs_run running hist s [] [] s
| ar_command hist s p r acts outs s' :
    abs_run running (ab_ttl (abs_request s r).2 :: hist) ((abs_request s r).2, p) acts outs s' ->
    abs_run running hist (s, p) (Command r :: acts) ((abs_request s r).1 :: outs) s'
| ar_thread hist s s1 c acts outs s' :
    abs_thread running hist (time_ms c.2) s s1 -> abs_run running hist s1 acts outs s' ->
    abs_run running hist s (Thread c :: acts) outs s'.

Section Refinement.
Context {DB It : Type} `{RocksDBSpec DB It} `{!RocksDBHealthy DB It}.

Abbreviation zk := (lit "expire").

Fixpoint run_actions (acts : list action) (st : RedisState DB * pc) : option (list bytes * (RedisState DB * pc)) :=
  match acts with
  | [] => Some ([], st)
  | Command r :: acts =>
      '(o, st1) ← run_cmd redis_table (req_args r) st.1;
      '(outs, st) ← run_actions acts (st1, st.2);
      Some (o :: outs, st)
  | Thread c :: acts => run_actions acts (thread_step c st)
  end.

(** The invariant that survives interleaving: the database, and a cache of
    expirations that were recorded at some moment, the present ones among them. *)
Record store_inv (hist : list (gmap bytes Z)) (st : RedisState DB) (s : abs_redis) : Prop := {
  st_db : sys_inv (MkRedis (xdb st) expire_new (clock st)) s;
  st_key : expire_key (expiremgr st) = zk;
  st_now k e : ab_ttl s !! k = Some e -> recorded hist k e;
  st_cache it : it ∈ cached (expiremgr st) -> recorded hist (SS.key it) (SS.score it)
}.

Lemma recorded_later ttl hist k e : recorded hist k e -> recorded (ttl :: hist) k e.
Proof. intros (t & Ht & E). exists t. split; [by right|done]. Qed.

Lemma recorded_now ttl hist k e : ttl !! k = Some e -> recorded (ttl :: hist) k e.
Proof. intros E. exists ttl. split; [by left|done]. Qed.

Lemma sys_store_inv st s : sys_inv st s -> store_inv [ab_ttl s] st s.
Proof.
  intros [Hdb Hc Hl Hv Hk Ht]. split; [|by apply Hc|by intros; apply recorded_now|].
  - split; try done. by eapply coherent_restart.
  - intros it Hin. apply recorded_now. apply (co_live _ _ _ (co_coh _ _ Hc)). destruct it as [k e].
    apply SS.scores_elem; [apply Hc|done].
Qed.

(** What a command lets the cache learn is what it stores. *)
Lemma request_learns (s : abs_redis) r m m' :
  clock_ok (ab_clock s) -> request_ok r -> request_touch r (req_args r) (ab_clock s 0%nat) (abs_request s r).1 m m' ->
  brun m' = brun m /\ forall it, it ∈ cached m' -> it ∈ cached m \/ ab_ttl (abs_request s r).2 !! SS.key it = Some (SS.score it).
Proof.
  intros Hclk Hok Ht. destruct s as [kv ttl clk]. cbn [ab_clock] in *. assert (m' = m -> brun m' = brun m /\ forall it, it ∈ cached m' ->
    it ∈ cached m \/ ab_ttl (abs_request (MkAbs kv ttl clk) r).2 !! SS.key it = Some (SS.score it)) as Hsame by (intros ->; split; [done|by left]).
  destruct r as [k|k v|k v n|k|k n|k|a b n|a b]; cbn [request_touch] in Ht; try by apply Hsame.
  - destruct Ht as [->|[Hlen _]]; [by apply Hsame|discriminate Hlen].
  - destruct Ht as [->|(_ & e & Ee & _ & Hrun & Hl)]; [by apply Hsame|]. cbn [req_args nth] in *. split; [done|].
    destruct Hok as (_ & _ & Hn). rewrite cstr_id, expired_at_sdec in Ee by (done || apply sdec_no_nul). injection Ee as <-.
    intros it [Hin| ->]%Hl; [by left|right]. cbn [abs_request snd ab_ttl SS.key SS.score]. apply lookup_insert_eq.
  - destruct Ht as [->|(Ho & e & Ee & _ & Hrun & Hl)]; [by apply Hsame|]. cbn [req_args nth] in *. split; [done|].
    destruct Hok as (_ & Hn). rewrite expired_at_sdec in Ee by done. injection Ee as <-. cbn [abs_request] in *.
    destruct (decide (kv !! k = None \/ _)); [discriminate Ho|]. intros it [Hin| ->]%Hl; [by left|right].
    cbn [snd ab_ttl SS.key SS.score]. apply lookup_insert_eq.
Qed.

Lemma command_step hist st s r :
  store_inv hist st s -> request_ok r -> small_value r ->
  exists st', run_cmd redis_table (req_args r) st = Some ((abs_request s r).1, st') /\
    store_inv (ab_ttl (abs_request s r).2 :: hist) st' (abs_request s r).2 /\ brun (expiremgr st') = brun (expiremgr st).
Proof.
  intros [Hi Hk Hnow Hca] Ho Hs. destruct (run_cmd_refines _ _ r Hi Ho Hs) as (st0 & E & Hi0). destruct st as [x m clk].
  cbn [xdb expiremgr clock] in *. destruct (run_cmd_cache_free r x m expire_new clk _ _ Hk E) as (m' & -> & Hk' & Ht).
  assert (clk = ab_clock s) as -> by exact (si_clock _ _ Hi).
  destruct (request_learns s r m m' (si_time _ _ Hi) Ho Ht) as [Hrun Hl].
  eexists. split; [done|]. cbn [expiremgr]. split; [|done]. split; cbn [xdb expiremgr clock].
  - exact (st_db _ _ _ (sys_store_inv _ _ Hi0)).
  - congruence.
  - intros k e. apply recorded_now.
  - intros it [Hin|Hin]%Hl; [by apply recorded_later, Hca|by apply recorded_now].
Qed.

(** What the thread picks it found in the cache, or among the expirations. *)
Lemma pick_spec hist x m c s clk :
  store_inv hist (MkRedis x m clk) s ->
  let '(m', p) := pick x m c in
  store_inv hist (MkRedis x m' clk) s /\ brun m' = brun m /\
  (p = Idle \/ exists k e, p = Picked k /\ brun m = true /\ recorded hist k e /\ e <= time_ms c.2).
Proof.
  intros Hi. assert (forall m t, store_inv hist (MkRedis x m clk) s -> store_inv hist (MkRedis x (with_timeout m t) clk) s) as Htime
    by (intros m' t []; by split).
  assert (forall m1, store_inv hist (MkRedis x m1 clk) s -> brun m1 = brun m -> brun m = true ->
    let '(m', p) := match SS.front (sort_set m1) with
      | Some it => let m := with_timeout m1 (SS.score it) in
          if SS.score it <=? time_ms c.2 then (m, Picked (SS.key it)) else (m, Idle)
      | None => (m1, Idle) end in
    store_inv hist (MkRedis x m' clk) s /\ brun m' = brun m /\
    (p = Idle \/ exists k e, p = Picked k /\ brun m = true /\ recorded hist k e /\ e <= time_ms c.2)) as Hlook.
  { intros m1 H1 Hb Hrun. destruct (SS.front (sort_set m1)) as [it|] eqn:Ef; cbv zeta; [|by eauto].
    destruct (Z.leb_spec (SS.score it) (time_ms c.2)) as [Hle|_]; (split; [by apply Htime|]; split; [done|]); [right|by left].
    exists (SS.key it), (SS.score it). split_and!; [done|done| |done]. apply (st_cache _ _ _ H1). cbn [expiremgr].
    unfold SS.front in Ef. destruct (SS.sorted_set (sort_set m1)); [done|]. injection Ef as ->. by left. }
  unfold pick. destruct (brun m) eqn:Hrun; cbn [negb]; [|by eauto]. destruct (time_ms c.1 <? first_timeout m); [by eauto|].
  destruct (SS.empty (sort_set m)); [|by apply Hlook]. cbv zeta.
  assert (store_inv hist (MkRedis x (LoadExpirationKeys x m BATCH_SIZE) clk) s) as Hload.
  { destruct Hi as [Hi Hk Hnow Hca]. cbn [xdb expiremgr clock] in *. split; try done. cbn [expiremgr xdb]. intros it.
    unfold LoadExpirationKeys. cbn [with_set sort_set]. rewrite Hk.
    destruct (LoadExpirationKeys_refines zk x (ab_kv s) (ab_ttl s) BATCH_SIZE (sort_set m) (si_db _ _ Hi)) as (L & [_ HL] & ->); [cbn; lia|].
    cbn [snd]. assert (forall i, i ∈ take (Z.to_nat BATCH_SIZE) L -> recorded hist (SS.key i) (SS.score i)) as HL'.
    { intros [k e] (i & Hin%list_elem_of_lookup_2 & _)%elem_of_take. apply HL in Hin as [E _]. by apply Hnow. }
    revert HL' Hca. generalize (sort_set m) as ss. induction (take _ L) as [|i l IH]; intros ss HL' Hca; [by apply Hca|].
    cbn [foldl]. apply IH; [intros j Hj; apply HL'; by right|]. intros j [Hj| ->]%add_items; [by apply Hca|].
    cbn [SS.key SS.score]. apply HL'. by left. }
  destruct (SS.empty _); [split; [by apply Htime|by eauto]|]. by apply Hlook.
Qed.

Lemma coherent_new_delete k ttl : coherent expire_new ttl -> coherent expire_new (delete k ttl).
Proof.
  intros [? ? Hc ? ?]. split; [done|done| |done|done]. split; [done|done| |].
  - intros k' s [_ Hs]. exact (proj1 Hs).
  - intros k' s [_ E]%lookup_delete_Some. exact (co_key _ _ _ Hc _ _ E).
Qed.

(** [Zdel] of any key, the empty one included. *)
Lemma Zdel_any x kv ttl k :
  db_rel zk x kv ttl -> (forall k s, ttl !! k = Some s -> k <> []) ->
  exists x' r, xdb_Zdel x zk k = (r, x') /\ db_rel zk x' kv (delete k ttl).
Proof.
  intros Hr Hne. destruct (decide (k = [])) as [->|Hk].
  - exists x, db_err. split; [done|]. rewrite delete_id; [done|]. destruct (ttl !! []) eqn:E; [|done]. by apply Hne in E.
  - destruct (Zdel_refines zk x kv ttl k Hr) as (x' & E & Hr'); [done|done|]. eauto.
Qed.

Lemma recorded_delete (hist : list (gmap bytes Z)) (ttl : gmap bytes Z) (k : bytes) : (forall k e, ttl !! k = Some e -> recorded hist k e) ->
  forall k' e, delete k ttl !! k' = Some e -> recorded hist k' e.
Proof. intros Hr k' e [_ E]%lookup_delete_Some. by apply Hr. Qed.

Lemma thread_step_inv hist c st p s :
  store_inv hist st s ->
  exists s', abs_thread (brun (expiremgr st)) hist (time_ms c.2) (s, p) (s', (thread_step c (st, p)).2) /\
    store_inv hist (thread_step c (st, p)).1 s' /\ brun (expiremgr (thread_step c (st, p)).1) = brun (expiremgr st).
Proof.
  intros Hi0. pose proof Hi0 as [Hi Hk Hnow Hca]. destruct st as [x m clk], s as [kv ttl clk']. cbn [xdb expiremgr clock] in *.
  destruct Hi as [Hdb Hc Hl Hv Hclk Ht]. cbn [xdb expiremgr clock ab_kv ab_ttl ab_clock] in *. subst clk'.
  destruct p as [|k|k|]; cbn [thread_step].
  - pose proof (pick_spec hist x m c _ clk Hi0) as Hpick. destruct (pick x m c) as [m' p']. destruct Hpick as (Hi' & Hb & Hp).
    exists (MkAbs kv ttl clk). cbn [fst snd expiremgr]. split; [|done].
    destruct Hp as [->|(k & e & -> & Hrun & Hrec & Hle)]; [constructor|by econstructor].
  - destruct (Del_refines zk x kv ttl k Hdb) as (x' & -> & Hr). exists (MkAbs (delete k kv) ttl clk). split; [constructor|].
    split; [|done]. split; try done. apply sys_inv_intro; [done|by eapply coherent_restart|done| |done].
    intros k' v' [_ ?]%lookup_delete_Some. by eapply Hv.
  - rewrite Hk. destruct (Zdel_any x kv ttl k Hdb) as (x' & r & -> & Hr); [by apply (co_coh _ _ Hc)|].
    exists (MkAbs kv (delete k ttl) clk). split; [constructor|]. split; [|done]. split; try done; [|by apply recorded_delete].
    apply sys_inv_intro; [done|by apply coherent_new_delete|by intros k' e [_ ?]%lookup_delete_Some; eapply Hl|done|done].
  - exists (MkAbs kv ttl clk). split; [constructor|]. split; [|done]. split; try done.
    cbn [fst expiremgr with_set sort_set]. intros it Hin%pop_front_items. by apply Hca.
Qed.


End Refinement.

(** ** What the missing lock costs *)

Definition at_20 : timeval * timeval := (Timeval 20 0, Timeval 20 0).

(** [SET a 1 EX 10] at second 5; at second 20 the thread finds [a] due, a client
    stores [a] anew without an expiration, the thread goes on. *)
Definition lost_set : list action :=
  [Command (RSetEx (lit "a") (lit "1") 10); Thread at_20; Command (RSet (lit "a") (lit "2"));
   Thread at_20; Thread at_20; Thread at_20; Command (RGet (lit "a"))].

(** A value stored while the expiration thread is about to remove the one
    before is removed in its place: the client was told OK, and the key, which no
    longer should expire, is gone. *)
Theorem set_during_expiration_is_lost :
  fst <$> run_actions (It := MemStore.iter) lost_set (demo_redis, Idle) = Some [ok_reply; ok_reply; nil_reply].
Proof. vm_compute. reflexivity. Qed.

(** A client sets [a] with a new expiration after the thread deleted the old value
    and before it removes the expiration: the value is kept for ever. *)
Definition lost_expiration : list action :=
  [Command (RSetEx (lit "a") (lit "1") 10); Thread at_20; Thread at_20; Command (RSetEx (lit "a") (lit "3") 30);
   Thread at_20; Thread at_20] ++ replicate 40 (Thread (Timeval 9000 0, Timeval 9000 0)) ++
  [Command (RGet (lit "a")); Command (RTtl (lit "a"))].

Theorem expiration_during_expiration_is_lost :
  fst <$> run_actions (It := MemStore.iter) lost_expiration (demo_redis, Idle)
  = Some [ok_reply; ok_reply; enc_bulk (lit "3"); int_reply (-2)].
Proof. vm_compute. reflexivity. Qed.

