(* ===== verification/IniFile.v ===== *)
(** [common/xIniFile.h] and [common/xIniFile.cpp]: the configuration file
    parser.  A file is its contents: [ReadFile] gets them ([None] when the file
    cannot be opened) and [WriteFile] produces them.  The conversions to and
    from floating point ([GetValueF], [SetValueF]) and through [sscanf] and
    [vsprintf] formats are not modelled. *)

From S2P Require Import Prelude Cstd.

Record key := MkKey { k_names : list bytes; k_values : list bytes; k_comments : list bytes }.

Record CIniFile := MkIni {
  caseInsensitive : bool;
  keys : list key;
  names : list bytes;
  comments : list bytes
}.

Definition ini_new : CIniFile := MkIni true [] [] [].

Definition set_keys (f : CIniFile) (ks : list key) : CIniFile :=
  MkIni (caseInsensitive f) ks (names f) (comments f).

Definition CaseSensitive (f : CIniFile) : CIniFile := MkIni false (keys f) (names f) (comments f).
Definition CaseInsensitive (f : CIniFile) : CIniFile := MkIni true (keys f) (names f) (comments f).

Definition CheckCase (f : CIniFile) (s : bytes) : bytes :=
  if caseInsensitive f then tolower <$> s else s.

(** ** Searches; [None] is [noID] *)

Fixpoint index_of (eqb : bytes -> bool) (l : list bytes) : option nat :=
  match l with
  | [] => None
  | x :: l => if eqb x then Some 0%nat else S <$> index_of eqb l
  end.

Definition FindKey (f : CIniFile) (keyname : bytes) : option nat :=
  index_of (fun n => bool_decide (CheckCase f n = CheckCase f keyname)) (names f).

Definition FindValue (f : CIniFile) (keyID : nat) (valuename : bytes) : option nat :=
  match keys f !! keyID with
  | None => None
  | Some k => index_of (fun n => bool_decide (CheckCase f n = CheckCase f valuename)) (k_names k)
  end.

(** ** Names and values *)

Definition NumKeys (f : CIniFile) : nat := length (names f).

Definition AddKeyName (f : CIniFile) (keyname : bytes) : nat * CIniFile :=
  (length (names f),
   MkIni (caseInsensitive f) (keys f ++ [MkKey [] [] []]) (names f ++ [keyname]) (comments f)).

Definition KeyName (f : CIniFile) (keyID : nat) : bytes := default [] (names f !! keyID).

Definition NumValues_id (f : CIniFile) (keyID : nat) : nat :=
  match keys f !! keyID with Some k => length (k_names k) | None => 0%nat end.

Definition NumValues (f : CIniFile) (keyname : bytes) : nat :=
  match FindKey f keyname with None => 0%nat | Some i => NumValues_id f i end.

Definition ValueName_id (f : CIniFile) (keyID valueID : nat) : bytes :=
  match keys f !! keyID with Some k => default [] (k_names k !! valueID) | None => [] end.

Definition ValueName (f : CIniFile) (keyname : bytes) (valueID : nat) : bytes :=
  match FindKey f keyname with None => [] | Some i => ValueName_id f i valueID end.

(** The value at an index; it reports failure even when it has stored it. *)
Definition SetValue_id (f : CIniFile) (keyID valueID : nat) (value : bytes) : bool * CIniFile :=
  match keys f !! keyID with
  | Some k =>
      if (valueID <? length (k_names k))%nat then
        (false, set_keys f (<[keyID := MkKey (k_names k) (<[valueID := value]> (k_values k)) (k_comments k)]> (keys f)))
      else (false, f)
  | None => (false, f)
  end.

Definition SetValue (f : CIniFile) (keyname valuename value : bytes) (create : bool) : bool * CIniFile :=
  let '(found, f) :=
    match FindKey f keyname with
    | Some i => (Some i, f)
    | None => if create then let '(i, f) := AddKeyName f keyname in (Some i, f) else (None, f)
    end in
  match found with
  | None => (false, f)
  | Some keyID =>
      match FindValue f keyID valuename with
      | None =>
          if negb create then (false, f)
          else
            (true, set_keys f (alter (fun k =>
               MkKey (k_names k ++ [valuename]) (k_values k ++ [value]) (k_comments k)) keyID (keys f)))
      | Some valueID =>
          (true, set_keys f (alter (fun k =>
             MkKey (k_names k) (<[valueID := value]> (k_values k)) (k_comments k)) keyID (keys f)))
      end
  end.

(** [create] is ignored. *)
Definition SetValueI (f : CIniFile) (keyname valuename : bytes) (value : Z) (create : bool)
  : bool * CIniFile := SetValue f keyname valuename (sdec value) true.
Definition SetValueB (f : CIniFile) (keyname valuename : bytes) (value create : bool)
  : bool * CIniFile := SetValueI f keyname valuename (if value then 1 else 0) create.

Definition GetValue_id (f : CIniFile) (keyID valueID : nat) (defValue : bytes) : bytes :=
  match keys f !! keyID with
  | Some k => if (valueID <? length (k_names k))%nat then default [] (k_values k !! valueID) else defValue
  | None => defValue
  end.

Definition GetValue (f : CIniFile) (keyname valuename defValue : bytes) : bytes :=
  match FindKey f keyname with
  | None => defValue
  | Some keyID =>
      match FindValue f keyID valuename with
      | None => defValue
      | Some valueID =>
          match keys f !! keyID with Some k => default [] (k_values k !! valueID) | None => [] end
      end
  end.

Definition GetValueI (f : CIniFile) (keyname valuename : bytes) (defValue : Z) : Z :=
  atoi (cstr (GetValue f keyname valuename (sdec defValue))).
Definition GetValueB (f : CIniFile) (keyname valuename : bytes) (defValue : bool) : bool :=
  negb (GetValueI f keyname valuename (if defValue then 1 else 0) =? 0).

Definition DeleteValue (f : CIniFile) (keyname valuename : bytes) : bool * CIniFile :=
  match FindKey f keyname with
  | None => (false, f)
  | Some keyID =>
      match FindValue f keyID valuename with
      | None => (false, f)
      | Some v =>
          (true, set_keys f (alter (fun k =>
             MkKey (delete v (k_names k)) (delete v (k_values k)) (k_comments k)) keyID (keys f)))
      end
  end.

Definition DeleteKey (f : CIniFile) (keyname : bytes) : bool * CIniFile :=
  match FindKey f keyname with
  | None => (false, f)
  | Some i => (true, MkIni (caseInsensitive f) (delete i (keys f)) (delete i (names f)) (comments f))
  end.

Definition Erase (f : CIniFile) : CIniFile := MkIni (caseInsensitive f) [] [] [].

(** ** Comments *)

Definition NumHeaderComments (f : CIniFile) : nat := length (comments f).
Definition HeaderComment (f : CIniFile) (c : bytes) : CIniFile :=
  MkIni (caseInsensitive f) (keys f) (names f) (comments f ++ [c]).
Definition HeaderComment_get (f : CIniFile) (i : nat) : bytes := default [] (comments f !! i).
Definition DeleteHeaderComment (f : CIniFile) (i : nat) : bool * CIniFile :=
  if (i <? length (comments f))%nat
  then (true, MkIni (caseInsensitive f) (keys f) (names f) (delete i (comments f)))
  else (false, f).
Definition DeleteHeaderComments (f : CIniFile) : CIniFile :=
  MkIni (caseInsensitive f) (keys f) (names f) [].

Definition NumKeyComments_id (f : CIniFile) (keyID : nat) : nat :=
  match keys f !! keyID with Some k => length (k_comments k) | None => 0%nat end.
Definition NumKeyComments (f : CIniFile) (keyname : bytes) : nat :=
  match FindKey f keyname with None => 0%nat | Some i => NumKeyComments_id f i end.

Definition KeyComment_id (f : CIniFile) (keyID : nat) (c : bytes) : bool * CIniFile :=
  match keys f !! keyID with
  | Some k => (true, set_keys f (<[keyID := MkKey (k_names k) (k_values k) (k_comments k ++ [c])]> (keys f)))
  | None => (false, f)
  end.
Definition KeyComment (f : CIniFile) (keyname c : bytes) : bool * CIniFile :=
  match FindKey f keyname with None => (false, f) | Some i => KeyComment_id f i c end.

Definition KeyComment_get_id (f : CIniFile) (keyID i : nat) : bytes :=
  match keys f !! keyID with Some k => default [] (k_comments k !! i) | None => [] end.
Definition KeyComment_get (f : CIniFile) (keyname : bytes) (i : nat) : bytes :=
  match FindKey f keyname with None => [] | Some j => KeyComment_get_id f j i end.

Definition DeleteKeyComment_id (f : CIniFile) (keyID i : nat) : bool * CIniFile :=
  match keys f !! keyID with
  | Some k =>
      if (i <? length (k_comments k))%nat
      then (true, set_keys f (<[keyID := MkKey (k_names k) (k_values k) (delete i (k_comments k))]> (keys f)))
      else (false, f)
  | None => (false, f)
  end.
Definition DeleteKeyComment (f : CIniFile) (keyname : bytes) (i : nat) : bool * CIniFile :=
  match FindKey f keyname with None => (false, f) | Some j => DeleteKeyComment_id f j i end.

Definition DeleteKeyComments_id (f : CIniFile) (keyID : nat) : bool * CIniFile :=
  match keys f !! keyID with
  | Some k => (true, set_keys f (<[keyID := MkKey (k_names k) (k_values k) []]> (keys f)))
  | None => (false, f)
  end.
Definition DeleteKeyComments (f : CIniFile) (keyname : bytes) : bool * CIniFile :=
  match FindKey f keyname with None => (false, f) | Some j => DeleteKeyComments_id f j end.

(** ** Reading *)

(** [getline]: the lines of a text; a final newline ends the last line. *)
Fixpoint getlines (cur : bytes) (s : bytes) : list bytes :=
  match s with
  | [] => if decide (cur = []) then [] else [cur]
  | b :: s => if decide (b = x0a) then cur :: getlines [] s else getlines (cur ++ [b]) s
  end.

Definition special (b : byte) : bool := bool_decide (b ∈ lit ";#[=").

(** The line without a trailing carriage return. *)
Definition strip_cr (line : bytes) : bytes :=
  match last line with
  | Some b => if decide (b = x0d) then take (length line - 1) line else line
  | None => line
  end.

(** One line of the loop: [None] when the file looks binary. *)
Definition read_line (f : CIniFile) (keyname line : bytes) : option (CIniFile * bytes) :=
  let line := strip_cr line in
  match line with
  | [] => Some (f, keyname)
  | c :: _ =>
      if negb (isprint c) then None
      else
        match find_first special line with
        | None => Some (f, keyname)
        | Some pLeft =>
            let c := nth pLeft line x00 in
            if decide (c = "["%byte) then
              match find_last (fun b => bool_decide (b = "]"%byte)) line with
              | Some pRight =>
                  if (pLeft <? pRight)%nat then
                    let keyname := take (pRight - pLeft - 1) (drop (pLeft + 1) line) in
                    Some ((AddKeyName f keyname).2, keyname)
                  else Some (f, keyname)
              | None => Some (f, keyname)
              end
            else if decide (c = "="%byte) then
              Some ((SetValue f keyname (take pLeft line) (drop (pLeft + 1) line) true).2, keyname)
            else
              let text := drop (pLeft + 1) line in
              Some (match names f with
                    | [] => HeaderComment f text
                    | _ :: _ => (KeyComment f keyname text).2
                    end, keyname)
        end
  end.

(** The loop over the lines: whether it reached the end, and what it stored. *)
Fixpoint read_lines (f : CIniFile) (keyname : bytes) (ls : list bytes) : bool * CIniFile :=
  match ls with
  | [] => (true, f)
  | l :: ls =>
      match read_line f keyname l with
      | Some (f, keyname) => read_lines f keyname ls
      | None => (false, f)
      end
  end.

Definition ReadFile (f : CIniFile) (text : option bytes) : bool * CIniFile :=
  match text with
  | None => (false, f)
  | Some s =>
      let '(done, f) := read_lines f [] (getlines [] s) in
      (done && negb (bool_decide (names f = [])), f)
  end.

(** ** Writing *)

Definition iniEOL : bytes := [x0d; x0a].

Definition write_comments (l : list bytes) : bytes := concat ((fun c => lit ";" ++ c ++ iniEOL) <$> l).

Definition write_key (name : bytes) (k : key) : bytes :=
  lit "[" ++ name ++ lit "]" ++ iniEOL ++ write_comments (k_comments k)
  ++ concat (zip_with (fun n v => n ++ lit "=" ++ v ++ iniEOL) (k_names k) (k_values k))
  ++ iniEOL.

Definition WriteFile (f : CIniFile) : bytes :=
  write_comments (comments f)
  ++ (match comments f with [] => [] | _ :: _ => iniEOL end)
  ++ concat (zip_with write_key (names f) (keys f)).

(** ** Values as a map *)

(** The invariant: parallel vectors have the same length, and a name occurs
    once in its key. *)
Definition key_wf (f : CIniFile) (k : key) : Prop :=
  length (k_names k) = length (k_values k) /\ NoDup (CheckCase f <$> k_names k).

Definition ini_wf (f : CIniFile) : Prop :=
  length (keys f) = length (names f) /\ Forall (key_wf f) (keys f).

(** The first value whose name satisfies [P]. *)
Fixpoint aget (P : bytes -> bool) (ns vs : list bytes) : option bytes :=
  match ns, vs with
  | n :: ns, v :: vs => if P n then Some v else aget P ns vs
  | _, _ => None
  end.

Lemma aget_index P ns vs :
  length ns = length vs -> aget P ns vs = (j ← index_of P ns; vs !! j).
Proof.
  revert vs. induction ns as [|n ns IH]; intros [|v vs] Hl; try done. cbn [aget index_of].
  destruct (P n); [done|]. rewrite IH by (by injection Hl). by destruct (index_of P ns).
Qed.

Lemma index_of_lookup P l i : index_of P l = Some i -> exists x, l !! i = Some x /\ P x = true.
Proof.
  revert i. induction l as [|x l IH]; intros i; [done|]. cbn [index_of].
  destruct (P x) eqn:E; [intros [= <-]; by exists x|].
  destruct (index_of P l) as [j|]; [|done]. intros [= <-]. by apply IH.
Qed.

Lemma index_of_None P l : index_of P l = None <-> Forall (fun x => P x = false) l.
Proof.
  induction l as [|x l IH]; [done|]. cbn [index_of]. rewrite Forall_cons. destruct (P x).
  - split; [done|]. by intros [? _].
  - rewrite <- IH. destruct (index_of P l); cbn; split; [done|by intros [_ ?]|done|done].
Qed.

Lemma index_of_snoc P l x :
  index_of P (l ++ [x]) =
    match index_of P l with Some i => Some i | None => if P x then Some (length l) else None end.
Proof.
  induction l as [|y l IH]; [done|]. cbn [app index_of length]. destruct (P y); [done|].
  rewrite IH. destruct (index_of P l); [done|]. by destruct (P x).
Qed.

Lemma aget_snoc P ns vs n v :
  length ns = length vs ->
  aget P (ns ++ [n]) (vs ++ [v]) =
    match aget P ns vs with Some w => Some w | None => if P n then Some v else None end.
Proof.
  revert vs. induction ns as [|m ns IH]; intros [|w vs] Hl; try done.
  cbn [app aget]. destruct (P m); [done|]. apply IH. by injection Hl.
Qed.

Lemma aget_insert P Q ns vs j v :
  index_of P ns = Some j -> length ns = length vs -> (forall n, P n = true -> Q n = true -> False) ->
  aget P ns (<[j := v]> vs) = Some v /\ aget Q ns (<[j := v]> vs) = aget Q ns vs.
Proof.
  revert vs j. induction ns as [|m ns IH]; intros [|w vs] j; cbn [index_of]; intros Ej Hl Hd; try done.
  destruct (P m) eqn:Em.
  - injection Ej as <-. cbn [insert list_insert aget]. rewrite Em. split; [done|].
    destruct (Q m) eqn:Eq; [by destruct (Hd m)|done].
  - destruct (index_of P ns) as [i|] eqn:Ei; [|done]. injection Ej as <-. cbn [insert list_insert aget].
    rewrite Em. destruct (IH vs i) as [E1 E2]; [done|by injection Hl|done|].
    split; [exact E1|]. destruct (Q m); [done|exact E2].
Qed.

(** What the file says about a name in a section. *)
Definition named (f : CIniFile) (a : bytes) : bytes -> bool :=
  fun n => bool_decide (CheckCase f n = CheckCase f a).

Definition key_get (f : CIniFile) (n : bytes) (k : key) : option bytes :=
  aget (named f n) (k_names k) (k_values k).

Definition ini_lookup (f : CIniFile) (s n : bytes) : option bytes :=
  i ← FindKey f s; k ← keys f !! i; key_get f n k.

Lemma GetValue_lookup f s n d : ini_wf f -> GetValue f s n d = default d (ini_lookup f s n).
Proof.
  intros [Hl Hk]. unfold GetValue, ini_lookup. destruct (FindKey f s) as [i|] eqn:Ei; [|done].
  cbn [mbind option_bind]. unfold FindValue, key_get. fold (named f n).
  destruct (keys f !! i) as [k|] eqn:Ek; [|done]. cbn [mbind option_bind].
  rewrite Forall_lookup in Hk. destruct (Hk _ _ Ek) as [Hlen _]. rewrite aget_index by done.
  destruct (index_of (named f n) (k_names k)) as [j|] eqn:Ej; [|done]. cbn [mbind option_bind].
  destruct (index_of_lookup _ _ _ Ej) as (x & Hx & _). apply lookup_lt_Some in Hx.
  destruct (lookup_lt_is_Some_2 (k_values k) j) as [v ->]; [lia|done].
Qed.

(** Adding or replacing a value in a key. *)
Definition key_put (f : CIniFile) (n v : bytes) (k : key) : key :=
  match index_of (named f n) (k_names k) with
  | None => MkKey (k_names k ++ [n]) (k_values k ++ [v]) (k_comments k)
  | Some j => MkKey (k_names k) (<[j := v]> (k_values k)) (k_comments k)
  end.

Lemma named_disjoint f a b x :
  CheckCase f a <> CheckCase f b -> named f a x = true -> named f b x = true -> False.
Proof. unfold named. rewrite !bool_decide_eq_true. congruence. Qed.

Lemma key_put_get f n v k m :
  key_wf f k -> key_get f m (key_put f n v k)
  = if decide (CheckCase f m = CheckCase f n) then Some v else key_get f m k.
Proof.
  intros [Hl _]. unfold key_put, key_get.
  assert (forall a b, CheckCase f a = CheckCase f b -> named f a = named f b) as Hnm.
  { intros a b E. unfold named. by rewrite E. }
  destruct (index_of (named f n) (k_names k)) as [j|] eqn:Ej; cbn [k_names k_values].
  - case_decide as Hd.
    + rewrite (Hnm _ _ Hd). by apply (aget_insert _ (fun _ => false)).
    + apply (aget_insert (named f n)); [done|done|]. intros x. by apply named_disjoint.
  - rewrite aget_snoc by done. case_decide as Hd.
    + rewrite (Hnm _ _ Hd), aget_index, Ej by done. cbn [mbind option_bind]. unfold named.
      by rewrite bool_decide_true.
    + destruct (aget (named f m) (k_names k) (k_values k)); [done|]. unfold named.
      by rewrite bool_decide_false.
Qed.

Lemma key_put_wf f n v k : key_wf f k -> key_wf f (key_put f n v k).
Proof.
  intros [Hl Hn]. unfold key_put. destruct (index_of (named f n) (k_names k)) as [j|] eqn:Ej;
    split; cbn [k_names k_values]; [by rewrite length_insert|done|rewrite !length_app; cbn; lia|].
  rewrite fmap_app. apply NoDup_app. split; [done|]. split; [|by apply NoDup_singleton].
  intros x Hx ->%list_elem_of_singleton. apply list_elem_of_fmap in Hx as (y & Ey & Hy).
  apply index_of_None in Ej. rewrite Forall_forall in Ej. specialize (Ej _ Hy). unfold named in Ej.
  rewrite bool_decide_eq_false in Ej. congruence.
Qed.

(** The section [s], created when it is missing, is the first of its name. *)
Lemma find_or_add f s :
  ini_wf f ->
  exists i f1, (match FindKey f s with
                | Some i => (Some i, f)
                | None => let '(i, f) := AddKeyName f s in (Some i, f)
                end) = (Some i, f1) /\
    ini_wf f1 /\ FindKey f1 s = Some i /\ is_Some (keys f1 !! i) /\ caseInsensitive f1 = caseInsensitive f /\
    (forall s', CheckCase f s' <> CheckCase f s -> FindKey f1 s' <> Some i) /\
    (forall s' n, ini_lookup f1 s' n = ini_lookup f s' n).
Proof.
  intros [Hl Hk]. destruct (FindKey f s) as [i|] eqn:Ei.
  - exists i, f. split; [done|]. split; [done|]. split; [done|]. split.
    { apply index_of_lookup in Ei as (x & Hx%lookup_lt_Some & _). apply lookup_lt_is_Some_2. lia. }
    split; [done|]. split; [|done]. intros s' Hs Es. apply index_of_lookup in Ei as (x & Hx & E1).
    apply index_of_lookup in Es as (y & Hy & E2). rewrite bool_decide_eq_true in E1, E2. congruence.
  - exists (length (names f)). eexists. split; [done|].
    assert (forall s', index_of (named f s') (names f ++ [s])
      = match FindKey f s' with Some i => Some i | None => if named f s' s then Some (length (names f)) else None end) as Hf.
    { intros s'. apply index_of_snoc. }
    split_and!.
    + split; cbn [AddKeyName snd keys names]; [rewrite !length_app; cbn; lia|].
      apply Forall_app. split; [done|]. repeat constructor.
    + change (index_of (named f s) (names f ++ [s]) = Some (length (names f))). rewrite Hf, Ei.
      unfold named. by rewrite bool_decide_true.
    + cbn [AddKeyName snd keys]. rewrite <- Hl. rewrite lookup_app_r, Nat.sub_diag by done. by eexists.
    + done.
    + intros s' Hs. change (index_of (named f s') (names f ++ [s]) <> Some (length (names f))). rewrite Hf.
      destruct (FindKey f s') as [j|] eqn:Ej.
      * apply index_of_lookup in Ej as (x & Hx%lookup_lt_Some & _). intros [= ->]. lia.
      * unfold named. by rewrite bool_decide_false.
    + intros s' n. unfold ini_lookup.
      change (FindKey _ s') with (index_of (named f s') (names f ++ [s])) at 1. rewrite Hf.
      destruct (FindKey f s') as [j|] eqn:Ej; cbn [mbind option_bind AddKeyName snd keys].
      * apply index_of_lookup in Ej as (x & Hx%lookup_lt_Some & _). by rewrite lookup_app_l by lia.
      * destruct (named f s' s); [|done]. cbn [mbind option_bind]. rewrite <- Hl, lookup_app_r, Nat.sub_diag by done.
        done.
Qed.

Lemma SetValue_spec f s n v :
  ini_wf f ->
  let r := SetValue f s n v true in
  r.1 = true /\ ini_wf r.2 /\ caseInsensitive r.2 = caseInsensitive f /\
  forall s' n', ini_lookup r.2 s' n' =
    if decide (CheckCase f s' = CheckCase f s /\ CheckCase f n' = CheckCase f n) then Some v
    else ini_lookup f s' n'.
Proof.
  intros Hwf r. subst r. unfold SetValue.
  destruct (find_or_add f s Hwf) as (i & f1 & -> & [Hl1 Hk1] & Ei & [k Hk] & Hci & Hother & Hsame).
  assert (forall x, CheckCase f1 x = CheckCase f x) as Hcc by (intros x; unfold CheckCase; by rewrite Hci).
  rewrite Forall_lookup in Hk1. pose proof (Hk1 _ _ Hk) as Hkw.
  assert ((match FindValue f1 i n with
    | None => if negb true then (false, f1) else
        (true, set_keys f1 (alter (fun k => MkKey (k_names k ++ [n]) (k_values k ++ [v]) (k_comments k)) i (keys f1)))
    | Some j => (true, set_keys f1 (alter (fun k => MkKey (k_names k) (<[j := v]> (k_values k)) (k_comments k)) i (keys f1)))
    end) = (true, set_keys f1 (<[i := key_put f1 n v k]> (keys f1)))) as ->.
  { unfold FindValue. rewrite Hk. fold (named f1 n). unfold key_put.
    assert (forall (g : key -> key), alter g i (keys f1) = <[i := g k]> (keys f1)) as Hal.
    { intros g. apply list_eq. intros j. rewrite list_lookup_insert. destruct (decide (i = j)) as [<-|Hne].
      - rewrite list_lookup_alter_eq, Hk, decide_True; [done|]. split; [done|]. by eapply lookup_lt_Some.
      - rewrite list_lookup_alter_ne by done. rewrite decide_False; [done|]. by intros [-> _]. }
    destruct (index_of (named f1 n) (k_names k)); cbn [negb]; by rewrite Hal. }
  cbn [fst snd]. split; [done|]. split; [|split; [done|]].
  - split; cbn [set_keys keys names]; [by rewrite length_insert|].
    apply Forall_insert; [by apply Forall_lookup|]. by apply (key_put_wf f1).
  - intros s' n'. unfold ini_lookup at 1.
    change (FindKey (set_keys f1 _) s') with (FindKey f1 s'). cbn [set_keys keys].
    destruct (decide (CheckCase f s' = CheckCase f s)) as [Es|Es].
    + assert (FindKey f1 s' = Some i) as ->.
      { rewrite <- Ei. unfold FindKey. by rewrite !Hcc, Es. }
      cbn [mbind option_bind]. rewrite list_lookup_insert_eq by by eapply lookup_lt_Some.
      cbn [mbind option_bind]. change (key_get (set_keys f1 _) n' ?k) with (key_get f1 n' k).
      rewrite key_put_get, !Hcc by done. rewrite <- Hsame.
      destruct (decide (CheckCase f n' = CheckCase f n)); [by rewrite decide_True|].
      rewrite decide_False by tauto. unfold ini_lookup.
      assert (FindKey f1 s' = Some i) as ->; [rewrite <- Ei; unfold FindKey; by rewrite !Hcc, Es|].
      cbn [mbind option_bind]. by rewrite Hk.
    + rewrite decide_False by tauto. rewrite <- Hsame. unfold ini_lookup.
      destruct (FindKey f1 s') as [j|] eqn:Ej; [|done]. cbn [mbind option_bind].
      rewrite list_lookup_insert_ne; [done|]. intros ->. by eapply Hother.
Qed.

(** Setting a value: [SetValue] succeeds, the value is then read back by
    [GetValue] under any spelling of the names that the case setting
    identifies, every other name keeps its value or its absence, and the
    parallel vectors stay consistent. *)
Theorem ini_set_then_get f s n v d :
  ini_wf f ->
  let '(ok, f') := SetValue f s n v true in
  ok = true /\ ini_wf f' /\
  forall s' n', GetValue f' s' n' d =
    if decide (CheckCase f s' = CheckCase f s /\ CheckCase f n' = CheckCase f n) then v
    else GetValue f s' n' d.
Proof.
  intros Hwf. pose proof (SetValue_spec f s n v Hwf) as (Hok & Hwf' & Hci & Hget).
  destruct (SetValue f s n v true) as [ok f']. cbn [fst snd] in *. split; [done|]. split; [done|].
  intros s' n'. rewrite !GetValue_lookup, Hget by done. by case_decide.
Qed.

Lemma ini_set_then_get_witness :
  GetValue (SetValue ini_new (lit "Redis") (lit "Port") (lit "6379") true).2 (lit "redis") (lit "port") [] = lit "6379".
Proof.
  assert (ini_wf ini_new) as H by (split; [reflexivity|constructor]).
  pose proof (ini_set_then_get ini_new (lit "Redis") (lit "Port") (lit "6379") [] H) as Hs.
  destruct (SetValue ini_new (lit "Redis") (lit "Port") (lit "6379") true) as [ok f'].
  destruct Hs as (_ & _ & Hg). cbn [snd]. rewrite Hg. reflexivity.
Defined.

(** ** Writing and reading back *)

Definition no_lf (s : bytes) : Prop := x0a ∉ s.

Definition unlines (ls : list bytes) : bytes := concat ((fun l => l ++ iniEOL) <$> ls).

Definition value_lines (k : key) : list bytes := zip_with (fun n v => n ++ lit "=" ++ v) (k_names k) (k_values k).
Definition comment_lines (l : list bytes) : list bytes := (fun c => lit ";" ++ c) <$> l.
Definition key_lines (name : bytes) (k : key) : list bytes :=
  (lit "[" ++ name ++ lit "]") :: comment_lines (k_comments k) ++ value_lines k ++ [[]].
Definition file_lines (f : CIniFile) : list bytes :=
  comment_lines (comments f) ++ (match comments f with [] => [] | _ :: _ => [[]] end)
  ++ concat (zip_with key_lines (names f) (keys f)).

Lemma unlines_app a b : unlines (a ++ b) = unlines a ++ unlines b.
Proof. unfold unlines. by rewrite fmap_app, concat_app. Qed.

Lemma unlines_comments l : unlines (comment_lines l) = write_comments l.
Proof.
  induction l as [|c l IH]; [done|]. unfold unlines, write_comments, comment_lines in *.
  cbn [fmap list_fmap concat]. rewrite IH. by rewrite <- !app_assoc.
Qed.

Lemma unlines_values ns vs :
  unlines (zip_with (fun n v => n ++ lit "=" ++ v) ns vs)
  = concat (zip_with (fun n v => n ++ lit "=" ++ v ++ iniEOL) ns vs).
Proof.
  revert vs. induction ns as [|n ns IH]; intros [|v vs]; [done..|].
  cbn [zip_with]. unfold unlines in *. cbn [fmap list_fmap concat]. rewrite IH. by rewrite <- !app_assoc.
Qed.

Lemma WriteFile_lines f : WriteFile f = unlines (file_lines f).
Proof.
  unfold WriteFile, file_lines. rewrite !unlines_app, unlines_comments. f_equal.
  f_equal; [by destruct (comments f)|].
  generalize (names f), (keys f). intros ns. induction ns as [|n ns IH]; intros [|k ks]; [done..|].
  cbn [zip_with concat]. rewrite unlines_app, IH. f_equal. unfold write_key, key_lines.
  change (?a :: ?l) with ([a] ++ l). rewrite !unlines_app, unlines_comments. unfold value_lines.
  rewrite unlines_values. unfold unlines. cbn [fmap list_fmap concat]. by rewrite !app_nil_r, <- !app_assoc.
Qed.

Lemma getlines_line cur l rest :
  no_lf l -> getlines cur (l ++ x0a :: rest) = (cur ++ l) :: getlines [] rest.
Proof.
  revert cur. induction l as [|b l IH]; intros cur Hl; cbn [app getlines].
  - rewrite decide_True by done. by rewrite app_nil_r.
  - unfold no_lf in *. rewrite decide_False by set_solver. rewrite IH by set_solver. by rewrite <- app_assoc.
Qed.

Lemma getlines_unlines ls :
  Forall no_lf ls -> getlines [] (unlines ls) = (fun l => l ++ [x0d]) <$> ls.
Proof.
  induction 1 as [|l ls Hl _ IH]; [done|]. unfold unlines, iniEOL in *. cbn [fmap list_fmap concat].
  rewrite <- !app_assoc. change ([x0d; x0a] ++ ?r) with ([x0d] ++ x0a :: r).
  rewrite app_assoc, getlines_line; [by rewrite IH|]. unfold no_lf in *. set_solver.
Qed.

Lemma strip_cr_snoc l : strip_cr (l ++ [x0d]) = l.
Proof.
  unfold strip_cr. rewrite last_snoc, decide_True by done.
  by rewrite length_app, Nat.add_sub, take_app_length.
Qed.

(** A section in progress: the last one, whose name occurs only there. *)
Definition fresh (f : CIniFile) (name : bytes) : Prop :=
  Forall (fun n => CheckCase f n <> CheckCase f name) (names f).

Definition with_last (f : CIniFile) (name : bytes) (k : key) : CIniFile :=
  MkIni (caseInsensitive f) (keys f ++ [k]) (names f ++ [name]) (comments f).

Lemma FindKey_last f name k : fresh f name -> FindKey (with_last f name k) name = Some (length (names f)).
Proof.
  intros Hf. unfold FindKey. cbn [with_last names]. rewrite index_of_snoc.
  assert (index_of (fun n => bool_decide (CheckCase (with_last f name k) n = CheckCase (with_last f name k) name)) (names f) = None) as ->.
  { apply index_of_None. eapply Forall_impl; [exact Hf|]. intros n Hn. by apply bool_decide_false. }
  by rewrite bool_decide_true.
Qed.

Lemma read_comment f name k c :
  fresh f name -> length (keys f) = length (names f) ->
  read_line (with_last f name k) name ((lit ";" ++ c) ++ [x0d])
  = Some (with_last f name (MkKey (k_names k) (k_values k) (k_comments k ++ [c])), name).
Proof.
  intros Hf Hl. unfold read_line. rewrite strip_cr_snoc. change (lit ";" ++ c) with (";"%byte :: c).
  change (negb (isprint ";"%byte)) with false. cbn iota. change (find_first special (";"%byte :: c)) with (Some 0%nat).
  cbn iota. cbn [nth]. rewrite !decide_False by done. change (drop (0 + 1) (";"%byte :: c)) with c.
  destruct (names (with_last f name k)) eqn:E; [cbn in E; by destruct (names f)|]. f_equal. f_equal.
  unfold KeyComment. rewrite FindKey_last by done. unfold KeyComment_id. cbn [with_last keys].
  rewrite <- Hl, list_lookup_middle by done. cbn [snd]. unfold set_keys, with_last. f_equal. cbn [keys].
  rewrite <- (Nat.add_0_r (length (keys f))). by rewrite insert_app_r.
Qed.

(** A name that can be written before an equals sign. *)
Definition name_ok (n : bytes) : Prop :=
  Forall (fun b => special b = false) n /\ match n with b :: _ => isprint b = true | [] => True end.

Lemma find_first_here P l b rest :
  Forall (fun b => P b = false) l -> P b = true -> find_first P (l ++ b :: rest) = Some (length l).
Proof. induction 1 as [|x l Hx _ IH]; intros Hb; cbn [app find_first length]; [by rewrite Hb|by rewrite Hx, IH]. Qed.

Lemma read_value f name k n v :
  fresh f name -> length (keys f) = length (names f) -> name_ok n ->
  Forall (fun m => CheckCase f m <> CheckCase f n) (k_names k) ->
  read_line (with_last f name k) name ((n ++ lit "=" ++ v) ++ [x0d])
  = Some (with_last f name (MkKey (k_names k ++ [n]) (k_values k ++ [v]) (k_comments k)), name).
Proof.
  intros Hf Hl [Hn Hp] Hnew. unfold read_line. rewrite strip_cr_snoc. change (lit "=" ++ v) with ("="%byte :: v).
  assert (find_first special (n ++ "="%byte :: v) = Some (length n)) as Hff by by apply find_first_here.
  assert (exists c l, n ++ "="%byte :: v = c :: l /\ isprint c = true) as (c & l & El & Hc).
  { destruct n as [|c n]; [by exists "="%byte, v|]. by exists c, (n ++ "="%byte :: v). }
  rewrite El. rewrite Hc. cbn [negb]. rewrite <- El, Hff. rewrite nth_middle.
  rewrite decide_False, decide_True by done. rewrite take_app_length.
  replace (length n + 1)%nat with (length (n ++ ["="%byte])) by (rewrite length_app; cbn; lia).
  change ("="%byte :: v) with (["="%byte] ++ v). rewrite app_assoc, drop_app_length. f_equal. f_equal.
  unfold SetValue. rewrite FindKey_last by done. unfold FindValue. cbn [with_last keys].
  rewrite <- Hl, list_lookup_middle by done.
  assert (index_of (fun m => bool_decide (CheckCase (with_last f name k) m = CheckCase (with_last f name k) n)) (k_names k) = None) as ->.
  { apply index_of_None. eapply Forall_impl; [exact Hnew|]. intros m Hm. by apply bool_decide_false. }
  cbn [negb snd]. unfold set_keys, with_last. f_equal. cbn [keys].
  rewrite <- (Nat.add_0_r (length (keys f))). by rewrite alter_app_r.
Qed.

Lemma read_section f old name :
  read_line f old ((lit "[" ++ name ++ lit "]") ++ [x0d]) = Some (with_last f name (MkKey [] [] []), name).
Proof.
  unfold read_line. rewrite strip_cr_snoc. change (lit "[" ++ name ++ lit "]") with ("["%byte :: name ++ ["]"%byte]).
  change (negb (isprint "["%byte)) with false. cbn iota.
  change (find_first special ("["%byte :: ?l)) with (Some 0%nat). cbn iota. cbn [nth]. rewrite decide_True by done.
  assert (find_last (fun b => bool_decide (b = "]"%byte)) ("["%byte :: name ++ ["]"%byte]) = Some (S (length name))) as ->.
  { cbn [find_last]. assert (forall l, find_last (fun b => bool_decide (b = "]"%byte)) (l ++ ["]"%byte]) = Some (length l)) as Hfl.
    { induction l as [|b l IH]; [done|]. cbn [app find_last length]. by rewrite IH. }
    by rewrite Hfl. }
  cbn [Nat.ltb Nat.leb drop Nat.add]. replace (S (length name) - 0 - 1)%nat with (length name) by lia.
  rewrite drop_0, take_app_length. done.
Qed.

Abbreviation crs ls := ((fun l => l ++ [x0d]) <$> ls).

(** Reading the body of a section appends it to the section in progress. *)
Lemma read_comments f name cs : forall k rest,
  fresh f name -> length (keys f) = length (names f) ->
  read_lines (with_last f name k) name (crs (comment_lines cs) ++ rest)
  = read_lines (with_last f name (MkKey (k_names k) (k_values k) (k_comments k ++ cs))) name rest.
Proof.
  induction cs as [|c cs IH]; intros k rest Hf Hl; cbn [comment_lines fmap list_fmap app].
  - rewrite app_nil_r. by destruct k.
  - cbn [read_lines]. rewrite read_comment by done. cbn beta iota zeta.
    change ((fun l => l ++ [x0d]) <$> ((fun c => lit ";" ++ c) <$> cs)) with (crs (comment_lines cs)).
    rewrite IH by done. cbn [k_names k_values k_comments]. by rewrite <- app_assoc.
Qed.

Lemma read_values f name ns : forall vs k rest,
  fresh f name -> length (keys f) = length (names f) -> Forall name_ok ns -> length ns = length vs ->
  NoDup (CheckCase f <$> (k_names k ++ ns)) ->
  read_lines (with_last f name k) name
    (crs (zip_with (fun n v => n ++ lit "=" ++ v) ns vs) ++ rest)
  = read_lines (with_last f name (MkKey (k_names k ++ ns) (k_values k ++ vs) (k_comments k))) name rest.
Proof.
  induction ns as [|n ns IH]; intros [|v vs] k rest Hf Hl Hns Hlen Hnd; try done.
  - cbn. rewrite !app_nil_r. by destruct k.
  - inversion Hns as [|? ? Hn Hns']; subst. cbn [zip_with fmap list_fmap app read_lines].
    assert (Forall (fun m => CheckCase f m <> CheckCase f n) (k_names k)) as Hnew.
    { rewrite fmap_app in Hnd. apply NoDup_app in Hnd as (_ & Hd & _). apply Forall_forall. intros m Hm E.
      apply (Hd (CheckCase f m)); [by apply list_elem_of_fmap_2|]. rewrite E. cbn [fmap list_fmap]. set_solver. }
    rewrite read_value by done. cbn beta iota zeta.
    rewrite IH; [cbn [k_names k_values k_comments]; by rewrite <- !app_assoc|done..|by injection Hlen|].
    cbn [k_names]. by rewrite <- app_assoc.
Qed.

Lemma read_key f old name k rest :
  fresh f name -> length (keys f) = length (names f) -> Forall name_ok (k_names k) -> key_wf f k ->
  read_lines f old (crs (key_lines name k) ++ rest) = read_lines (with_last f name k) name rest.
Proof.
  intros Hf Hl Hn [Hlen Hnd]. unfold key_lines. cbn [fmap list_fmap app read_lines].
  rewrite read_section. cbn beta iota zeta. rewrite !fmap_app, <- !app_assoc.
  change ((fun l => l ++ [x0d]) <$> comment_lines (k_comments k)) with (crs (comment_lines (k_comments k))).
  rewrite read_comments by done. cbn [k_names k_values k_comments app]. unfold value_lines.
  rewrite read_values by done. cbn [k_names k_values k_comments app fmap list_fmap read_lines].
  destruct k. done.
Qed.

(** A file that survives writing: names without the special characters,
    printable first characters, nothing with a line feed, distinct sections. *)
Record ini_writable (f : CIniFile) : Prop := {
  iw_wf : ini_wf f;
  iw_sections : NoDup (CheckCase f <$> names f);
  iw_names : Forall (fun k => Forall name_ok (k_names k)) (keys f);
  iw_lines : Forall no_lf (file_lines f)
}.

Lemma read_keys ns : forall f old ks,
  length (keys f) = length (names f) -> length ks = length ns -> Forall (key_wf f) ks ->
  Forall (fun k => Forall name_ok (k_names k)) ks -> NoDup (CheckCase f <$> (names f ++ ns)) ->
  read_lines f old (crs (concat (zip_with key_lines ns ks)))
  = (true, MkIni (caseInsensitive f) (keys f ++ ks) (names f ++ ns) (comments f)).
Proof.
  induction ns as [|n ns IH]; intros f old [|k ks] Hl Hlen Hk Hn Hnd; try done.
  - cbn. rewrite !app_nil_r. by destruct f.
  - inversion Hk; inversion Hn; subst. cbn [zip_with concat]. rewrite fmap_app, read_key; [|..|done|done]; [|..|done].
    + rewrite IH; cbn [with_last keys names caseInsensitive comments]; rewrite <- ?app_assoc; try done.
      * rewrite !length_app. cbn. lia.
      * by injection Hlen.
    + rewrite fmap_app in Hnd. apply NoDup_app in Hnd as (_ & Hd & _). apply Forall_forall. intros m Hm E.
      apply (Hd (CheckCase f m)); [by apply list_elem_of_fmap_2|]. rewrite E. cbn [fmap list_fmap]. set_solver.
Qed.

Lemma read_header_line ci cs0 c :
  read_line (MkIni ci [] [] cs0) [] ((lit ";" ++ c) ++ [x0d]) = Some (MkIni ci [] [] (cs0 ++ [c]), []).
Proof.
  unfold read_line. rewrite strip_cr_snoc. change (lit ";" ++ c) with (";"%byte :: c).
  change (negb (isprint ";"%byte)) with false. cbn iota. change (find_first special (";"%byte :: c)) with (Some 0%nat).
  cbn iota. cbn [nth]. rewrite !decide_False by done. done.
Qed.

Lemma read_header cs : forall ci cs0 rest,
  read_lines (MkIni ci [] [] cs0) [] (crs (comment_lines cs) ++ rest)
  = read_lines (MkIni ci [] [] (cs0 ++ cs)) [] rest.
Proof.
  induction cs as [|c cs IH]; intros ci cs0 rest; cbn [comment_lines fmap list_fmap app].
  - by rewrite app_nil_r.
  - cbn [read_lines]. rewrite read_header_line. cbn beta iota zeta.
    change ((fun l => l ++ [x0d]) <$> ((fun c => lit ";" ++ c) <$> cs)) with (crs (comment_lines cs)).
    rewrite IH. by rewrite <- app_assoc.
Qed.

(** C29. Reading back a file that [WriteFile] wrote gives the same sections, values
    and comments in the same order; [ReadFile] reports success exactly when
    there is a section. *)
Theorem ini_write_read f :
  ini_writable f ->
  ReadFile (Erase f) (Some (WriteFile f)) = (negb (bool_decide (names f = [])), f).
Proof.
  intros [[Hl Hk] Hs Hn Hlf]. unfold ReadFile. rewrite WriteFile_lines, getlines_unlines by done.
  unfold file_lines, Erase. rewrite !fmap_app, read_header. cbn [app].
  assert (forall g old rest, read_lines g old (crs (match comments f with [] => [] | _ :: _ => [[]] end) ++ rest)
    = read_lines g old rest) as -> by (intros; by destruct (comments f)).
  rewrite read_keys; cbn [keys names caseInsensitive comments app]; [|done|done|done|done|done].
  destruct f. done.
Qed.

Definition demo_ini : CIniFile :=
  MkIni true [MkKey [lit "port"; lit "bind"] [lit "6379"; lit "127.0.0.1"] [lit " redis"]] [lit "redis"] [lit " demo"].

Lemma ini_write_read_witness :
  ReadFile (Erase demo_ini) (Some (WriteFile demo_ini)) = (true, demo_ini).
Proof.
  apply (ini_write_read demo_ini). split.
  - split; [reflexivity|]. constructor; [|constructor]. split; [reflexivity|].
    apply (bool_decide_eq_true_1 (NoDup _)). reflexivity.
  - apply (bool_decide_eq_true_1 (NoDup _)). reflexivity.
  - repeat constructor.
  - apply Forall_forall. intros l Hl. unfold no_lf. apply (bool_decide_eq_true_1 (x0a ∉ l)).
    revert l Hl. apply Forall_forall. repeat constructor.
Defined.
