(* ===== verification/Config.v ===== *)
(** [src/xConfig.h] and [src/xConfig.cpp]: the configuration read from the
    INI file.  [None] is the signed overflow of an absurd upload limit. *)

From S2P Require Import Prelude Cstd Util IniFile.

Record CACHE_CONFIG := MkCacheConfig {
  log_filename : bytes;
  log_filesize : Z;
  log_level : bytes;
  run_daemonize : Z;
  run_guard : Z;
  debug : Z;
  redis_ip : bytes;
  redis_port : Z
}.

Record HTTP_FRONTEND_CONFIG := MkFrontend {
  f_ip : bytes;
  f_port : Z;
  f_threads : Z;
  f_timeout : Z;
  f_gzip : Z;
  f_etag : Z;
  f_etag_cache_count : Z;
  f_etag_cache_size : Z;
  f_pemfile : bytes;
  f_privfile : bytes;
  f_ssl_timeout : Z;
  f_default_index : bytes
}.

Record HTTP_BACKEND_CONFIG := MkBackend {
  b_ip : bytes;
  b_port : Z;
  b_threads : Z;
  b_timeout : Z;
  b_username : bytes;
  b_password : bytes;
  b_encode_pass : bytes;
  b_pemfile : bytes;
  b_privfile : bytes;
  b_ssl_timeout : Z;
  b_max_upload_file_size : Z
}.

Record ROCKSDB_CONFIG := MkDbConfig {
  db_base_dir : bytes;
  create_if_missing : bool;
  max_open_files : Z;
  max_file_opening_threads : Z;
  max_total_wal_size : Z;
  db_log_dir : bytes;
  write_buffer_size : Z;
  compression : bool;
  db_ttl : Z
}.

Record xConfig := MkConfig {
  app : CACHE_CONFIG;
  frontend : HTTP_FRONTEND_CONFIG;
  backend : HTTP_BACKEND_CONFIG;
  dbcfg : ROCKSDB_CONFIG
}.

Section Load.
Context (iniFile : CIniFile).

Let val (s n : string) : bytes := GetValue iniFile (lit s) (lit n) [].
Let vali (s n : string) (d : Z) : Z := GetValueI iniFile (lit s) (lit n) d.
Let valb (s n : string) : bool := GetValueB iniFile (lit s) (lit n) false.

(** The members of [app]; [log_filesize] is an [int] stored in a [uint64_t]. *)
Definition load_app : CACHE_CONFIG := {|
  redis_ip := val "xhttpcache" "redis_ip";
  redis_port := vali "xhttpcache" "redis_port" 0;
  debug := vali "xhttpcache" "debug" 0;
  log_filename := val "xhttpcache" "log_filename";
  log_filesize := u64 (vali "xhttpcache" "log_filesize" 0);
  log_level := toupper <$> val "xhttpcache" "log_level";
  run_daemonize := vali "xhttpcache" "daemonize" 0;
  run_guard := vali "xhttpcache" "guard" 0 |}.

(** The two ETag cache sizes are looked up in section [xhttpcache]. *)
Definition load_frontend : HTTP_FRONTEND_CONFIG :=
  let size := vali "xhttpcache" "etag_cache_size" 1000 in {|
  f_ip := val "xhttpd_frontend" "ip";
  f_port := vali "xhttpd_frontend" "port" 0;
  f_threads := vali "xhttpd_frontend" "threads" 0;
  f_timeout := vali "xhttpd_frontend" "timeout" 0;
  f_gzip := vali "xhttpd_frontend" "gzip" 0;
  f_etag := vali "xhttpd_frontend" "etag" 1;
  f_etag_cache_count := vali "xhttpcache" "etag_cache_count" 4;
  f_etag_cache_size := if size =? 0 then 1000 else size;
  f_pemfile := val "xhttpd_frontend" "pemfile";
  f_privfile := val "xhttpd_frontend" "privfile";
  f_ssl_timeout := vali "xhttpd_frontend" "ssl_timeout" 5;
  f_default_index := val "xhttpd_frontend" "default_index" |}.

(** [old_pass] is the credential from an earlier load, which stays when no user
    or password is given. *)
Definition load_backend (old_pass : bytes) : option HTTP_BACKEND_CONFIG :=
  let user := val "xhttpd_backend" "username" in
  let pass := val "xhttpd_backend" "password" in
  let kb := vali "xhttpd_backend" "max_upload_file_size" 10 in
  size ← (if 0 <? kb then (if kb * 1024 <? 2 ^ 31 then Some (kb * 1024) else None) else Some (128 * 1024));
  Some {|
  b_ip := val "xhttpd_backend" "ip";
  b_port := vali "xhttpd_backend" "port" 0;
  b_threads := vali "xhttpd_backend" "threads" 0;
  b_timeout := vali "xhttpd_backend" "timeout" 0;
  b_username := user;
  b_password := pass;
  b_encode_pass :=
    if (0 <? length user)%nat && (0 <? length pass)%nat then encode_pass user pass else old_pass;
  b_pemfile := val "xhttpd_backend" "pemfile";
  b_privfile := val "xhttpd_backend" "privfile";
  b_ssl_timeout := vali "xhttpd_backend" "ssl_timeout" 5;
  b_max_upload_file_size := size |}.

Definition LoadxDBConfig : ROCKSDB_CONFIG := {|
  db_base_dir := val "rocksdb" "db_base_dir";
  create_if_missing := valb "rocksdb" "create_if_missing";
  max_open_files := vali "rocksdb" "max_open_files" 0;
  max_file_opening_threads := vali "rocksdb" "max_file_opening_threads" 0;
  max_total_wal_size := u64 (vali "rocksdb" "max_total_wal_size" 0);
  db_log_dir := val "rocksdb" "db_log_dir";
  write_buffer_size := u64 (vali "rocksdb" "write_buffer_size" 0);
  compression := valb "rocksdb" "compression";
  db_ttl := if valb "rocksdb" "ttl" then 1 else 0 |}.

Definition LoadxHttpdAppConfig (c : xConfig) : option xConfig :=
  b ← load_backend (b_encode_pass (backend c));
  Some (MkConfig load_app load_frontend b (dbcfg c)).

End Load.

(** [Load] reads the file into a new [CIniFile]; an unreadable file or one
    without sections leaves the configuration alone. *)
Definition Load (c : xConfig) (text : option bytes) : option (bool * xConfig) :=
  let '(ok, iniFile) := ReadFile ini_new text in
  if ok then
    c ← LoadxHttpdAppConfig iniFile c;
    Some (true, MkConfig (app c) (frontend c) (backend c) (LoadxDBConfig iniFile))
  else Some (false, c).

Definition config_new : xConfig := {|
  app := MkCacheConfig [] 0 [] 0 0 0 [] 0;
  frontend := MkFrontend [] 0 0 0 0 0 0 0 [] [] 0 [];
  backend := MkBackend [] 0 0 0 [] [] [] [] [] 0 0;
  dbcfg := MkDbConfig [] false 0 0 0 [] 0 false 0 |}.

(** ** What a loaded configuration satisfies *)

Lemma atoi_range s : is_i32 (atoi s).
Proof. unfold atoi. apply i32_range. Qed.

Lemma loaded_credential c text c' :
  Load c text = Some (true, c') -> b_username (backend c') <> [] -> b_password (backend c') <> [] ->
  b_encode_pass (backend c') = encode_pass (b_username (backend c')) (b_password (backend c')).
Proof.
  unfold Load. destruct (ReadFile ini_new text) as [[] f]; [|done].
  unfold LoadxHttpdAppConfig, load_backend. set (kb := GetValueI f _ _ 10).
  destruct (if 0 <? kb then _ else _) as [size|] eqn:Es; cbn [mbind option_bind]; [|done].
  intros [= <-]. cbn [backend b_username b_password b_encode_pass]. intros Hu Hp.
  destruct (GetValue f (lit "xhttpd_backend") (lit "username") []); [done|].
  by destruct (GetValue f (lit "xhttpd_backend") (lit "password") []).
Qed.

(** Whatever the file says, a configuration that loads has a usable size for
    the ETag caches, a positive upload limit that fits an [int], integers within
    [int], and, when a user and a password are given, the credential that
    [encode_pass] makes of them. *)
Theorem loaded_config_is_sane c text c' :
  Load c text = Some (true, c') ->
  f_etag_cache_size (frontend c') <> 0 /\
  0 < b_max_upload_file_size (backend c') < 2 ^ 31 /\
  is_i32 (f_etag_cache_count (frontend c')) /\ is_i32 (redis_port (app c')) /\
  (b_username (backend c') <> [] -> b_password (backend c') <> [] ->
   b_encode_pass (backend c') = encode_pass (b_username (backend c')) (b_password (backend c'))).
Proof.
  intros HL. pose proof (loaded_credential _ _ _ HL) as Hcred. revert HL.
  unfold Load. destruct (ReadFile ini_new text) as [[] f]; [|done].
  unfold LoadxHttpdAppConfig, load_backend. set (kb := GetValueI f _ _ 10).
  destruct (if 0 <? kb then _ else _) as [size|] eqn:Es; cbn [mbind option_bind]; [|done].
  intros [= <-]. split_and!; [|..|apply atoi_range|apply atoi_range|exact Hcred].
  - cbn. set (s := GetValueI f _ _ 1000). destruct (Z.eqb_spec s 0); lia.
  - destruct (Z.ltb_spec 0 kb); [destruct (Z.ltb_spec (kb * 1024) (2 ^ 31)); [|done]|]; injection Es as <-; cbn; lia.
  - destruct (Z.ltb_spec 0 kb); [destruct (Z.ltb_spec (kb * 1024) (2 ^ 31)); [|done]|]; injection Es as <-; cbn; lia.
Qed.

Lemma loaded_config_is_sane_witness :
  exists c', Load config_new (Some (lit "[xhttpd_backend]" ++ iniEOL ++ lit "username=a" ++ iniEOL ++ lit "password=b"))
      = Some (true, c') /\ b_encode_pass (backend c') = lit "YTpi".
Proof.
  eexists. split; [vm_compute; reflexivity|].
  match goal with |- b_encode_pass (backend ?c) = _ =>
    destruct (loaded_config_is_sane config_new
      (Some (lit "[xhttpd_backend]" ++ iniEOL ++ lit "username=a" ++ iniEOL ++ lit "password=b")) c)
      as (_ & _ & _ & _ & H) end.
  - vm_compute. reflexivity.
  - rewrite H; [vm_compute; reflexivity|discriminate|discriminate].
Defined.

(** ** The configuration file of the distribution *)

Definition shipped_cnf : bytes := concat ((fun l => l ++ [x0a]) <$>
  [lit "";
   lit "[xhttpcache]";
   lit "redis_ip=0.0.0.0";
   lit "redis_port=7379";
   lit "redis_pass=admin";
   lit "log_filename=xhttpcache.log";
   lit "log_filesize=1073741824  #1024*1024*1024";
   lit "log_level=DEBUG";
   lit "daemonize=0";
   lit "guard=0";
   lit "debug=0";
   lit "";
   lit "[xhttpd_frontend]";
   lit "ip=0.0.0.0";
   lit "port=8080";
   lit "threads=4";
   lit "timeout=3";
   lit "gzip=1";
   lit "etag=0";
   lit "etag_cache_count=8";
   lit "etag_cache_size=10000";
   lit "pemfile=";
   lit "privfile=";
   lit "ssl_timeout=5";
   lit "default_index=/|/index.htm|/index.html|/default.htm";
   lit "";
   lit "";
   lit "[xhttpd_backend]";
   lit "ip=0.0.0.0";
   lit "port=9090";
   lit "threads=2";
   lit "timeout=3";
   lit "username=admin";
   lit "password=admin123";
   lit "pemfile=";
   lit "privfile=";
   lit "ssl_timeout=5";
   lit "max_upload_file_size=200";
   lit "";
   lit "[rocksdb]";
   lit "db_base_dir=./testdb";
   lit "create_if_missing=1";
   lit "max_open_files=10240";
   lit "max_file_opening_threads=2";
   lit "max_total_wal_size=";
   lit "db_log_dir=./xdb_log";
   lit "write_buffer_size=32";
   lit "compression=1";
   lit ""]).

(** The shipped [xhttpcache.cnf] sets [etag_cache_count=8] and
    [etag_cache_size=10000] in section [xhttpd_frontend], but they are looked up in
    [xhttpcache]: the loaded configuration has the defaults 4 and 1000. *)
Theorem shipped_etag_settings_are_ignored :
  (fun '(ok, c) => (ok, f_etag_cache_count (frontend c), f_etag_cache_size (frontend c), f_port (frontend c)))
    <$> Load config_new (Some shipped_cnf) = Some (true, 4, 1000, 8080) /\
  GetValueI (ReadFile ini_new (Some shipped_cnf)).2 (lit "xhttpd_frontend") (lit "etag_cache_count") 0 = 8.
Proof. split; vm_compute; reflexivity. Qed.
