(* ===== verification/Process.v ===== *)
(** [daemonize] and [guard] of [common/util.cpp], [signal_handle], [signal_handler]
    and [main] of [src/xHttpCache.cpp]: the processes of the server.

    A process is an interaction tree over the system calls it makes.  [os] gives
    the calls their meaning, for the process that is followed through the forks:
    [fates] says which side of each fork that is, [waits] what becomes of the
    children it waits for.  A process that exits ends in the event [Ended]. *)

From S2P Require Import Prelude Cstd Util Log LogSpec IniFile Config.
From ITree Require Import ITree ITreeFacts Events.State Events.StateFacts.

Declare Scope process_scope.
Delimit Scope process_scope with process.
Notation "'let*' x := t 'in' k" := (ITree.bind t (fun x => k))
  (at level 200, x name, t at level 200, k at level 200) : process_scope.
Notation "'do*' t 'in' k" := (ITree.bind t (fun _ => k)) (at level 200, t at level 200, k at level 200) : process_scope.
Open Scope process_scope.

(** ** System calls *)

(** How a child ended, as [waitpid] reports it. *)
Inductive wstatus := Exited (code : Z) | Signaled (sig : Z).

Inductive disposition := SIG_DFL | SIG_IGN | Handled.

Variant sysE : Type -> Type :=
| Fork : sysE Z
| Exit (code : Z) : sysE void
| Waitpid (pid : Z) : sysE (Z * wstatus)
| Setsid : sysE Z
| Signal (sig : Z) (d : disposition) : sysE bool
| Umask (mask : Z) : sysE unit
| Getcwd : sysE (option bytes)
| Chdir (p : option bytes) : sysE Z
| OpenNull : sysE Z
| Dup2 (fd fd' : Z) : sysE Z
| Close (fd : Z) : sysE Z
| LogError (text : bytes) : sysE unit.

Definition sys {T} (e : sysE T) : itree sysE T := ITree.trigger e.

Definition exit {R} (code : Z) : itree sysE R := let* x := sys (Exit code) in match x : void with end.

Definition SIGHUP : Z := 1.
Definition SIGINT : Z := 2.
Definition SIGUSR1 : Z := 10.
Definition SIGPIPE : Z := 13.
Definition SIGALRM : Z := 14.
Definition SIGTERM : Z := 15.

(** ** The code *)

Definition error (text : string) : itree sysE Z := do* sys (LogError (lit text)) in Ret 1.

(** [dup2(fd, to)], its error path included, then the rest. *)
Definition dup2_or_fail (fd to : Z) (text : string) (k : itree sysE Z) : itree sysE Z :=
  let* status := sys (Dup2 fd to) in
  if status <? 0 then do* sys (LogError (lit text)) in do* sys (Close fd) in Ret 1 else k.

Definition daemonize : itree sysE Z :=
  let* appdirptr := sys Getcwd in
  let* pid := sys Fork in
  if pid =? -1 then error "fork() failed"
  else if negb (pid =? 0) then exit 0
  else
    let* sid := sys Setsid in
    if sid <? 0 then error "setsid() failed"
    else
      let* ok := sys (Signal SIGHUP SIG_IGN) in
      if negb ok then error "signal(SIGHUP, SIG_IGN) failed"
      else
        let* pid := sys Fork in
        if pid =? -1 then error "fork() failed"
        else if negb (pid =? 0) then exit 0
        else
          do* sys (Umask 0) in
          let* fd := sys OpenNull in
          if fd <? 0 then error "open(/dev/null) failed"
          else
            dup2_or_fail fd 0 "dup2(STDIN) failed"
            (dup2_or_fail fd 1 "dup2(STDOUT) failed"
            (dup2_or_fail fd 2 "dup2(STDERR) failed"
            (let* status := (if 2 <? fd then sys (Close fd) else Ret 0) in
             if status <? 0 then error "close() failed"
             else
               let* r := sys (Chdir appdirptr) in
               if negb (r =? -1) then do* sys (LogError (lit "chdir() failed")) in Ret 0 else Ret 0))).

(** One turn of [guard]'s loop, which only [exit] ends. *)
Definition guard_turn (driverFunc : itree sysE unit) (exit_key : Z) : itree sysE (unit + void) :=
  let* pid := sys Fork in
  if 0 =? pid then do* driverFunc in exit 0
  else if 0 <? pid then
    let* w := sys (Waitpid pid) in
    let '(pidWait, status) := w in
    if pidWait <? 0 then do* sys (LogError (lit "waitpid() failed")) in exit 0
    else
      do* match status with
          | Exited code => if code =? exit_key then exit 0 else Ret tt
          | Signaled _ => Ret tt
          end in
      do* sys (LogError (lit "Restart the program...")) in Ret (inl tt)
  else do* sys (LogError (lit "fork() failed")) in exit 1.

Definition guard (driverFunc : itree sysE unit) (exit_key : Z) : itree sysE void :=
  ITree.iter (fun _ => guard_turn driverFunc exit_key) tt.

Definition signal_handler (sig : Z) : itree sysE void :=
  do* sys (LogError (lit "sig:" ++ sdec sig)) in exit (-1).

Definition signal_ignore (sig : Z) : itree sysE Z :=
  let* ok := sys (Signal sig SIG_IGN) in Ret (if ok : bool then 0 else -1).

Definition signal_handle : itree sysE bool :=
  do* sys (Signal SIGPIPE SIG_IGN) in
  do* signal_ignore SIGHUP in
  do* sys (Signal SIGUSR1 SIG_IGN) in
  do* sys (Signal SIGALRM Handled) in
  do* sys (Signal SIGTERM Handled) in
  do* sys (Signal SIGHUP Handled) in
  do* sys (Signal SIGINT Handled) in
  Ret true.

(** [main], once the configuration is loaded. *)
Definition main (cfg : xConfig) (xhttpcache : itree sysE unit) : itree sysE Z :=
  do* (if run_daemonize (app cfg) =? 1 then daemonize else Ret 0) in
  do* (if run_guard (app cfg) =? 1 then let* x := guard xhttpcache 0 in match x : void with end else xhttpcache) in
  Ret 0.

(** ** The system *)

Inductive file := Tty | Null | OtherFile.

Record Proc := MkProc {
  p_pid : Z;
  p_ppid : Z;
  p_pgid : Z;
  p_sid : Z;
  p_signals : gmap Z disposition;
  p_umask : Z;
  p_cwd : bytes;
  p_fds : gmap Z file;
  p_log : list bytes
}.

(** Which side of a fork is followed, if it succeeds. *)
Inductive fate := Child | Parent | ForkFails.

Record World := MkWorld {
  proc : Proc;
  next_pid : Z;
  forks : nat;
  fates : list fate;
  waits : list (option wstatus);
  null_opens : bool;
  dir_opens : bool
}.

Definition set_proc (p : Proc) (w : World) : World :=
  MkWorld p (next_pid w) (forks w) (fates w) (waits w) (null_opens w) (dir_opens w).

Definition set_pfds (f : gmap Z file) (p : Proc) : Proc :=
  MkProc (p_pid p) (p_ppid p) (p_pgid p) (p_sid p) (p_signals p) (p_umask p) (p_cwd p) f (p_log p).

Variant endE : Type -> Type := Ended (w : World) (code : Z) : endE void.

Definition fork (w : World) : World * Z :=
  let p := proc w in
  match fates w with
  | Child :: fs =>
      (MkWorld (MkProc (next_pid w) (p_pid p) (p_pgid p) (p_sid p) (p_signals p) (p_umask p) (p_cwd p) (p_fds p) (p_log p))
         (next_pid w + 1) (S (forks w)) fs (waits w) (null_opens w) (dir_opens w), 0)
  | Parent :: fs => (MkWorld p (next_pid w + 1) (S (forks w)) fs (waits w) (null_opens w) (dir_opens w), next_pid w)
  | ForkFails :: fs => (MkWorld p (next_pid w) (forks w) fs (waits w) (null_opens w) (dir_opens w), -1)
  | [] => (w, -1)
  end.

(** The leader of a process group cannot begin a session. *)
Definition setsid (w : World) : World * Z :=
  let p := proc w in
  if p_pgid p =? p_pid p then (w, -1)
  else (set_proc (MkProc (p_pid p) (p_ppid p) (p_pid p) (p_pid p) (p_signals p) (p_umask p) (p_cwd p) (p_fds p) (p_log p)) w, p_pid p).

Definition os : forall T, sysE T -> Monads.stateT World (itree endE) T := fun T e w =>
  let p := proc w in
  match e in sysE T return itree endE (World * T) with
  | Fork => Ret (fork w)
  | Exit code => Vis (Ended w code) (fun x : void => match x with end)
  | Waitpid pid =>
      match waits w with
      | Some st :: ws => Ret (MkWorld p (next_pid w) (forks w) (fates w) ws (null_opens w) (dir_opens w), (pid, st))
      | None :: ws => Ret (MkWorld p (next_pid w) (forks w) (fates w) ws (null_opens w) (dir_opens w), (-1, Exited 0))
      | [] => Ret (w, (-1, Exited 0))
      end
  | Setsid => Ret (setsid w)
  | Signal sig d =>
      Ret (set_proc (MkProc (p_pid p) (p_ppid p) (p_pgid p) (p_sid p) (<[sig := d]> (p_signals p)) (p_umask p) (p_cwd p)
                            (p_fds p) (p_log p)) w, true)
  | Umask mask =>
      Ret (set_proc (MkProc (p_pid p) (p_ppid p) (p_pgid p) (p_sid p) (p_signals p) mask (p_cwd p) (p_fds p) (p_log p)) w, tt)
  | Getcwd => Ret (w, if (length (p_cwd p) <? 1024)%nat then Some (p_cwd p) else None)
  | Chdir (Some d) =>
      if dir_opens w
      then Ret (set_proc (MkProc (p_pid p) (p_ppid p) (p_pgid p) (p_sid p) (p_signals p) (p_umask p) d (p_fds p) (p_log p)) w, 0)
      else Ret (w, -1)
  | Chdir None => Ret (w, -1)
  | OpenNull =>
      if null_opens w then
        let fd := lowest_fd (p_fds p) in Ret (set_proc (set_pfds (<[fd := Null]> (p_fds p)) p) w, fd)
      else Ret (w, -1)
  | Dup2 fd fd' =>
      match p_fds p !! fd with
      | Some f => Ret (set_proc (set_pfds (<[fd' := f]> (p_fds p)) p) w, fd')
      | None => Ret (w, -1)
      end
  | Close fd =>
      match p_fds p !! fd with
      | Some _ => Ret (set_proc (set_pfds (delete fd (p_fds p)) p) w, 0)
      | None => Ret (w, -1)
      end
  | LogError text =>
      Ret (set_proc (MkProc (p_pid p) (p_ppid p) (p_pgid p) (p_sid p) (p_signals p) (p_umask p) (p_cwd p) (p_fds p)
                            (p_log p ++ [text])) w, tt)
  end.

Definition run {R} (t : itree sysE R) (w : World) : itree endE (World * R) := interp_state os t w.
