(* ===== verification/ProcessSpec.v ===== *)
(** Properties of the processes of the server: a daemon is detached from its
    terminal, a guarded server is started again until it ends by itself. *)

From S2P Require Import Prelude Cstd Util Log LogSpec IniFile Config Process.
From ITree Require Import ITree ITreeFacts Events.State Events.StateFacts.

Open Scope process_scope.

(** ** Running a process *)

Definition ended {R} (w : World) (code : Z) : itree endE R := Vis (Ended w code) (fun x : void => match x with end).

Lemma run_sys {T R} (e : sysE T) (k : T -> itree sysE R) w w' a :
  os T e w = Ret (w', a) -> eutt eq (run (ITree.bind (sys e) k) w) (run (k a) w').
Proof.
  intros E. unfold run, sys. rewrite interp_state_bind, interp_state_trigger, E, bind_ret_l. reflexivity.
Qed.

Lemma run_ret {R} (r : R) w : eutt eq (run (Ret r) w) (Ret (w, r)).
Proof. unfold run. rewrite interp_state_ret. reflexivity. Qed.

Lemma run_bind {R S} (t : itree sysE R) (k : R -> itree sysE S) w :
  eutt eq (run (ITree.bind t k) w) (ITree.bind (run t w) (fun x => run (k x.2) x.1)).
Proof. unfold run. rewrite interp_state_bind. reflexivity. Qed.

Lemma bind_ended {R S} w code (k : R -> itree endE S) : eutt eq (ITree.bind (ended w code) k) (ended w code).
Proof. unfold ended. rewrite bind_vis. apply eqit_Vis. intros []. Qed.

Lemma run_exit {R} code w : eutt eq (run (exit code : itree sysE R) w) (ended w code).
Proof.
  unfold exit, run, sys. rewrite interp_state_bind, interp_state_trigger. cbn [os]. apply (bind_ended w code).
Qed.

(** What follows a call of [exit] is not reached. *)
Lemma run_exit_bind {R S} code (k : R -> itree sysE S) w : eutt eq (run (ITree.bind (exit code) k) w) (ended w code).
Proof. rewrite run_bind, run_exit. apply bind_ended. Qed.

Ltac world_simpl :=
  cbn [set_proc set_pfds proc p_fds p_pid p_ppid p_pgid p_sid p_signals p_umask p_cwd p_log next_pid forks fates waits
       dir_opens null_opens fork].
Ltac sys_step := etransitivity; [apply run_sys; cbn [os]; world_simpl; reflexivity|]; cbv beta iota.

(** ** [daemonize] *)

Lemma run_setsid {R} (k : Z -> itree sysE R) w :
  p_pgid (proc w) <> p_pid (proc w) ->
  eutt eq (run (ITree.bind (sys Setsid) k) w)
    (run (k (p_pid (proc w))) (set_proc (let p := proc w in
       MkProc (p_pid p) (p_ppid p) (p_pid p) (p_pid p) (p_signals p) (p_umask p) (p_cwd p) (p_fds p) (p_log p)) w)).
Proof.
  intros Hne. apply run_sys. cbn [os]. unfold setsid. by rewrite (proj2 (Z.eqb_neq _ _) Hne).
Qed.

(** Process numbers are in use below [next_pid]. *)
Definition fresh (w : World) : Prop :=
  0 < p_pid (proc w) < next_pid w /\ 0 < p_pgid (proc w) < next_pid w /\ 0 < p_sid (proc w) < next_pid w.

Lemma run_open_null {R} (k : Z -> itree sysE R) w :
  null_opens w = true ->
  eutt eq (run (ITree.bind (sys OpenNull) k) w)
    (run (k (lowest_fd (p_fds (proc w))))
         (set_proc (set_pfds (<[lowest_fd (p_fds (proc w)) := Null]> (p_fds (proc w))) (proc w)) w)).
Proof. intros Hn. apply run_sys. cbn [os]. by rewrite Hn. Qed.

Definition null_fds (f : gmap Z file) : gmap Z file :=
  let fd := lowest_fd f in
  let f := <[2 := Null]> (<[1 := Null]> (<[0 := Null]> (<[fd := Null]> f))) in
  if 2 <? fd then delete fd f else f.

(** The standard descriptors lead to [/dev/null], the others where they led. *)
Lemma null_fds_spec f i :
  null_fds f !! i = if bool_decide (0 <= i <= 2) then Some Null else f !! i.
Proof.
  unfold null_fds. pose proof (lowest_fd_nonneg f) as Hn. pose proof (lowest_fd_free f) as Hf.
  set (fd := lowest_fd f) in *. case_bool_decide as Hi.
  - assert (<[2 := Null]> (<[1 := Null]> (<[0 := Null]> (<[fd := Null]> f))) !! i = Some Null) as E.
    { assert (i = 0 \/ i = 1 \/ i = 2) as [-> | [-> | ->]] by lia; by simplify_map_eq. }
    destruct (Z.ltb_spec 2 fd); [|done]. by rewrite lookup_delete_ne by lia.
  - destruct (Z.ltb_spec 2 fd).
    + destruct (decide (i = fd)) as [->|]; [by rewrite lookup_delete_eq|]. by rewrite lookup_delete_ne, !lookup_insert_ne by lia.
    + by rewrite !lookup_insert_ne by lia.
Qed.

(** The end of [daemonize]: the descriptors, and back to the directory. *)
Definition to_null (fd : Z) (appdirptr : option bytes) : itree sysE Z :=
  dup2_or_fail fd 0 "dup2(STDIN) failed"
  (dup2_or_fail fd 1 "dup2(STDOUT) failed"
  (dup2_or_fail fd 2 "dup2(STDERR) failed"
  (let* status := (if 2 <? fd then sys (Close fd) else Ret 0) in
   if status <? 0 then error "close() failed"
   else
     let* r := sys (Chdir appdirptr) in
     if negb (r =? -1) then do* sys (LogError (lit "chdir() failed")) in Ret 0 else Ret 0))).

Lemma dup2_step fd to text k w :
  0 <= to -> p_fds (proc w) !! fd = Some Null ->
  eutt eq (run (dup2_or_fail fd to text k) w) (run k (set_proc (set_pfds (<[to := Null]> (p_fds (proc w))) (proc w)) w)).
Proof.
  intros Hto Hfd. unfold dup2_or_fail. etransitivity; [apply run_sys; cbn [os]; rewrite Hfd; reflexivity|]. cbv beta.
  destruct (Z.ltb_spec to 0); [lia|]. reflexivity.
Qed.

Definition chdir_log (w : World) : list bytes :=
  if (length (p_cwd (proc w)) <? 1024)%nat && dir_opens w then [lit "chdir() failed"] else [].

Definition cwd_text (p : Proc) : option bytes := if (length (p_cwd p) <? 1024)%nat then Some (p_cwd p) else None.

Lemma chdir_run w :
  eutt eq (run (let* r := sys (Chdir (cwd_text (proc w))) in
                if negb (r =? -1) then do* sys (LogError (lit "chdir() failed")) in Ret 0 else Ret 0) w)
    (Ret (set_proc (let p := proc w in
       MkProc (p_pid p) (p_ppid p) (p_pgid p) (p_sid p) (p_signals p) (p_umask p) (p_cwd p) (p_fds p) (p_log p ++ chdir_log w)) w, 0)).
Proof.
  unfold chdir_log, cwd_text. destruct w as [[pid ppid pgid sid sigs um cwd fds lg] nx fk fs ws no dop]. cbn [proc p_cwd dir_opens].
  destruct (length cwd <? 1024)%nat; [destruct dop|]; cbn [andb]; sys_step; cbn [Z.eqb Pos.eqb negb]; try sys_step;
    rewrite run_ret; cbn; by rewrite ?app_nil_r.
Qed.

Lemma to_null_run w f :
  p_fds (proc w) = <[lowest_fd f := Null]> f ->
  eutt eq (run (to_null (lowest_fd f) (cwd_text (proc w))) w)
    (Ret (set_proc (let p := proc w in
       MkProc (p_pid p) (p_ppid p) (p_pgid p) (p_sid p) (p_signals p) (p_umask p) (p_cwd p) (null_fds f) (p_log p ++ chdir_log w)) w, 0)).
Proof.
  intros Hf. pose proof (lowest_fd_nonneg f) as Hn. unfold to_null, null_fds in *. set (fd := lowest_fd f) in *.
  assert (forall i, (<[i := Null]> (p_fds (proc w))) !! fd = Some Null) as H1.
  { intros i. rewrite Hf. destruct (decide (i = fd)) as [->|]; [by rewrite lookup_insert_eq|]. by rewrite lookup_insert_ne, lookup_insert_eq. }
  assert (forall j (m : gmap Z file), m !! fd = Some Null -> <[j := Null]> m !! fd = Some Null) as H2.
  { intros j m Hm. destruct (decide (j = fd)) as [->|]; [by rewrite lookup_insert_eq|by rewrite lookup_insert_ne]. }
  assert (p_fds (proc w) !! fd = Some Null) as H0 by (rewrite Hf; apply lookup_insert_eq).
  rewrite dup2_step by done. rewrite dup2_step; [|done|by apply H1]. rewrite dup2_step; [|done|by apply H2, H1].
  destruct w as [p nx fk fs ws no dop]. cbn [proc set_proc p_fds set_pfds dir_opens] in *. rewrite Hf.
  set (f3 := <[2 := Null]> _). assert (f3 !! fd = Some Null) as H3.
  { subst f3. apply H2, H2, H2, lookup_insert_eq. }
  destruct (Z.ltb_spec 2 fd).
  - etransitivity; [apply run_sys; cbn [os proc p_fds set_pfds set_proc]; rewrite H3; reflexivity|]. cbn [Z.ltb Z.compare].
    exact (chdir_run (MkWorld (set_pfds (delete fd f3) p) nx fk fs ws no dop)).
  - rewrite bind_ret_l. cbn [Z.ltb Z.compare].
    exact (chdir_run (MkWorld (set_pfds f3 p) nx fk fs ws no dop)).
Qed.

(** The state of a process that [daemonize] left running: the child of a session
    leader that is gone. *)
Definition daemon (w : World) : Proc :=
  let p := proc w in
  MkProc (next_pid w + 1) (next_pid w) (next_pid w) (next_pid w) (<[SIGHUP := SIG_IGN]> (p_signals p)) 0 (p_cwd p)
    (null_fds (p_fds p)) (p_log p ++ chdir_log w).

Lemma daemonize_run w fs :
  fresh w -> null_opens w = true -> fates w = Child :: Child :: fs ->
  eutt eq (run daemonize w)
    (Ret (MkWorld (daemon w) (next_pid w + 2) (S (S (forks w))) fs (waits w) true (dir_opens w), 0)).
Proof.
  intros (Hp & Hg & Hs) Hno Hfs. destruct w as [[pid ppid pgid sid sigs um cwd fds lg] nx fk fs' ws no dop].
  cbn [null_opens fates proc p_pid p_pgid p_sid next_pid] in *. subst no fs'. unfold daemonize.
  sys_step. sys_step. cbn [Z.eqb negb]. rewrite run_setsid by (cbn; lia). world_simpl.
  destruct (Z.ltb_spec nx 0); [lia|]. sys_step. cbn [negb]. sys_step. cbn [Z.eqb negb]. sys_step.
  rewrite run_open_null by done. world_simpl.
  pose proof (lowest_fd_nonneg fds) as Hl. destruct (Z.ltb_spec (lowest_fd fds) 0); [lia|].
  etransitivity; [exact (to_null_run (MkWorld (MkProc (nx + 1) nx nx nx (<[SIGHUP := SIG_IGN]> sigs) 0 cwd
    (<[lowest_fd fds := Null]> fds) lg) (nx + 1 + 1) (S (S fk)) fs ws true dop) fds eq_refl)|].
  unfold daemon, chdir_log. world_simpl.
  replace (nx + 1 + 1) with (nx + 2) by lia. reflexivity.
Qed.

(** The processes that only start another one end at once. *)
Lemma daemonize_ancestors w fs :
  fresh w -> (fates w = Parent :: fs \/ fates w = Child :: Parent :: fs) ->
  exists w', p_fds (proc w') = p_fds (proc w) /\ eutt eq (run daemonize w) (ended w' 0).
Proof.
  intros (Hp & Hg & Hs) Hfs. destruct w as [[pid ppid pgid sid sigs um cwd fds lg] nx fk fs' ws no dop].
  cbn [null_opens fates proc p_pid p_pgid p_sid next_pid p_fds] in *. unfold daemonize.
  destruct Hfs as [-> | ->]; eexists; (split; cycle 1; [sys_step; sys_step|]).
  - destruct (Z.eqb_spec nx (-1)); [lia|]. destruct (Z.eqb_spec nx 0); [lia|]. apply run_exit.
  - done.
  - cbn [Z.eqb negb]. rewrite run_setsid by (cbn; lia). world_simpl. destruct (Z.ltb_spec nx 0); [lia|]. sys_step. cbn [negb].
    sys_step. destruct (Z.eqb_spec (nx + 1) (-1)); [lia|]. destruct (Z.eqb_spec (nx + 1) 0); [lia|]. apply run_exit.
  - done.
Qed.

(** ** [guard] *)

(** Whether [guard] starts the server again after a child ended so. *)
Definition restarts (exit_key : Z) (st : wstatus) : bool :=
  match st with Exited code => negb (code =? exit_key) | Signaled _ => true end.

Lemma run_iter {R} (body : itree sysE (unit + R)) w :
  eutt eq (run (ITree.iter (fun _ => body) tt) w)
    (ITree.bind (run body w) (fun x => match x.2 with inl _ => run (ITree.iter (fun _ => body) tt) x.1 | inr r => Ret (x.1, r) end)).
Proof.
  unfold run. rewrite unfold_iter, interp_state_bind. apply eutt_eq_bind. intros [w' [[]|r]]; cbn [fst snd].
  - rewrite interp_state_tau, tau_eutt. reflexivity.
  - rewrite interp_state_ret. reflexivity.
Qed.

(** One turn of the guarding process, its child having ended. *)
Definition after_child (text : list bytes) (fs : list fate) (ws : list (option wstatus)) (w : World) : World :=
  let p := proc w in
  MkWorld (MkProc (p_pid p) (p_ppid p) (p_pgid p) (p_sid p) (p_signals p) (p_umask p) (p_cwd p) (p_fds p) (p_log p ++ text))
    (next_pid w + 1) (S (forks w)) fs ws (null_opens w) (dir_opens w).

Lemma guard_turn_parent driver key w st fs ws :
  0 < next_pid w -> fates w = Parent :: fs -> waits w = Some st :: ws ->
  eutt eq (run (guard_turn driver key) w)
    (if restarts key st then Ret (after_child [lit "Restart the program..."] fs ws w, inl tt)
     else ended (after_child [] fs ws w) 0).
Proof.
  intros Hn Hf Hw. destruct w as [[pid ppid pgid sid sigs um cwd fds lg] nx fk fs' ws' no dop].
  cbn [next_pid fates waits] in *. subst fs' ws'. unfold guard_turn. sys_step.
  destruct (Z.eqb_spec 0 nx); [lia|]. destruct (Z.ltb_spec 0 nx); [|lia]. sys_step. destruct (Z.ltb_spec nx 0); [lia|].
  unfold after_child. world_simpl. destruct st as [code|sig]; cbn [restarts].
  - destruct (code =? key); cbn [negb].
    + rewrite run_exit_bind. by rewrite app_nil_r.
    + rewrite bind_ret_l. sys_step. apply run_ret.
  - rewrite bind_ret_l. sys_step. apply run_ret.
Qed.

Definition restart_log (n : nat) : list bytes := replicate n (lit "Restart the program...").

(** The guarding process after the children [cs], each of which it replaced. *)
Definition after_children (n : nat) (fs : list fate) (ws : list (option wstatus)) (w : World) : World :=
  let p := proc w in
  MkWorld (MkProc (p_pid p) (p_ppid p) (p_pgid p) (p_sid p) (p_signals p) (p_umask p) (p_cwd p) (p_fds p) (p_log p ++ restart_log n))
    (next_pid w + Z.of_nat n) (n + forks w) fs ws (null_opens w) (dir_opens w).

Lemma guard_restarts driver key cs : forall w fs ws,
  0 < next_pid w -> Forall (fun st => restarts key st = true) cs ->
  fates w = replicate (length cs) Parent ++ fs -> waits w = (Some <$> cs) ++ ws ->
  eutt eq (run (guard driver key) w) (run (guard driver key) (after_children (length cs) fs ws w)).
Proof.
  induction cs as [|st cs IH]; intros w fs ws Hn Hr Hf Hw; cbn [length replicate fmap list_fmap app] in *.
  - unfold after_children. destruct w as [[] nx fk fs' ws' no dop]. cbn in *. subst. by rewrite app_nil_r, Z.add_0_r.
  - inversion_clear Hr as [|? ? Hst Hcs]. unfold guard at 1. rewrite run_iter, (guard_turn_parent driver key w st _ _ Hn Hf Hw), Hst, bind_ret_l.
    cbn [snd fst]. fold (guard driver key). rewrite (IH _ fs ws); [|cbn; lia|done|done|done].
    unfold after_children, after_child. world_simpl. rewrite <- app_assoc, Nat.add_succ_r.
    replace (next_pid w + 1 + Z.of_nat (length cs)) with (next_pid w + Z.of_nat (S (length cs))) by lia. reflexivity.
Qed.

Lemma guard_ends driver key w st fs ws :
  0 < next_pid w -> fates w = Parent :: fs -> waits w = Some st :: ws -> restarts key st = false ->
  eutt eq (run (guard driver key) w) (ended (after_child [] fs ws w) 0).
Proof.
  intros Hn Hf Hw Hst. unfold guard. by rewrite run_iter, (guard_turn_parent driver key w st _ _ Hn Hf Hw), Hst, bind_ended.
Qed.

(** The child runs the server, and ends when it returns. *)
Lemma guard_child driver key w fs :
  fates w = Child :: fs ->
  eutt eq (run (guard driver key) w)
    (ITree.bind (run driver (fork w).1) (fun x => ended x.1 0)).
Proof.
  intros Hf. unfold guard. rewrite run_iter. unfold guard_turn, fork. rewrite Hf.
  rewrite (run_sys Fork _ w (fork w).1 0); [|cbn [os]; unfold fork; by rewrite Hf]. cbn [Z.eqb]. rewrite run_bind, bind_bind.
  unfold fork. rewrite Hf. cbn [fst]. apply eutt_eq_bind. intros [w' []]. cbn [fst snd]. by rewrite run_exit, bind_ended.
Qed.

(** ** The program *)

(** The process [p'] is detached from the terminal of [p]: in another session that
    it does not lead, its standard descriptors at [/dev/null], in the same
    directory, with its other descriptors as they were. *)
Definition detached (p p' : Proc) : Prop :=
  p_sid p' <> p_sid p /\ p_sid p' <> p_pid p' /\ p_cwd p' = p_cwd p /\ p_umask p' = 0 /\
  p_signals p' !! SIGHUP = Some SIG_IGN /\
  forall i, p_fds p' !! i = if bool_decide (0 <= i <= 2) then Some Null else p_fds p !! i.

Lemma daemon_detached w p : fresh w ->
  p_sid p = p_sid (daemon w) -> p_sid (daemon w) < p_pid p -> p_cwd p = p_cwd (daemon w) -> p_umask p = 0 ->
  p_signals p = p_signals (daemon w) -> p_fds p = p_fds (daemon w) -> detached (proc w) p.
Proof.
  intros (Hp & Hg & Hs) E1 E2 E3 E4 E5 E6. unfold detached. rewrite E1, E3, E4, E5, E6. cbn [daemon p_sid p_pid p_cwd p_signals p_fds] in *.
  split; [lia|]. split; [lia|]. split; [done|]. split; [done|]. split; [apply lookup_insert_eq|]. intros i. apply null_fds_spec.
Qed.

Lemma main_guarded cfg driver w :
  run_daemonize (app cfg) = 1 -> run_guard (app cfg) = 1 -> fresh w -> null_opens w = true ->
  forall fs, fates w = Child :: Child :: fs ->
  eutt eq (run (main cfg driver) w)
    (ITree.bind (run (guard driver 0) (MkWorld (daemon w) (next_pid w + 2) (S (S (forks w))) fs (waits w) true (dir_opens w)))
       (fun x => match x.2 : void with end)).
Proof.
  intros Hd Hg Hf Hn fs Hfs. unfold main. rewrite Hd, Hg. cbn [Z.eqb Pos.eqb]. rewrite run_bind, (daemonize_run w fs Hf Hn Hfs), bind_ret_l.
  cbn [fst snd]. rewrite bind_bind, run_bind. apply eutt_eq_bind. intros [w' []].
Qed.

(** C17. With [run_daemonize] and [run_guard] set, and as long as [fork], [waitpid] and
    opening [/dev/null] succeed, whatever number of server
    processes crash, are killed or exit with another status than 0: the process
    that remains of [main] is detached from the terminal; it starts one server
    after the other, and ends, with status 0, only once a server ended with
    status 0.  Each server it starts runs detached and, when it returns, ends with
    status 0. *)
Theorem guarded_daemon_restarts_server cfg xhttpcache w cs last :
  run_daemonize (app cfg) = 1 -> run_guard (app cfg) = 1 -> fresh w -> null_opens w = true ->
  Forall (fun st => restarts 0 st = true) cs -> restarts 0 last = false ->
  (fates w = Child :: Child :: replicate (S (length cs)) Parent -> waits w = Some <$> cs ++ [last] ->
   exists w', eutt eq (run (main cfg xhttpcache) w) (ended w' 0) /\ detached (proc w) (proc w') /\
     forks w' = (2 + S (length cs) + forks w)%nat) /\
  (fates w = Child :: Child :: replicate (length cs) Parent ++ [Child] -> waits w = Some <$> cs ->
   exists w', eutt eq (run (main cfg xhttpcache) w) (ITree.bind (run xhttpcache w') (fun x => ended x.1 0)) /\
     detached (proc w) (proc w') /\ forks w' = (2 + S (length cs) + forks w)%nat).
Proof.
  intros Hd Hg Hfr Hn Hcs Hl. pose proof Hfr as (Hp & _).
  pose proof (main_guarded cfg xhttpcache w Hd Hg Hfr Hn) as Hmain. split; intros Hf Hw.
  - eexists. split; [|split].
    + rewrite (Hmain _ Hf), (guard_restarts xhttpcache 0 cs _ [Parent] [Some last]);
        [|cbn; lia|done|by rewrite <- replicate_S_end|by rewrite Hw, fmap_app].
      rewrite (guard_ends xhttpcache 0 _ last [] []); [|cbn; lia|done|done|done]. apply bind_ended.
    + apply daemon_detached; cbn; try done; lia.
    + cbn. lia.
  - eexists. split; [|split].
    + rewrite (Hmain _ Hf), (guard_restarts xhttpcache 0 cs _ [Child] []); [|cbn; lia|done|done|by rewrite app_nil_r].
      rewrite (guard_child xhttpcache 0 _ []) by done. rewrite bind_bind. apply eutt_eq_bind. intros [w' []]. apply bind_ended.
    + apply daemon_detached; cbn; try done; lia.
    + cbn. lia.
Qed.

(** ** Signals *)

(** A signal that asks the server to stop ends it with status 255, for which its
    guard starts it again. *)
Theorem sigterm_does_not_stop_guarded_server w :
  exists w', eutt eq (run (signal_handler SIGTERM) w) (ended w' (-1)) /\ restarts 0 (Exited (Z.land (-1) 255)) = true.
Proof. eexists. split; [|done]. unfold signal_handler. sys_step. apply run_exit. Qed.

(** [signal_handle] ignores SIGHUP first, then gives it the handler that ends the
    server: what [daemonize] and [signal_ignore] set up is lost. *)
Theorem sighup_is_not_ignored w :
  exists w', eutt eq (run signal_handle w) (Ret (w', true)) /\ p_signals (proc w') !! SIGHUP = Some Handled /\ p_signals (proc w') !! SIGPIPE = Some SIG_IGN.
Proof.
  destruct w as [[pid ppid pgid sid sigs um cwd fds lg] nx fk fs' ws' no dop].
  eexists. split; [|split].
  - unfold signal_handle, signal_ignore. sys_step. rewrite bind_bind. sys_step. rewrite bind_ret_l. do 5 sys_step. apply run_ret.
  - world_simpl. by simplify_map_eq.
  - world_simpl. by simplify_map_eq.
Qed.

(** Once [daemonize] got back to its directory, it reports that it did not. *)
Theorem daemonize_reports_chdir_success w fs :
  fresh w -> null_opens w = true -> dir_opens w = true -> (length (p_cwd (proc w)) < 1024)%nat ->
  fates w = Child :: Child :: fs ->
  exists w', eutt eq (run daemonize w) (Ret (w', 0)) /\ p_log (proc w') = p_log (proc w) ++ [lit "chdir() failed"].
Proof.
  intros Hf Hn Hd Hl Hfs. eexists. split; [by apply daemonize_run|]. cbn. unfold chdir_log. rewrite Hd.
  by rewrite (proj2 (Nat.ltb_lt _ _) Hl).
Qed.

(** ** A concrete run *)

Definition demo_proc : Proc :=
  MkProc 100 50 100 50 ∅ 18 (lit "/srv") (list_to_map [(0, Tty); (1, Tty); (2, Tty); (3, OtherFile)]) [].

Definition demo_world (fs : list fate) (ws : list (option wstatus)) : World := MkWorld demo_proc 200 0 fs ws true true.

Definition demo_config : xConfig :=
  let a := app config_new in
  MkConfig (MkCacheConfig (log_filename a) (log_filesize a) (log_level a) 1 1 0 (redis_ip a) (redis_port a))
    (frontend config_new) (backend config_new) (dbcfg config_new).

(** A server that crashed and one that was told to stop are replaced, the third
    ends by itself. *)
Lemma guarded_daemon_restarts_server_witness :
  exists w', eutt eq (run (main demo_config (Ret tt))
      (demo_world [Child; Child; Parent; Parent; Parent] [Some (Signaled 11); Some (Exited 255); Some (Exited 0)])) (ended w' 0) /\ detached demo_proc (proc w') /\ forks w' = 5%nat.
Proof.
  destruct (guarded_daemon_restarts_server demo_config (Ret tt)
    (demo_world [Child; Child; Parent; Parent; Parent] [Some (Signaled 11); Some (Exited 255); Some (Exited 0)])
    [Signaled 11; Exited 255] (Exited 0)) as [Hp _].
  - reflexivity.
  - reflexivity.
  - cbn. repeat split; lia.
  - reflexivity.
  - repeat constructor.
  - reflexivity.
  - exact (Hp eq_refl eq_refl).
Defined.
