(* ===== verification/BatchAllocator.v ===== *)
(** The batch allocator of [common/jsoncpp.cpp] ([Json::BatchAllocator]): pages
    of equal objects carved in order, and a list of the released ones that is
    threaded through the objects themselves.

    A block is what one [malloc] returned, numbered in order; a pointer to an
    object is its block and its index in [buffer_].  What the objects hold where
    the allocator keeps its links is [cells]; the owner of an object may store
    anything there.  [None] is undefined behaviour (an access past a block, a
    failed assertion, an unwritten link). *)

From S2P Require Import Prelude.

Definition ptr : Type := nat * Z.

Section BatchAllocator.
(** [sizeof(AllocatedType)] and [objectPerAllocation]. *)
Context (osz opa : Z).

Record BatchInfo := MkBatch { next_ : option nat; used_ : Z; end_ : Z; size : Z }.

Record BatchAllocator := MkAlloc {
  blocks : list BatchInfo; batches_ : nat; currentBatch_ : nat; freeHead_ : option ptr; objectsPerPage_ : Z;
  cells : gmap ptr (option ptr) }.

(** The three pointers before [buffer_]. *)
Definition header : Z := 24.

Definition allocateBatch (objectsPerPage : Z) : BatchInfo :=
  let mallocSize := u32 (header + osz * opa - osz * opa + osz * opa * objectsPerPage) in
  MkBatch None 0 objectsPerPage mallocSize.

Definition BatchAllocator_new (objectsPerPage : Z) : option BatchAllocator :=
  if (8 <=? osz * opa) && (16 <=? objectsPerPage)
  then Some (MkAlloc [allocateBatch 0] 0 0 None objectsPerPage ∅) else None.

(** [while (currentBatch_ && currentBatch_->used_ == currentBatch_->end_)] *)
Fixpoint skip_full (fuel : nat) (bs : list BatchInfo) (cur : option nat) : option (option nat) :=
  match cur with
  | None => Some None
  | Some c =>
      match fuel with
      | O => None
      | S fuel => b ← bs !! c; if used_ b =? end_ b then skip_full fuel bs (next_ b) else Some (Some c)
      end
  end.

Definition set_current (a : BatchAllocator) (c : nat) : BatchAllocator :=
  MkAlloc (blocks a) (batches_ a) c (freeHead_ a) (objectsPerPage_ a) (cells a).

(** A new batch goes to the head of the list. *)
Definition new_batch (a : BatchAllocator) : BatchAllocator :=
  let b := allocateBatch (objectsPerPage_ a) in
  let i := length (blocks a) in
  MkAlloc (blocks a ++ [MkBatch (Some (batches_ a)) (used_ b) (end_ b) (size b)]) i i (freeHead_ a) (objectsPerPage_ a) (cells a).

Definition carve (a : BatchAllocator) : option (ptr * BatchAllocator) :=
  b ← blocks a !! currentBatch_ a;
  let b' := MkBatch (next_ b) (used_ b + opa) (end_ b) (size b) in
  Some ((currentBatch_ a, used_ b),
        MkAlloc (<[currentBatch_ a := b']> (blocks a)) (batches_ a) (currentBatch_ a) (freeHead_ a) (objectsPerPage_ a) (cells a)).

Definition allocate (a : BatchAllocator) : option (ptr * BatchAllocator) :=
  match freeHead_ a with
  | Some object =>
      link ← cells a !! object;
      Some (object, MkAlloc (blocks a) (batches_ a) (currentBatch_ a) link (objectsPerPage_ a) (cells a))
  | None =>
      b ← blocks a !! currentBatch_ a;
      if used_ b =? end_ b then
        c ← skip_full (length (blocks a)) (blocks a) (next_ b);
        match c with Some c => carve (set_current a c) | None => carve (new_batch a) end
      else carve a
  end.

(** The object at [o] lies in the memory of its block. *)
Definition in_block (a : BatchAllocator) (o : ptr) : bool :=
  match blocks a !! o.1 with
  | Some b => (0 <=? o.2) && (header + osz * (o.2 + opa) <=? size b)
  | None => false
  end.

(** A pointer stored at the start of the object. *)
Definition store (a : BatchAllocator) (o : ptr) (v : option ptr) : option BatchAllocator :=
  if in_block a o
  then Some (MkAlloc (blocks a) (batches_ a) (currentBatch_ a) (freeHead_ a) (objectsPerPage_ a) (<[o := v]> (cells a)))
  else None.

Definition release (a : BatchAllocator) (o : ptr) : option BatchAllocator :=
  a ← store a o (freeHead_ a);
  Some (MkAlloc (blocks a) (batches_ a) (currentBatch_ a) (Some o) (objectsPerPage_ a) (cells a)).

(** The blocks the destructor frees, in order. *)
Fixpoint destroy_loop (fuel : nat) (bs : list BatchInfo) (batch : option nat) : option (list nat) :=
  match batch with
  | None => Some []
  | Some i =>
      match fuel with
      | O => None
      | S fuel => b ← bs !! i; r ← destroy_loop fuel bs (next_ b); Some (i :: r)
      end
  end.
Definition destroy (a : BatchAllocator) : option (list nat) :=
  destroy_loop (S (length (blocks a))) (blocks a) (Some (batches_ a)).

(** Use by a client that owns the objects [L]: it may store what it likes in
    them and releases only them. *)
Inductive session (page : Z) : BatchAllocator -> gset ptr -> Prop :=
  | session_new a : BatchAllocator_new page = Some a -> session page a ∅
  | session_allocate a L p a' : session page a L -> allocate a = Some (p, a') -> session page a' ({[p]} ∪ L)
  | session_store a L p v a' : session page a L -> p ∈ L -> store a p v = Some a' -> session page a' L
  | session_release a L p a' : session page a L -> p ∈ L -> release a p = Some a' -> session page a' (L ∖ {[p]}).

(** No byte belongs to both objects. *)
Definition apart (p q : ptr) : Prop := p.1 <> q.1 \/ p.2 + opa <= q.2 \/ q.2 + opa <= p.2.

(** ** The invariant *)

Section Invariant.
Context (page : Z) (Hopa : 0 < opa) (Hosz : 0 < osz) (Hdvd : (opa | page)) (Hpage : 16 <= page)
  (Hsize : header + osz * opa * page < 2 ^ 32).

Definition block_ok (n k : nat) (b : BatchInfo) : Prop :=
  (opa | used_ b) /\ 0 <= used_ b <= end_ b /\ (S k <> n -> used_ b = end_ b) /\
  match k with
  | O => next_ b = None /\ end_ b = 0
  | S k => next_ b = Some k /\ end_ b = page /\ size b = header + osz * opa * page
  end.

Definition carved (bs : list BatchInfo) (p : ptr) : Prop :=
  exists b, bs !! p.1 = Some b /\ (opa | p.2) /\ 0 <= p.2 < used_ b.

Fixpoint linked (m : gmap ptr (option ptr)) (h : option ptr) (l : list ptr) : Prop :=
  match l with
  | [] => h = None
  | p :: l => h = Some p /\ exists h', m !! p = Some h' /\ linked m h' l
  end.

Record inv (a : BatchAllocator) (L : gset ptr) (fl : list ptr) : Prop := {
  inv_page : objectsPerPage_ a = page;
  inv_last : length (blocks a) = S (currentBatch_ a) /\ batches_ a = currentBatch_ a;
  inv_blocks : forall k b, blocks a !! k = Some b -> block_ok (length (blocks a)) k b;
  inv_free : linked (cells a) (freeHead_ a) fl;
  inv_nodup : NoDup fl;
  inv_owned : forall p, carved (blocks a) p <-> p ∈ L \/ p ∈ fl;
  inv_disjoint : forall p, p ∈ L -> p ∉ fl }.

Lemma linked_insert m h l p v : p ∉ l -> linked m h l -> linked (<[p := v]> m) h l.
Proof.
  revert h. induction l as [|q l IH]; intros h Hp; [done|]. apply not_elem_of_cons in Hp as [Hne Hp].
  intros (-> & h' & E & H). split; [done|]. exists h'. rewrite lookup_insert_ne by done. auto.
Qed.

Lemma skip_full_all n bs k :
  (forall j b, (j <= k)%nat -> bs !! j = Some b -> block_ok (length bs) j b /\ used_ b = end_ b) -> (k < length bs)%nat -> (k < n)%nat ->
  skip_full n bs (Some k) = Some None.
Proof.
  revert n. induction k as [|k IH]; intros [|n] Hb Hk Hn; try lia; cbn [skip_full];
    destruct (lookup_lt_is_Some_2 _ _ Hk) as [b Eb]; rewrite Eb; cbn [mbind option_bind];
    destruct (Hb _ b (le_n _) Eb) as [(_ & _ & _ & Hn' & _) ->]; rewrite Z.eqb_refl, Hn'; [by destruct n|].
  apply IH; [|lia..]. intros j b' Hj. apply Hb. lia.
Qed.

Lemma destroy_loop_all n bs k :
  (forall j b, bs !! j = Some b -> block_ok (length bs) j b) -> (k < length bs)%nat -> (k < n)%nat ->
  destroy_loop n bs (Some k) = Some (reverse (seq 0 (S k))).
Proof.
  intros Hb. revert n. induction k as [|k IH]; intros [|n] Hk Hn; try lia; cbn [destroy_loop];
    destruct (lookup_lt_is_Some_2 _ _ Hk) as [b Eb]; rewrite Eb; cbn [mbind option_bind];
    destruct (Hb _ b Eb) as (_ & _ & _ & -> & _); [by destruct n|].
  rewrite IH by lia. cbn [mbind option_bind]. rewrite (seq_S (S k)), reverse_snoc. done.
Qed.

Lemma divide_le i n : (opa | i) -> (opa | n) -> i < n -> i + opa <= n.
Proof. intros [x ->] [y ->] H. assert (x < y) by nia. nia. Qed.

Lemma inv_end a L fl k b : inv a L fl -> blocks a !! k = Some b -> (opa | end_ b) /\ (0 < used_ b \/ used_ b < end_ b -> end_ b = page /\ size b = header + osz * opa * page).
Proof.
  intros Hi Hb. destruct (inv_blocks _ _ _ Hi _ _ Hb) as (_ & Hu & _ & Hk). destruct k as [|k].
  - destruct Hk as [_ He]. rewrite He. split; [apply Z.divide_0_r|]. lia.
  - destruct Hk as (_ & -> & ->). done.
Qed.

Lemma in_block_carved a L fl p : inv a L fl -> carved (blocks a) p -> in_block a p = true.
Proof.
  intros Hi (b & Hb & Hd & Hp). unfold in_block. rewrite Hb.
  destruct (inv_end _ _ _ _ _ Hi Hb) as [He Hs]. destruct (inv_blocks _ _ _ Hi _ _ Hb) as (Hu & Hr & _).
  destruct Hs as [Hs1 ->]; [lia|]. pose proof (divide_le _ _ Hd Hu ltac:(lia)) as Hl.
  assert (osz * (p.2 + opa) <= osz * page) by nia. assert (osz * page <= osz * opa * page) by nia.
  apply andb_true_intro. split; lia.
Qed.

Lemma carve_spec a L fl b :
  inv a L fl -> blocks a !! currentBatch_ a = Some b -> used_ b <> end_ b ->
  exists p a', carve a = Some (p, a') /\ p ∉ L /\ inv a' ({[p]} ∪ L) fl.
Proof.
  intros Hi Hb Hne. unfold carve. rewrite Hb. cbn [mbind option_bind].
  destruct (inv_blocks _ _ _ Hi _ _ Hb) as (Hu & Hr & _ & Hk). destruct (inv_end _ _ _ _ _ Hi Hb) as [He _].
  pose proof (divide_le _ _ Hu He ltac:(lia)) as Hle.
  assert (~ carved (blocks a) (currentBatch_ a, used_ b)) as Hnew.
  { intros (b' & Hb' & _ & Hlt). cbn [fst snd] in *. rewrite Hb in Hb'. injection Hb' as <-. lia. }
  rewrite (inv_owned _ _ _ Hi) in Hnew. apply Decidable.not_or in Hnew as [HL Hfl].
  eexists _, _. split; [done|]. split; [done|]. destruct Hi as [H1 [H2 H2'] H3 H4 H5 H6 H7].
  split; cbn [objectsPerPage_ blocks currentBatch_ batches_ cells freeHead_]; try done.
  - by rewrite length_insert.
  - intros k b'. rewrite length_insert. intros [(<- & <- & _)|[Hkn Hb']]%list_lookup_insert_Some; [|by apply H3].
    destruct (H3 _ _ Hb) as (_ & _ & Hf & _). split; cbn [used_ end_ next_ size]; [by apply Z.divide_add_r; [|reflexivity]|].
    split; [lia|]. split; [by intros []|done].
  - intros q. rewrite elem_of_union, elem_of_singleton.
    assert (carved (<[currentBatch_ a:=MkBatch (next_ b) (used_ b + opa) (end_ b) (size b)]> (blocks a)) q
            <-> q = (currentBatch_ a, used_ b) \/ carved (blocks a) q) as ->; [|rewrite H6; tauto].
    destruct q as [k i]. unfold carved. cbn [fst snd]. split.
    + intros (b' & [(<- & <- & _)|[Hkn Hb']]%list_lookup_insert_Some & Hd & Hlt); [|right; eauto].
      cbn [used_] in Hlt. destruct (decide (i = used_ b)) as [->|Hi]; [by left|right]. exists b. split; [done|]. split; [done|].
      destruct (decide (i < used_ b)); [lia|]. pose proof (divide_le _ _ Hu Hd ltac:(lia)). lia.
    + intros [[= -> ->]|(b' & Hb' & Hd & Hlt)].
      * eexists. rewrite list_lookup_insert_eq by (by eapply lookup_lt_Some). split; [done|]. split; [done|cbn [used_]; lia].
      * destruct (decide (k = currentBatch_ a)) as [->|Hkn].
        -- rewrite Hb in Hb'. injection Hb' as <-. eexists.
           rewrite list_lookup_insert_eq by (by eapply lookup_lt_Some). split; [done|]. split; [done|cbn [used_]; lia].
        -- exists b'. by rewrite list_lookup_insert_ne.
  - intros q [->%elem_of_singleton|Hq]%elem_of_union; auto.
Qed.

Lemma new_batch_spec a L fl b :
  inv a L fl -> blocks a !! currentBatch_ a = Some b -> used_ b = end_ b -> inv (new_batch a) L fl.
Proof.
  intros [H1 [H2 H2'] H3 H4 H5 H6 H7] Hb Hf. unfold new_batch.
  split; cbn [objectsPerPage_ blocks currentBatch_ batches_ cells freeHead_]; try done.
  - by rewrite length_app, Nat.add_1_r.
  - intros k b'. rewrite length_app, Nat.add_1_r. intros [Hb'|[Hk Hb']]%lookup_app_Some.
    + destruct (H3 _ _ Hb') as (Hu & Hr & Hfull & Hn). split; [done|]. split; [done|]. split; [|done]. intros _.
      destruct (decide (S k = length (blocks a))) as [E|E]; [|by apply Hfull]. assert (k = currentBatch_ a) as -> by lia. congruence.
    + apply list_lookup_singleton_Some in Hb' as [Hk' <-]. assert (k = length (blocks a)) as -> by lia.
      split; cbn [used_ end_ next_ size allocateBatch]; [apply Z.divide_0_r|]. rewrite H1. split; [lia|]. split; [by intros []|].
      rewrite H2, H2'. split; [done|]. split; [done|]. rewrite Z.add_simpl_r, u32_id; [done|].
      unfold is_u32, header in *. split; [|done]. assert (0 <= osz * opa * page) by nia. lia.
  - intros p. rewrite <- H6. unfold carved. split; intros (b' & Hb' & Hd & Hp); exists b'; (split; [|done]).
    + apply lookup_app_Some in Hb' as [|[_ Hb']]; [done|]. apply list_lookup_singleton_Some in Hb' as [_ <-]. cbn in Hp. lia.
    + by apply lookup_app_l_Some.
Qed.

Lemma allocate_spec a L fl :
  inv a L fl -> exists p a' fl', allocate a = Some (p, a') /\ p ∉ L /\ inv a' ({[p]} ∪ L) fl'.
Proof.
  intros Hi. unfold allocate. pose proof Hi as [H1 [H2 H2'] H3 H4 H5 H6 H7]. destruct fl as [|p fl]; cbn [linked] in H4.
  - rewrite H4. destruct (lookup_lt_is_Some_2 (blocks a) (currentBatch_ a) ltac:(lia)) as [b Hb]. rewrite Hb. cbn [mbind option_bind].
    destruct (Z.eqb_spec (used_ b) (end_ b)) as [Hf|Hne].
    + destruct (H3 _ _ Hb) as (_ & _ & _ & Hn).
      assert (skip_full (length (blocks a)) (blocks a) (next_ b) = Some None) as ->.
      { destruct (currentBatch_ a) as [|k] eqn:Ek; destruct Hn as (-> & _); [by rewrite H2|].
        apply skip_full_all; [|lia..]. intros j b' Hj Hb'. split; [auto|]. apply (H3 _ _ Hb'). lia. }
      cbn [mbind option_bind]. pose proof (new_batch_spec _ _ _ _ Hi Hb Hf) as Hi'.
      assert (exists b', blocks (new_batch a) !! currentBatch_ (new_batch a) = Some b' /\ used_ b' <> end_ b') as (b' & Hb' & Hne).
      { unfold new_batch. cbn [blocks currentBatch_]. rewrite lookup_app_r, Nat.sub_diag by lia. eexists. split; [done|]. cbn. lia. }
      destruct (carve_spec _ _ _ _ Hi' Hb' Hne) as (p & a' & ? & ? & ?). eauto 6.
    + destruct (carve_spec _ _ _ _ Hi Hb Hne) as (p & a' & ? & ? & ?). eauto 6.
  - destruct H4 as (-> & h & E & Hl). rewrite E. cbn [mbind option_bind]. exists p. eexists. exists fl. split; [done|].
    apply NoDup_cons in H5 as [Hp H5]. assert (p ∉ L) as HpL by (intros HL; apply (H7 _ HL); left). split; [done|].
    split; cbn [objectsPerPage_ blocks currentBatch_ batches_ cells freeHead_]; try done.
    + intros q. rewrite H6, elem_of_union, elem_of_singleton, elem_of_cons. tauto.
    + intros q [->%elem_of_singleton|Hq]%elem_of_union; [done|]. intros Hf. apply (H7 _ Hq). by right.
Qed.

Lemma store_spec a L fl p v :
  inv a L fl -> p ∈ L -> exists a', store a p v = Some a' /\ cells a' !! p = Some v /\ freeHead_ a' = freeHead_ a /\ inv a' L fl.
Proof.
  intros Hi Hp. unfold store. rewrite (in_block_carved _ _ _ _ Hi) by (apply (inv_owned _ _ _ Hi); by left).
  eexists. split; [done|]. cbn [cells freeHead_]. rewrite lookup_insert_eq. split; [done|]. split; [done|].
  destruct Hi. split; cbn [objectsPerPage_ blocks currentBatch_ batches_ cells freeHead_]; try done. apply linked_insert; auto.
Qed.

Lemma release_spec a L fl p :
  inv a L fl -> p ∈ L -> exists a', release a p = Some a' /\ inv a' (L ∖ {[p]}) (p :: fl).
Proof.
  intros Hi Hp. unfold release. destruct (store_spec _ _ _ _ (freeHead_ a) Hi Hp) as (a' & -> & Ec & Ef & [H1 H2 H3 H4 H5 H6 H7]).
  cbn [mbind option_bind]. eexists. split; [done|].
  split; cbn [objectsPerPage_ blocks currentBatch_ batches_ cells freeHead_]; try done.
  - split; [done|]. exists (freeHead_ a). split; [done|]. by rewrite <- Ef.
  - apply NoDup_cons. auto.
  - intros q. rewrite H6, elem_of_difference, elem_of_singleton, elem_of_cons. destruct (decide (q = p)) as [->|]; tauto.
  - intros q [Hq Hn]%elem_of_difference [->|Hf]%elem_of_cons; [by apply Hn, elem_of_singleton|]. by apply (H7 q).
Qed.

Lemma new_spec a : BatchAllocator_new page = Some a -> inv a ∅ [].
Proof.
  unfold BatchAllocator_new. destruct (_ && _); [|done]. intros [= <-].
  split; cbn [objectsPerPage_ blocks currentBatch_ batches_ cells freeHead_]; try done; [|constructor|].
  - intros k b [-> <-]%list_lookup_singleton_Some. split; [apply Z.divide_0_r|]. cbn. split; [lia|]. done.
  - intros p. split; [|intros [[]%elem_of_empty|[]%elem_of_nil]]. intros (b & [_ <-]%list_lookup_singleton_Some & _ & Hp). cbn in Hp. lia.
Qed.

Lemma session_inv a L : session page a L -> exists fl, inv a L fl.
Proof.
  induction 1 as [a Ha|a L p a' _ [fl Hi] Ha|a L p v a' _ [fl Hi] Hp Ha|a L p a' _ [fl Hi] Hp Ha].
  - exists []. by apply new_spec.
  - destruct (allocate_spec _ _ _ Hi) as (p' & a'' & fl' & E & _ & Hi'). rewrite Ha in E. injection E as <- <-. eauto.
  - destruct (store_spec _ _ _ _ v Hi Hp) as (a'' & E & _ & _ & Hi'). rewrite Ha in E. injection E as <-. eauto.
  - destruct (release_spec _ _ _ _ Hi Hp) as (a'' & E & Hi'). rewrite Ha in E. injection E as <-. eauto.
Qed.

Lemma carved_apart bs p q : carved bs p -> carved bs q -> p <> q -> apart p q.
Proof.
  intros (b & _ & Hp & _) (b' & _ & Hq & _) Hne. unfold apart.
  destruct (decide (p.1 = q.1)) as [E|E]; [right|by left].
  destruct (Z.lt_trichotomy p.2 q.2) as [Hl|[He|Hl]].
  - left. by apply divide_le.
  - destruct p, q; cbn in *; congruence.
  - right. by apply divide_le.
Qed.
(** When the objects of an allocation divide a page, the allocator serves every
    use: an allocation succeeds with an object nobody owns, the objects in use lie
    within their blocks and share no byte, stores to them and their release are
    safe, and the destructor frees every block once. *)
Theorem batch_allocator_hands_out_own_memory a L :
  session page a L ->
  (exists p a', allocate a = Some (p, a') /\ p ∉ L /\ session page a' ({[p]} ∪ L)) /\
  (forall p v, p ∈ L -> in_block a p = true /\ is_Some (store a p v) /\ is_Some (release a p)) /\
  (forall p q, p ∈ L -> q ∈ L -> p <> q -> apart p q) /\
  destroy a = Some (reverse (seq 0 (length (blocks a)))).
Proof.
  intros Hs. destruct (session_inv _ _ Hs) as [fl Hi]. split_and!.
  - destruct (allocate_spec _ _ _ Hi) as (p & a' & _ & E & Hp & _). exists p, a'. split_and!; [done..|].
    by eapply session_allocate.
  - intros p v Hp. split_and!.
    + eapply in_block_carved; [done|]. apply (inv_owned _ _ _ Hi). by left.
    + destruct (store_spec _ _ _ _ v Hi Hp) as (a' & -> & _). done.
    + destruct (release_spec _ _ _ _ Hi Hp) as (a' & -> & _). done.
  - intros p q Hp Hq. apply (carved_apart (blocks a)); apply (inv_owned _ _ _ Hi); by left.
  - destruct (inv_last _ _ _ Hi) as [E1 E2]. unfold destroy. rewrite E2, E1.
    apply destroy_loop_all; [|lia..]. apply (inv_blocks _ _ _ Hi).
Qed.
End Invariant.

(** ** Pages the objects do not divide *)

Fixpoint allocate_n (n : nat) (a : BatchAllocator) : option BatchAllocator :=
  match n with O => Some a | S n => '(_, a) ← allocate a; allocate_n n a end.

Definition after (page k : Z) : BatchAllocator :=
  MkAlloc [allocateBatch 0; MkBatch (Some 0%nat) (opa * k) page (size (allocateBatch page))] 1 1 None page ∅.

Lemma allocate_after page k : ~ (opa | page) -> allocate (after page k) = Some ((1%nat, opa * k), after page (k + 1)).
Proof.
  intros Hn. unfold allocate, after. cbn [freeHead_ blocks currentBatch_ lookup list_lookup mbind option_bind used_ end_].
  destruct (Z.eqb_spec (opa * k) page) as [E|_]; [destruct Hn; exists k; lia|].
  unfold carve. cbn. by rewrite Z.mul_add_distr_l, Z.mul_1_r.
Qed.

Lemma allocate_n_after page n k : ~ (opa | page) -> allocate_n n (after page k) = Some (after page (k + Z.of_nat n)).
Proof.
  intros Hn. revert k. induction n as [|n IH]; intros k; cbn [allocate_n]; [by rewrite Z.add_0_r|].
  rewrite allocate_after by done. cbn [mbind option_bind]. rewrite IH. do 2 f_equal. lia.
Qed.

(** When they do not, the end of the first page is stepped over: the allocator
    never takes a second one, and the allocation after as many as a page should
    hold lies past the block. *)
Theorem page_overrun page :
  0 < opa -> 8 <= osz * opa -> 16 <= page -> ~ (opa | page) -> header + osz * opa * page < 2 ^ 32 ->
  exists a0 a p a', BatchAllocator_new page = Some a0 /\ allocate_n (Z.to_nat page) a0 = Some a /\
    allocate a = Some (p, a') /\ in_block a' p = false.
Proof.
  intros Hopa Hosz Hpage Hn Hsize. eexists _, (after page page), _, _. split.
  { unfold BatchAllocator_new. rewrite (proj2 (Z.leb_le 8 _)), (proj2 (Z.leb_le 16 _)) by lia. done. }
  split; [|split; [by apply allocate_after|]].
  - destruct (Z.to_nat page) as [|n] eqn:En; [lia|]. cbn [allocate_n].
    assert (allocate (MkAlloc [allocateBatch 0] 0 0 None page ∅) = Some ((1%nat, 0), after page 1)) as ->.
    { unfold allocate, after. cbn. by rewrite Z.mul_1_r. }
    cbn [mbind option_bind]. rewrite allocate_n_after by done. do 2 f_equal. lia.
  - unfold in_block, after. cbn [fst snd blocks lookup list_lookup size allocateBatch].
    rewrite Z.add_simpl_r, u32_id by (unfold is_u32, header in *; nia). apply andb_false_intro2. nia.
Qed.
End BatchAllocator.

(** Objects of 16 bytes, four to an allocation, 64 to a page: two allocated, the
    first released. *)
Definition demo_allocator : option BatchAllocator :=
  a ← BatchAllocator_new 16 4 64;
  '(p, a) ← allocate 16 4 a;
  '(_, a) ← allocate 16 4 a;
  release 16 4 a p.

Lemma batch_allocator_hands_out_own_memory_witness :
  exists a p a', demo_allocator = Some a /\ allocate 16 4 a = Some (p, a') /\
    p ∉ ({[(1%nat, 4)]} ∪ ({[(1%nat, 0)]} ∪ ∅)) ∖ ({[(1%nat, 0)]} : gset ptr).
Proof.
  eexists. destruct (batch_allocator_hands_out_own_memory 16 4 64) with
    (a := default (after 16 4 64 0) demo_allocator) (L := ({[(1%nat, 4)]} ∪ ({[(1%nat, 0)]} ∪ ∅)) ∖ ({[(1%nat, 0)]} : gset ptr))
    as [(p & a' & E & Hp & _) _]; try done; [by exists 16| |exists p, a'; split; [reflexivity|by split]].
  apply (session_release _ _ _ (after 16 4 64 2)); [|set_solver|reflexivity].
  apply (session_allocate _ _ _ (after 16 4 64 1)); [|reflexivity].
  eapply session_allocate; [by apply session_new|reflexivity].
Defined.

(** The array pages of eight values with the default page of 255. *)
Lemma page_overrun_witness :
  exists a0 a p a', BatchAllocator_new 16 8 255 = Some a0 /\ allocate_n 16 8 (Z.to_nat 255) a0 = Some a /\
    allocate 16 8 a = Some (p, a') /\ in_block 16 8 a' p = false.
Proof. apply page_overrun; try done. intros [x Hx]. lia. Defined.
