(* ===== verification/Double.v ===== *)
(** Binary64 numbers: what [common/jsoncpp.cpp] uses of [double] and of the C
    library's conversions.

    A number is a [spec_float] of precision 53 and largest exponent 1024.
    [printf] and [sscanf] round correctly, to nearest with ties to even. *)

From Stdlib Require Import SpecFloat.
From S2P Require Import Prelude Cstd.

Definition double : Type := spec_float.

#[export] Instance double_eq_dec : EqDecision double.
Proof. solve_decision. Defined.

(** ** Comparisons and conversions *)

Definition d_lt (a b : double) : bool := SFltb a b.
Definition d_le (a b : double) : bool := SFleb a b.
Definition d_eq (a b : double) : bool := SFeqb a b.

(** [static_cast<double>] and [static_cast<float>] of an integer. *)
Definition d_of_Z (z : Z) : double := binary_normalize 53 1024 z 0 false.
Definition f_of_Z (z : Z) : double := binary_normalize 24 128 z 0 false.

(** [static_cast<float>] of a [double]. *)
Definition f_of_d (d : double) : double :=
  match d with
  | S754_finite s m e => binary_round 24 128 s m e
  | _ => d
  end.

(** The integer part; a number without one has no conversion to an integer. *)
Definition d_trunc (d : double) : option Z :=
  match d with
  | S754_zero _ => Some 0
  | S754_finite s m e =>
      let a := if 0 <=? e then Z.pos m * 2 ^ e else Z.pos m / 2 ^ (- e) in
      Some (if s then - a else a)
  | _ => None
  end.

(** [modf(d, &integral_part) == 0.0] *)
Definition d_integral (d : double) : bool :=
  match d with
  | S754_zero _ | S754_infinity _ => true
  | S754_nan => false
  | S754_finite _ m e => (0 <=? e) || (Z.pos m mod 2 ^ (- e) =? 0)
  end.

Definition d_finite (d : double) : bool :=
  match d with S754_zero _ | S754_finite _ _ _ => true | _ => false end.

Definition d_neg (d : double) : bool :=
  match d with S754_zero s | S754_infinity s | S754_finite s _ _ => s | S754_nan => false end.

(** ** Reading: [sscanf(s, "%lf", &value)] *)

(** A decimal fraction, rounded: [mant] times ten to the [e10]. *)
Definition round_decimal (neg : bool) (mant e10 : Z) : double :=
  match mant with
  | Zpos m =>
      if 0 <=? e10 then binary_normalize 53 1024 (if neg then - (mant * 10 ^ e10) else mant * 10 ^ e10) 0 neg
      else
        let '(q, e, l) := SFdiv_core_binary 53 1024 mant 0 (10 ^ (- e10)) 0 in
        binary_round_aux 53 1024 neg q e l
  | _ => S754_zero neg
  end.

(** The longest run of digits. *)
Fixpoint span_digits (s : bytes) : bytes * bytes :=
  match s with
  | b :: s' => if isdigit b then let '(d, r) := span_digits s' in (b :: d, r) else ([], s)
  | [] => ([], [])
  end.

Definition digits_value (s : bytes) : Z := (read_digits 0 s).1.

(** The exponent after [e]: an optional sign and digits. *)
Definition scan_exponent (s : bytes) : option Z :=
  let '(neg, s) := read_sign s in
  match (span_digits s).1 with
  | [] => None
  | d => Some (if (neg : bool) then - digits_value d else digits_value d)
  end.

(** The conversion fails when the text is not the start of a number, also when
    an exponent has no digits.  Infinities, NaN and hexadecimal constants, which
    a JSON number cannot spell, are left out. *)
Definition sscanf_lf (s : bytes) : option double :=
  let '(neg, s) := read_sign (skip_space s) in
  let '(int, s) := span_digits s in
  let '(frac, s) :=
    match s with
    | c :: s' => if decide (c = "."%byte) then span_digits s' else ([], s)
    | [] => ([], [])
    end in
  match int ++ frac with
  | [] => None
  | digits =>
      let mant := digits_value digits in
      let scale := - Z.of_nat (length frac) in
      match s with
      | c :: s' =>
          if decide (c = "e"%byte \/ c = "E"%byte) then
            x ← scan_exponent s'; Some (round_decimal neg mant (x + scale))
          else Some (round_decimal neg mant scale)
      | [] => Some (round_decimal neg mant scale)
      end
  end.

(** ** Writing: [snprintf(buffer, size, "%.16g", value)] *)

(** Quotient rounded to nearest, ties to even. *)
Definition div_round (n d : Z) : Z :=
  let q := n / d in
  let r := n mod d in
  match Z.compare (2 * r) d with
  | Lt => q
  | Gt => q + 1
  | Eq => if Z.even q then q else q + 1
  end.

(** The least [j] from [k] on with [n * 10 ^ j >= d]. *)
Fixpoint scale_up (fuel : nat) (n d k : Z) : Z :=
  match fuel with
  | O => k
  | S fuel => if d <=? n then k else scale_up fuel (n * 10) d (k + 1)
  end.

(** [floor (log10 (n / d))] for positive [n] and [d]. *)
Definition log10_floor (n d : Z) : Z :=
  if d <=? n then Z.of_nat (length (udec (n / d))) - 1
  else - scale_up 400 n d 0.

(** Sixteen significant digits and the decimal exponent of the first. *)
Definition digits16 (n d : Z) : Z * Z :=
  let k := log10_floor n d in
  let m := if 0 <=? 15 - k then div_round (n * 10 ^ (15 - k)) d else div_round n (d * 10 ^ (k - 15)) in
  if m =? 10 ^ 16 then (10 ^ 15, k + 1) else (m, k).

(** Zeros at the end of the fraction are dropped. *)
Fixpoint drop_zeros (rev_digits : bytes) : bytes :=
  match rev_digits with
  | b :: s => if decide (b = "0"%byte) then drop_zeros s else rev_digits
  | [] => []
  end.
Definition trim_zeros (s : bytes) : bytes := rev (drop_zeros (rev s)).

Definition with_fraction (int frac : bytes) : bytes :=
  match trim_zeros frac with [] => int | f => int ++ lit "." ++ f end.

(** At least two digits of exponent. *)
Definition exponent_text (x : Z) : bytes :=
  (if x <? 0 then lit "-" else lit "+") ++
  (let d := udec (Z.abs x) in if (length d <? 2)%nat then "0"%byte :: d else d).

(** The digits of [m], sixteen of them, with the point after [k + 1] of them, or
    with an exponent when [k] is below -4 or above 15. *)
Definition format_g16 (m k : Z) : bytes :=
  let d := udec m in
  if (k <? -4) || (16 <=? k) then
    with_fraction (take 1 d) (drop 1 d) ++ lit "e" ++ exponent_text k
  else if k <? 0 then with_fraction (lit "0") (replicate (Z.to_nat (- k - 1)) "0"%byte ++ d)
  else with_fraction (take (Z.to_nat (k + 1)) d) (drop (Z.to_nat (k + 1)) d).

Definition printf_g16 (v : double) : bytes :=
  let body :=
    match v with
    | S754_finite _ m e =>
        let n := if 0 <=? e then Z.pos m * 2 ^ e else Z.pos m in
        let d := if 0 <=? e then 1 else 2 ^ (- e) in
        let '(m16, k) := digits16 n d in format_g16 m16 k
    | _ => lit "0"
    end in
  if d_neg v then lit "-" ++ body else body.
