(* ===== verification/JsonValue.v ===== *)
(** [common/json.h], [common/jsoncpp.cpp]: the class [Json::Value].

    A value is what it holds (the tag [type_] and the union [value_]), its
    comments and the range of the text it was read from.  An array and an object
    are the sorted [std::map] the code uses for both: an array may have holes.  A
    string is its characters up to the NUL that ends them, or a null pointer.
    [None] is an exception ([JSON_FAIL_MESSAGE]), a failed assertion or undefined
    behaviour. *)

From Stdlib Require Import SpecFloat.
From S2P Require Import Prelude Cstd Double.

(** ** Sorted maps *)

(** [std::map] as an association list in increasing order of the keys. *)
Section SortedMap.
Context {K V : Type} (lt : K -> K -> bool).

Fixpoint map_get (k : K) (l : list (K * V)) : option V :=
  match l with
  | [] => None
  | (k', v) :: l' => if lt k k' then None else if lt k' k then map_get k l' else Some v
  end.

Fixpoint map_put (k : K) (w : V) (l : list (K * V)) : list (K * V) :=
  match l with
  | [] => [(k, w)]
  | (k', v) :: l' =>
      if lt k k' then (k, w) :: l
      else if lt k' k then (k', v) :: map_put k w l'
      else (k', w) :: l'
  end.

Fixpoint map_del (k : K) (l : list (K * V)) : list (K * V) :=
  match l with
  | [] => []
  | (k', v) :: l' => if lt k k' then l else if lt k' k then (k', v) :: map_del k l' else l'
  end.

End SortedMap.

(** ** Data *)

Module VT.
(** [enum ValueType] *)
Inductive ValueType :=
| nullValue | intValue | uintValue | realValue | stringValue | booleanValue | arrayValue | objectValue.
End VT.

(** [enum CommentPlacement] *)
Inductive CommentPlacement := commentBefore | commentAfterOnSameLine | commentAfter.

Record Comments := MkComments { c_before : option bytes; c_same : option bytes; c_after : option bytes }.
Definition no_comments : Comments := MkComments None None None.

(** [type_] and [value_] *)
Inductive holder (A : Type) :=
| nullValue
| intValue (z : Z)
| uintValue (z : Z)
| realValue (d : double)
| stringValue (s : option bytes)
| booleanValue (b : bool)
| arrayValue (l : list (Z * A))
| objectValue (l : list (bytes * A)).
Arguments nullValue {A}.
Arguments intValue {A}.
Arguments uintValue {A}.
Arguments realValue {A}.
Arguments stringValue {A}.
Arguments booleanValue {A}.
Arguments arrayValue {A}.
Arguments objectValue {A}.

Inductive Value := MkJson (h : holder Value) (comments : Comments) (start limit : Z).

Definition value_ (v : Value) : holder Value := let 'MkJson h _ _ _ := v in h.
Definition comments_ (v : Value) : Comments := let 'MkJson _ c _ _ := v in c.
Definition start_ (v : Value) : Z := let 'MkJson _ _ s _ := v in s.
Definition limit_ (v : Value) : Z := let 'MkJson _ _ _ l := v in l.

(** ** Constants *)

Definition minInt : Z := - 2 ^ 31.
Definition maxInt : Z := 2 ^ 31 - 1.
Definition maxUInt : Z := 2 ^ 32 - 1.
Definition minInt64 : Z := - 2 ^ 63.
Definition maxInt64 : Z := 2 ^ 63 - 1.
Definition maxUInt64 : Z := 2 ^ 64 - 1.
Definition minLargestInt : Z := minInt64.
Definition maxLargestUInt : Z := maxUInt64.
Definition maxUInt64AsDouble : double := d_of_Z 18446744073709551615.
Definition unknown : Z := 2 ^ 32 - 1.

(** ** Constructors *)

(** At most [maxInt - 1] characters are copied. *)
Definition duplicateStringValue (value : bytes) (length : Z) : bytes :=
  let length := if length =? unknown then u32 (Z.of_nat (Datatypes.length (cstr value))) else length in
  let length := if maxInt <=? length then maxInt - 1 else length in
  if Z.of_nat (Datatypes.length value) <=? length then value else take (Z.to_nat length) value.

Definition fresh (h : holder Value) : Value := MkJson h no_comments 0 0.

(** [Value(ValueType)] *)
Definition Value_type (t : VT.ValueType) : Value :=
  fresh match t with
        | VT.nullValue => nullValue
        | VT.intValue => intValue 0
        | VT.uintValue => uintValue 0
        | VT.realValue => realValue (S754_zero false)
        | VT.stringValue => stringValue None
        | VT.booleanValue => booleanValue false
        | VT.arrayValue => arrayValue []
        | VT.objectValue => objectValue []
        end.

Definition null : Value := Value_type VT.nullValue.

(** [Value(Int)], [Value(Int64)]; [Value(UInt)], [Value(UInt64)]; [Value(double)] *)
Definition Value_int (z : Z) : Value := fresh (intValue z).
Definition Value_uint (z : Z) : Value := fresh (uintValue z).
Definition Value_int64 (z : Z) : Value := fresh (intValue z).
Definition Value_uint64 (z : Z) : Value := fresh (uintValue z).
Definition Value_double (d : double) : Value := fresh (realValue d).
Definition Value_cstr (s : bytes) : Value := fresh (stringValue (Some (cstr (duplicateStringValue s unknown)))).
Definition Value_range (s : bytes) : Value :=
  fresh (stringValue (Some (cstr (duplicateStringValue s (u32 (Z.of_nat (length s))))))).
Definition Value_string (s : bytes) : Value :=
  fresh (stringValue (Some (cstr (duplicateStringValue s (u32 (Z.of_nat (length s))))))).
Definition Value_static (s : bytes) : Value := fresh (stringValue (Some (cstr s))).
Definition Value_bool (b : bool) : Value := fresh (booleanValue b).

(** [operator=] copies and swaps everything but the comments. *)
Definition assign (this other : Value) : Value :=
  MkJson (value_ other) (comments_ this) (start_ other) (limit_ other).

(** [swap]: the two values, except for their comments. *)
Definition swap (a b : Value) : Value * Value :=
  (MkJson (value_ b) (comments_ a) (start_ b) (limit_ b),
   MkJson (value_ a) (comments_ b) (start_ a) (limit_ a)).

Definition type (v : Value) : VT.ValueType :=
  match value_ v with
  | nullValue => VT.nullValue
  | intValue _ => VT.intValue
  | uintValue _ => VT.uintValue
  | realValue _ => VT.realValue
  | stringValue _ => VT.stringValue
  | booleanValue _ => VT.booleanValue
  | arrayValue _ => VT.arrayValue
  | objectValue _ => VT.objectValue
  end.

(** The value of the enumerator. *)
Definition type_number (t : VT.ValueType) : Z :=
  match t with
  | VT.nullValue => 0 | VT.intValue => 1 | VT.uintValue => 2 | VT.realValue => 3
  | VT.stringValue => 4 | VT.booleanValue => 5 | VT.arrayValue => 6 | VT.objectValue => 7
  end.

(** ** Order and equality *)

(** [CZString::operator<] on array indices and on names. *)
Definition index_lt (a b : Z) : bool := a <? b.
Definition name_lt (a b : bytes) : bool := blt a b.

Definition string_lt (a b : option bytes) : bool :=
  match a, b with
  | None, Some _ => true
  | Some a, Some b => blt a b
  | _, None => false
  end.

(** [operator<] of [std::pair], in both directions. *)
Definition pair_lt_gt {K} (lt : K -> K -> bool) (k1 k2 : K) (c : bool * bool) : bool * bool :=
  (lt k1 k2 || (negb (lt k2 k1) && c.1), lt k2 k1 || (negb (lt k1 k2) && c.2)).

(** One turn of [std::lexicographical_compare], in both directions. *)
Definition lex_step (c rest : bool * bool) : bool * bool :=
  (if c.1 then true else if c.2 then false else rest.1,
   if c.2 then true else if c.1 then false else rest.2).

(** [a < b] and [b < a]: the comparison of maps asks for both. *)
Fixpoint lt_gt (a b : Value) {struct a} : bool * bool :=
  let ta := type_number (type a) in
  let tb := type_number (type b) in
  if negb (ta =? tb) then (ta <? tb, tb <? ta)
  else
    match a with
    | MkJson ha _ _ _ =>
        match ha, value_ b with
        | intValue x, intValue y => (x <? y, y <? x)
        | uintValue x, uintValue y => (x <? y, y <? x)
        | realValue x, realValue y => (d_lt x y, d_lt y x)
        | booleanValue x, booleanValue y => (negb x && y, negb y && x)
        | stringValue x, stringValue y => (string_lt x y, string_lt y x)
        | arrayValue l1, arrayValue l2 =>
            let delta := Z.of_nat (length l1) - Z.of_nat (length l2) in
            if negb (i32 delta =? 0) then (i32 delta <? 0, i32 (- delta) <? 0)
            else
              (fix go (l1 l2 : list (Z * Value)) : bool * bool :=
                 match l1, l2 with
                 | (k1, v1) :: l1, (k2, v2) :: l2 =>
                     lex_step (pair_lt_gt index_lt k1 k2 (lt_gt v1 v2)) (go l1 l2)
                 | [], _ :: _ => (true, false)
                 | _ :: _, [] => (false, true)
                 | [], [] => (false, false)
                 end) l1 l2
        | objectValue l1, objectValue l2 =>
            let delta := Z.of_nat (length l1) - Z.of_nat (length l2) in
            if negb (i32 delta =? 0) then (i32 delta <? 0, i32 (- delta) <? 0)
            else
              (fix go (l1 l2 : list (bytes * Value)) : bool * bool :=
                 match l1, l2 with
                 | (k1, v1) :: l1, (k2, v2) :: l2 =>
                     lex_step (pair_lt_gt name_lt k1 k2 (lt_gt v1 v2)) (go l1 l2)
                 | [], _ :: _ => (true, false)
                 | _ :: _, [] => (false, true)
                 | [], [] => (false, false)
                 end) l1 l2
        | _, _ => (false, false)
        end
    end.

(** [operator<] and the operators made from it. *)
Definition value_lt (a b : Value) : bool := (lt_gt a b).1.
Definition value_le (a b : Value) : bool := negb (value_lt b a).
Definition value_ge (a b : Value) : bool := negb (value_lt a b).
Definition value_gt (a b : Value) : bool := value_lt b a.

Definition compare (a b : Value) : Z := if value_lt a b then -1 else if value_gt a b then 1 else 0.

(** [operator==] *)
Fixpoint value_eq (a b : Value) {struct a} : bool :=
  match a with
  | MkJson ha _ _ _ =>
      match ha, value_ b with
      | nullValue, nullValue => true
      | intValue x, intValue y => x =? y
      | uintValue x, uintValue y => x =? y
      | realValue x, realValue y => d_eq x y
      | booleanValue x, booleanValue y => Bool.eqb x y
      | stringValue x, stringValue y => bool_decide (x = y)
      | arrayValue l1, arrayValue l2 =>
          (length l1 =? length l2)%nat &&
          (fix go (l1 l2 : list (Z * Value)) : bool :=
             match l1, l2 with
             | (k1, v1) :: l1, (k2, v2) :: l2 => (k1 =? k2) && value_eq v1 v2 && go l1 l2
             | _, _ => true
             end) l1 l2
      | objectValue l1, objectValue l2 =>
          (length l1 =? length l2)%nat &&
          (fix go (l1 l2 : list (bytes * Value)) : bool :=
             match l1, l2 with
             | (k1, v1) :: l1, (k2, v2) :: l2 => bool_decide (k1 = k2) && value_eq v1 v2 && go l1 l2
             | _, _ => true
             end) l1 l2
      | _, _ => false
      end
  end.
Definition value_ne (a b : Value) : bool := negb (value_eq a b).

(** ** Text of scalars *)

(** [uintToString] into the 25 bytes of a [UIntToStringBuffer], one of them the
    NUL; [None] is an overrun. *)
Definition uintToString (value : Z) : option bytes := dec_loop 24 value [].

(** [valueToString(LargestInt)]; the negation wraps for the least integer. *)
Definition valueToString_int (value : Z) : option bytes :=
  let isNegative := value <? 0 in
  let value := if isNegative then i64 (- value) else value in
  current ← uintToString (u64 value);
  let current := if isNegative then "-"%byte :: current else current in
  if (24 <? length current)%nat then None else Some current.

Definition valueToString_uint (value : Z) : option bytes := uintToString value.

(** [valueToString(Int)], [valueToString(UInt)] *)
Definition valueToString_Int (value : Z) : option bytes := valueToString_int value.
Definition valueToString_UInt (value : Z) : option bytes := valueToString_uint value.

(** [fixNumericLocale] *)
Definition fixNumericLocale (s : bytes) : bytes :=
  (fun c => if decide (c = ","%byte) then "."%byte else c) <$> s.

Definition valueToString_double (value : double) : bytes :=
  if d_finite value then fixNumericLocale (printf_g16 value)
  else if negb (d_eq value value) then lit "null"
  else if d_lt value (S754_zero false) then lit "-1e+9999"
  else lit "1e+9999".

Definition valueToString_bool (b : bool) : bytes := if b then lit "true" else lit "false".

(** ** Tests of the type *)

Definition isNull (v : Value) : bool := match value_ v with nullValue => true | _ => false end.
Definition operator_not (v : Value) : bool := isNull v.
Definition isBool (v : Value) : bool := match value_ v with booleanValue _ => true | _ => false end.
Definition isString (v : Value) : bool := match value_ v with stringValue _ => true | _ => false end.
Definition isArray (v : Value) : bool := match value_ v with arrayValue _ => true | _ => false end.
Definition isObject (v : Value) : bool := match value_ v with objectValue _ => true | _ => false end.

Definition IsIntegral (d : double) : bool := d_integral d.

(** [InRange(d, min, max)], the bounds converted to [double]. *)
Definition InRange (d : double) (min max : Z) : bool := d_le (d_of_Z min) d && d_le d (d_of_Z max).

Definition isInt (v : Value) : bool :=
  match value_ v with
  | intValue z => (minInt <=? z) && (z <=? maxInt)
  | uintValue z => z <=? maxInt
  | realValue d => InRange d minInt maxInt && IsIntegral d
  | _ => false
  end.

Definition isUInt (v : Value) : bool :=
  match value_ v with
  | intValue z => (0 <=? z) && (u64 z <=? maxUInt)
  | uintValue z => z <=? maxUInt
  | realValue d => InRange d 0 maxUInt && IsIntegral d
  | _ => false
  end.

Definition isInt64 (v : Value) : bool :=
  match value_ v with
  | intValue _ => true
  | uintValue z => z <=? maxInt64
  | realValue d => d_le (d_of_Z minInt64) d && d_lt d (d_of_Z maxInt64) && IsIntegral d
  | _ => false
  end.

Definition isUInt64 (v : Value) : bool :=
  match value_ v with
  | intValue z => 0 <=? z
  | uintValue _ => true
  | realValue d => d_le (d_of_Z 0) d && d_lt d maxUInt64AsDouble && IsIntegral d
  | _ => false
  end.

Definition isIntegral (v : Value) : bool := isInt64 v || isUInt64 v.
Definition isDouble (v : Value) : bool :=
  match value_ v with realValue _ => true | _ => isIntegral v end.
Definition isNumeric (v : Value) : bool := isIntegral v || isDouble v.

(** ** Conversions *)

(** A conversion to an integer of a [double] outside the range of the type is
    undefined. *)
Definition d_cast (min max : Z) (d : double) : option Z :=
  z ← d_trunc d; if (min <=? z) && (z <=? max) then Some z else None.

Definition asCString (v : Value) : option (option bytes) :=
  match value_ v with stringValue s => Some s | _ => None end.

Definition asString (v : Value) : option bytes :=
  match value_ v with
  | nullValue => Some []
  | stringValue s => Some (default [] s)
  | booleanValue b => Some (valueToString_bool b)
  | intValue z => valueToString_int z
  | uintValue z => valueToString_uint z
  | realValue d => Some (valueToString_double d)
  | _ => None
  end.

Definition asInt (v : Value) : option Z :=
  match value_ v with
  | intValue z => if isInt v then Some (i32 z) else None
  | uintValue z => if isInt v then Some (i32 z) else None
  | realValue d => if InRange d minInt maxInt then d_cast minInt maxInt d else None
  | nullValue => Some 0
  | booleanValue b => Some (if b then 1 else 0)
  | _ => None
  end.

Definition asUInt (v : Value) : option Z :=
  match value_ v with
  | intValue z => if isUInt v then Some (u32 z) else None
  | uintValue z => if isUInt v then Some (u32 z) else None
  | realValue d => if InRange d 0 maxUInt then d_cast 0 maxUInt d else None
  | nullValue => Some 0
  | booleanValue b => Some (if b then 1 else 0)
  | _ => None
  end.

Definition asInt64 (v : Value) : option Z :=
  match value_ v with
  | intValue z => Some z
  | uintValue z => if isInt64 v then Some (i64 z) else None
  | realValue d => if InRange d minInt64 maxInt64 then d_cast minInt64 maxInt64 d else None
  | nullValue => Some 0
  | booleanValue b => Some (if b then 1 else 0)
  | _ => None
  end.

Definition asUInt64 (v : Value) : option Z :=
  match value_ v with
  | intValue z => if isUInt64 v then Some (u64 z) else None
  | uintValue z => Some z
  | realValue d => if InRange d 0 maxUInt64 then d_cast 0 maxUInt64 d else None
  | nullValue => Some 0
  | booleanValue b => Some (if b then 1 else 0)
  | _ => None
  end.

Definition asLargestInt (v : Value) : option Z := asInt64 v.
Definition asLargestUInt (v : Value) : option Z := asUInt64 v.

Definition asDouble (v : Value) : option double :=
  match value_ v with
  | intValue z => Some (d_of_Z z)
  | uintValue z => Some (d_of_Z z)
  | realValue d => Some d
  | nullValue => Some (S754_zero false)
  | booleanValue b => Some (d_of_Z (if b then 1 else 0))
  | _ => None
  end.

Definition asFloat (v : Value) : option double :=
  match value_ v with
  | intValue z => Some (f_of_Z z)
  | uintValue z => Some (f_of_Z z)
  | realValue d => Some (f_of_d d)
  | nullValue => Some (S754_zero false)
  | booleanValue b => Some (f_of_Z (if b then 1 else 0))
  | _ => None
  end.

Definition asBool (v : Value) : option bool :=
  match value_ v with
  | booleanValue b => Some b
  | nullValue => Some false
  | intValue z => Some (negb (z =? 0))
  | uintValue z => Some (negb (z =? 0))
  | realValue d => Some (negb (d_eq d (S754_zero false)))
  | _ => None
  end.

Definition isConvertibleTo (v : Value) (other : VT.ValueType) : bool :=
  let has t := type_number (type v) =? type_number t in
  match other with
  | VT.nullValue =>
      (isNumeric v && bool_decide (asDouble v ≫= (fun d => Some (d_eq d (S754_zero false))) = Some true)) ||
      match value_ v with
      | booleanValue b => negb b
      | stringValue s => bool_decide (default [] s = [])
      | arrayValue l => (length l =? 0)%nat
      | objectValue l => (length l =? 0)%nat
      | nullValue => true
      | _ => false
      end
  | VT.intValue =>
      isInt v || match value_ v with realValue d => InRange d minInt maxInt | _ => false end ||
      has VT.booleanValue || has VT.nullValue
  | VT.uintValue =>
      isUInt v || match value_ v with realValue d => InRange d 0 maxUInt | _ => false end ||
      has VT.booleanValue || has VT.nullValue
  | VT.realValue => isNumeric v || has VT.booleanValue || has VT.nullValue
  | VT.booleanValue => isNumeric v || has VT.booleanValue || has VT.nullValue
  | VT.stringValue => isNumeric v || has VT.booleanValue || has VT.stringValue || has VT.nullValue
  | VT.arrayValue => has VT.arrayValue || has VT.nullValue
  | VT.objectValue => has VT.objectValue || has VT.nullValue
  end.

(** ** Containers *)

(** The size of an array is its highest index plus one. *)
Definition size (v : Value) : Z :=
  match value_ v with
  | arrayValue l => match last l with Some (i, _) => u32 (i + 1) | None => 0 end
  | objectValue l => u32 (Z.of_nat (length l))
  | _ => 0
  end.

Definition empty (v : Value) : bool :=
  if isNull v || isArray v || isObject v then size v =? 0 else false.

Definition set_holder (v : Value) (h : holder Value) : Value := MkJson h (comments_ v) (start_ v) (limit_ v).

Definition clear (v : Value) : option Value :=
  match value_ v with
  | nullValue => Some (MkJson nullValue (comments_ v) 0 0)
  | arrayValue _ => Some (MkJson (arrayValue []) (comments_ v) 0 0)
  | objectValue _ => Some (MkJson (objectValue []) (comments_ v) 0 0)
  | _ => None
  end.

(** A null value becomes an empty container first. *)
Definition promoted (v : Value) (t : VT.ValueType) : Value := if isNull v then assign v (Value_type t) else v.

(** [operator[](ArrayIndex)]: the array in which the element exists. *)
Definition at_index (v : Value) (index : Z) : option Value :=
  let v := promoted v VT.arrayValue in
  match value_ v with
  | arrayValue l =>
      match map_get index_lt index l with
      | Some _ => Some v
      | None => Some (set_holder v (arrayValue (map_put index_lt index null l)))
      end
  | _ => None
  end.

(** [operator[](int)] *)
Definition at_int (v : Value) (index : Z) : option Value :=
  if 0 <=? index then at_index v index else None.

(** [operator[](const char * )], [resolveReference]: the object in which the
    member exists. *)
Definition resolveReference (v : Value) (key : bytes) : option Value :=
  let v := promoted v VT.objectValue in
  match value_ v with
  | objectValue l =>
      match map_get name_lt (cstr key) l with
      | Some _ => Some v
      | None => Some (set_holder v (objectValue (map_put name_lt (cstr key) null l)))
      end
  | _ => None
  end.

(** The [const] lookups; [Some None] is the reference to [Value::null]. *)
Definition get_index (v : Value) (index : Z) : option (option Value) :=
  match value_ v with
  | nullValue => Some None
  | arrayValue l => Some (map_get index_lt index l)
  | _ => None
  end.

Definition get_int (v : Value) (index : Z) : option (option Value) :=
  if 0 <=? index then get_index v index else None.

Definition get_name (v : Value) (key : bytes) : option (option Value) :=
  match value_ v with
  | nullValue => Some None
  | objectValue l => Some (map_get name_lt (cstr key) l)
  | _ => None
  end.

(** [get(index, defaultValue)], [get(key, defaultValue)] *)
Definition get_index_default (v : Value) (index : Z) (defaultValue : Value) : option Value :=
  r ← get_index v index; Some (default defaultValue r).
Definition get_name_default (v : Value) (key : bytes) (defaultValue : Value) : option Value :=
  r ← get_name v key; Some (default defaultValue r).

Definition isValidIndex (v : Value) (index : Z) : bool := index <? size v.

Definition isMember (v : Value) (key : bytes) : option bool :=
  r ← get_name v key; Some (match r with Some _ => true | None => false end).

(** The overloads for [std::string] and [StaticString]. *)
Definition get_name_string (v : Value) (key : bytes) : option (option Value) := get_name v (cstr key).
Definition isMember_string (v : Value) (key : bytes) : option bool := isMember v (cstr key).

Definition getMemberNames (v : Value) : option (list bytes) :=
  match value_ v with
  | nullValue => Some []
  | objectValue l => Some l.*1
  | _ => None
  end.

Definition removeMember (v : Value) (key : bytes) : option (Value * Value) :=
  match value_ v with
  | nullValue => Some (null, v)
  | objectValue l =>
      match map_get name_lt (cstr key) l with
      | None => Some (null, v)
      | Some old => Some (old, set_holder v (objectValue (map_del name_lt (cstr key) l)))
      end
  | _ => None
  end.

Definition removeMember_string (v : Value) (key : bytes) : option (Value * Value) := removeMember v (cstr key).

(** An assignment through the reference to an element or a member. *)
Definition put_index (v : Value) (index : Z) (w : Value) : option Value :=
  v ← at_index v index;
  match value_ v with
  | arrayValue l =>
      old ← map_get index_lt index l;
      Some (set_holder v (arrayValue (map_put index_lt index (assign old w) l)))
  | _ => None
  end.

Definition put_name (v : Value) (key : bytes) (w : Value) : option Value :=
  v ← resolveReference v key;
  match value_ v with
  | objectValue l =>
      old ← map_get name_lt (cstr key) l;
      Some (set_holder v (objectValue (map_put name_lt (cstr key) (assign old w) l)))
  | _ => None
  end.

Definition append (v w : Value) : option Value := put_index v (size v) w.

(** [for (index = newSize; index < oldSize; ++index) erase(index)] *)
Fixpoint erase_loop (fuel : nat) (index oldSize : Z) (l : list (Z * Value)) : list (Z * Value) :=
  match fuel with
  | O => l
  | S fuel => if index <? oldSize then erase_loop fuel (index + 1) oldSize (map_del index_lt index l) else l
  end.

(** The assertion on the new size fails when the last element kept is a hole. *)
Definition resize (v : Value) (newSize : Z) : option Value :=
  match value_ v with
  | nullValue | arrayValue _ =>
      let v := promoted v VT.arrayValue in
      let oldSize := size v in
      if newSize =? 0 then clear v
      else if oldSize <? newSize then at_index v (newSize - 1)
      else
        match value_ v with
        | arrayValue l =>
            let v := set_holder v (arrayValue (erase_loop (Z.to_nat (oldSize - newSize)) newSize oldSize l)) in
            if size v =? newSize then Some v else None
        | _ => None
        end
  | _ => None
  end.

(** ** Comments and offsets *)

Definition comment_at (c : Comments) (p : CommentPlacement) : option bytes :=
  match p with commentBefore => c_before c | commentAfterOnSameLine => c_same c | commentAfter => c_after c end.

(** [CommentInfo::setComment]: a comment starts with a slash or is empty. *)
Definition valid_comment (text : bytes) : bool :=
  match cstr text with [] => true | b :: _ => bool_decide (b = "/"%byte) end.

Definition setComment (v : Value) (comment : bytes) (p : CommentPlacement) : option Value :=
  if valid_comment comment then
    let t := Some (cstr (duplicateStringValue (cstr comment) unknown)) in
    let c := comments_ v in
    Some (MkJson (value_ v)
      match p with
      | commentBefore => MkComments t (c_same c) (c_after c)
      | commentAfterOnSameLine => MkComments (c_before c) t (c_after c)
      | commentAfter => MkComments (c_before c) (c_same c) t
      end (start_ v) (limit_ v))
  else None.

Definition hasComment (v : Value) (p : CommentPlacement) : bool :=
  match comment_at (comments_ v) p with Some _ => true | None => false end.

Definition getComment (v : Value) (p : CommentPlacement) : bytes := default [] (comment_at (comments_ v) p).

Definition setOffsetStart (v : Value) (start : Z) : Value := MkJson (value_ v) (comments_ v) start (limit_ v).
Definition setOffsetLimit (v : Value) (limit : Z) : Value := MkJson (value_ v) (comments_ v) (start_ v) limit.
Definition getOffsetStart (v : Value) : Z := start_ v.
Definition getOffsetLimit (v : Value) : Z := limit_ v.
