(* ===== verification/JsonValueSpec.v ===== *)
(** Properties of [Json::Value]: the sorted maps, the invariant of a value, its
    content apart from comments and offsets, objects and arrays as maps, and the
    order of values. *)

From Stdlib Require Import SpecFloat Sorted.
From S2P Require Import Prelude Cstd Double JsonValue.

(** ** Sorted maps *)

Class KeyOrder {K : Type} (lt : K -> K -> bool) := {
  key_irrefl k : lt k k = false;
  key_trans a b c : lt a b = true -> lt b c = true -> lt a c = true;
  key_total a b : lt a b = false -> lt b a = false -> a = b
}.

#[export] Instance index_order : KeyOrder index_lt.
Proof. unfold index_lt. split; intros; lia. Qed.

#[export] Instance name_order : KeyOrder name_lt.
Proof. split; [apply blt_irrefl|apply blt_trans|apply blt_total]. Qed.

Definition keys_sorted {K V} (lt : K -> K -> bool) (l : list (K * V)) : Prop :=
  StronglySorted (fun a b => lt a b = true) l.*1.

Section SortedMapFacts.
Context {K V : Type} (lt : K -> K -> bool) `{!KeyOrder lt}.
Implicit Types (l : list (K * V)) (k : K) (w : V).

Lemma key_asym a b : lt a b = true -> lt b a = false.
Proof.
  intros H. destruct (lt b a) eqn:E; [|done]. pose proof (key_trans _ _ _ H E) as Hc.
  by rewrite key_irrefl in Hc.
Qed.

Lemma map_get_put k w l : map_get lt k (map_put lt k w l) = Some w.
Proof.
  induction l as [|[k' v] l IH]; cbn [map_put map_get]; [by rewrite key_irrefl|].
  destruct (lt k k') eqn:E1; [cbn [map_get]; by rewrite key_irrefl|].
  destruct (lt k' k) eqn:E2; cbn [map_get]; by rewrite E1, E2.
Qed.

Lemma map_put_put k w w' l : map_put lt k w' (map_put lt k w l) = map_put lt k w' l.
Proof.
  induction l as [|[k' v] l IH]; cbn [map_put]; [by rewrite key_irrefl|].
  destruct (lt k k') eqn:E1; [cbn [map_put]; by rewrite key_irrefl|].
  destruct (lt k' k) eqn:E2; cbn [map_put]; rewrite E1, E2; [by f_equal|done].
Qed.

Lemma map_get_put_other k k0 w l :
  k0 <> k -> map_get lt k0 (map_put lt k w l) = map_get lt k0 l.
Proof.
  intros Hne. induction l as [|[k' v] l IH]; cbn [map_put map_get].
  - destruct (lt k0 k) eqn:E1; [done|]. destruct (lt k k0) eqn:E2; [done|]. by rewrite (key_total _ _ E1 E2) in Hne.
  - destruct (lt k k') eqn:E1; [|destruct (lt k' k) eqn:E2]; cbn [map_get].
    + destruct (lt k0 k) eqn:E3.
      * by rewrite (key_trans _ _ _ E3 E1).
      * destruct (lt k k0) eqn:E4; [done|]. by rewrite (key_total _ _ E3 E4) in Hne.
    + by rewrite IH.
    + rewrite <- (key_total _ _ E1 E2). destruct (lt k0 k) eqn:E3; [done|]. destruct (lt k k0) eqn:E4; [done|].
      by rewrite (key_total _ _ E3 E4) in Hne.
Qed.

Lemma map_put_keys k w l : forall k', k' ∈ (map_put lt k w l).*1 -> k' = k \/ k' ∈ l.*1.
Proof.
  induction l as [|[k1 v] l IH]; intros k'; cbn [map_put fmap list_fmap fst]; [set_solver|].
  destruct (lt k k1); [set_solver|]. destruct (lt k1 k); cbn [fmap list_fmap fst]; set_solver.
Qed.

Lemma map_put_sorted k w l : keys_sorted lt l -> keys_sorted lt (map_put lt k w l).
Proof.
  unfold keys_sorted. induction l as [|[k' v] l IH]; cbn [map_put fmap list_fmap fst]; intros H.
  { repeat constructor. }
  inversion H as [|?? Hs Hf]; subst.
  destruct (lt k k') eqn:E1; [|destruct (lt k' k) eqn:E2]; cbn [fmap list_fmap fst].
  - constructor; [done|]. constructor; [done|]. eapply Forall_impl; [done|]. intros x Hx. by eapply key_trans.
  - constructor; [by apply IH|]. apply Forall_forall. intros x [->|Hx]%map_put_keys; [done|].
    exact (proj1 (Forall_forall _ _) Hf x Hx).
  - by constructor.
Qed.

Lemma map_del_sorted k l : keys_sorted lt l -> keys_sorted lt (map_del lt k l).
Proof.
  unfold keys_sorted. induction l as [|[k' v] l IH]; cbn [map_del fmap list_fmap fst]; intros H; [done|].
  inversion H as [|?? Hs Hf]; subst. destruct (lt k k'); [done|]. destruct (lt k' k); [|done].
  cbn [fmap list_fmap fst]. constructor; [by apply IH|]. apply Forall_forall. intros x Hx.
  assert (x ∈ l.*1) as Hx'; [|exact (proj1 (Forall_forall _ _) Hf x Hx')].
  clear -Hx. induction l as [|[k2 v2] l IH]; cbn [map_del] in Hx; [done|].
  destruct (lt k k2); [done|]. destruct (lt k2 k); cbn [fmap list_fmap fst] in *; set_solver.
Qed.

Lemma map_get_sorted_None k l :
  Forall (fun k' => lt k k' = true) l.*1 -> map_get lt k l = None.
Proof. destruct l as [|[k' v] l]; [done|]. cbn. intros H. inversion H as [|?? E _]; subst. by rewrite E. Qed.

Lemma map_get_del k l : keys_sorted lt l -> map_get lt k (map_del lt k l) = None.
Proof.
  unfold keys_sorted. induction l as [|[k' v] l IH]; cbn [map_del fmap list_fmap fst]; intros H; [done|].
  inversion H as [|?? Hs Hf]; subst. destruct (lt k k') eqn:E1; [cbn [map_get]; by rewrite E1|].
  destruct (lt k' k) eqn:E2; [cbn [map_get]; rewrite E1, E2; by apply IH|].
  apply map_get_sorted_None. by rewrite (key_total _ _ E1 E2).
Qed.

Lemma map_get_del_other k k0 l :
  keys_sorted lt l -> k0 <> k -> map_get lt k0 (map_del lt k l) = map_get lt k0 l.
Proof.
  unfold keys_sorted. intros H Hne. induction l as [|[k' v] l IH]; cbn [map_del fmap list_fmap fst] in *; [done|].
  inversion H as [|?? Hs Hf]; subst. destruct (lt k k') eqn:E1; [done|].
  destruct (lt k' k) eqn:E2; cbn [map_get]; [by rewrite IH|].
  rewrite <- (key_total _ _ E1 E2) in *. destruct (lt k0 k) eqn:E3.
  - apply map_get_sorted_None. eapply Forall_impl; [exact Hf|]. intros x Hx. by eapply key_trans.
  - destruct (lt k k0) eqn:E4; [done|]. by rewrite (key_total _ _ E3 E4) in Hne.
Qed.

Lemma map_get_elem k w l : map_get lt k l = Some w -> exists k', (k', w) ∈ l.
Proof.
  induction l as [|[k' v] l IH]; cbn [map_get]; [done|]. destruct (lt k k'); [done|]. destruct (lt k' k).
  - intros H. destruct (IH H) as [k2 Hk]. exists k2. by right.
  - intros [= ->]. exists k'. left.
Qed.

Lemma map_put_Forall (P : V -> Prop) k w l :
  P w -> Forall (fun x => P x.2) l -> Forall (fun x => P x.2) (map_put lt k w l).
Proof.
  intros Hw. induction l as [|[k' v] l IH]; cbn [map_put]; intros H; [by repeat constructor|].
  inversion H; subst. destruct (lt k k'); [by repeat constructor|]. destruct (lt k' k); constructor; auto.
Qed.

Lemma map_del_Forall (P : K * V -> Prop) k l : Forall P l -> Forall P (map_del lt k l).
Proof.
  induction 1 as [|[k' v] l H Hl IH]; cbn [map_del]; [constructor|]. destruct (lt k k'); [by constructor|].
  destruct (lt k' k); [by constructor|done].
Qed.

(** Updates of the values commute with the map operations. *)
Lemma map_get_fmap {W} (f : V -> W) k l : map_get lt k ((fun x => (x.1, f x.2)) <$> l) = f <$> map_get lt k l.
Proof.
  induction l as [|[k' v] l IH]; cbn [fmap list_fmap map_get fst snd]; [done|].
  destruct (lt k k'); [done|]. by destruct (lt k' k).
Qed.

Lemma map_put_fmap {W} (f : V -> W) k w l :
  map_put lt k (f w) ((fun x => (x.1, f x.2)) <$> l) = (fun x => (x.1, f x.2)) <$> map_put lt k w l.
Proof.
  induction l as [|[k' v] l IH]; cbn [fmap list_fmap map_put fst snd]; [done|].
  destruct (lt k k'); [done|]. destruct (lt k' k); cbn [fmap list_fmap fst snd]; [by f_equal|done].
Qed.

End SortedMapFacts.

(** A put at a key above all others appends. *)
Lemma map_put_last {K V} (lt : K -> K -> bool) `{!KeyOrder lt} k (w : V) l :
  Forall (fun k' => lt k' k = true) l.*1 -> map_put lt k w l = l ++ [(k, w)].
Proof.
  induction l as [|[k' v] l IH]; cbn [map_put fmap list_fmap fst app]; intros H; [done|].
  inversion H as [|?? E Hl]; subst. rewrite (key_asym lt _ _ E), E. by rewrite IH.
Qed.

(** ** Induction and the invariant *)

Definition children {A} (h : holder A) : list A :=
  match h with arrayValue l => l.*2 | objectValue l => l.*2 | _ => [] end.

Lemma Value_induction (P : Value -> Prop) :
  (forall h c s l, Forall P (children h) -> P (MkJson h c s l)) -> forall v, P v.
Proof.
  intros IH. fix F 1. intros [h c s l]. apply IH. destruct h as [| | | | | |a|o]; cbn [children]; try constructor.
  - induction a as [|[i w] a IHa]; cbn [fmap list_fmap snd]; constructor; [apply F|exact IHa].
  - induction o as [|[k w] o IHo]; cbn [fmap list_fmap snd]; constructor; [apply F|exact IHo].
Qed.

(** What a holder satisfies by itself. *)
Definition holder_ok {A} (h : holder A) : Prop :=
  match h with
  | intValue z => is_i64 z
  | uintValue z => is_u64 z
  | stringValue (Some s) => Forall (fun b => b <> x00) s
  | arrayValue l => keys_sorted index_lt l /\ Forall is_u32 l.*1
  | objectValue l => keys_sorted name_lt l /\ Forall (Forall (fun b => b <> x00)) l.*1
  | _ => True
  end.

(** Integers of 64 bits, strings without NUL, maps in order, all the way down. *)
Fixpoint wf (v : Value) : Prop :=
  match v with
  | MkJson h _ _ _ =>
      holder_ok h /\
      match h with
      | arrayValue l =>
          (fix go (l : list (Z * Value)) : Prop := match l with [] => True | (_, w) :: l => wf w /\ go l end) l
      | objectValue l =>
          (fix go (l : list (bytes * Value)) : Prop := match l with [] => True | (_, w) :: l => wf w /\ go l end) l
      | _ => True
      end
  end.

Lemma wf_alt v : wf v <-> holder_ok (value_ v) /\ Forall wf (children (value_ v)).
Proof.
  destruct v as [h c s l]. cbn [wf value_]. apply and_iff_compat_l.
  destruct h as [| | | | | |a|o]; cbn [children]; try (split; [constructor|done]).
  - induction a as [|[i w] a IH]; cbn [fmap list_fmap snd]; [split; [constructor|done]|].
    rewrite Forall_cons, IH. done.
  - induction o as [|[k w] o IH]; cbn [fmap list_fmap snd]; [split; [constructor|done]|].
    rewrite Forall_cons, IH. done.
Qed.

Lemma wf_holder v w : value_ v = value_ w -> wf v -> wf w.
Proof. rewrite !wf_alt. by intros ->. Qed.

Lemma wf_fresh h : wf (fresh h) <-> holder_ok h /\ Forall wf (children h).
Proof. apply wf_alt. Qed.

Lemma wf_null : wf null.
Proof. by rewrite wf_alt. Qed.

Lemma wf_type t : wf (Value_type t).
Proof. rewrite wf_alt. destruct t; cbn; repeat split; try constructor; lia. Qed.

Lemma wf_string s : wf (Value_string s).
Proof. rewrite wf_alt. cbn. split; [apply cstr_no_nul|constructor]. Qed.

Lemma Forall_snd {K} (P : Value -> Prop) (l : list (K * Value)) : Forall P l.*2 <-> Forall (fun x => P x.2) l.
Proof. by rewrite Forall_fmap. Qed.

Lemma wf_array_put v i w l :
  wf v -> value_ v = arrayValue l -> wf w -> is_u32 i ->
  wf (set_holder v (arrayValue (map_put index_lt i w l))).
Proof.
  rewrite (wf_alt v), (wf_alt (set_holder _ _)). intros [Hh Hc] E Hw Hi. rewrite E in *. destruct Hh as [Hs Hr]. cbn [value_ set_holder children] in *.
  split; [split|].
  - apply map_put_sorted; [apply _|done].
  - apply Forall_forall. intros x Hx. destruct (map_put_keys _ _ _ _ _ Hx) as [->|Hx']; [done|].
    exact (proj1 (Forall_forall _ _) Hr x Hx').
  - apply Forall_snd, map_put_Forall; [done|]. by apply Forall_snd.
Qed.

Lemma wf_object_put v k w l :
  wf v -> value_ v = objectValue l -> wf w -> Forall (fun b => b <> x00) k ->
  wf (set_holder v (objectValue (map_put name_lt k w l))).
Proof.
  rewrite (wf_alt v), (wf_alt (set_holder _ _)). intros [Hh Hc] E Hw Hi. rewrite E in *. destruct Hh as [Hs Hr]. cbn [value_ set_holder children] in *.
  split; [split|].
  - apply map_put_sorted; [apply _|done].
  - apply Forall_forall. intros x Hx. destruct (map_put_keys _ _ _ _ _ Hx) as [->|Hx']; [done|].
    exact (proj1 (Forall_forall _ _) Hr x Hx').
  - apply Forall_snd, map_put_Forall; [done|]. by apply Forall_snd.
Qed.

Lemma wf_child_index v i w l : wf v -> value_ v = arrayValue l -> map_get index_lt i l = Some w -> wf w.
Proof.
  rewrite (wf_alt v). intros [_ Hc] E Hg. rewrite E in Hc. apply map_get_elem in Hg as [k Hk].
  apply (proj1 (Forall_forall _ _) Hc). apply list_elem_of_fmap. by exists (k, w).
Qed.

Lemma wf_child_name v k w l : wf v -> value_ v = objectValue l -> map_get name_lt k l = Some w -> wf w.
Proof.
  rewrite (wf_alt v). intros [_ Hc] E Hg. rewrite E in Hc. apply map_get_elem in Hg as [k' Hk].
  apply (proj1 (Forall_forall _ _) Hc). apply list_elem_of_fmap. by exists (k', w).
Qed.

Lemma wf_assign v w : wf w -> wf (assign v w).
Proof. by apply wf_holder. Qed.

Lemma wf_promoted v t : wf v -> wf (promoted v t).
Proof. intros H. unfold promoted. destruct (isNull v); [apply wf_assign, wf_type|done]. Qed.

Lemma at_index_wf v i v' : wf v -> is_u32 i -> at_index v i = Some v' -> wf v'.
Proof.
  intros Hv Hi. apply (wf_promoted v VT.arrayValue) in Hv. unfold at_index. set (p := promoted v VT.arrayValue) in *.
  destruct (value_ p) as [| | | | | |l|] eqn:E; try done.
  destruct (map_get index_lt i l); intros [= <-]; [done|]. apply wf_array_put; [done|done|apply wf_null|done].
Qed.

Lemma resolveReference_wf v k v' : wf v -> resolveReference v k = Some v' -> wf v'.
Proof.
  intros Hv. apply (wf_promoted v VT.objectValue) in Hv. unfold resolveReference. set (p := promoted v VT.objectValue) in *.
  destruct (value_ p) as [| | | | | | |l] eqn:E; try done.
  destruct (map_get name_lt (cstr k) l); intros [= <-]; [done|].
  apply wf_object_put; [done|done|apply wf_null|apply cstr_no_nul].
Qed.

(** ** Content without comments and offsets *)

Fixpoint strip (v : Value) : Value :=
  match v with
  | MkJson h _ _ _ =>
      fresh match h with
            | arrayValue l => arrayValue ((fun x => (x.1, strip x.2)) <$> l)
            | objectValue l => objectValue ((fun x => (x.1, strip x.2)) <$> l)
            | nullValue => nullValue
            | intValue z => intValue z
            | uintValue z => uintValue z
            | realValue d => realValue d
            | stringValue s => stringValue s
            | booleanValue b => booleanValue b
            end
  end.

Definition strip_holder (h : holder Value) : holder Value := value_ (strip (fresh h)).

Lemma strip_alt v : strip v = fresh (strip_holder (value_ v)).
Proof. by destruct v as [[] c s l]. Qed.

Lemma strip_same v w : value_ v = value_ w -> strip v = strip w.
Proof. rewrite !strip_alt. by intros ->. Qed.

Lemma strip_strip v : strip (strip v) = strip v.
Proof.
  induction v as [h c s l IH] using Value_induction. destruct h as [| | | | | |a|o]; try done; cbn [strip fresh children] in *.
  - do 2 f_equal. rewrite <- list_fmap_compose. apply Forall_snd in IH. apply list_fmap_ext. intros i [k w] Hi.
    cbn [compose fst snd]. f_equal. by apply (Forall_lookup_1 _ _ _ _ IH Hi).
  - do 2 f_equal. rewrite <- list_fmap_compose. apply Forall_snd in IH. apply list_fmap_ext. intros i [k w] Hi.
    cbn [compose fst snd]. f_equal. by apply (Forall_lookup_1 _ _ _ _ IH Hi).
Qed.

Lemma strip_wf v : wf (strip v) <-> wf v.
Proof.
  induction v as [h c s l IH] using Value_induction. rewrite !wf_alt, strip_alt. cbn [fresh value_].
  destruct h as [| | | | | |a|o]; try done; unfold strip_holder; cbn [strip fresh value_ children holder_ok] in *;
    unfold keys_sorted; rewrite <- !list_fmap_compose; cbn [compose fst snd]; apply and_iff_compat_l;
    rewrite !Forall_fmap; rewrite Forall_fmap in IH; split; intros H;
    (induction IH as [|[k w] r E _ IHr]; [constructor|]; inversion H; subst; constructor; [by apply E|by apply IHr]).
Qed.

(** A lookup finds the key itself. *)
Lemma map_get_key {K V} (lt : K -> K -> bool) `{!KeyOrder lt} k (w : V) l : map_get lt k l = Some w -> k ∈ l.*1.
Proof.
  induction l as [|[k' v] l IH]; cbn [map_get fmap list_fmap fst]; [done|].
  destruct (lt k k') eqn:E1; [done|]. destruct (lt k' k) eqn:E2; [intros H; right; by apply IH|].
  rewrite (key_total _ _ E1 E2). left.
Qed.

Lemma map_put_same {K V} (lt : K -> K -> bool) k (w : V) l : map_get lt k l = Some w -> map_put lt k w l = l.
Proof.
  induction l as [|[k' v] l IH]; cbn [map_get map_put]; [done|].
  destruct (lt k k'); [done|]. destruct (lt k' k); [intros H; by rewrite IH|by intros [= ->]].
Qed.

(** ** Numbers as text *)

Lemma uintToString_udec z : is_u64 z -> uintToString z = Some (udec z).
Proof.
  intros Hz. apply dec_loop_udec_enough. unfold is_u64 in Hz.
  change (10 ^ Z.of_nat 24) with 1000000000000000000000000. lia.
Qed.

Lemma length_udec_u64 z : is_u64 z -> (length (udec z) <= 20)%nat.
Proof.
  intros Hz. unfold udec. pose proof (length_udec_aux (S (Z.to_nat (Z.log2 z))) 19 z []) as H.
  cbn [length] in H. change (10 ^ Z.of_nat 20) with 100000000000000000000 in H. unfold is_u64 in Hz. lia.
Qed.

(** Also for the least integer, whose negation wraps to itself. *)
Lemma valueToString_int_sdec z : is_i64 z -> valueToString_int z = Some (sdec z).
Proof.
  intros Hz. unfold valueToString_int, sdec. unfold is_i64 in Hz. destruct (Z.ltb_spec z 0) as [Hn|Hp].
  - assert (u64 (i64 (- z)) = - z) as ->.
    { destruct (decide (z = - 2 ^ 63)) as [->|]; [by vm_compute|].
      rewrite i64_id by (unfold is_i64; lia). apply u64_id. unfold is_u64. lia. }
    rewrite uintToString_udec by (unfold is_u64; lia). cbn [mbind option_bind].
    pose proof (length_udec_u64 (- z) ltac:(unfold is_u64; lia)).
    destruct (Nat.ltb_spec 24 (length ("-"%byte :: udec (- z)))); [cbn [length] in *; lia|done].
  - rewrite u64_id by (unfold is_u64; lia). rewrite uintToString_udec by (unfold is_u64; lia). cbn [mbind option_bind].
    pose proof (length_udec_u64 z ltac:(unfold is_u64; lia)). destruct (Nat.ltb_spec 24 (length (udec z))); [lia|done].
Qed.
