(* ===== verification/JsonOrder.v ===== *)
(** The comparisons of [Json::Value] ([operator<], [operator==], [compare] of
    [common/jsoncpp.cpp]) form a total order, up to comments and positions: a
    value is written as a list of numbers such that comparing two values is
    comparing their lists from left to right.  Numbers that are no numbers, and
    containers of 2^31 elements, are excluded: a comparison of these fails the
    laws. *)

From Stdlib Require Import SpecFloat.
From S2P Require Import Prelude Cstd Double JsonValue JsonValueSpec.

(** ** Lexicographic order *)

Definition then_cmp (c d : comparison) : comparison := match c with Eq => d | _ => c end.

Fixpoint zlex (a b : list Z) : comparison :=
  match a, b with
  | [], [] => Eq
  | [], _ :: _ => Lt
  | _ :: _, [] => Gt
  | x :: a, y :: b => then_cmp (x ?= y) (zlex a b)
  end.

Lemma zlex_lt x y a b : x < y -> zlex (x :: a) (y :: b) = Lt.
Proof. intros H%Z.compare_lt_iff. cbn [zlex]. by rewrite H. Qed.
Lemma zlex_gt x y a b : y < x -> zlex (x :: a) (y :: b) = Gt.
Proof. intros H%Z.compare_gt_iff. cbn [zlex]. by rewrite H. Qed.
Lemma zlex_same x a b : zlex (x :: a) (x :: b) = zlex a b.
Proof. cbn [zlex]. by rewrite Z.compare_refl. Qed.

Lemma zlex_refl a : zlex a a = Eq.
Proof. induction a as [|x a IH]; [done|]. cbn. by rewrite Z.compare_refl. Qed.

Lemma zlex_eq a b : zlex a b = Eq -> a = b.
Proof.
  revert b. induction a as [|x a IH]; intros [|y b]; cbn; try done.
  destruct (Z.compare_spec x y) as [->| |]; cbn; [intros ->%IH|..]; done.
Qed.

Lemma zlex_sym a b : zlex b a = CompOpp (zlex a b).
Proof.
  revert b. induction a as [|x a IH]; intros [|y b]; cbn; try done.
  rewrite (Z.compare_antisym x y), IH. by destruct (x ?= y).
Qed.

Lemma zlex_trans a b c : zlex a b = Lt -> zlex b c = Lt -> zlex a c = Lt.
Proof.
  revert b c. induction a as [|x a IH]; intros [|y b] [|z c]; cbn; try done.
  destruct (Z.compare_spec x y) as [->|Hxy|], (Z.compare_spec y z) as [->|Hyz|]; cbn; try done.
  - apply IH.
  - intros _ _. by rewrite (proj2 (Z.compare_lt_iff x z) Hxy).
  - intros _ _. by rewrite (proj2 (Z.compare_lt_iff x z) ltac:(lia)).
Qed.

Lemma zlex_app_len a b u v :
  length a = length b -> zlex (a ++ u) (b ++ v) = then_cmp (zlex a b) (zlex u v).
Proof.
  revert b. induction a as [|x a IH]; intros [|y b] Hl; [done|done|done|]. injection Hl as Hl.
  cbn. rewrite IH by done. by destruct (x ?= y).
Qed.

(** ** What a comparison says *)

(** [a < b], [b < a]. *)
Definition of_cmp (c : comparison) : bool * bool :=
  match c with Lt => (true, false) | Gt => (false, true) | Eq => (false, false) end.
Definition is_eq (c : comparison) : bool := match c with Eq => true | _ => false end.

(** Two things compare as their codes do, whatever comes after these. *)
Definition ordered (lg : bool * bool) (eq : bool) (a b : list Z) : Prop :=
  exists c, lg = of_cmp c /\ eq = is_eq c /\ forall u v, zlex (a ++ u) (b ++ v) = then_cmp c (zlex u v).

Lemma ordered_len lg eq a b : length a = length b ->
  lg = of_cmp (zlex a b) -> eq = is_eq (zlex a b) -> ordered lg eq a b.
Proof. intros Hl -> ->. exists (zlex a b). split_and!; [done..|]. intros u v. by apply zlex_app_len. Qed.

Lemma ordered_Z x y : ordered (x <? y, y <? x) (x =? y) [x] [y].
Proof.
  apply ordered_len; [done|..]; cbn; destruct (Z.compare_spec x y) as [->| |]; cbn;
    rewrite ?Z.ltb_irrefl, ?Z.eqb_refl; [done| | |done| |];
    destruct (Z.ltb_spec x y), (Z.ltb_spec y x), (Z.eqb_spec x y); done || lia.
Qed.

Lemma ordered_bool x y : ordered (negb x && y, negb y && x) (Bool.eqb x y) [Z.b2z x] [Z.b2z y].
Proof. apply ordered_len; [done|by destruct x, y..]. Qed.

(** One thing after the other: the key and the value of a pair, an element and
    those after it. *)
Lemma ordered_pair {K} (lt : K -> K -> bool) (k1 k2 : K) eqk eq lg a1 a2 b1 b2 :
  ordered (lt k1 k2, lt k2 k1) eqk a1 a2 -> ordered lg eq b1 b2 ->
  ordered (pair_lt_gt lt k1 k2 lg) (eqk && eq) (a1 ++ b1) (a2 ++ b2).
Proof.
  intros (c & Ec & -> & Hc) (d & -> & -> & Hd). exists (then_cmp c d). split_and!.
  - unfold pair_lt_gt. destruct c; injection Ec as -> ->; by destruct d.
  - by destruct c, d.
  - intros u v. rewrite <- !app_assoc, Hc, Hd. by destruct c, d.
Qed.

Lemma ordered_step lg1 eq1 lg2 eq2 a1 a2 b1 b2 :
  ordered lg1 eq1 a1 a2 -> ordered lg2 eq2 b1 b2 -> ordered (lex_step lg1 lg2) (eq1 && eq2) (a1 ++ b1) (a2 ++ b2).
Proof.
  intros (c & -> & -> & Hc) (d & -> & -> & Hd). exists (then_cmp c d). split_and!; [by destruct c, d..|].
  intros u v. rewrite <- !app_assoc, Hc, Hd. by destruct c, d.
Qed.

Lemma ordered_tag t lg eq a b : ordered lg eq a b -> ordered lg eq (t :: a) (t :: b).
Proof. intros (c & -> & -> & Hc). exists c. split_and!; [done..|]. intros u v. cbn [app]. by rewrite zlex_same. Qed.

(** ** Codes of scalars *)

(** A text, and its end, which comes before every character. *)
Definition text_code (s : bytes) : list Z := ((fun c => bz c + 1) <$> s) ++ [0].

Lemma ordered_text s t : ordered (blt s t, blt t s) (bool_decide (s = t)) (text_code s) (text_code t).
Proof.
  revert t. induction s as [|x s IH]; intros [|y t].
  - by exists Eq.
  - exists Lt. split_and!; [done..|]. intros u v. pose proof (bz_range y). apply zlex_lt. lia.
  - exists Gt. split_and!; [done..|]. intros u v. pose proof (bz_range x). apply zlex_gt. lia.
  - destruct (IH t) as (c & Ec & Eb & Hc). cbn [blt].
    exists (then_cmp (bz x ?= bz y) c). destruct (Z.compare_spec (bz x) (bz y)) as [Hxy|Hxy|Hxy]; split_and!.
    + rewrite Hxy, Z.ltb_irrefl, Z.eqb_refl. exact Ec.
    + apply bz_inj in Hxy as ->. cbn. rewrite <- Eb. apply bool_decide_ext. naive_solver.
    + intros u v. unfold text_code. cbn [fmap list_fmap app]. rewrite Hxy, zlex_same. apply Hc.
    + by rewrite (proj2 (Z.ltb_lt _ _) Hxy), (proj2 (Z.ltb_ge (bz y) (bz x)) ltac:(lia)), (proj2 (Z.eqb_neq (bz y) (bz x)) ltac:(lia)).
    + cbn. apply bool_decide_eq_false_2. intros [= -> _]. lia.
    + intros u v. apply zlex_lt. lia.
    + by rewrite (proj2 (Z.ltb_lt _ _) Hxy), (proj2 (Z.ltb_ge (bz x) (bz y)) ltac:(lia)), (proj2 (Z.eqb_neq (bz x) (bz y)) ltac:(lia)).
    + cbn. apply bool_decide_eq_false_2. intros [= -> _]. lia.
    + intros u v. apply zlex_gt. lia.
Qed.

Definition string_code (o : option bytes) : list Z := match o with None => [0] | Some s => 1 :: text_code s end.

Lemma ordered_string o1 o2 :
  ordered (string_lt o1 o2, string_lt o2 o1) (bool_decide (o1 = o2)) (string_code o1) (string_code o2).
Proof.
  destruct o1 as [s|], o2 as [t|]; [|by exists Gt|by exists Lt|by exists Eq].
  destruct (ordered_text s t) as (c & Ec & Eb & Hc). exists c. split_and!; [done| |exact Hc].
  rewrite <- Eb. apply bool_decide_ext. naive_solver.
Qed.

(** Numbers: the sign or kind, then the exponent, then the mantissa. *)
Definition double_code (d : double) : list Z :=
  match d with
  | S754_zero _ => [0; 0; 0]
  | S754_infinity s => [if s then -2 else 2; 0; 0]
  | S754_finite false m e => [1; e; Z.pos m]
  | S754_finite true m e => [-1; - e; Z.neg m]
  | S754_nan => [3; 0; 0]
  end.

Lemma SFcompare_code x y : x <> S754_nan -> y <> S754_nan ->
  SFcompare x y = Some (zlex (double_code x) (double_code y)).
Proof.
  intros Hx Hy. destruct x as [sx|sx| |sx mx ex], y as [sy|sy| |sy my ey]; try done; try (by destruct sx); try (by destruct sy); try by destruct sx, sy.
  destruct sx, sy; try done; cbn [SFcompare double_code zlex]; rewrite Z.compare_refl; cbn [then_cmp];
    change (PosDef.Pos.compare_cont Eq mx my) with (mx ?= my)%positive.
  - rewrite Z.compare_opp. destruct (Z.compare_spec ex ey) as [->|H|H].
    + rewrite Z.compare_refl. cbn. by destruct (mx ?= my)%positive.
    + by rewrite (proj2 (Z.compare_gt_iff ey ex) H).
    + by rewrite (proj2 (Z.compare_lt_iff ey ex) H).
  - destruct (ex ?= ey); [|done..]. cbn. by destruct (mx ?= my)%positive.
Qed.

Lemma ordered_double x y : x <> S754_nan -> y <> S754_nan ->
  ordered (d_lt x y, d_lt y x) (d_eq x y) (double_code x) (double_code y).
Proof.
  intros Hx Hy. assert (forall d, length (double_code d) = 3%nat) as Hl by by intros [|[]| |[]].
  pose proof (SFcompare_code x y Hx Hy) as E. pose proof (SFcompare_code y x Hy Hx) as E'. rewrite zlex_sym in E'.
  apply ordered_len; [by rewrite !Hl|unfold d_lt, SFltb; rewrite E, E'; by destruct (zlex _ _)|unfold d_eq, SFeqb; by rewrite E; destruct (zlex _ _)].
Qed.

(** ** Codes of values *)

Fixpoint code (v : Value) : list Z :=
  match v with
  | MkJson h _ _ _ =>
      type_number (type v) ::
      match h with
      | nullValue => []
      | intValue z | uintValue z => [z]
      | realValue d => double_code d
      | stringValue o => string_code o
      | booleanValue b => [Z.b2z b]
      | arrayValue l =>
          Z.of_nat (length l) ::
          (fix go (l : list (Z * Value)) : list Z := match l with [] => [] | (k, w) :: l => ([k] ++ code w) ++ go l end) l
      | objectValue l =>
          Z.of_nat (length l) ::
          (fix go (l : list (bytes * Value)) : list Z := match l with [] => [] | (k, w) :: l => (text_code k ++ code w) ++ go l end) l
      end
  end.

(** What the order is about. *)
Definition comparable_holder {A} (h : holder A) : Prop :=
  match h with
  | realValue d => d <> S754_nan
  | arrayValue l => Z.of_nat (length l) < 2 ^ 31
  | objectValue l => Z.of_nat (length l) < 2 ^ 31
  | _ => True
  end.

Fixpoint comparable (v : Value) : Prop :=
  match v with
  | MkJson h _ _ _ =>
      comparable_holder h /\
      match h with
      | arrayValue l =>
          (fix go (l : list (Z * Value)) : Prop := match l with [] => True | (_, w) :: l => comparable w /\ go l end) l
      | objectValue l =>
          (fix go (l : list (bytes * Value)) : Prop := match l with [] => True | (_, w) :: l => comparable w /\ go l end) l
      | _ => True
      end
  end.

(** The elements of two containers of one size. *)
Section elements.
  Context {K : Type} (lt : K -> K -> bool) (eqk : K -> K -> bool) (key_code : K -> list Z).
  Context (Hkey : forall k1 k2, ordered (lt k1 k2, lt k2 k1) (eqk k1 k2) (key_code k1) (key_code k2)).

Fixpoint lt_gt_elements (l1 l2 : list (K * Value)) : bool * bool :=
  match l1, l2 with
  | (k1, v1) :: l1, (k2, v2) :: l2 => lex_step (pair_lt_gt lt k1 k2 (lt_gt v1 v2)) (lt_gt_elements l1 l2)
  | [], _ :: _ => (true, false)
  | _ :: _, [] => (false, true)
  | [], [] => (false, false)
  end.

Fixpoint eq_elements (l1 l2 : list (K * Value)) : bool :=
  match l1, l2 with
  | (k1, v1) :: l1, (k2, v2) :: l2 => eqk k1 k2 && value_eq v1 v2 && eq_elements l1 l2
  | _, _ => true
  end.

Fixpoint code_elements (l : list (K * Value)) : list Z :=
  match l with [] => [] | (k, w) :: l => (key_code k ++ code w) ++ code_elements l end.

Fixpoint comparable_elements (l : list (K * Value)) : Prop :=
  match l with [] => True | (_, w) :: l => comparable w /\ comparable_elements l end.

Lemma ordered_elements l1 : forall l2,
  Forall (fun a => forall b, comparable a -> comparable b -> ordered (lt_gt a b) (value_eq a b) (code a) (code b)) l1.*2 ->
  comparable_elements l1 -> comparable_elements l2 -> length l1 = length l2 ->
  ordered (lt_gt_elements l1 l2) (eq_elements l1 l2) (code_elements l1) (code_elements l2).
Proof.
  induction l1 as [|[k1 v1] l1 IH]; intros [|[k2 v2] l2] HF H1 H2 Hl; [by exists Eq|done|done|].
  cbn [fmap list_fmap snd] in HF. inversion HF as [|? ? Hv HF']; subst. destruct H1 as [Hv1 H1], H2 as [Hv2 H2]. injection Hl as Hl.
  cbn [lt_gt_elements eq_elements code_elements]. apply ordered_step; [apply ordered_pair; [apply Hkey|by apply Hv]|by apply IH].
Qed.

(** The size of a container comes first. *)
Lemma ordered_container lg eq l1 l2 c1 c2 :
  Z.of_nat (length l1) < 2 ^ 31 -> Z.of_nat (length l2) < 2 ^ 31 ->
  (length (A := K * Value) l1 = length (A := K * Value) l2 -> ordered lg eq c1 c2) ->
  let delta := Z.of_nat (length l1) - Z.of_nat (length l2) in
  ordered (if negb (i32 delta =? 0) then (i32 delta <? 0, i32 (- delta) <? 0) else lg) ((length l1 =? length l2)%nat && eq)
    (Z.of_nat (length l1) :: c1) (Z.of_nat (length l2) :: c2).
Proof.
  intros H1 H2 Hrest delta. rewrite !i32_id by (unfold delta, is_i32; lia).
  destruct (Nat.eqb_spec (length l1) (length l2)) as [E|E].
  - replace (delta =? 0) with true by (symmetry; apply Z.eqb_eq; lia). cbn [negb andb].
    destruct (Hrest E) as (c & -> & -> & Hc). exists c. split_and!; [done..|]. intros u v. cbn [app]. by rewrite E, zlex_same.
  - replace (delta =? 0) with false by (symmetry; apply Z.eqb_neq; lia). cbn [negb andb].
    exists (Z.of_nat (length l1) ?= Z.of_nat (length l2)). destruct (Z.compare_spec (Z.of_nat (length l1)) (Z.of_nat (length l2))); [lia|..].
    + split_and!; [|done|intros u v; by apply zlex_lt].
      by rewrite (proj2 (Z.ltb_lt delta 0) ltac:(lia)), (proj2 (Z.ltb_ge (- delta) 0) ltac:(lia)).
    + split_and!; [|done|intros u v; by apply zlex_gt].
      by rewrite (proj2 (Z.ltb_lt (- delta) 0) ltac:(lia)), (proj2 (Z.ltb_ge delta 0) ltac:(lia)).
Qed.
End elements.

Lemma type_numbers_inj t1 t2 : type_number t1 = type_number t2 -> t1 = t2.
Proof. by destruct t1, t2. Qed.

Lemma value_eq_type a b : type a <> type b -> value_eq a b = false.
Proof. destruct a as [[] ? ? ?], b as [[] ? ? ?]; done. Qed.

Lemma value_ordered a : forall b, comparable a -> comparable b -> ordered (lt_gt a b) (value_eq a b) (code a) (code b).
Proof.
  induction a as [h c s n IH] using Value_induction. intros b Ha Hb.
  set (a := MkJson h c s n) in *.
  assert (exists ra, code a = type_number (type a) :: ra) as [ra Era] by by eexists.
  assert (exists rb, code b = type_number (type b) :: rb) as [rb Erb] by by destruct b; eexists.
  destruct (Z.eqb_spec (type_number (type a)) (type_number (type b))) as [E|E].
  2:{ rewrite Era, Erb, value_eq_type by congruence. subst a. cbn [lt_gt].
      rewrite (proj2 (Z.eqb_neq _ _) E). cbn [negb].
      destruct (ordered_Z (type_number (type (MkJson h c s n))) (type_number (type b))) as (d & -> & Ed & Hd).
      rewrite (proj2 (Z.eqb_neq _ _) E) in Ed. exists d. split_and!; [done..|]. intros u v.
      specialize (Hd (ra ++ u) (rb ++ v)). cbn [app] in Hd |- *. rewrite Hd. by destruct d. }
  apply type_numbers_inj in E. destruct b as [h' c' s' n']. destruct h, h'; try done;
    cbn [comparable comparable_holder] in Ha, Hb; destruct Ha as [Ha1 Ha2], Hb as [Hb1 Hb2].
  - by exists Eq.
  - apply (ordered_tag 1). apply ordered_Z.
  - apply (ordered_tag 2). apply ordered_Z.
  - apply (ordered_tag 3). by apply ordered_double.
  - apply (ordered_tag 4). apply ordered_string.
  - apply (ordered_tag 5). apply ordered_bool.
  - apply (ordered_tag 6). apply ordered_container; [done..|]. intros El.
    apply (ordered_elements index_lt Z.eqb (fun k => [k])); [apply ordered_Z|done..].
  - apply (ordered_tag 7). apply ordered_container; [done..|]. intros El.
    apply (ordered_elements name_lt (fun k1 k2 => bool_decide (k1 = k2)) text_code); [apply ordered_text|done..].
Qed.

(** All comparisons are those of the codes. *)
Lemma comparisons_of_codes a b : comparable a -> comparable b ->
  value_lt a b = bool_decide (zlex (code a) (code b) = Lt) /\ value_gt a b = bool_decide (zlex (code a) (code b) = Gt) /\
  value_eq a b = bool_decide (code a = code b) /\
  compare a b = match zlex (code a) (code b) with Lt => -1 | Eq => 0 | Gt => 1 end.
Proof.
  intros Ha Hb. unfold compare, value_gt, value_lt.
  destruct (value_ordered a b Ha Hb) as (c & E & -> & Hc), (value_ordered b a Hb Ha) as (d & E' & _ & Hd).
  assert (c = zlex (code a) (code b)) as -> by (specialize (Hc [] []); rewrite !app_nil_r in Hc; rewrite Hc; by destruct c).
  assert (d = zlex (code b) (code a)) as -> by (specialize (Hd [] []); rewrite !app_nil_r in Hd; rewrite Hd; by destruct d).
  rewrite E, E', (zlex_sym (code a) (code b)). split_and!; try by destruct (zlex _ _).
  destruct (decide (code a = code b)) as [->|Hne]; [by rewrite zlex_refl, bool_decide_true|].
  rewrite bool_decide_false by done. by destruct (zlex (code a) (code b)) eqn:Ez; [apply zlex_eq in Ez|..].
Qed.

(** C37. Values compare in a total order: [==] is an equivalence, exactly one of [<],
    [==] and [>] holds of two values, [<] is transitive and does not tell equal
    values apart, and [compare] answers the sign of it; as long as no number is
    NaN and no container has 2^31 elements. *)
Theorem json_values_are_ordered (a b c : Value) : comparable a -> comparable b -> comparable c ->
  (value_eq a a = true /\ value_eq b a = value_eq a b /\ (value_eq a b = true -> value_eq b c = true -> value_eq a c = true)) /\
  ((value_lt a b = true /\ value_eq a b = false /\ value_gt a b = false) \/
   (value_lt a b = false /\ value_eq a b = true /\ value_gt a b = false) \/
   (value_lt a b = false /\ value_eq a b = false /\ value_gt a b = true)) /\
  (value_lt a b = true -> value_lt b c = true -> value_lt a c = true) /\
  (value_eq a b = true -> value_lt a c = value_lt b c /\ value_lt c a = value_lt c b) /\
  (compare a b < 0 <-> value_lt a b = true) /\ (compare a b = 0 <-> value_eq a b = true) /\ compare b a = - compare a b.
Proof.
  intros Ha Hb Hc.
  destruct (comparisons_of_codes a b Ha Hb) as (-> & -> & -> & ->), (comparisons_of_codes b c Hb Hc) as (-> & _ & -> & _),
    (comparisons_of_codes a c Ha Hc) as (-> & _ & -> & _), (comparisons_of_codes b a Hb Ha) as (_ & _ & -> & ->),
    (comparisons_of_codes a a Ha Ha) as (_ & _ & -> & _), (comparisons_of_codes c a Hc Ha) as (-> & _ & _ & _),
    (comparisons_of_codes c b Hc Hb) as (-> & _ & _ & _).
  rewrite (zlex_sym (code a) (code b)). split_and!.
  - by apply bool_decide_true.
  - apply bool_decide_ext. split; by intros ->.
  - rewrite !bool_decide_eq_true. congruence.
  - destruct (decide (code a = code b)) as [->|Hne]; [rewrite zlex_refl; right; left; split_and!; [done|by apply bool_decide_true|done]|].
    rewrite (bool_decide_false (code a = code b)) by done.
    destruct (zlex (code a) (code b)) eqn:Ez; [by apply zlex_eq in Ez|by left|by right; right].
  - rewrite !bool_decide_eq_true. apply zlex_trans.
  - rewrite bool_decide_eq_true. intros ->. done.
  - rewrite bool_decide_eq_true. by destruct (zlex (code a) (code b)).
  - rewrite bool_decide_eq_true. split; [|intros ->; by rewrite zlex_refl].
    intros Ez. apply zlex_eq. by destruct (zlex (code a) (code b)).
  - by destruct (zlex (code a) (code b)).
Qed.

Lemma json_values_are_ordered_witness :
  value_lt (Value_int 1) (Value_int 3) = true.
Proof.
  destruct (json_values_are_ordered (Value_int 1) (Value_int 2) (Value_int 3)) as (_ & _ & Ht & _).
  1-3: split; exact I.
  apply Ht; reflexivity.
Defined.

(** A number that is none is not equal to itself, while [compare] calls it so. *)
Lemma nan_compares_equal_and_is_not :
  let v := Value_double S754_nan in value_eq v v = false /\ compare v v = 0.
Proof. done. Qed.
