(* ===== verification/JsonMemory.v ===== *)
(** [common/jsoncpp.cpp]: the memory of [Json::Value].

    [JsonValue.v] takes a value for what it holds; here it is what the code makes
    of it: strings, comments and maps in blocks of a heap, names that may or may
    not own their characters ([CZString]), and the constructors, copies,
    assignments and destructors that allocate and free.  A pointer to static
    memory is the text it points to.  [None] is undefined behaviour (a block that
    is not there is read or freed, a static string is freed) or a failed
    assertion; [malloc] does not fail. *)

From Stdlib Require Import SpecFloat.
From S2P Require Import Prelude Cstd Double JsonValue.

(** ** The heap *)

Notation ptr := positive (only parsing).

Inductive cptr := Dyn (p : ptr) | Lit (s : bytes).

(** [index_] is the index of an array element; of a name, whether it was
    duplicated. *)
Record CZString := MkCZ { cstr_ : option cptr; index_ : Z }.

Inductive union :=
| UNull | UInt (z : Z) | UUint (z : Z) | UReal (d : double) | UBool (b : bool)
| UString (p : option cptr) | UArray (p : ptr) | UObject (p : ptr).

Record MValue := MkM { union_ : union; allocated_ : bool; comments_p : option ptr; mstart_ : Z; mlimit_ : Z }.

(** What [malloc] or [new] returns a block for: the characters of a string with
    their NUL, an [ObjectValues], the three [CommentInfo]. *)
Inductive cell :=
| CString (c : bytes)
| CMap (l : list (CZString * MValue))
| CComments (before same after : option ptr).

Notation heap := (gmap positive cell).

Definition malloc (h : heap) (c : cell) : ptr * heap :=
  let p := base.fresh (dom h) in (p, <[p := c]> h).

(** The string at a pointer. *)
Definition deref (h : heap) (p : cptr) : option bytes :=
  match p with
  | Lit s => Some (cstr s)
  | Dyn p => match h !! p with Some (CString c) => Some (cstr c) | _ => None end
  end.

Definition map_at (h : heap) (p : ptr) : option (list (CZString * MValue)) :=
  match h !! p with Some (CMap l) => Some l | _ => None end.

Definition dup (h : heap) (value : bytes) (length : Z) : ptr * heap :=
  malloc h (CString (duplicateStringValue value length ++ [x00])).

Definition releaseStringValue (h : heap) (p : option cptr) : option heap :=
  match p with
  | None => Some h
  | Some (Lit _) => None
  | Some (Dyn q) => match h !! q with Some (CString _) => Some (delete q h) | _ => None end
  end.

(** ** [CZString] *)

Definition noDuplication : Z := 0.
Definition duplicate : Z := 1.
Definition duplicateOnCopy : Z := 2.

Definition CZString_index (index : Z) : CZString := MkCZ None index.

Definition CZString_new (h : heap) (s : cptr) (allocate : Z) : option (CZString * heap) :=
  if allocate =? duplicate
  then t ← deref h s; let '(q, h) := dup h t unknown in Some (MkCZ (Some (Dyn q)) allocate, h)
  else Some (MkCZ (Some s) allocate, h).

Definition CZString_copy (h : heap) (other : CZString) : option (CZString * heap) :=
  let index :=
    match cstr_ other with
    | Some _ => if index_ other =? noDuplication then noDuplication else duplicate
    | None => index_ other
    end in
  match cstr_ other with
  | Some s =>
      if negb (index_ other =? noDuplication)
      then t ← deref h s; let '(q, h) := dup h t unknown in Some (MkCZ (Some (Dyn q)) index, h)
      else Some (MkCZ (Some s) index, h)
  | None => Some (MkCZ None index, h)
  end.

Definition CZString_destroy (h : heap) (k : CZString) : option heap :=
  match cstr_ k with
  | Some s => if index_ k =? duplicate then releaseStringValue h (Some s) else Some h
  | None => Some h
  end.

(** Its accessors. *)
Definition CZString_c_str (k : CZString) : option cptr := cstr_ k.
Definition CZString_isStaticString (k : CZString) : bool := index_ k =? noDuplication.

(** [operator=]: a copy, a swap, and the destructor of what was there. *)
Definition CZString_assign (h : heap) (this other : CZString) : option (CZString * heap) :=
  '(temp, h) ← CZString_copy h other;
  h ← CZString_destroy h this;
  Some (temp, h).

(** [operator==] *)
Definition CZString_eq (h : heap) (a b : CZString) : option bool :=
  match cstr_ a with
  | Some s =>
      t ← cstr_ b; x ← deref h s; y ← deref h t; Some (bool_decide (x = y))
  | None => Some (index_ a =? index_ b)
  end.

(** ** Comments *)

(** [CommentInfo::setComment]: what is left, and whether it threw an exception
    instead of setting the comment. *)
Definition CommentInfo_setComment (h : heap) (comment : option ptr) (text : bytes) : option (option ptr * heap * bool) :=
  h ← releaseStringValue h (Dyn <$> comment);
  if valid_comment text then let '(q, h) := dup h (cstr text) unknown in Some (Some q, h, false)
  else Some (comment, h, true).

Definition copy_comment (h : heap) (c : option ptr) : option (option ptr * heap) :=
  match c with
  | None => Some (None, h)
  | Some q =>
      t ← deref h (Dyn q);
      '(c, h, threw) ← CommentInfo_setComment h None t;
      if (threw : bool) then None else Some (c, h)
  end.

Definition copy_comments (h : heap) (pc : option ptr) : option (option ptr * heap) :=
  match pc with
  | None => Some (None, h)
  | Some p =>
      match h !! p with
      | Some (CComments a b c) =>
          '(a, h) ← copy_comment h a; '(b, h) ← copy_comment h b; '(c, h) ← copy_comment h c;
          let '(q, h) := malloc h (CComments a b c) in Some (Some q, h)
      | _ => None
      end
  end.

(** [delete[] comments_] *)
Definition destroy_comments (h : heap) (pc : option ptr) : option heap :=
  match pc with
  | None => Some h
  | Some p =>
      match h !! p with
      | Some (CComments a b c) =>
          h ← releaseStringValue h (Dyn <$> a); h ← releaseStringValue h (Dyn <$> b); h ← releaseStringValue h (Dyn <$> c);
          Some (delete p h)
      | _ => None
      end
  end.

(** ** Values *)

Definition plain (u : union) (al : bool) : MValue := MkM u al None 0 0.

Definition MValue_type (h : heap) (t : VT.ValueType) : MValue * heap :=
  match t with
  | VT.nullValue => (plain UNull false, h)
  | VT.intValue => (plain (UInt 0) false, h)
  | VT.uintValue => (plain (UUint 0) false, h)
  | VT.realValue => (plain (UReal (S754_zero false)) false, h)
  | VT.stringValue => (plain (UString None) false, h)
  | VT.booleanValue => (plain (UBool false) false, h)
  | VT.arrayValue => let '(p, h) := malloc h (CMap []) in (plain (UArray p) false, h)
  | VT.objectValue => let '(p, h) := malloc h (CMap []) in (plain (UObject p) false, h)
  end.

Definition MValue_cstr (h : heap) (s : bytes) : MValue * heap :=
  let '(q, h) := dup h s unknown in (plain (UString (Some (Dyn q))) true, h).
Definition MValue_string (h : heap) (s : bytes) : MValue * heap :=
  let '(q, h) := dup h s (u32 (Z.of_nat (length s))) in (plain (UString (Some (Dyn q))) true, h).
Definition MValue_static (s : bytes) : MValue := plain (UString (Some (Lit s))) false.

(** The copy of a map copies its names and its values. *)
Fixpoint copy_entries (cp : heap -> MValue -> option (MValue * heap)) (h : heap) (l : list (CZString * MValue))
    : option (list (CZString * MValue) * heap) :=
  match l with
  | [] => Some ([], h)
  | (k, v) :: l =>
      '(k, h) ← CZString_copy h k; '(v, h) ← cp h v; '(l, h) ← copy_entries cp h l; Some ((k, v) :: l, h)
  end.

Definition copy_union (cp : heap -> MValue -> option (MValue * heap)) (h : heap) (u : union)
    : option (union * bool * heap) :=
  match u with
  | UString (Some s) => t ← deref h s; let '(q, h) := dup h t unknown in Some (UString (Some (Dyn q)), true, h)
  | UArray p =>
      l ← map_at h p; '(l, h) ← copy_entries cp h l; let '(q, h) := malloc h (CMap l) in Some (UArray q, false, h)
  | UObject p =>
      l ← map_at h p; '(l, h) ← copy_entries cp h l; let '(q, h) := malloc h (CMap l) in Some (UObject q, false, h)
  | _ => Some (u, false, h)
  end.

(** [Value(const Value &)] *)
Fixpoint MValue_copy (fuel : nat) (h : heap) (other : MValue) : option (MValue * heap) :=
  match fuel with
  | O => None
  | S fuel =>
      '(u, al, h) ← copy_union (MValue_copy fuel) h (union_ other);
      '(pc, h) ← copy_comments h (comments_p other);
      Some (MkM u al pc (mstart_ other) (mlimit_ other), h)
  end.

Fixpoint destroy_entries (ds : heap -> MValue -> option heap) (h : heap) (l : list (CZString * MValue)) : option heap :=
  match l with
  | [] => Some h
  | (k, v) :: l => h ← ds h v; h ← CZString_destroy h k; destroy_entries ds h l
  end.

Definition destroy_union (ds : heap -> MValue -> option heap) (h : heap) (u : union) (al : bool) : option heap :=
  match u with
  | UString s => if al then releaseStringValue h s else Some h
  | UArray p | UObject p => l ← map_at h p; h ← destroy_entries ds h l; Some (delete p h)
  | _ => Some h
  end.

(** [~Value()] *)
Fixpoint MValue_destroy (fuel : nat) (h : heap) (v : MValue) : option heap :=
  match fuel with
  | O => None
  | S fuel =>
      h ← destroy_union (MValue_destroy fuel) h (union_ v) (allocated_ v);
      destroy_comments h (comments_p v)
  end.

(** [swap]: everything but the comments. *)
Definition MValue_swap (a b : MValue) : MValue * MValue :=
  (MkM (union_ b) (allocated_ b) (comments_p a) (mstart_ b) (mlimit_ b),
   MkM (union_ a) (allocated_ a) (comments_p b) (mstart_ a) (mlimit_ a)).

(** [operator=] *)
Definition MValue_assign (fuel : nat) (h : heap) (this other : MValue) : option (MValue * heap) :=
  '(temp, h) ← MValue_copy fuel h other;
  let '(this, temp) := MValue_swap this temp in
  h ← MValue_destroy fuel h temp;
  Some (this, h).

(** ** Members *)

(** [CZString::operator<] *)
Definition CZString_lt (h : heap) (a b : CZString) : option bool :=
  match cstr_ a with
  | Some s => t ← cstr_ b; x ← deref h s; y ← deref h t; Some (name_lt x y)
  | None => Some (index_lt (index_ a) (index_ b))
  end.

(** [map::lower_bound]: the position of the first key that is not less, and
    whether it is equal. *)
Fixpoint lower_bound (h : heap) (k : CZString) (l : list (CZString * MValue)) (i : nat) : option (nat * bool) :=
  match l with
  | [] => Some (i, false)
  | (k', _) :: l =>
      less ← CZString_lt h k' k;
      if (less : bool) then lower_bound h k l (S i) else eq ← CZString_eq h k' k; Some (i, eq)
  end.

(** The value is promoted from null by assigning a temporary. *)
Definition promote (fuel : nat) (h : heap) (v : MValue) : option (MValue * heap) :=
  match union_ v with
  | UNull =>
      let '(t, h) := MValue_type h VT.objectValue in
      '(v, h) ← MValue_assign fuel h v t;
      h ← MValue_destroy fuel h t;
      Some (v, h)
  | _ => Some (v, h)
  end.

(** The insertion of a copy of [defaultValue], a pair of copies of the key and
    of [null]. *)
Definition insert_default (fuel : nat) (h : heap) (p : ptr) (l : list (CZString * MValue)) (i : nat) (actualKey : CZString)
    : option heap :=
  '(k1, h) ← CZString_copy h actualKey; '(v1, h) ← MValue_copy fuel h (plain UNull false);
  '(k2, h) ← CZString_copy h k1; '(v2, h) ← MValue_copy fuel h v1;
  let h := <[p := CMap (take i l ++ (k2, v2) :: drop i l)]> h in
  h ← MValue_destroy fuel h v1; CZString_destroy h k1.

(** The member is looked up, and made if it is not there. *)
Definition find_or_insert (fuel : nat) (h : heap) (p : ptr) (key : cptr) (isStatic : bool) : option (heap * nat) :=
  l ← map_at h p;
  '(actualKey, h) ← CZString_new h key (if isStatic then noDuplication else duplicateOnCopy);
  r ← lower_bound h actualKey l 0;
  h ← (if (r.2 : bool) then Some h else insert_default fuel h p l r.1 actualKey);
  (fun h : heap => (h, r.1)) <$> CZString_destroy h actualKey.

(** [resolveReference]: the value, and the position of the member. *)
Definition MValue_resolve (fuel : nat) (h : heap) (v : MValue) (key : cptr) (isStatic : bool) : option (MValue * heap * nat) :=
  '(v, h) ← promote fuel h v;
  match union_ v with
  | UObject p => '(h, i) ← find_or_insert fuel h p key isStatic; Some (v, h, i)
  | _ => None
  end.

(** An assignment through the reference to the member at position [i]. *)
Definition MValue_set (fuel : nat) (h : heap) (v : MValue) (i : nat) (w : MValue) : option heap :=
  match union_ v return option heap with
  | UObject p =>
      l ← map_at h p; '(k, old) ← l !! i;
      '(new, h) ← MValue_assign fuel h old w;
      Some (<[p := CMap (<[i := (k, new)]> l)]> h)
  | _ => None
  end.

(** [v[key] = w]: the target is evaluated first. *)
Definition MValue_put_name (fuel : nat) (h : heap) (v : MValue) (key : cptr) (isStatic : bool) (w : MValue)
    : option (MValue * heap) :=
  '(v, h, i) ← MValue_resolve fuel h v key isStatic;
  h ← MValue_set fuel h v i w;
  Some (v, h).

(** [removeMember]: the old value is copied out before the entry is erased. *)
Definition erase_at (fuel : nat) (h : heap) (p : ptr) (l : list (CZString * MValue)) (i : nat) : option (MValue * heap) :=
  '(k, old) ← l !! i;
  '(r, h) ← MValue_copy fuel h old;
  let h := <[p := CMap (delete i l)]> h in
  h ← MValue_destroy fuel h old;
  (fun h : heap => (r, h)) <$> CZString_destroy h k.

Definition MValue_removeMember (fuel : nat) (h : heap) (v : MValue) (key : cptr) : option (MValue * heap) :=
  match union_ v with
  | UNull => MValue_copy fuel h (plain UNull false)
  | UObject p =>
      l ← map_at h p;
      '(actualKey, h) ← CZString_new h key noDuplication;
      found ← lower_bound h actualKey l 0;
      '(r, h) ← (if (found.2 : bool) then erase_at fuel h p l found.1 else MValue_copy fuel h (plain UNull false));
      (fun h : heap => (r, h)) <$> CZString_destroy h actualKey
  | _ => None
  end.

(** [Value::setComment]: the array of comments is made when it is first needed. *)
Definition MValue_setComment (h : heap) (v : MValue) (text : bytes) (placement : CommentPlacement)
    : option (MValue * heap * bool) :=
  let '(p, h) :=
    match comments_p v with Some p => (p, h) | None => malloc h (CComments None None None) end in
  match h !! p with
  | Some (CComments a b c) =>
      let old := match placement with commentBefore => a | commentAfterOnSameLine => b | commentAfter => c end in
      '(new, h, threw) ← CommentInfo_setComment h old text;
      let h := <[p := match placement with
                      | commentBefore => CComments new b c
                      | commentAfterOnSameLine => CComments a new c
                      | commentAfter => CComments a b new
                      end]> h in
      Some (MkM (union_ v) (allocated_ v) (Some p) (mstart_ v) (mlimit_ v), h, threw)
  | _ => None
  end.
