(* ===== verification/JsonMemorySpec.v ===== *)
(** The memory of JSON values is theirs: what a value owns ([rep]), and that
    copies, assignments and destructors neither leak nor free twice and compute
    the values of [JsonValue.v]. *)

From S2P Require Import Prelude Cstd Double JsonValue JsonValueSpec JsonMemory.

(** ** Heaps that grow *)

(** [h'] is [h] and the new blocks [m]. *)
Definition adds (h h' m : heap) : Prop := m ##ₘ h /\ h' = m ∪ h.

Lemma adds_empty h : adds h h ∅.
Proof. split; [apply map_disjoint_empty_l|by rewrite (left_id_L ∅ (∪))]. Qed.

Lemma adds_sub h h' m m' : adds h h' m -> m' ⊆ h -> m' ⊆ h'.
Proof. intros [Hd ->] Hm. etrans; [exact Hm|]. by apply map_union_subseteq_r. Qed.

Lemma adds_in h h' m : adds h h' m -> m ⊆ h'.
Proof. intros [Hd ->]. apply map_union_subseteq_l. Qed.

Lemma adds_trans h h1 h2 m1 m2 : adds h h1 m1 -> adds h1 h2 m2 -> adds h h2 (m1 ∪ m2) /\ m1 ##ₘ m2.
Proof.
  intros [Hd ->] [Hd2 ->]. apply map_disjoint_union_r in Hd2 as [Hd1 Hd2]. repeat split.
  - by apply map_disjoint_union_l.
  - rewrite (map_union_comm m1 m2) by done. by rewrite (assoc_L (∪)).
  - done.
Qed.

Lemma adds_split h h' m1 m2 : m1 ##ₘ m2 -> adds h h' (m1 ∪ m2) -> exists h1, adds h h1 m2 /\ adds h1 h' m1.
Proof.
  intros Hd [Hd2 ->]. apply map_disjoint_union_l in Hd2 as [H1 H2]. exists (m2 ∪ h). repeat split; [done| |].
  - by apply map_disjoint_union_r.
  - by rewrite (assoc_L (∪)).
Qed.

Lemma adds_malloc h c q h' : malloc h c = (q, h') -> adds h h' {[q := c]}.
Proof.
  unfold malloc. intros [= <- <-]. split; [|by rewrite insert_union_singleton_l].
  apply map_disjoint_singleton_l, not_elem_of_dom, is_fresh.
Qed.

Lemma adds_delete h h' q c : adds h h' {[q := c]} -> delete q h' = h.
Proof.
  intros [Hd ->]. apply map_disjoint_singleton_l in Hd. rewrite <- insert_union_singleton_l. by apply delete_insert_id.
Qed.

Lemma adds_lookup h h' q c : adds h h' {[q := c]} -> h' !! q = Some c.
Proof. intros H. apply adds_in in H. eapply lookup_weaken; [apply lookup_singleton_eq|done]. Qed.

Lemma sub_lookup q c (h : heap) : {[q := c]} ⊆ h -> h !! q = Some c.
Proof. intros H. eapply lookup_weaken; [apply lookup_singleton_eq|done]. Qed.

(** The number of blocks. *)
Notation blocks h := (base.size (h : heap)).

Lemma blocks_union (m1 m2 : heap) : m1 ##ₘ m2 -> blocks (m1 ∪ m2) = (blocks m1 + blocks m2)%nat.
Proof. apply map_size_disj_union. Qed.

Lemma blocks_sub (m h : heap) : m ⊆ h -> (blocks m <= blocks h)%nat.
Proof. apply map_subseteq_size. Qed.

(** ** What a value owns *)

(** A string that [malloc] can hold whole. *)
Definition short (s : bytes) : Prop := Z.of_nat (length s) < maxInt.

Definition holds (c s : bytes) : Prop := cstr c = s /\ short s.

Inductive key := KIndex (i : Z) | KName (s : bytes).

Inductive rep_key : CZString -> key -> heap -> Prop :=
| rep_index i : rep_key (MkCZ None i) (KIndex i) ∅
| rep_name q c s : holds c s -> rep_key (MkCZ (Some (Dyn q)) duplicate) (KName s) {[q := CString c]}
| rep_static_name c s : holds c s -> rep_key (MkCZ (Some (Lit c)) noDuplication) (KName s) ∅.

Inductive rep_comment : option ptr -> option bytes -> heap -> Prop :=
| rep_no_comment : rep_comment None None ∅
| rep_a_comment q c s : holds c s -> valid_comment s = true -> rep_comment (Some q) (Some s) {[q := CString c]}.

Inductive rep_comments : option ptr -> Comments -> heap -> Prop :=
| rep_none : rep_comments None no_comments ∅
| rep_three p a b c ca cb cc ma mb mc :
    rep_comment a ca ma -> rep_comment b cb mb -> rep_comment c cc mc ->
    ma ##ₘ mb -> ma ∪ mb ##ₘ mc -> (ma ∪ mb) ∪ mc ##ₘ {[p := CComments a b c]} ->
    rep_comments (Some p) (MkComments ca cb cc) (((ma ∪ mb) ∪ mc) ∪ {[p := CComments a b c]}).

Definition index_entry (e : Z * Value) : key * Value := (KIndex e.1, e.2).
Definition name_entry (e : bytes * Value) : key * Value := (KName e.1, e.2).

Inductive rep : MValue -> Value -> heap -> Prop :=
| rep_value u al pc st li hd cm mu mc :
    rep_union u al hd mu -> rep_comments pc cm mc -> mu ##ₘ mc ->
    rep (MkM u al pc st li) (MkJson hd cm st li) (mu ∪ mc)
with rep_union : union -> bool -> holder Value -> heap -> Prop :=
| rep_null : rep_union UNull false nullValue ∅
| rep_int z : rep_union (UInt z) false (intValue z) ∅
| rep_uint z : rep_union (UUint z) false (uintValue z) ∅
| rep_real d : rep_union (UReal d) false (realValue d) ∅
| rep_bool b : rep_union (UBool b) false (booleanValue b) ∅
| rep_no_string : rep_union (UString None) false (stringValue None) ∅
| rep_string q c s : holds c s -> rep_union (UString (Some (Dyn q))) true (stringValue (Some s)) {[q := CString c]}
| rep_static c s : holds c s -> rep_union (UString (Some (Lit c))) false (stringValue (Some s)) ∅
| rep_array p l lv m :
    rep_entries l (index_entry <$> lv) m -> m ##ₘ {[p := CMap l]} ->
    rep_union (UArray p) false (arrayValue lv) (m ∪ {[p := CMap l]})
| rep_object p l lv m :
    rep_entries l (name_entry <$> lv) m -> m ##ₘ {[p := CMap l]} ->
    rep_union (UObject p) false (objectValue lv) (m ∪ {[p := CMap l]})
with rep_entries : list (CZString * MValue) -> list (key * Value) -> heap -> Prop :=
| rep_nil : rep_entries [] [] ∅
| rep_cons k v l K V L mk mv ml :
    rep_key k K mk -> rep v V mv -> rep_entries l L ml -> mk ##ₘ mv -> mk ∪ mv ##ₘ ml ->
    rep_entries ((k, v) :: l) ((K, V) :: L) ((mk ∪ mv) ∪ ml).

Scheme rep_mind := Minimality for rep Sort Prop
  with rep_union_mind := Minimality for rep_union Sort Prop
  with rep_entries_mind := Minimality for rep_entries Sort Prop.
Combined Scheme rep_mutind from rep_mind, rep_union_mind, rep_entries_mind.

(** Nested less than [n] deep. *)
Fixpoint nested (n : nat) (V : Value) : Prop :=
  match n with O => False | S n => Forall (nested n) (children (value_ V)) end.

Lemma nested_le n n' V : nested n V -> (n <= n')%nat -> nested n' V.
Proof.
  revert n' V. induction n as [|n IH]; intros [|n'] V Hn Hle; try done; [lia|]. cbn [nested] in *.
  eapply Forall_impl; [exact Hn|]. intros W HW. apply IH; [done|lia].
Qed.

Lemma index_entries_values (lv : list (Z * Value)) : (index_entry <$> lv).*2 = lv.*2.
Proof. induction lv as [|e lv IH]; [done|]. cbn. by rewrite IH. Qed.
Lemma name_entries_values (lv : list (bytes * Value)) : (name_entry <$> lv).*2 = lv.*2.
Proof. induction lv as [|e lv IH]; [done|]. cbn. by rewrite IH. Qed.

(** What is owned bounds the nesting. *)
Lemma rep_nested :
  (forall v V m, rep v V m -> nested (S (blocks m)) V) /\
  (forall u al hd m, rep_union u al hd m -> Forall (nested (blocks m)) (children hd)) /\
  (forall l L m, rep_entries l L m -> Forall (nested (S (blocks m))) L.*2).
Proof.
  apply rep_mutind; try (intros; by constructor).
  - intros u al pc st li hd cm mu mc _ IH _ Hd. cbn [nested value_]. eapply Forall_impl; [exact IH|].
    intros W HW. eapply nested_le; [exact HW|]. rewrite blocks_union by done. lia.
  - intros p l lv m _ IH Hd. rewrite index_entries_values in IH. cbn [children].
    rewrite blocks_union, map_size_singleton, Nat.add_1_r by done. done.
  - intros p l lv m _ IH Hd. rewrite name_entries_values in IH. cbn [children].
    rewrite blocks_union, map_size_singleton, Nat.add_1_r by done. done.
  - intros k v l K V L mk mv ml _ _ IHv _ IHl D1 D2. rewrite !blocks_union by done. constructor.
    + eapply nested_le; [exact IHv|lia].
    + eapply Forall_impl; [exact IHl|]. intros W HW. eapply nested_le; [exact HW|lia].
Qed.

(** ** Strings *)

Lemma duplicate_short s : short s -> cstr s = s -> duplicateStringValue s unknown = s.
Proof.
  intros Hs Hc. unfold duplicateStringValue, short, maxInt in *. rewrite Z.eqb_refl, Hc, u32_id by (unfold is_u32; lia).
  destruct (Z.leb_spec (2 ^ 31 - 1) (Z.of_nat (length s))); [lia|]. by rewrite Z.leb_refl.
Qed.

Lemma holds_deref c s q h : holds c s -> {[q := CString c]} ⊆ h -> deref h (Dyn q) = Some s.
Proof. intros [<- _] Hh%sub_lookup. cbn. by rewrite Hh. Qed.

Lemma holds_dup c s h : holds c s -> exists q h' c', dup h s unknown = (q, h') /\ holds c' s /\ adds h h' {[q := CString c']}.
Proof.
  intros [<- Hs]. unfold dup. rewrite duplicate_short by (done || apply cstr_cstr).
  destruct (malloc h (CString (cstr c ++ [x00]))) as [q h'] eqn:E. exists q, h', (cstr c ++ [x00]). split; [done|].
  split; [|by apply adds_malloc]. split; [|done]. apply cstr_app_nul, cstr_no_nul.
Qed.

Lemma holds_release c h h' q : adds h h' {[q := CString c]} -> releaseStringValue h' (Some (Dyn q)) = Some h.
Proof. intros H. cbn. rewrite (adds_lookup _ _ _ _ H). f_equal. by eapply adds_delete. Qed.

(** ** Copies *)

Lemma CZString_copy_ok k K m h :
  rep_key k K m -> m ⊆ h -> exists k' h' m', CZString_copy h k = Some (k', h') /\ adds h h' m' /\ rep_key k' K m'.
Proof.
  intros [i|q c s Hs|c s Hs] Hh; unfold CZString_copy; cbn [cstr_ index_].
  - eexists _, h, ∅. split; [done|]. split; [apply adds_empty|constructor].
  - change (duplicate =? noDuplication) with false. cbn [negb]. rewrite (holds_deref _ _ _ _ Hs Hh). cbn [mbind option_bind].
    destruct (holds_dup _ _ h Hs) as (q' & h' & c' & -> & Hc' & Ha). eexists _, h', _. split; [done|]. split; [exact Ha|]. by constructor.
  - eexists _, h, ∅. split; [done|]. split; [apply adds_empty|by constructor].
Qed.

Lemma copy_comment_ok c s m h :
  rep_comment c s m -> m ⊆ h -> exists c' h' m', copy_comment h c = Some (c', h') /\ adds h h' m' /\ rep_comment c' s m'.
Proof.
  intros [|q x t Hs Hv] Hh; unfold copy_comment.
  - eexists _, h, ∅. split; [done|]. split; [apply adds_empty|constructor].
  - rewrite (holds_deref _ _ _ _ Hs Hh). cbn [mbind option_bind]. unfold CommentInfo_setComment. cbn [fmap option_fmap option_map releaseStringValue mbind option_bind].
    rewrite Hv. assert (cstr t = t) as -> by (destruct Hs as [<- _]; apply cstr_cstr).
    destruct (holds_dup _ _ h Hs) as (q' & h' & c' & -> & Hc' & Ha). eexists _, h', _. split; [done|]. split; [exact Ha|]. by constructor.
Qed.

Lemma copy_comments_ok pc cm m h :
  rep_comments pc cm m -> m ⊆ h -> exists pc' h' m', copy_comments h pc = Some (pc', h') /\ adds h h' m' /\ rep_comments pc' cm m'.
Proof.
  intros [|p a b c ca cb cc ma mb mc Ha Hb Hc Hd1 Hd2 Hd3] Hh; unfold copy_comments.
  - eexists _, h, ∅. split; [done|]. split; [apply adds_empty|constructor].
  - assert (({[p := CComments a b c]} : heap) ⊆ h) as Hp by (etrans; [by apply map_union_subseteq_r|exact Hh]).
    rewrite (sub_lookup _ _ _ Hp).
    assert (ma ∪ mb ∪ mc ⊆ h) as Hm by (etrans; [apply map_union_subseteq_l|exact Hh]).
    assert (ma ∪ mb ⊆ h) as Hm' by (etrans; [apply map_union_subseteq_l|exact Hm]).
    destruct (copy_comment_ok _ _ _ h Ha) as (a' & h1 & m1 & -> & A1 & R1); [etrans; [apply map_union_subseteq_l|exact Hm']|].
    cbn [mbind option_bind].
    destruct (copy_comment_ok _ _ _ h1 Hb) as (b' & h2 & m2 & -> & A2 & R2).
    { eapply adds_sub; [exact A1|]. etrans; [by apply map_union_subseteq_r|exact Hm']. }
    cbn [mbind option_bind]. destruct (adds_trans _ _ _ _ _ A1 A2) as [A12 D12].
    destruct (copy_comment_ok _ _ _ h2 Hc) as (c' & h3 & m3 & -> & A3 & R3).
    { eapply adds_sub; [exact A12|]. etrans; [by apply map_union_subseteq_r|exact Hm]. }
    cbn [mbind option_bind]. destruct (adds_trans _ _ _ _ _ A12 A3) as [A13 D13].
    destruct (malloc h3 (CComments a' b' c')) as [q h4] eqn:E. apply adds_malloc in E.
    destruct (adds_trans _ _ _ _ _ A13 E) as [A14 D14]. eexists _, h4, _. split; [done|]. split; [exact A14|]. by constructor.
Qed.

Definition copies (cp : heap -> MValue -> option (MValue * heap)) (V : Value) : Prop :=
  forall v m h, rep v V m -> m ⊆ h -> exists v' h' m', cp h v = Some (v', h') /\ adds h h' m' /\ rep v' V m'.

Lemma copy_entries_ok cp l L m :
  rep_entries l L m -> Forall (copies cp) L.*2 ->
  forall h, m ⊆ h -> exists l' h' m', copy_entries cp h l = Some (l', h') /\ adds h h' m' /\ rep_entries l' L m'.
Proof.
  revert L m. induction l as [|[k v] l IH]; intros L m Hr Hcp h Hh; inversion Hr as [|? ? ? K V L' mk mv ml Hk Hv Hl D1 D2]; subst; cbn [copy_entries].
  - eexists _, h, ∅. split; [done|]. split; [apply adds_empty|constructor].
  - assert (mk ∪ mv ⊆ h) as Hkv by (etrans; [apply map_union_subseteq_l|exact Hh]).
    apply Forall_cons in Hcp as [Hcv Hcl].
    destruct (CZString_copy_ok _ _ _ h Hk) as (k' & h1 & m1 & -> & A1 & R1); [etrans; [apply map_union_subseteq_l|exact Hkv]|].
    cbn [mbind option_bind]. destruct (Hcv _ _ h1 Hv) as (v' & h2 & m2 & -> & A2 & R2).
    { eapply adds_sub; [exact A1|]. etrans; [by apply map_union_subseteq_r|exact Hkv]. }
    cbn [mbind option_bind]. destruct (adds_trans _ _ _ _ _ A1 A2) as [A12 D12].
    destruct (IH _ _ Hl Hcl h2) as (l' & h3 & m3 & -> & A3 & R3).
    { eapply adds_sub; [exact A12|]. etrans; [by apply map_union_subseteq_r|exact Hh]. }
    cbn [mbind option_bind]. destruct (adds_trans _ _ _ _ _ A12 A3) as [A13 D13].
    eexists _, h3, _. split; [done|]. split; [exact A13|]. by constructor.
Qed.

Lemma copy_map_ok cp p l L m :
  rep_entries l L m -> m ##ₘ {[p := CMap l]} ->
  Forall (copies cp) L.*2 ->
  forall h, m ∪ {[p := CMap l]} ⊆ h -> exists l' h1 q h' m',
    map_at h p = Some l /\ copy_entries cp h l = Some (l', h1) /\ malloc h1 (CMap l') = (q, h') /\
    adds h h' (m' ∪ {[q := CMap l']}) /\ rep_entries l' L m' /\ m' ##ₘ {[q := CMap l']}.
Proof.
  intros Hr Hd Hcp h Hh.
  assert (({[p := CMap l]} : heap) ⊆ h) as Hp by (etrans; [by apply map_union_subseteq_r|exact Hh]).
  destruct (copy_entries_ok cp l L m Hr Hcp h) as (l' & h1 & m1 & E & A1 & R1); [etrans; [apply map_union_subseteq_l|exact Hh]|].
  destruct (malloc h1 (CMap l')) as [q h2] eqn:E2. pose proof (adds_malloc _ _ _ _ E2) as A2.
  destruct (adds_trans _ _ _ _ _ A1 A2) as [A12 D12]. exists l', h1, q, h2, m1. split_and!; try done.
  unfold map_at. by rewrite (sub_lookup _ _ _ Hp).
Qed.

Lemma copy_union_ok cp u al hd m :
  rep_union u al hd m -> Forall (copies cp) (children hd) ->
  forall h, m ⊆ h -> exists u' al' h' m', copy_union cp h u = Some (u', al', h') /\ adds h h' m' /\ rep_union u' al' hd m'.
Proof.
  intros Hr Hcp h Hh. destruct Hr as [| | | | | |q c s Hs|c s Hs|p l lv m Hl Hd|p l lv m Hl Hd]; cbn [copy_union].
  1-6: eexists _, _, h, ∅; split; [done|]; split; [apply adds_empty|constructor].
  - rewrite (holds_deref _ _ _ _ Hs Hh). cbn [mbind option_bind].
    destruct (holds_dup _ _ h Hs) as (q' & h' & c' & -> & Hc' & Ha). eexists _, _, h', _. split; [done|]. split; [exact Ha|]. by constructor.
  - cbn [deref mbind option_bind]. assert (cstr c = s) as -> by apply Hs.
    destruct (holds_dup _ _ h Hs) as (q' & h' & c' & -> & Hc' & Ha). eexists _, _, h', _. split; [done|]. split; [exact Ha|]. by constructor.
  - cbn [children] in Hcp. rewrite <- index_entries_values in Hcp.
    destruct (copy_map_ok cp p l _ m Hl Hd Hcp h Hh) as (l' & h1 & q & h' & m' & -> & E & E2 & A & R & D).
    cbn [mbind option_bind]. rewrite E. cbn [mbind option_bind]. rewrite E2. eexists _, _, h', _. split; [done|]. split; [exact A|]. by constructor.
  - cbn [children] in Hcp. rewrite <- name_entries_values in Hcp.
    destruct (copy_map_ok cp p l _ m Hl Hd Hcp h Hh) as (l' & h1 & q & h' & m' & -> & E & E2 & A & R & D).
    cbn [mbind option_bind]. rewrite E. cbn [mbind option_bind]. rewrite E2. eexists _, _, h', _. split; [done|]. split; [exact A|]. by constructor.
Qed.

Lemma copy_ok n V : nested n V -> copies (MValue_copy n) V.
Proof.
  revert V. induction n as [|n IH]; intros V Hn v m h Hr Hh; [done|].
  destruct Hr as [u al pc st li hd cm mu mc Hu Hc Hd]. cbn [MValue_copy union_ comments_p mstart_ mlimit_].
  destruct (copy_union_ok (MValue_copy n) _ _ _ _ Hu) with (h := h) as (u' & al' & h1 & m1 & -> & A1 & R1).
  { eapply Forall_impl; [exact Hn|]. apply IH. }
  { etrans; [apply map_union_subseteq_l|exact Hh]. }
  cbn [mbind option_bind]. destruct (copy_comments_ok _ _ _ h1 Hc) as (pc' & h2 & m2 & -> & A2 & R2).
  { eapply adds_sub; [exact A1|]. etrans; [by apply map_union_subseteq_r|exact Hh]. }
  cbn [mbind option_bind]. destruct (adds_trans _ _ _ _ _ A1 A2) as [A12 D12].
  eexists _, h2, _. split; [done|]. split; [exact A12|]. by constructor.
Qed.

(** ** Destructors *)

Definition destroys (ds : heap -> MValue -> option heap) (V : Value) : Prop :=
  forall v m h h', rep v V m -> adds h h' m -> ds h' v = Some h.

Lemma CZString_destroy_ok k K m h h' : rep_key k K m -> adds h h' m -> CZString_destroy h' k = Some h.
Proof.
  intros [i|q c s Hs|c s Hs] Ha; unfold CZString_destroy; cbn [cstr_ index_].
  - destruct Ha as [_ ->]. by rewrite (left_id_L ∅ (∪)).
  - change (duplicate =? duplicate) with true. by eapply holds_release.
  - destruct Ha as [_ ->]. change (noDuplication =? duplicate) with false. by rewrite (left_id_L ∅ (∪)).
Qed.

Lemma release_comment_ok c s m h h' : rep_comment c s m -> adds h h' m -> releaseStringValue h' (Dyn <$> c) = Some h.
Proof.
  intros [|q x t Hs Hv] Ha; [destruct Ha as [_ ->]; cbn; by rewrite (left_id_L ∅ (∪))|]. by eapply holds_release.
Qed.

Lemma destroy_comments_ok pc cm m h h' : rep_comments pc cm m -> adds h h' m -> destroy_comments h' pc = Some h.
Proof.
  intros [|p a b c ca cb cc ma mb mc Ha Hb Hc Hd1 Hd2 Hd3] A; unfold destroy_comments.
  - destruct A as [_ ->]. by rewrite (left_id_L ∅ (∪)).
  - destruct (adds_split _ _ _ _ Hd3 A) as (h1 & A1 & A2).
    assert (h' !! p = Some (CComments a b c)) as ->.
    { apply sub_lookup. eapply adds_sub; [exact A2|]. by eapply adds_in. }
    rewrite <- (assoc_L (∪)) in A2. apply map_disjoint_union_l in Hd2 as [Hd2 Hd4].
    destruct (adds_split _ _ _ _ (proj2 (map_disjoint_union_r _ _ _) (conj Hd1 Hd2)) A2) as (h2 & A3 & A4).
    destruct (adds_split _ _ _ _ Hd4 A3) as (h3 & A5 & A6).
    rewrite (release_comment_ok _ _ _ _ _ Ha A4). cbn [mbind option_bind].
    rewrite (release_comment_ok _ _ _ _ _ Hb A6). cbn [mbind option_bind].
    rewrite (release_comment_ok _ _ _ _ _ Hc A5). cbn [mbind option_bind]. by rewrite (adds_delete _ _ _ _ A1).
Qed.

Lemma destroy_entries_ok ds l L m :
  rep_entries l L m -> Forall (destroys ds) L.*2 ->
  forall h h', adds h h' m -> destroy_entries ds h' l = Some h.
Proof.
  revert L m. induction l as [|[k v] l IH]; intros L m Hr Hds h h' A; inversion Hr as [|? ? ? K V L' mk mv ml Hk Hv Hl D1 D2]; subst; cbn [destroy_entries].
  - destruct A as [_ ->]. by rewrite (left_id_L ∅ (∪)).
  - apply Forall_cons in Hds as [Hdv Hdl]. rewrite (map_union_comm mk mv), <- (assoc_L (∪)) in A by done. apply map_disjoint_union_l in D2 as [D2 D3].
    destruct (adds_split _ _ _ _ (proj2 (map_disjoint_union_r _ _ _) (conj (symmetry D1) D3)) A) as (h1 & A1 & A2).
    destruct (adds_split _ _ _ _ D2 A1) as (h2 & A3 & A4).
    rewrite (Hdv _ _ _ _ Hv A2). cbn [mbind option_bind].
    rewrite (CZString_destroy_ok _ _ _ _ _ Hk A4). cbn [mbind option_bind]. by apply (IH _ _ Hl).
Qed.

Lemma destroy_map_ok ds p l L m :
  rep_entries l L m -> m ##ₘ {[p := CMap l]} ->
  Forall (destroys ds) L.*2 ->
  forall h h', adds h h' (m ∪ {[p := CMap l]}) ->
    (l ← map_at h' p; h ← destroy_entries ds h' l; Some (delete p h)) = Some h.
Proof.
  intros Hr Hd Hds h h' A. destruct (adds_split _ _ _ _ Hd A) as (h1 & A1 & A2).
  assert (map_at h' p = Some l) as ->.
  { unfold map_at. rewrite (sub_lookup p (CMap l)); [done|]. eapply adds_sub; [exact A2|]. by eapply adds_in. }
  cbn [mbind option_bind]. rewrite (destroy_entries_ok ds l L m Hr Hds _ _ A2). cbn [mbind option_bind]. by rewrite (adds_delete _ _ _ _ A1).
Qed.

Lemma destroy_union_ok ds u al hd m :
  rep_union u al hd m -> Forall (destroys ds) (children hd) ->
  forall h h', adds h h' m -> destroy_union ds h' u al = Some h.
Proof.
  intros Hr Hds h h' A. destruct Hr as [| | | | | |q c s Hs|c s Hs|p l lv m Hl Hd|p l lv m Hl Hd]; cbn [destroy_union].
  7: by eapply holds_release.
  1-7: destruct A as [_ ->]; by rewrite (left_id_L ∅ (∪)).
  all: apply (destroy_map_ok ds p l _ m Hl Hd); [|done]; cbn [children] in Hds.
  - by rewrite index_entries_values.
  - by rewrite name_entries_values.
Qed.

Lemma destroy_ok n V : nested n V -> destroys (MValue_destroy n) V.
Proof.
  revert V. induction n as [|n IH]; intros V Hn v m h h' Hr A; [done|].
  destruct Hr as [u al pc st li hd cm mu mc Hu Hc Hd].
  cbn [MValue_destroy union_ allocated_ comments_p]. destruct (adds_split _ _ _ _ Hd A) as (h1 & A1 & A2).
  rewrite (destroy_union_ok (MValue_destroy n) _ _ _ _ Hu) with (h := h1); [|..|done].
  - by eapply destroy_comments_ok.
  - eapply Forall_impl; [exact Hn|]. apply IH.
Qed.

(** ** Exchanges and assignments *)

Lemma swap_ok a A ma b B mb :
  rep a A ma -> rep b B mb -> ma ##ₘ mb ->
  exists ma' mb', rep (MValue_swap a b).1 (swap A B).1 ma' /\ rep (MValue_swap a b).2 (swap A B).2 mb' /\
    ma' ##ₘ mb' /\ ma' ∪ mb' = ma ∪ mb.
Proof.
  intros [u1 al1 p1 s1 l1 h1 c1 mu1 mc1 Hu1 Hc1 Hd1] [u2 al2 p2 s2 l2 h2 c2 mu2 mc2 Hu2 Hc2 Hd2] Hd.
  apply map_disjoint_union_l in Hd as [D1 D2]. apply map_disjoint_union_r in D1 as [D11 D12]. apply map_disjoint_union_r in D2 as [D21 D22].
  exists (mu2 ∪ mc1), (mu1 ∪ mc2). split; [by constructor|]. split; [by constructor|]. split.
  - apply map_disjoint_union_l. split; apply map_disjoint_union_r; split; done.
  - rewrite <- (assoc_L _ mu2), (assoc_L _ mc1), (map_union_comm mc1 mu1) by done.
    rewrite <- (assoc_L _ mu1 mc1), (assoc_L _ mu2 mu1), (map_union_comm mu2 mu1), <- (assoc_L _ mu1) by done.
    rewrite <- (assoc_L _ mu1). f_equal. rewrite (assoc_L _ mu2), (map_union_comm mu2 mc1), <- (assoc_L _ mc1) by done. done.
Qed.

(** The value assigned from may be the target or a part of it. *)
Lemma assign_ok n a A ma b B mb h0 h :
  rep a A ma -> rep b B mb -> nested n A -> nested n B -> adds h0 h ma -> mb ⊆ h ->
  exists a' h' ma', MValue_assign n h a b = Some (a', h') /\ adds h0 h' ma' /\ rep a' (assign A B) ma'.
Proof.
  intros Ra Rb Na Nb Aa Hb. unfold MValue_assign.
  destruct (copy_ok n B Nb b mb h Rb Hb) as (t & h1 & mt & -> & At & Rt). cbn [mbind option_bind].
  destruct (adds_trans _ _ _ _ _ Aa At) as [A1 D1].
  destruct (swap_ok _ _ _ _ _ _ Ra Rt D1) as (ma' & mt' & Ra' & Rt' & D2 & E2).
  destruct (MValue_swap a t) as [a' t'] eqn:Es. cbn [fst snd] in Ra', Rt'.
  rewrite <- E2, (map_union_comm ma' mt') in A1 by done.
  destruct (adds_split _ _ _ _ (symmetry D2) A1) as (h2 & A2 & A3).
  rewrite (destroy_ok n (swap A B).2) with (m := mt') (h := h2); [|by destruct n|done..].
  cbn [mbind option_bind]. exists a', h2, ma'. done.
Qed.

(** ** Entries *)

Lemma adds_swap a b c m1 m2 : adds a b m1 -> adds b c m2 -> exists b', adds a b' m2 /\ adds b' c m1.
Proof.
  intros A1 A2. destruct (adds_trans _ _ _ _ _ A1 A2) as [A D]. by apply adds_split.
Qed.

Lemma adds_update p c c' x y m :
  x !! p = Some c -> adds x y m -> adds (<[p := c']> x) (<[p := c']> y) m /\ y !! p = Some c.
Proof.
  intros Hx [D ->]. assert (m !! p = None) as Hm by (eapply map_disjoint_Some_r; done). repeat split.
  - by apply map_disjoint_insert_r.
  - by rewrite insert_union_r.
  - rewrite lookup_union_r by done. exact Hx.
Qed.

Lemma adds_replace p c c' x y : adds x y {[p := c]} -> adds x (<[p := c']> y) {[p := c']}.
Proof.
  intros [D ->]. apply map_disjoint_singleton_l in D. split; [by apply map_disjoint_singleton_l|].
  by rewrite <- !insert_union_singleton_l, insert_insert_eq.
Qed.

(** The entries in another order. *)
Lemma entries_middle l1 k v l2 L m :
  rep_entries (l1 ++ (k, v) :: l2) L m <->
  exists L1 K V L2, L = L1 ++ (K, V) :: L2 /\ length L1 = length l1 /\ rep_entries ((k, v) :: l1 ++ l2) ((K, V) :: L1 ++ L2) m.
Proof.
  revert L m. induction l1 as [|[k1 v1] l1 IH]; intros L m; cbn [app].
  - split.
    + intros H. inversion H as [|? ? ? K V L' mk mv ml]; subst. exists [], K, V, L'. done.
    + intros ([|] & K & V & L2 & -> & E & H); [done|discriminate].
  - split.
    + intros H. inversion H as [|? ? ? K1 V1 L' mk1 mv1 ml Hk1 Hv1 Hl D1 D2]; subst.
      apply IH in Hl as (L1 & K & V & L2 & -> & E & Hl). inversion Hl as [|? ? ? ? ? ? mk mv ml' Hk Hv Hl' D3 D4]; subst.
      exists ((K1, V1) :: L1), K, V, L2. split; [done|]. split; [cbn; by rewrite E|].
      apply map_disjoint_union_r in D2 as [D2 D5].
      assert ((mk1 ∪ mv1) ∪ ((mk ∪ mv) ∪ ml') = (mk ∪ mv) ∪ ((mk1 ∪ mv1) ∪ ml')) as ->.
      { rewrite !(assoc_L (∪) _ _ ml'). f_equal. by apply map_union_comm. }
      constructor; [done..|by constructor|done|]. apply map_disjoint_union_r. done.
    + intros ([|[K1 V1] L1] & K & V & L2 & -> & E & H); [discriminate|]. cbn [app] in *. injection E as E.
      inversion H as [|? ? ? ? ? ? mk mv ml Hk Hv Hl D1 D2]; subst. inversion Hl as [|? ? ? ? ? ? mk1 mv1 ml' Hk1 Hv1 Hl' D3 D4]; subst.
      apply map_disjoint_union_r in D2 as [D2 D5].
      assert ((mk ∪ mv) ∪ ((mk1 ∪ mv1) ∪ ml') = (mk1 ∪ mv1) ∪ ((mk ∪ mv) ∪ ml')) as ->.
      { rewrite !(assoc_L (∪) _ _ ml'). f_equal. by apply map_union_comm. }
      constructor; [done..| |done|by apply map_disjoint_union_r].
      apply IH. exists L1, K, V, L2. split; [done|]. split; [done|]. by constructor.
Qed.

Lemma entries_length l L m : rep_entries l L m -> length l = length L.
Proof. revert L m. induction l as [|e l IH]; intros L m H; inversion H; subst; [done|]. cbn. f_equal. eauto. Qed.

(** ** Looking up a name *)

Lemma rep_key_name k s m h : rep_key k (KName s) m -> m ⊆ h -> exists p, cstr_ k = Some p /\ deref h p = Some s.
Proof.
  intros H Hh. inversion H as [|q c ? Hs|c ? Hs]; subst; eexists; (split; [done|]); [by eapply holds_deref|].
  cbn. f_equal. apply Hs.
Qed.

Lemma lower_bound_ok h k p s l lv m n :
  rep_entries l (name_entry <$> lv) m -> m ⊆ h -> cstr_ k = Some p -> deref h p = Some s ->
  exists lv1 lv2 (found : bool), lv = lv1 ++ lv2 /\ Forall (fun e => name_lt e.1 s = true) lv1 /\
    (if found then exists V lv3, lv2 = (s, V) :: lv3 else match lv2 with [] => True | e :: _ => name_lt s e.1 = true end) /\
    lower_bound h k l n = Some ((n + length lv1)%nat, found).
Proof.
  revert lv m n. induction l as [|[k' v'] l IH]; intros lv m n Hr Hh Hk Hs.
  - destruct lv; [|by inversion Hr]. exists [], [], false. split; [done|]. split; [constructor|]. split; [done|]. cbn. by rewrite Nat.add_0_r.
  - destruct lv as [|[s' V'] lv]; [by inversion Hr|]. rewrite fmap_cons in Hr.
    inversion Hr as [|? ? ? K V L mk mv ml Hk' Hv Hl D1 D2]; subst. cbn [lower_bound].
    destruct (rep_key_name _ _ _ h Hk') as (p' & Ep & Es).
    { etrans; [|exact Hh]. etrans; [apply map_union_subseteq_l|apply map_union_subseteq_l]. }
    unfold CZString_lt, CZString_eq. rewrite Ep, Hk. cbn [mbind option_bind]. rewrite Es, Hs. cbn [mbind option_bind].
    destruct (name_lt s' s) eqn:E.
    + destruct (IH lv ml (S n) Hl) as (lv1 & lv2 & found & -> & H1 & H2 & H3); [|done..|].
      { etrans; [by apply map_union_subseteq_r|exact Hh]. }
      exists ((s', V') :: lv1), lv2, found. split; [done|]. split; [by constructor|]. split; [done|]. rewrite H3. cbn. f_equal. f_equal. lia.
    + exists [], ((s', V') :: lv), (bool_decide (s' = s)). split; [done|]. split; [constructor|]. cbn [length]. rewrite Nat.add_0_r.
      split; [|done]. case_bool_decide as Ee; [subst; eauto|]. cbn [fst]. destruct (name_lt s s') eqn:E'; [done|].
      destruct Ee. by apply blt_total.
Qed.

Notation before s := (Forall (fun e : bytes * Value => name_lt e.1 s = true)).

Lemma map_get_skip s (lv1 lv2 : list (bytes * Value)) : before s lv1 -> map_get name_lt s (lv1 ++ lv2) = map_get name_lt s lv2.
Proof.
  induction 1 as [|[k V] l Hk _ IH]; [done|]. cbn [app map_get fst] in *. unfold name_lt in *.
  by rewrite (blt_asym _ _ Hk), Hk.
Qed.

Lemma map_put_skip s w (lv1 lv2 : list (bytes * Value)) : before s lv1 -> map_put name_lt s w (lv1 ++ lv2) = lv1 ++ map_put name_lt s w lv2.
Proof.
  induction 1 as [|[k V] l Hk _ IH]; [done|]. cbn [app map_put fst] in *. unfold name_lt in *.
  by rewrite (blt_asym _ _ Hk), Hk, IH.
Qed.

Lemma map_del_skip s (lv1 lv2 : list (bytes * Value)) : before s lv1 -> map_del name_lt s (lv1 ++ lv2) = lv1 ++ map_del name_lt s lv2.
Proof.
  induction 1 as [|[k V] l Hk _ IH]; [done|]. cbn [app map_del fst] in *. unfold name_lt in *.
  by rewrite (blt_asym _ _ Hk), Hk, IH.
Qed.

Lemma map_put_at s V W (lv1 lv3 : list (bytes * Value)) :
  before s lv1 -> map_put name_lt s W (lv1 ++ (s, V) :: lv3) = <[length lv1 := (s, W)]> (lv1 ++ (s, V) :: lv3).
Proof.
  intros H. rewrite map_put_skip by done. cbn [map_put]. unfold name_lt. rewrite blt_irrefl.
  replace (length lv1) with (length lv1 + 0)%nat by lia. by rewrite insert_app_r.
Qed.

(** ** Members *)

(** A key the caller lends: it is copied into the map. *)
Definition lent (k : CZString) (s : bytes) : Prop :=
  exists c policy, holds c s /\ k = MkCZ (Some (Lit c)) policy /\ (policy = noDuplication \/ policy = duplicateOnCopy).

Lemma copy_lent k s h : lent k s -> exists k' h' m', CZString_copy h k = Some (k', h') /\ adds h h' m' /\ rep_key k' (KName s) m'.
Proof.
  intros (c & policy & Hs & -> & [-> | ->]); unfold CZString_copy; cbn [cstr_ index_].
  - eexists _, h, ∅. split; [done|]. split; [apply adds_empty|by constructor].
  - change (duplicateOnCopy =? noDuplication) with false. cbn [negb deref mbind option_bind]. assert (cstr c = s) as -> by apply Hs.
    destruct (holds_dup _ _ h Hs) as (q' & h' & c' & -> & Hc' & Ha). eexists _, h', _. split; [done|]. split; [exact Ha|]. by constructor.
Qed.

Lemma destroy_lent k s h : lent k s -> CZString_destroy h k = Some h.
Proof. by intros (c & policy & Hs & -> & [-> | ->]). Qed.

Lemma new_lent c s h (isStatic : bool) :
  holds c s -> exists k, CZString_new h (Lit c) (if isStatic then noDuplication else duplicateOnCopy) = Some (k, h) /\ lent k s.
Proof.
  intros Hs. exists (MkCZ (Some (Lit c)) (if isStatic then noDuplication else duplicateOnCopy)).
  split; [by destruct isStatic|]. exists c, (if isStatic then noDuplication else duplicateOnCopy). split; [done|]. split; [done|]. destruct isStatic; auto.
Qed.

Lemma lent_deref k s h : lent k s -> exists p, cstr_ k = Some p /\ deref h p = Some s.
Proof. intros (c & policy & Hs & -> & _). eexists. split; [done|]. cbn. f_equal. apply Hs. Qed.

Lemma nested_pos n V : nested n V -> (0 < n)%nat.
Proof. destruct n; [done|lia]. Qed.

Lemma rep_plain_null : rep (plain UNull false) null ∅.
Proof. rewrite <- (left_id_L ∅ (∪) ∅). constructor; [constructor|constructor|apply map_disjoint_empty_l]. Qed.

(** A map of a heap: its entries, and the block of the map. *)
Definition owns_map (h0 h : heap) (p : ptr) (lv : list (bytes * Value)) : Prop :=
  exists l m, rep_entries l (name_entry <$> lv) m /\ m ##ₘ {[p := CMap l]} /\ adds h0 h (m ∪ {[p := CMap l]}).

Lemma insert_default_ok n h0 h p l lv1 lv2 m k s :
  (0 < n)%nat -> rep_entries l (name_entry <$> (lv1 ++ lv2)) m -> m ##ₘ {[p := CMap l]} -> adds h0 h (m ∪ {[p := CMap l]}) -> lent k s ->
  exists h', insert_default n h p l (length lv1) k = Some h' /\ owns_map h0 h' p (lv1 ++ (s, null) :: lv2).
Proof.
  intros Hn Hr Hd A Hk. assert (nested n null) as Hnn by (destruct n; [lia|constructor]). unfold insert_default.
  destruct (copy_lent k s h Hk) as (k1 & h1 & m1 & -> & A1 & R1). cbn [mbind option_bind].
  destruct (copy_ok n null Hnn _ ∅ h1 rep_plain_null (map_empty_subseteq _)) as (v1 & h2 & m2 & -> & A2 & R2). cbn [mbind option_bind].
  destruct (CZString_copy_ok _ _ _ h2 R1) as (k2 & h3 & m3 & -> & A3 & R3); [eapply adds_sub; [exact A2|by eapply adds_in]|]. cbn [mbind option_bind].
  destruct (copy_ok n null Hnn _ _ h3 R2) as (v2 & h4 & m4 & -> & A4 & R4); [eapply adds_sub; [exact A3|by eapply adds_in]|]. cbn [mbind option_bind].
  set (l' := take (length lv1) l ++ (k2, v2) :: drop (length lv1) l).
  destruct (adds_split _ _ _ _ Hd A) as (ha & Ap & Am).
  destruct (adds_update _ _ (CMap l') _ _ _ (adds_lookup _ _ _ _ Ap) Am) as [Bm E0].
  destruct (adds_update _ _ (CMap l') _ _ _ E0 A1) as [B1 E1]. destruct (adds_update _ _ (CMap l') _ _ _ E1 A2) as [B2 E2].
  destruct (adds_update _ _ (CMap l') _ _ _ E2 A3) as [B3 E3]. destruct (adds_update _ _ (CMap l') _ _ _ E3 A4) as [B4 E4].
  destruct (adds_swap _ _ _ _ _ B2 B3) as (x1 & C3 & C2). destruct (adds_swap _ _ _ _ _ C2 B4) as (x2 & C4 & D2).
  rewrite (destroy_ok n null Hnn _ _ _ _ R2 D2). cbn [mbind option_bind].
  destruct (adds_swap _ _ _ _ _ B1 C3) as (y1 & D3 & D1). destruct (adds_swap _ _ _ _ _ D1 C4) as (y2 & D4 & F1).
  rewrite (CZString_destroy_ok _ _ _ _ _ R1 F1). exists y2. split; [done|].
  destruct (adds_trans _ _ _ _ _ D3 D4) as [G34 Dkv]. destruct (adds_trans _ _ _ _ _ Bm G34) as [Gm Dm].
  rewrite (map_union_comm m (m3 ∪ m4)) in Gm by done.
  destruct (adds_trans _ _ _ _ _ (adds_replace _ _ (CMap l') _ _ Ap) Gm) as [G Dp]. rewrite map_union_comm in G by done.
  exists l', ((m3 ∪ m4) ∪ m). split; [|split; [by symmetry|done]].
  rewrite fmap_app, fmap_cons. change (name_entry (s, null)) with (KName s, null). apply entries_middle. eexists _, _, _, _. split; [done|]. split.
  - pose proof (entries_length _ _ _ Hr) as El. rewrite length_fmap, length_app in El. rewrite length_fmap, length_take. lia.
  - rewrite take_drop, <- fmap_app. by constructor.
Qed.

Lemma find_or_insert_ok n h0 h p lv c s isStatic :
  (0 < n)%nat -> owns_map h0 h p lv -> holds c s ->
  exists h' lv1 V lv2, find_or_insert n h p (Lit c) isStatic = Some (h', length lv1) /\ before s lv1 /\
    owns_map h0 h' p (lv1 ++ (s, V) :: lv2) /\
    lv1 ++ (s, V) :: lv2 = match map_get name_lt s lv with Some _ => lv | None => map_put name_lt s null lv end.
Proof.
  intros Hn (l & m & Hr & Hd & A) Hs. unfold find_or_insert, map_at.
  destruct (new_lent c s h isStatic Hs) as (k & Ek & Hk).
  destruct (lent_deref k s h Hk) as (q & Eq & Es).
  assert (h !! p = Some (CMap l)) as ->.
  { apply sub_lookup. etrans; [by apply map_union_subseteq_r|by eapply adds_in]. }
  cbn [mbind option_bind]. rewrite Ek. cbn [mbind option_bind].
  destruct (lower_bound_ok h k q s l lv m 0 Hr) as (lv1 & lv2 & found & -> & H1 & H2 & ->); [|done..|].
  { etrans; [apply map_union_subseteq_l|by eapply adds_in]. }
  cbn [mbind option_bind fst snd Nat.add]. rewrite map_get_skip, map_put_skip by done. destruct found.
  - destruct H2 as (V & lv3 & ->). cbn [mbind option_bind]. rewrite (destroy_lent k s) by done. cbn [map_get fmap option_fmap option_map].
    assert (name_lt s s = false) as -> by apply blt_irrefl. exists h, lv1, V, lv3. split; [done|]. split; [done|]. split; [by exists l, m|done].
  - destruct (insert_default_ok n h0 h p l lv1 lv2 m k s Hn Hr Hd A Hk) as (h' & -> & Hm). cbn [mbind option_bind].
    rewrite (destroy_lent k s) by done. exists h', lv1, null, lv2. split; [done|]. split; [done|]. split; [done|].
    destruct lv2 as [|[k2 V2] lv2]; [done|]. cbn [map_get map_put fst] in *. by rewrite H2.
Qed.

Lemma rep_object_owns p pc st li v V m h0 h :
  rep v V m -> adds h0 h m -> v = MkM (UObject p) false pc st li ->
  exists lv cm h1 mc, V = MkJson (objectValue lv) cm st li /\ rep_comments pc cm mc /\ adds h0 h1 mc /\ owns_map h1 h p lv.
Proof.
  intros Hr A ->. inversion Hr as [? ? ? ? ? hd cm mu mc Hu Hc Hd]; subst. inversion Hu as [| | | | | | | | |? ? lv ml Hl Hdl]; subst.
  destruct (adds_split _ _ _ _ Hd A) as (h1 & A1 & A2). exists lv, cm, h1, mc. split; [done|]. split; [done|]. split; [done|]. by exists l, ml.
Qed.

Lemma owns_rep_object p pc st li lv cm mc h0 h1 h :
  rep_comments pc cm mc -> adds h0 h1 mc -> owns_map h1 h p lv ->
  exists m, rep (MkM (UObject p) false pc st li) (MkJson (objectValue lv) cm st li) m /\ adds h0 h m.
Proof.
  intros Hc A (l & ml & Hl & Hd & A2). destruct (adds_trans _ _ _ _ _ A A2) as [G D]. rewrite map_union_comm in G by done.
  eexists. split; [|exact G]. constructor; [by constructor|done|by symmetry].
Qed.

Lemma promote_ok n h0 h v V m :
  rep v V m -> nested n V -> adds h0 h m ->
  exists v' h' m', promote n h v = Some (v', h') /\ adds h0 h' m' /\ rep v' (promoted V VT.objectValue) m'.
Proof.
  intros Hr Hn A. unfold promote, promoted.
  assert (isNull V = match union_ v with UNull => true | _ => false end) as ->.
  { destruct Hr as [u al pc st li hd cm mu mc Hu Hc Hd]. by destruct Hu. }
  destruct (union_ v) eqn:Eu; try (exists v, h, m; done).
  unfold MValue_type. destruct (malloc h (CMap [])) as [p h1] eqn:Ep. apply adds_malloc in Ep.
  set (t := plain (UObject p) false).
  assert (rep t (Value_type VT.objectValue) ((∅ ∪ {[p := CMap []]}) ∪ ∅)) as Rt.
  { constructor; [|constructor|apply map_disjoint_empty_r]. apply (rep_object p [] []); [constructor|apply map_disjoint_empty_l]. }
  rewrite (left_id_L ∅ (∪)), (right_id_L ∅ (∪)) in Rt.
  assert (nested n (Value_type VT.objectValue)) as Nt by (destruct n; [done|constructor]).
  destruct (adds_swap _ _ _ _ _ A Ep) as (h2 & A1 & A2).
  destruct (assign_ok n v V m t _ _ h2 h1 Hr Rt Hn Nt A2) as (v' & h3 & m' & -> & A3 & R3); [by eapply adds_in|].
  cbn [mbind option_bind]. destruct (adds_swap _ _ _ _ _ A1 A3) as (h4 & A4 & A5).
  rewrite (destroy_ok n _ Nt _ _ _ _ Rt A5). exists v', h4, m'. done.
Qed.

(** The reference that [resolveReference] returns. *)
Definition member_at (h0 h : heap) (v : MValue) (V : Value) (s : bytes) (i : nat) : Prop :=
  exists p pc st li cm h1 mc lv1 W lv2, v = MkM (UObject p) false pc st li /\
    V = MkJson (objectValue (lv1 ++ (s, W) :: lv2)) cm st li /\ rep_comments pc cm mc /\ adds h0 h1 mc /\
    owns_map h1 h p (lv1 ++ (s, W) :: lv2) /\ before s lv1 /\ i = length lv1.

Lemma member_at_rep h0 h v V s i : member_at h0 h v V s i -> exists m, rep v V m /\ adds h0 h m.
Proof. intros (p & pc & st & li & cm & h1 & mc & lv1 & W & lv2 & -> & -> & Hc & A & Ho & _). by eapply owns_rep_object. Qed.

Lemma resolve_ok n h0 h v V V' m c isStatic :
  rep v V m -> nested n V -> adds h0 h m -> short (cstr c) -> resolveReference V c = Some V' ->
  exists v' h' i, MValue_resolve n h v (Lit c) isStatic = Some (v', h', i) /\ member_at h0 h' v' V' (cstr c) i.
Proof.
  intros Hr Hn A Hs E. unfold MValue_resolve, resolveReference in *.
  destruct (promote_ok n h0 h v V m Hr Hn A) as (v1 & h1 & m1 & -> & A1 & R1). cbn [mbind option_bind].
  destruct (promoted V VT.objectValue) as [hd cm st li]. cbn [value_] in E. destruct hd as [| | | | | | |lv]; try discriminate.
  inversion R1 as [u al pc ? ? ? ? mu mc Hu Hc Hd]; subst. inversion Hu as [| | | | | | | | |p l lv' ml Hl Hdl]; subst. cbn [union_].
  destruct (rep_object_owns p pc st li _ _ _ h0 h1 R1 A1 eq_refl) as (lv' & cm' & h2 & mc' & EV' & Hc' & A2 & Ho). injection EV' as <- <-.
  destruct (find_or_insert_ok n h2 h1 p lv c (cstr c) isStatic (nested_pos _ _ Hn) Ho) as (h' & lv1 & W & lv2 & -> & Hb & Ho' & El); [done|].
  cbn [mbind option_bind]. eexists _, h', _. split; [done|].
  exists p, pc, st, li, cm, h2, mc', lv1, W, lv2. split; [done|]. split; [|done].
  unfold set_holder in E. cbn [comments_ start_ limit_] in E. rewrite El. destruct (map_get name_lt (cstr c) lv); congruence.
Qed.

Lemma split_at {A} (l : list A) i : (i < length l)%nat -> exists l1 x l2, l = l1 ++ x :: l2 /\ length l1 = i.
Proof.
  intros Hi. destruct (lookup_lt_is_Some_2 l i Hi) as [x Hx]. exists (take i l), x, (drop (S i) l).
  split; [by rewrite take_drop_middle|]. rewrite length_take. lia.
Qed.

(** The entries at a position and the others: the value there can be replaced. *)
Lemma owns_map_focus h0 h p lv1 s V lv2 :
  owns_map h0 h p (lv1 ++ (s, V) :: lv2) ->
  exists l1 k v l2 mk mv a b hx,
    map_at h p = Some (l1 ++ (k, v) :: l2) /\ length l1 = length lv1 /\ rep v V mv /\ rep_key k (KName s) mk /\
    adds h0 a {[p := CMap (l1 ++ (k, v) :: l2)]} /\ adds a b mk /\
    (exists ml, rep_entries (l1 ++ l2) (name_entry <$> (lv1 ++ lv2)) ml /\ adds b hx ml) /\ adds hx h mv.
Proof.
  intros (l & m & Hr & Hd & A). pose proof (entries_length _ _ _ Hr) as El. rewrite length_fmap, length_app in El. cbn [length] in El.
  destruct (split_at l (length lv1) ltac:(lia)) as (l1 & [k v] & l2 & -> & E1).
  apply entries_middle in Hr as (L1 & K & W & L2 & EL & EL1 & Hr). rewrite fmap_app, fmap_cons in EL.
  apply app_inj_1 in EL as [<- EL]; [|rewrite length_fmap; lia]. injection EL as <- <- <-.
  rewrite <- fmap_app in Hr. inversion Hr as [|? ? ? ? ? ? mk mv ml Hk Hv Hl D1 D2]; subst.
  destruct (adds_split _ _ _ _ Hd A) as (a & A1 & A2). destruct (adds_split _ _ _ _ D2 A2) as (b & A3 & A4).
  destruct (adds_split _ _ _ _ D1 A4) as (c & A5 & A6). destruct (adds_swap _ _ _ _ _ A5 A6) as (d & A7 & A8).
  destruct (adds_swap _ _ _ _ _ A3 A7) as (e & A9 & A10).
  exists l1, k, v, l2, mk, mv, a, e, d. split_and!; try done; [|by exists ml].
  unfold map_at. rewrite (sub_lookup p (CMap (l1 ++ (k, v) :: l2))); [done|]. etrans; [by apply map_union_subseteq_r|by eapply adds_in].
Qed.

Lemma set_ok n h0 h v V s i w W mw :
  member_at h0 h v V s i -> rep w W mw -> mw ⊆ h -> nested n V -> nested n W ->
  exists h' lv old, MValue_set n h v i w = Some h' /\ value_ V = objectValue lv /\ map_get name_lt s lv = Some old /\
    exists m', adds h0 h' m' /\ rep v (set_holder V (objectValue (map_put name_lt s (assign old W) lv))) m'.
Proof.
  intros (p & pc & st & li & cm & h1 & mc & lv1 & old & lv2 & -> & -> & Hc & A & Ho & Hb & ->) Rw Hw NV NW.
  destruct (owns_map_focus _ _ _ _ _ _ _ Ho) as (l1 & k & v & l2 & mk & mv & a & b & hx & Em & E1 & Rv & Rk & A1 & A2 & (ml & Rl & A3) & A4).
  unfold MValue_set. cbn [union_]. rewrite Em. cbn [mbind option_bind]. rewrite <- E1, list_lookup_middle by done. cbn [mbind option_bind].
  assert (nested n old) as Nold.
  { destruct n as [|n]; [done|]. cbn [nested value_ children] in NV. rewrite fmap_app, Forall_app in NV. destruct NV as [_ NV].
    apply Forall_cons in NV as [NV _]. eapply nested_le; [exact NV|lia]. }
  destruct (assign_ok n v old mv w W mw hx h Rv Rw Nold NW A4 Hw) as (v' & h' & mv' & -> & A4' & Rv'). cbn [mbind option_bind].
  assert (<[length l1:=(k, v')]> (l1 ++ (k, v) :: l2) = l1 ++ (k, v') :: l2) as ->.
  { replace (length l1) with (length l1 + 0)%nat by lia. by rewrite insert_app_r. }
  set (c' := CMap (l1 ++ (k, v') :: l2)).
  eexists _, (lv1 ++ (s, old) :: lv2), old. split; [done|]. split; [done|]. split.
  { rewrite map_get_skip by done. cbn [map_get]. assert (name_lt s s = false) as -> by apply blt_irrefl. done. }
  destruct (adds_update _ _ c' _ _ _ (adds_lookup _ _ _ _ A1) A2) as [B2 E2]. destruct (adds_update _ _ c' _ _ _ E2 A3) as [B3 E3].
  destruct (adds_update _ _ c' _ _ _ E3 A4') as [B4 E4]. pose proof (adds_replace _ _ c' _ _ A1) as B1.
  destruct (adds_swap _ _ _ _ _ B3 B4) as (y & B5 & B6). destruct (adds_trans _ _ _ _ _ B2 B5) as [B7 D7].
  destruct (adds_trans _ _ _ _ _ B7 B6) as [B8 D8]. destruct (adds_trans _ _ _ _ _ B1 B8) as [B9 D9]. rewrite map_union_comm in B9 by done.
  unfold set_holder. cbn [comments_ start_ limit_]. rewrite map_put_at by done.
  assert (<[length lv1:=(s, assign old W)]> (lv1 ++ (s, old) :: lv2) = lv1 ++ (s, assign old W) :: lv2) as ->.
  { replace (length lv1) with (length lv1 + 0)%nat by lia. by rewrite insert_app_r. }
  assert (owns_map h1 (<[p:=c']> h') p (lv1 ++ (s, assign old W) :: lv2)) as Ho'.
  { eexists _, _. split; [|split; [symmetry; exact D9|exact B9]]. rewrite fmap_app, fmap_cons. change (name_entry (s, ?x)) with (KName s, x).
    apply entries_middle. eexists _, _, _, _. split; [done|]. split; [by rewrite length_fmap|]. rewrite <- fmap_app. by constructor. }
  destruct (owns_rep_object _ _ st li _ _ _ _ _ _ Hc A Ho') as (m' & R & A'). eauto.
Qed.

Lemma erase_at_ok n h0 h p lv1 s V lv2 l :
  nested n V -> owns_map h0 h p (lv1 ++ (s, V) :: lv2) -> map_at h p = Some l ->
  exists r h' h1 mr, erase_at n h p l (length lv1) = Some (r, h') /\ owns_map h0 h1 p (lv1 ++ lv2) /\ adds h1 h' mr /\ rep r V mr.
Proof.
  intros Hn Ho Hl. destruct (owns_map_focus _ _ _ _ _ _ _ Ho) as (l1 & k & v & l2 & mk & mv & a & b & hx & Em & E1 & Rv & Rk & A1 & A2 & (ml & Rl & A3) & A4).
  rewrite Em in Hl. injection Hl as <-. unfold erase_at. rewrite <- E1, list_lookup_middle by done. cbn [mbind option_bind].
  destruct (copy_ok n V Hn v mv h Rv) as (r & h1 & mr & -> & A5 & Rr); [by eapply adds_in|]. cbn [mbind option_bind].
  assert (delete (length l1) (l1 ++ (k, v) :: l2) = l1 ++ l2) as -> by by rewrite delete_middle.
  set (c' := CMap (l1 ++ l2)).
  destruct (adds_update _ _ c' _ _ _ (adds_lookup _ _ _ _ A1) A2) as [B2 E2]. destruct (adds_update _ _ c' _ _ _ E2 A3) as [B3 E3].
  destruct (adds_update _ _ c' _ _ _ E3 A4) as [B4 E4]. destruct (adds_update _ _ c' _ _ _ E4 A5) as [B5 _].
  pose proof (adds_replace _ _ c' _ _ A1) as B1.
  destruct (adds_swap _ _ _ _ _ B4 B5) as (x1 & C5 & C4). rewrite (destroy_ok n V Hn _ _ _ _ Rv C4). cbn [mbind option_bind].
  destruct (adds_swap _ _ _ _ _ B2 B3) as (x2 & C3 & C2). destruct (adds_swap _ _ _ _ _ C2 C5) as (x3 & D5 & D2).
  rewrite (CZString_destroy_ok _ _ _ _ _ Rk D2). cbn [fmap option_fmap option_map].
  exists r, x3, x2, mr. split; [done|]. split; [|done].
  destruct (adds_trans _ _ _ _ _ B1 C3) as [G D]. rewrite map_union_comm in G by done. eexists _, _. split; [exact Rl|]. split; [by symmetry|done].
Qed.

Lemma remove_ok n h0 h v V m c R V' :
  rep v V m -> nested n V -> adds h0 h m -> short (cstr c) -> removeMember V c = Some (R, V') ->
  exists r h' h1 m' mr, MValue_removeMember n h v (Lit c) = Some (r, h') /\
    adds h0 h1 m' /\ rep v V' m' /\ adds h1 h' mr /\ rep r R mr.
Proof.
  intros Hr Hn A Hs E. assert (nested n null) as Hnn by (destruct n; [done|constructor]).
  assert (exists r h' mr, MValue_copy n h (plain UNull false) = Some (r, h') /\ adds h h' mr /\ rep r null mr) as (r & h' & mr & Ec & Ac & Rc).
  { by apply (copy_ok n null Hnn _ ∅ h rep_plain_null), map_empty_subseteq. }
  unfold removeMember in E. destruct V as [hd cm st li]. cbn [value_] in E. destruct hd as [| | | | | | |lv]; try discriminate.
  - injection E as <- <-. inversion Hr as [? al pc ? ? ? ? mu mc Hu Hc Hd]; subst. inversion Hu; subst. unfold MValue_removeMember. cbn [union_].
    rewrite Ec. eexists r, h', h, _, mr. split_and!; done.
  - inversion Hr as [? al pc ? ? ? ? mu mc Hu Hc Hd]; subst. inversion Hu as [| | | | | | | | |p l lv' ml Hl Hdl]; subst. unfold MValue_removeMember. cbn [union_].
    destruct (rep_object_owns p pc st li _ _ _ h0 h Hr A eq_refl) as (lv' & cm' & h2 & mc' & EV' & Hc' & A2 & Ho). injection EV' as <- <-.
    assert (map_at h p = Some l) as Em.
    { unfold map_at. rewrite (sub_lookup p (CMap l)); [done|]. etrans; [|by eapply adds_in]. etrans; [by apply map_union_subseteq_r|apply map_union_subseteq_l]. }
    rewrite Em. cbn [mbind option_bind]. destruct (new_lent c (cstr c) h true) as (k & Ek & Hk); [done|]. rewrite Ek. cbn [mbind option_bind].
    destruct (lent_deref k _ h Hk) as (q & Eq & Es).
    destruct (lower_bound_ok h k q (cstr c) l lv ml 0 Hl) as (lv1 & lv2 & found & -> & H1 & H2 & ->); [|done..|].
    { etrans; [|by eapply adds_in]. etrans; [apply map_union_subseteq_l|apply map_union_subseteq_l]. }
    cbn [mbind option_bind fst snd Nat.add]. rewrite map_get_skip in E by done. destruct found.
    + destruct H2 as (V & lv3 & ->). cbn [map_get] in E. assert (name_lt (cstr c) (cstr c) = false) as Elt by apply blt_irrefl. rewrite Elt in E.
      injection E as <- <-. assert (nested n V) as NV.
      { destruct n as [|n]; [done|]. cbn [nested value_ children] in Hn. rewrite fmap_app, Forall_app in Hn. destruct Hn as [_ Hn].
        apply Forall_cons in Hn as [Hn _]. eapply nested_le; [exact Hn|lia]. }
      destruct (erase_at_ok n h2 h p lv1 (cstr c) V lv3 l NV Ho Em) as (r' & h3 & h4 & mr' & -> & Ho' & A4 & R4). cbn [mbind option_bind].
      rewrite (destroy_lent k (cstr c)) by done. cbn [fmap option_fmap option_map].
      rewrite map_del_skip by done. cbn [map_del]. rewrite Elt.
      destruct (owns_rep_object _ _ st li _ _ _ _ _ _ Hc' A2 Ho') as (m' & R' & A'). exists r', h3, h4, m', mr'. split_and!; done.
    + assert (map_get name_lt (cstr c) lv2 = None) as En by (destruct lv2 as [|[k2 V2] lv2]; [done|]; cbn [map_get fst] in *; by rewrite H2).
      rewrite En in E. injection E as <- <-. rewrite Ec. cbn [mbind option_bind]. rewrite (destroy_lent k (cstr c)) by done.
      cbn [fmap option_fmap option_map]. eexists r, h', h, _, mr. split_and!; done.
Qed.

(** ** Setting a comment *)

Lemma slot_ok x y old s m text :
  rep_comment old s m -> adds x y m -> short (cstr text) -> valid_comment text = true ->
  exists q h' m', CommentInfo_setComment y old text = Some (Some q, h', false) /\ adds x h' m' /\ rep_comment (Some q) (Some (cstr text)) m'.
Proof.
  intros Hr A Hs Hv. unfold CommentInfo_setComment. rewrite (release_comment_ok _ _ _ _ _ Hr A). cbn [mbind option_bind]. rewrite Hv.
  assert (holds (cstr text) (cstr text)) as Hh by (split; [apply cstr_cstr|done]).
  destruct (holds_dup _ _ x Hh) as (q & h' & c' & -> & Hc' & A'). exists q, h', {[q := CString c']}. split; [done|]. split; [done|].
  constructor; [done|]. unfold valid_comment in *. by rewrite cstr_cstr.
Qed.

Lemma chain_comments hu y1 y2 y3 y4 p a b c ca cb cc ma mb mc :
  adds hu y1 {[p := CComments a b c]} -> adds y1 y2 mc -> adds y2 y3 mb -> adds y3 y4 ma ->
  rep_comment a ca ma -> rep_comment b cb mb -> rep_comment c cc mc ->
  exists m, rep_comments (Some p) (MkComments ca cb cc) m /\ adds hu y4 m.
Proof.
  intros A1 A2 A3 A4 Ra Rb Rc. destruct (adds_trans _ _ _ _ _ A3 A4) as [B1 D1]. rewrite map_union_comm in B1 by done.
  destruct (adds_trans _ _ _ _ _ A2 B1) as [B2 D2]. rewrite map_union_comm in B2 by done.
  destruct (adds_trans _ _ _ _ _ A1 B2) as [B3 D3]. rewrite map_union_comm in B3 by done.
  eexists. split; [|exact B3]. constructor; try done; by symmetry.
Qed.

Definition put_comment (cm : Comments) (pl : CommentPlacement) (t : option bytes) : Comments :=
  match pl with
  | commentBefore => MkComments t (c_same cm) (c_after cm)
  | commentAfterOnSameLine => MkComments (c_before cm) t (c_after cm)
  | commentAfter => MkComments (c_before cm) (c_same cm) t
  end.

Lemma set_slot_ok hu h p a b c cm mc text pl :
  rep_comments (Some p) cm mc -> adds hu h mc -> h !! p = Some (CComments a b c) -> short (cstr text) -> valid_comment text = true ->
  exists q h' m',
    CommentInfo_setComment h match pl with commentBefore => a | commentAfterOnSameLine => b | commentAfter => c end text = Some (Some q, h', false) /\
    adds hu (<[p := match pl with
                    | commentBefore => CComments (Some q) b c
                    | commentAfterOnSameLine => CComments a (Some q) c
                    | commentAfter => CComments a b (Some q)
                    end]> h') m' /\
    rep_comments (Some p) (put_comment cm pl (Some (cstr text))) m'.
Proof.
  intros Hr A Hp Hs Hv. inversion Hr as [|? a' b' c' ca cb cc ma mb mc' Ra Rb Rc D1 D2 D3]; subst.
  destruct (adds_split _ _ _ _ D3 A) as (y1 & A1 & B1). destruct (adds_split _ _ _ _ D2 B1) as (y2 & A2 & B2).
  destruct (adds_split _ _ _ _ D1 B2) as (y3 & A3 & A4).
  assert (CComments a' b' c' = CComments a b c) as E.
  { assert (h !! p = Some (CComments a' b' c')) by (apply sub_lookup; eapply adds_sub; [exact B1|by eapply adds_in]). congruence. }
  injection E as -> -> ->. pose proof (adds_lookup _ _ _ _ A1) as E1. destruct pl; cbn [put_comment c_before c_same c_after].
  - destruct (slot_ok _ _ _ _ _ _ Ra A4 Hs Hv) as (q & h' & m' & -> & A5 & R). exists q, h'.
    set (cell := CComments (Some q) b c). pose proof (adds_replace _ _ cell _ _ A1) as C1.
    destruct (adds_update _ _ cell _ _ _ E1 A2) as [C2 E2]. destruct (adds_update _ _ cell _ _ _ E2 A3) as [C3 E3].
    destruct (adds_update _ _ cell _ _ _ E3 A5) as [C4 _].
    destruct (chain_comments _ _ _ _ _ _ _ _ _ _ _ _ _ _ _ C1 C2 C3 C4 R Rb Rc) as (m & ? & ?). eauto.
  - destruct (adds_swap _ _ _ _ _ A3 A4) as (z & A3' & A4'). destruct (slot_ok _ _ _ _ _ _ Rb A4' Hs Hv) as (q & h' & m' & -> & A5 & R). exists q, h'.
    set (cell := CComments a (Some q) c). pose proof (adds_replace _ _ cell _ _ A1) as C1.
    destruct (adds_update _ _ cell _ _ _ E1 A2) as [C2 E2]. destruct (adds_update _ _ cell _ _ _ E2 A3') as [C3 E3].
    destruct (adds_update _ _ cell _ _ _ E3 A5) as [C4 _]. destruct (adds_swap _ _ _ _ _ C3 C4) as (z' & C5 & C6).
    destruct (chain_comments _ _ _ _ _ _ _ _ _ _ _ _ _ _ _ C1 C2 C5 C6 Ra R Rc) as (m & ? & ?). eauto.
  - destruct (adds_swap _ _ _ _ _ A2 A3) as (z & A2' & A3'). destruct (adds_swap _ _ _ _ _ A3' A4) as (z2 & A3'' & A4').
    destruct (slot_ok _ _ _ _ _ _ Rc A4' Hs Hv) as (q & h' & m' & -> & A5 & R). exists q, h'.
    set (cell := CComments a b (Some q)). pose proof (adds_replace _ _ cell _ _ A1) as C1.
    destruct (adds_update _ _ cell _ _ _ E1 A2') as [C2 E2]. destruct (adds_update _ _ cell _ _ _ E2 A3'') as [C3 E3].
    destruct (adds_update _ _ cell _ _ _ E3 A5) as [C4 _]. destruct (adds_swap _ _ _ _ _ C3 C4) as (z' & C5 & C6).
    destruct (adds_swap _ _ _ _ _ C2 C5) as (z'' & C7 & C8).
    destruct (chain_comments _ _ _ _ _ _ _ _ _ _ _ _ _ _ _ C1 C7 C8 C6 Ra Rb R) as (m & ? & ?). eauto.
Qed.

Lemma setComment_ok h0 h v V m text pl V' :
  rep v V m -> adds h0 h m -> short (cstr text) -> setComment V text pl = Some V' ->
  exists v' h' m', MValue_setComment h v text pl = Some (v', h', false) /\ adds h0 h' m' /\ rep v' V' m'.
Proof.
  intros Hr A Hs E. unfold setComment in E. destruct (valid_comment text) eqn:Hv; [|done]. injection E as <-.
  rewrite duplicate_short, cstr_cstr by (done || apply cstr_cstr).
  destruct Hr as [u al pc st li hd cm mu mc Hu Hc Hd]. rewrite (map_union_comm mu mc) in A by done.
  destruct (adds_split _ _ _ _ (symmetry Hd) A) as (hu & A1 & A2). unfold MValue_setComment. cbn [comments_p union_ allocated_ mstart_ mlimit_].
  assert (exists p h1 mc1 cm1 a b c, (match pc with Some p => (p, h) | None => malloc h (CComments None None None) end) = (p, h1) /\
    rep_comments (Some p) cm1 mc1 /\ cm1 = cm /\ adds hu h1 mc1 /\ h1 !! p = Some (CComments a b c)) as (p & h1 & mc1 & cm1 & a & b & c & -> & Rc & -> & A3 & Ep).
  { inversion Hc as [|p a b c ca cb cc ma mb mc' Ra Rb Rc D1 D2 D3]; subst.
    - destruct (malloc h _) as [p h1] eqn:Em. apply adds_malloc in Em. destruct A2 as [_ ->]. rewrite (left_id_L ∅ (∪)) in Em.
      eexists p, h1, (((∅ ∪ ∅) ∪ ∅) ∪ _), no_comments, None, None, None. split; [done|]. split.
      { constructor; try constructor; rewrite ?(left_id_L ∅ (∪)); apply map_disjoint_empty_l. }
      split; [done|]. rewrite !(left_id_L ∅ (∪)). split; [exact Em|]. by eapply adds_lookup.
    - eexists p, h, _, _, a, b, c. split; [done|]. split; [exact Hc|]. split; [done|]. split; [done|].
      apply sub_lookup. etrans; [by apply map_union_subseteq_r|by eapply adds_in]. }
  rewrite Ep. destruct (set_slot_ok hu h1 p a b c cm mc1 text pl Rc A3 Ep Hs Hv) as (q & h' & m' & -> & A4 & R4). cbn [mbind option_bind].
  destruct (adds_trans _ _ _ _ _ A1 A4) as [G D]. eexists _, _, (mu ∪ m'). split; [done|]. split; [exact G|].
  cbn [value_ start_ limit_ comments_]. change (match pl with commentBefore => MkComments (Some (cstr text)) (c_same cm) (c_after cm) | _ => _ end) with (put_comment cm pl (Some (cstr text))).
  by constructor.
Qed.

(** ** Programs that use values *)

(** Local variables, in the order they are made; the arguments are indices. *)
Inductive json_op :=
| MakeType (t : VT.ValueType) | MakeInt (z : Z) | MakeUInt (z : Z) | MakeDouble (d : double) | MakeBool (b : bool)
| MakeCstr (s : bytes) | MakeString (s : bytes) | MakeStatic (s : bytes)
| CopyOf (i : nat) | Assign (i j : nat) | Put (i : nat) (key : bytes) (isStatic : bool) (j : nat)
| Remove (i : nat) (key : bytes) | Comment (i : nat) (text : bytes) (pl : CommentPlacement).

(** Recursion no deeper than there are blocks. *)
Definition room (h : heap) : nat := S (blocks h).

Definition run_op (vs : list MValue) (h : heap) (o : json_op) : option (list MValue * heap) :=
  let made r := let '(v, h) := r in Some (vs ++ [v], h) in
  match o with
  | MakeType t => made (MValue_type h t)
  | MakeInt z => made (plain (UInt z) false, h)
  | MakeUInt z => made (plain (UUint z) false, h)
  | MakeDouble d => made (plain (UReal d) false, h)
  | MakeBool b => made (plain (UBool b) false, h)
  | MakeCstr s => made (MValue_cstr h s)
  | MakeString s => made (MValue_string h s)
  | MakeStatic s => made (MValue_static s, h)
  | CopyOf i => v ← vs !! i; r ← MValue_copy (room h) h v; made r
  | Assign i j => v ← vs !! i; w ← vs !! j; '(v, h) ← MValue_assign (room h) h v w; Some (<[i := v]> vs, h)
  | Put i key isStatic j =>
      v ← vs !! i; '(v, h, pos) ← MValue_resolve (room h) h v (Lit key) isStatic;
      let vs := <[i := v]> vs in
      w ← vs !! j; h ← MValue_set (room h) h v pos w; Some (vs, h)
  | Remove i key => v ← vs !! i; r ← MValue_removeMember (room h) h v (Lit key); made r
  | Comment i text pl =>
      v ← vs !! i; '(v, h, threw) ← MValue_setComment h v text pl;
      if (threw : bool) then None else Some (<[i := v]> vs, h)
  end.

(** The same on the values of [JsonValue.v]. *)
Definition abs_op (Vs : list Value) (o : json_op) : option (list Value) :=
  match o with
  | MakeType t => Some (Vs ++ [Value_type t])
  | MakeInt z => Some (Vs ++ [Value_int z])
  | MakeUInt z => Some (Vs ++ [Value_uint z])
  | MakeDouble d => Some (Vs ++ [Value_double d])
  | MakeBool b => Some (Vs ++ [Value_bool b])
  | MakeCstr s => Some (Vs ++ [Value_cstr s])
  | MakeString s => Some (Vs ++ [Value_string s])
  | MakeStatic s => Some (Vs ++ [Value_static s])
  | CopyOf i => V ← Vs !! i; Some (Vs ++ [V])
  | Assign i j => V ← Vs !! i; W ← Vs !! j; Some (<[i := assign V W]> Vs)
  | Put i key _ j =>
      V ← Vs !! i; V ← resolveReference V key;
      let Vs := <[i := V]> Vs in
      W ← Vs !! j; V ← put_name V key W; Some (<[i := V]> Vs)
  | Remove i key => V ← Vs !! i; '(R, V) ← removeMember V key; Some (<[i := V]> Vs ++ [R])
  | Comment i text pl => V ← Vs !! i; V ← setComment V text pl; Some (<[i := V]> Vs)
  end.

Fixpoint run_ops (vs : list MValue) (h : heap) (os : list json_op) : option (list MValue * heap) :=
  match os with [] => Some (vs, h) | o :: os => '(vs, h) ← run_op vs h o; run_ops vs h os end.
Fixpoint abs_ops (Vs : list Value) (os : list json_op) : option (list Value) :=
  match os with [] => Some Vs | o :: os => Vs ← abs_op Vs o; abs_ops Vs os end.

(** The end of the scope. *)
Fixpoint destroy_all (vs : list MValue) (h : heap) : option heap :=
  match vs with [] => Some h | v :: vs => h ← MValue_destroy (room h) h v; destroy_all vs h end.

(** The texts of the program fit in memory. *)
Definition op_short (o : json_op) : Prop :=
  match o with
  | MakeStatic s | Put _ s _ _ | Remove _ s | Comment _ s _ => short (cstr s)
  | _ => True
  end.

(** The variables own the heap, each its part. *)
Inductive rep_all : list MValue -> list Value -> heap -> Prop :=
| rep_all_nil : rep_all [] [] ∅
| rep_all_cons v vs V Vs m1 m2 : rep v V m1 -> rep_all vs Vs m2 -> m1 ##ₘ m2 -> rep_all (v :: vs) (V :: Vs) (m1 ∪ m2).

Lemma rep_all_focus vs Vs h i v :
  rep_all vs Vs h -> vs !! i = Some v ->
  exists V m h0, Vs !! i = Some V /\ rep v V m /\ adds h0 h m /\
    forall v' V' m' h', rep v' V' m' -> adds h0 h' m' -> rep_all (<[i := v']> vs) (<[i := V']> Vs) h'.
Proof.
  intros Hr. revert i. induction Hr as [|u vs U Vs m1 m2 Hu Hr IH Hd]; intros i Hi; [done|]. destruct i as [|i]; cbn in Hi.
  - injection Hi as ->. exists U, m1, m2. split; [done|]. split; [done|]. split; [done|].
    intros v' V' m' h' Hv [D ->]. cbn. by constructor.
  - destruct (IH i Hi) as (V & m & h0 & E & Hv & A & Hc).
    assert (adds m2 (m1 ∪ m2) m1) as A1 by done. destruct (adds_swap _ _ _ _ _ A A1) as (x & A2 & A3).
    exists V, m, x. split; [done|]. split; [done|]. split; [done|]. intros v' V' m' h' Hv' A'. cbn.
    destruct (adds_swap _ _ _ _ _ A2 A') as (y & A4 & A5). destruct A5 as [D5 ->]. constructor; [done| |done]. by apply (Hc v' V' m').
Qed.

Lemma rep_all_snoc vs Vs h v V m h' : rep_all vs Vs h -> rep v V m -> adds h h' m -> rep_all (vs ++ [v]) (Vs ++ [V]) h'.
Proof.
  intros Hr. revert h'. induction Hr as [|u vs U Vs m1 m2 Hu Hr IH Hd]; intros h' Hv A; cbn [app].
  - destruct A as [D ->]. constructor; [done|constructor|done].
  - assert (adds m2 (m1 ∪ m2) m1) as A1 by done. destruct (adds_swap _ _ _ _ _ A1 A) as (x & A2 & A3).
    destruct A3 as [D3 ->]. constructor; [done| |done]. by apply IH.
Qed.

Lemma rep_all_lookup vs Vs h i V : rep_all vs Vs h -> Vs !! i = Some V -> exists v, vs !! i = Some v.
Proof.
  intros Hr. revert i. induction Hr as [|u vs U Vs m1 m2 Hu Hr IH Hd]; intros i Hi; [done|]. destruct i as [|i]; [by eexists|]. by apply IH.
Qed.

Lemma rep_room v V m h : rep v V m -> m ⊆ h -> nested (room h) V.
Proof.
  intros Hr Hh. eapply nested_le; [by apply (proj1 rep_nested v V m)|]. apply blocks_sub in Hh. unfold room. lia.
Qed.

(** Fresh values. *)
Lemma rep_fresh u al hd m : rep_union u al hd m -> rep (plain u al) (fresh hd) m.
Proof. intros H. rewrite <- (right_id_L ∅ (∪) m). constructor; [done|constructor|apply map_disjoint_empty_r]. Qed.

Lemma duplicate_is_short s n : 0 <= n -> short (cstr (duplicateStringValue s n)).
Proof.
  intros Hn. assert (forall t, (length (cstr t) <= length t)%nat) as Hc.
  { induction t as [|b t IH]; [done|]. cbn [cstr]. destruct (decide _); cbn [length]; lia. }
  unfold short. eapply Z.le_lt_trans; [apply inj_le, Hc|].
  unfold duplicateStringValue. set (k := if n =? unknown then _ else n).
  assert (0 <= (if maxInt <=? k then maxInt - 1 else k) < maxInt).
  { destruct (Z.leb_spec maxInt k); [unfold maxInt; lia|]. split; [|done]. unfold k. destruct (n =? unknown); [apply u32_range|done]. }
  destruct (Z.leb_spec (Z.of_nat (length s)) (if maxInt <=? k then maxInt - 1 else k)); [lia|]. rewrite length_take. lia.
Qed.

Lemma rep_duplicated h s n :
  0 <= n -> exists q h' c, dup h s n = (q, h') /\ holds c (cstr (duplicateStringValue s n)) /\ adds h h' {[q := CString c]}.
Proof.
  intros Hn. unfold dup. destruct (malloc h _) as [q h'] eqn:E. exists q, h', (duplicateStringValue s n ++ [x00]). split; [done|].
  split; [|by apply adds_malloc]. split; [apply cstr_app_stop|by apply duplicate_is_short].
Qed.

Lemma make_ok vs Vs h u al hd m h' :
  rep_all vs Vs h -> rep_union u al hd m -> adds h h' m -> rep_all (vs ++ [plain u al]) (Vs ++ [fresh hd]) h'.
Proof. intros Hr Hu A. eapply rep_all_snoc; [done|by apply rep_fresh|done]. Qed.

Lemma make_type_ok vs Vs h t :
  rep_all vs Vs h -> exists v h', MValue_type h t = (v, h') /\ rep_all (vs ++ [v]) (Vs ++ [Value_type t]) h'.
Proof.
  intros Hr. unfold Value_type. destruct t; cbn [MValue_type].
  1-6: eexists _, h; split; [done|]; eapply make_ok; [done|constructor|apply adds_empty].
  all: destruct (malloc h (CMap [])) as [p h'] eqn:E; apply adds_malloc in E; eexists _, h'; (split; [done|]);
    eapply make_ok; [done| |rewrite <- (left_id_L ∅ (∪) {[p := _]}) in E; exact E].
  - apply (rep_array p [] []); [constructor|apply map_disjoint_empty_l].
  - apply (rep_object p [] []); [constructor|apply map_disjoint_empty_l].
Qed.

Lemma make_dup_ok vs Vs h s n :
  rep_all vs Vs h -> 0 <= n -> exists q h', dup h s n = (q, h') /\
    rep_all (vs ++ [plain (UString (Some (Dyn q))) true]) (Vs ++ [fresh (stringValue (Some (cstr (duplicateStringValue s n))))]) h'.
Proof.
  intros Hr Hn. destruct (rep_duplicated h s n Hn) as (q & h' & c & E & Hc & A). exists q, h'. split; [done|].
  eapply make_ok; [done|by constructor|done].
Qed.

Lemma resolve_again h0 h v V c i : member_at h0 h v V (cstr c) i -> resolveReference V c = Some V.
Proof.
  intros (p & pc & st & li & cm & h1 & mc & lv1 & W & lv2 & -> & -> & _ & _ & _ & Hb & _).
  unfold resolveReference, promoted. cbn [isNull value_]. rewrite map_get_skip by done. cbn [map_get].
  assert (name_lt (cstr c) (cstr c) = false) as -> by apply blt_irrefl. done.
Qed.

(** An operation does on the heap what it does on the values. *)
Definition op_ok (o : json_op) : Prop :=
  forall vs Vs h Vs', rep_all vs Vs h -> op_short o -> abs_op Vs o = Some Vs' ->
  exists vs' h', run_op vs h o = Some (vs', h') /\ rep_all vs' Vs' h'.

Lemma make_type_op_ok t : op_ok (MakeType t).
Proof.
  intros vs Vs h Vs' Hr Hs E. cbn [abs_op run_op op_short] in *. injection E as <-.
  destruct (make_type_ok vs Vs h t Hr) as (v & h' & -> & ?). eauto.
Qed.

Lemma make_cstr_op_ok s : op_ok (MakeCstr s).
Proof.
  intros vs Vs h Vs' Hr Hs E. cbn [abs_op run_op op_short] in *. injection E as <-.
  unfold MValue_cstr. destruct (make_dup_ok vs Vs h s unknown Hr) as (q & h' & -> & ?); [done|]. eauto.
Qed.

Lemma make_string_op_ok s : op_ok (MakeString s).
Proof.
  intros vs Vs h Vs' Hr Hs E. cbn [abs_op run_op op_short] in *. injection E as <-.
  unfold MValue_string. destruct (make_dup_ok vs Vs h s (u32 (Z.of_nat (length s))) Hr) as (q & h' & -> & ?); [apply u32_range|]. eauto.
Qed.

Lemma make_static_op_ok s : op_ok (MakeStatic s).
Proof.
  intros vs Vs h Vs' Hr Hs E. cbn [abs_op run_op op_short] in *. injection E as <-.
  eexists _, h. split; [done|]. eapply make_ok; [done|by constructor|apply adds_empty].
Qed.

Lemma copy_op_ok i : op_ok (CopyOf i).
Proof.
  intros vs Vs h Vs' Hr Hs E. cbn [abs_op run_op op_short] in *.
  destruct (Vs !! i) as [V|] eqn:EV; [|done]. injection E as <-.
  destruct (rep_all_lookup _ _ _ _ _ Hr EV) as [v Ev]. rewrite Ev. cbn [mbind option_bind].
  destruct (rep_all_focus _ _ _ _ _ Hr Ev) as (V' & m & h0 & EV' & Rv & A & _). rewrite EV in EV'. injection EV' as <-.
  assert (nested (room h) V) as NV by (eapply rep_room; [exact Rv|by eapply adds_in]).
  destruct (copy_ok (room h) V NV v m h Rv) as (v' & h' & m' & -> & A' & R'); [by eapply adds_in|].
  eexists _, h'. split; [done|]. by eapply rep_all_snoc.
Qed.

Lemma assign_op_ok i j : op_ok (Assign i j).
Proof.
  intros vs Vs h Vs' Hr Hs E. cbn [abs_op run_op op_short] in *.
  destruct (Vs !! i) as [V|] eqn:EV; [|done]. destruct (Vs !! j) as [W|] eqn:EW; [|done]. injection E as <-.
  destruct (rep_all_lookup _ _ _ _ _ Hr EV) as [v Ev]. destruct (rep_all_lookup _ _ _ _ _ Hr EW) as [w Ew]. rewrite Ev. cbn [mbind option_bind]. rewrite Ew. cbn [mbind option_bind].
  destruct (rep_all_focus _ _ _ _ _ Hr Ev) as (V' & m & h0 & EV' & Rv & A & Hc). rewrite EV in EV'. injection EV' as <-.
  destruct (rep_all_focus _ _ _ _ _ Hr Ew) as (W' & mw & h1 & EW' & Rw & Aw & _). rewrite EW in EW'. injection EW' as <-.
  destruct (assign_ok (room h) v V m w W mw h0 h Rv Rw) as (v' & h' & m' & -> & A' & R'); [..|done|by eapply adds_in|].
  { eapply rep_room; [exact Rv|by eapply adds_in]. } { eapply rep_room; [exact Rw|by eapply adds_in]. }
  eexists _, h'. split; [done|]. by eapply Hc.
Qed.

Lemma put_op_ok i key st j : op_ok (Put i key st j).
Proof.
  intros vs Vs h Vs' Hr Hs E. cbn [abs_op run_op op_short] in *.
  destruct (Vs !! i) as [V|] eqn:EV; [|done]. cbn [mbind option_bind] in E. destruct (resolveReference V key) as [V1|] eqn:EV1; [|done]. cbn [mbind option_bind] in E.
  destruct (<[i:=V1]> Vs !! j) as [W|] eqn:EW; [|done]. cbn [mbind option_bind] in E. destruct (put_name V1 key W) as [V2|] eqn:EV2; [|done]. injection E as <-.
  destruct (rep_all_lookup _ _ _ _ _ Hr EV) as [v Ev]. rewrite Ev. cbn [mbind option_bind].
  destruct (rep_all_focus _ _ _ _ _ Hr Ev) as (V' & m & h0 & EV' & Rv & A & Hc). rewrite EV in EV'. injection EV' as <-.
  destruct (resolve_ok (room h) h0 h v V V1 m key st Rv) as (v1 & h1 & pos & -> & Hm); [|done..|].
  { eapply rep_room; [exact Rv|by eapply adds_in]. }
  cbn [mbind option_bind]. destruct (member_at_rep _ _ _ _ _ _ Hm) as (m1 & R1 & A1).
  pose proof (Hc _ _ _ _ R1 A1) as Hr1. destruct (rep_all_lookup _ _ _ _ _ Hr1 EW) as [w Ew]. rewrite Ew. cbn [mbind option_bind].
  destruct (rep_all_focus _ _ _ _ _ Hr1 Ew) as (W' & mw & hw & EW' & Rw & Aw & _). rewrite EW in EW'. injection EW' as <-.
  destruct (set_ok (room h1) h0 h1 v1 V1 (cstr key) pos w W mw Hm Rw) as (h2 & lv & old & -> & Elv & Eold & m2 & A2 & R2).
  { by eapply adds_in. } { eapply rep_room; [exact R1|by eapply adds_in]. } { eapply rep_room; [exact Rw|by eapply adds_in]. }
  cbn [mbind option_bind]. eexists _, h2. split; [done|].
  unfold put_name in EV2. rewrite (resolve_again _ _ _ _ _ _ Hm) in EV2. cbn [mbind option_bind] in EV2.
  rewrite Elv in EV2. rewrite Eold in EV2. injection EV2 as <-. rewrite list_insert_insert_eq. by eapply Hc.
Qed.

Lemma remove_op_ok i key : op_ok (Remove i key).
Proof.
  intros vs Vs h Vs' Hr Hs E. cbn [abs_op run_op op_short] in *.
  destruct (Vs !! i) as [V|] eqn:EV; [|done]. cbn [mbind option_bind] in E. destruct (removeMember V key) as [[R V1]|] eqn:ER; [|done]. injection E as <-.
  destruct (rep_all_lookup _ _ _ _ _ Hr EV) as [v Ev]. rewrite Ev. cbn [mbind option_bind].
  destruct (rep_all_focus _ _ _ _ _ Hr Ev) as (V' & m & h0 & EV' & Rv & A & Hc). rewrite EV in EV'. injection EV' as <-.
  destruct (remove_ok (room h) h0 h v V m key R V1 Rv) as (r & h' & h1 & m' & mr & -> & A1 & R1 & Ar & Rr); [|done..|].
  { eapply rep_room; [exact Rv|by eapply adds_in]. }
  cbn [mbind option_bind]. eexists _, h'. split; [done|]. eapply rep_all_snoc; [|exact Rr|exact Ar].
  pose proof (Hc _ _ _ _ R1 A1) as Hr1. by rewrite (list_insert_id vs i v Ev) in Hr1.
Qed.

Lemma comment_op_ok i text pl : op_ok (Comment i text pl).
Proof.
  intros vs Vs h Vs' Hr Hs E. cbn [abs_op run_op op_short] in *.
  destruct (Vs !! i) as [V|] eqn:EV; [|done]. cbn [mbind option_bind] in E. destruct (setComment V text pl) as [V1|] eqn:EV1; [|done]. injection E as <-.
  destruct (rep_all_lookup _ _ _ _ _ Hr EV) as [v Ev]. rewrite Ev. cbn [mbind option_bind].
  destruct (rep_all_focus _ _ _ _ _ Hr Ev) as (V' & m & h0 & EV' & Rv & A & Hc). rewrite EV in EV'. injection EV' as <-.
  destruct (setComment_ok h0 h v V m text pl V1 Rv A Hs EV1) as (v' & h' & m' & -> & A' & R'). cbn [mbind option_bind].
  eexists _, h'. split; [done|]. by eapply Hc.
Qed.

Lemma run_op_ok o : op_ok o.
Proof.
  destruct o; auto using make_type_op_ok, make_cstr_op_ok, make_string_op_ok, make_static_op_ok, copy_op_ok, assign_op_ok, put_op_ok,
    remove_op_ok, comment_op_ok.
  all: intros vs Vs h Vs' Hr _ E; injection E as <-; eexists _, h; split; [done|]; eapply make_ok; [done|constructor|apply adds_empty].
Qed.

Lemma run_ops_ok vs Vs h os Vs' :
  rep_all vs Vs h -> Forall op_short os -> abs_ops Vs os = Some Vs' ->
  exists vs' h', run_ops vs h os = Some (vs', h') /\ rep_all vs' Vs' h'.
Proof.
  intros Hr Hs. revert vs Vs h Hr. induction Hs as [|o os Ho _ IH]; intros vs Vs h Hr E; cbn [abs_ops run_ops] in *.
  - injection E as <-. eauto.
  - destruct (abs_op Vs o) as [Vs1|] eqn:E1; [|done]. cbn [mbind option_bind] in E.
    destruct (run_op_ok _ _ _ _ _ Hr Ho E1) as (vs1 & h1 & -> & Hr1). cbn [mbind option_bind]. eauto.
Qed.

Lemma destroy_all_ok vs Vs h : rep_all vs Vs h -> destroy_all vs h = Some ∅.
Proof.
  induction 1 as [|v vs V Vs m1 m2 Hv _ IH Hd]; [done|]. cbn [destroy_all].
  rewrite (destroy_ok (room (m1 ∪ m2)) V) with (m := m1) (h := m2); [done|..|done|done].
  eapply rep_room; [exact Hv|apply map_union_subseteq_l].
Qed.

(** ** The properties *)

(** C15. A program makes, copies, assigns, stores to members of, removes members
    from and comments JSON values, in any order in which no operation is refused
    ([abs_ops] is defined: members of objects only, comments that begin with a
    slash, names and texts below 2^31 bytes; [setComment] throws on others, after which the old comment is freed
    twice, [refused_comment_is_freed_twice]).  None of it reads or frees
    memory that is not there, the variables hold what the pure model says, each in
    blocks of its own and nothing else is allocated; when they are destroyed
    every block has been freed once. *)
Theorem values_own_their_memory os Vs :
  Forall op_short os -> abs_ops [] os = Some Vs ->
  exists vs h, run_ops [] ∅ os = Some (vs, h) /\ rep_all vs Vs h /\ destroy_all vs h = Some ∅.
Proof.
  intros Hs E. destruct (run_ops_ok [] [] ∅ os Vs) as (vs & h & E' & Hr); [constructor|done..|].
  exists vs, h. split; [done|]. split; [done|]. by eapply destroy_all_ok.
Qed.

(** [CZString::operator=] lets the old name go and makes one of its own. *)
Lemma CZString_assign_ok a K ma b K' mb h0 h :
  rep_key a K ma -> rep_key b K' mb -> adds h0 h ma -> mb ⊆ h ->
  exists a' h' ma', CZString_assign h a b = Some (a', h') /\ adds h0 h' ma' /\ rep_key a' K' ma'.
Proof.
  intros Ra Rb A Hb. unfold CZString_assign. destruct (CZString_copy_ok b K' mb h Rb Hb) as (t & h1 & mt & -> & At & Rt).
  cbn [mbind option_bind]. destruct (adds_swap _ _ _ _ _ A At) as (h2 & A1 & A2).
  rewrite (CZString_destroy_ok _ _ _ _ _ Ra A2). cbn [mbind option_bind]. exists t, h2, mt. done.
Qed.

Lemma released_is_gone x y z q c : adds x y {[q := c]} -> z ⊆ x -> releaseStringValue z (Dyn <$> Some q) = None.
Proof.
  intros [D _] Hz. apply map_disjoint_singleton_l in D. cbn. by rewrite (lookup_weaken_None _ _ _ D Hz).
Qed.

Lemma refuse_slot x y q s m text :
  rep_comment (Some q) (Some s) m -> adds x y m -> valid_comment text = false ->
  exists c, m = {[q := CString c]} /\ CommentInfo_setComment y (Some q) text = Some (Some q, x, true).
Proof.
  intros Hr A Hv. inversion Hr as [|? c ? Hs Hc]; subst. exists c. split; [done|]. unfold CommentInfo_setComment.
  rewrite (release_comment_ok _ _ _ _ _ Hr A). cbn [mbind option_bind]. by rewrite Hv.
Qed.

(** The blocks of a value, the one of its comment last. *)
Lemma comment_focus v V m h0 h pl s :
  rep v V m -> adds h0 h m -> comment_at (comments_ V) pl = Some s ->
  exists p a b c mu mq q y1 y2 y3 y4,
    v = MkM (union_ v) (allocated_ v) (Some p) (mstart_ v) (mlimit_ v) /\
    rep_union (union_ v) (allocated_ v) (value_ V) mu /\ rep_comment (Some q) (Some s) mq /\
    match pl with commentBefore => a | commentAfterOnSameLine => b | commentAfter => c end = Some q /\
    adds h0 y1 {[p := CComments a b c]} /\ y1 ⊆ y2 /\ y2 ⊆ y3 /\ adds y3 y4 mu /\ adds y4 h mq /\
    match pl with
    | commentBefore => True
    | commentAfterOnSameLine => releaseStringValue y3 (Dyn <$> a) = Some y2
    | commentAfter => releaseStringValue y3 (Dyn <$> a) = Some y2 /\ releaseStringValue y2 (Dyn <$> b) = Some y1
    end.
Proof.
  intros [u al pc st li hd cm mu mc Hu Hc Hd] A E. rewrite map_union_comm in A by done.
  destruct (adds_split _ _ _ _ (symmetry Hd) A) as (x & Au & Ac). cbn [comments_ value_ union_ allocated_ mstart_ mlimit_] in *.
  inversion Hc as [|p a b c ca cb cc ma mb mc' Ra Rb Rc D1 D2 D3]; subst; [by destruct pl|].
  destruct (adds_swap _ _ _ _ _ Au Ac) as (xc & Bc & Bu).
  destruct (adds_split _ _ _ _ D3 Bc) as (y1 & A1 & B1). destruct (adds_split _ _ _ _ D2 B1) as (y2 & A2 & B2).
  destruct (adds_split _ _ _ _ D1 B2) as (y3 & A3 & A4). exists p, a, b, c, mu.
  assert (forall u w m, adds u w m -> u ⊆ w) as Hsub by (intros u' w m' [D ->]; by apply map_union_subseteq_r).
  destruct pl; cbn [comment_at c_before c_same c_after] in E; subst.
  - inversion Ra as [|q t ? Hs Hv]; subst. destruct (adds_swap _ _ _ _ _ A4 Bu) as (z & C1 & C2).
    exists {[q := CString t]}, q, y1, y2, y3, z. split_and!; try done; eauto.
  - inversion Rb as [|q t ? Hs Hv]; subst. destruct (adds_swap _ _ _ _ _ A3 A4) as (z1 & C1 & C2). destruct (adds_swap _ _ _ _ _ C2 Bu) as (z2 & C3 & C4).
    exists {[q := CString t]}, q, y1, y2, z1, z2. split_and!; try done; eauto. by eapply release_comment_ok.
  - inversion Rc as [|q t ? Hs Hv]; subst. destruct (adds_swap _ _ _ _ _ A2 A3) as (z1 & C1 & C2). destruct (adds_swap _ _ _ _ _ C2 A4) as (z2 & C3 & C4).
    destruct (adds_swap _ _ _ _ _ C4 Bu) as (z3 & C5 & C6).
    exists {[q := CString t]}, q, y1, z1, z2, z3. split_and!; try done; eauto; by eapply release_comment_ok.
Qed.

(** A text that is no comment is refused with an exception only after the old
    comment was freed: the value keeps a pointer to it and its destructor frees
    it again. *)
Theorem refused_comment_is_freed_twice v V m h0 h s text pl n :
  rep v V m -> adds h0 h m -> nested n V -> valid_comment text = false -> comment_at (comments_ V) pl = Some s ->
  exists v' h', MValue_setComment h v text pl = Some (v', h', true) /\ MValue_destroy n h' v' = None.
Proof.
  intros Hr A Hn Hv E. destruct (comment_focus _ _ _ _ _ _ _ Hr A E)
    as (p & a & b & c & mu & mq & q & y1 & y2 & y3 & y4 & -> & Hu & Hq & Eq & A1 & S1 & S2 & A3 & A4 & Hrel).
  destruct (refuse_slot _ _ _ _ _ _ Hq A4 Hv) as (t & -> & Es).
  assert (forall z, y1 ⊆ z -> z !! p = Some (CComments a b c)) as Hp by (intros z Hz; eapply lookup_weaken; [by eapply adds_lookup|done]).
  assert (y3 ⊆ y4) as S3 by (destruct A3 as [D ->]; by apply map_union_subseteq_r).
  assert (y4 ⊆ h) as S4 by (destruct A4 as [D ->]; by apply map_union_subseteq_r).
  unfold MValue_setComment. cbn [comments_p union_ allocated_ mstart_ mlimit_]. rewrite (Hp h) by (do 3 (etrans; [eassumption|]); done).
  rewrite Eq, Es. cbn [mbind option_bind].
  eexists _, _. split; [done|]. destruct n as [|n]; [done|]. cbn [MValue_destroy union_ allocated_ comments_p].
  assert (<[p := match pl with
                 | commentBefore => CComments (Some q) b c
                 | commentAfterOnSameLine => CComments a (Some q) c
                 | commentAfter => CComments a b (Some q) end]> y4 = y4) as ->.
  { apply insert_id. rewrite (Hp y4) by (do 2 (etrans; [eassumption|]); done). by destruct pl; subst. }
  rewrite (destroy_union_ok (MValue_destroy n) _ _ _ _ Hu) with (h := y3); [|eapply Forall_impl; [exact Hn|apply destroy_ok]|done].
  cbn [mbind option_bind]. unfold destroy_comments. rewrite (Hp y3) by (etrans; eassumption).
  destruct pl; subst.
  - by rewrite (released_is_gone _ _ _ _ _ A4).
  - rewrite Hrel. cbn [mbind option_bind]. rewrite (released_is_gone _ _ _ _ _ A4); [done|]. by etrans.
  - destruct Hrel as [-> Hrel]. cbn [mbind option_bind]. rewrite Hrel. cbn [mbind option_bind].
    rewrite (released_is_gone _ _ _ _ _ A4); [done|]. etrans; [exact S1|]. by etrans.
Qed.

Definition demo_ops : list json_op :=
  [MakeType VT.objectValue; MakeString (lit "value"); Put 0 (lit "b") false 1; MakeStatic (lit "text"); Put 0 (lit "a") true 2;
   Comment 0 (lit "// note") commentBefore; CopyOf 0; Put 3 (lit "self") false 3; Remove 0 (lit "b"); Assign 1 3].

Lemma values_own_their_memory_witness :
  exists vs h, run_ops [] ∅ demo_ops = Some (vs, h) /\ destroy_all vs h = Some ∅.
Proof.
  destruct (abs_ops [] demo_ops) as [Vs|] eqn:E; [|vm_compute in E; discriminate].
  destruct (values_own_their_memory demo_ops Vs) as (vs & h & E1 & _ & E2); [|exact E|eauto].
  repeat constructor.
Defined.
