(* ===== verification/JsonPath.v ===== *)
(** Paths and iterators of [common/jsoncpp.cpp], [common/json.h]: [Path] with its
    arguments, [ValueIteratorBase].

    A reference into a value is an update of the node it leads to; [None] is a
    failed assertion, undefined behaviour or a call that does not return. *)

From S2P Require Import Prelude Cstd Util Double JsonValue JsonValueSpec.

(** ** Paths *)

Inductive PathArgument := kindNone | kindIndex (index : Z) | kindKey (key : bytes).

#[global] Instance PathArgument_eq_dec : EqDecision PathArgument.
Proof. solve_decision. Defined.

Inductive Kind := IsNone | IsIndex | IsKey.

#[global] Instance Kind_eq_dec : EqDecision Kind.
Proof. solve_decision. Defined.

Definition kind_ (a : PathArgument) : Kind :=
  match a with kindNone => IsNone | kindIndex _ => IsIndex | kindKey _ => IsKey end.

(** [PathArgument()], [PathArgument(ArrayIndex)], [PathArgument(const char * )] *)
Definition no_argument : PathArgument := kindNone.
Definition index_argument (index : Z) : PathArgument := kindIndex index.
Definition cstr_argument (s : bytes) : PathArgument := kindKey (cstr s).

(** [PathArgument(const std::string &)] *)
Definition key_argument (s : bytes) : PathArgument := kindKey (cstr s).

(** The iterator over the arguments is never moved: it is the first one's. *)
Definition addPathInArg (ins : list PathArgument) (kind : Kind) (args : list PathArgument) : list PathArgument :=
  match ins with
  | [] => args
  | a :: _ => if decide (kind_ a = kind) then args ++ [a] else args
  end.

(** [for (; current != end && isdigit; ++current) index = index * 10 + digit] *)
Fixpoint index_loop (index : Z) (s : bytes) : Z * bytes :=
  match s with
  | c :: s' => if (48 <=? bz c) && (bz c <=? 57) then index_loop (u32 (index * 10 + (bz c - 48))) s' else (index, s)
  | [] => (index, [])
  end.

(** [while (current != end && !strchr("[.", *current))]: the terminator of a string
    is one of its characters for [strchr]. *)
Fixpoint name_loop (s : bytes) : bytes * bytes :=
  match s with
  | c :: s' =>
      if bool_decide (c = "["%byte) || bool_decide (c = "."%byte) || bool_decide (c = x00) then ([], s)
      else let '(name, rest) := name_loop s' in (c :: name, rest)
  | [] => ([], [])
  end.

(** One pass of the loop: the arguments and what is left. *)
Definition path_turn (ins : list PathArgument) (args : list PathArgument) (current : bytes) : list PathArgument * bytes :=
  match current with
  | [] => (args, [])
  | c :: s =>
      if decide (c = "["%byte) then
        let '(args, s) :=
          match s with
          | d :: _ => if decide (d = "%"%byte) then (addPathInArg ins IsIndex args, s)
                      else let '(i, s) := index_loop 0 s in (args ++ [kindIndex i], s)
          | [] => (args ++ [kindIndex 0], [])
          end in
        (args, drop 1 s)
      else if decide (c = "%"%byte) then (addPathInArg ins IsKey args, s)
      else if decide (c = "."%byte) then (args, s)
      else let '(name, s) := name_loop current in (args ++ [key_argument name], s)
  end.

Fixpoint path_loop (fuel : nat) (ins args : list PathArgument) (current : bytes) : option (list PathArgument) :=
  match current with
  | [] => Some args
  | _ :: _ =>
      match fuel with
      | O => None
      | S fuel => let '(args, current) := path_turn ins args current in path_loop fuel ins args current
      end
  end.

Definition makePath (path : bytes) (ins : list PathArgument) : option (list PathArgument) :=
  path_loop (length path) ins [] path.

(** [Path::Path] with its five arguments. *)
Definition Path_new (path : bytes) (a1 a2 a3 a4 a5 : PathArgument) : option (list PathArgument) :=
  makePath path [a1; a2; a3; a4; a5].

(** [resolve(root)]: a missing node is [Value::null]. *)
Fixpoint resolve (args : list PathArgument) (node : Value) : option Value :=
  match args with
  | [] => Some node
  | kindIndex i :: args => r ← get_index node i; resolve args (default null r)
  | kindKey k :: args => r ← get_name node k; resolve args (default null r)
  | kindNone :: args => resolve args node
  end.

(** [resolve(root, defaultValue)] *)
Fixpoint resolve_default (args : list PathArgument) (node defaultValue : Value) : option Value :=
  match args with
  | [] => Some node
  | kindIndex i :: args =>
      if negb (isArray node) || negb (isValidIndex node i) then Some defaultValue
      else r ← get_index node i; resolve_default args (default null r) defaultValue
  | kindKey k :: args =>
      if negb (isObject node) then Some defaultValue
      else
        r ← get_name node k;
        match r with None => Some defaultValue | Some node => resolve_default args node defaultValue end
  | kindNone :: args => resolve_default args node defaultValue
  end.

(** [make(root)], as an update [f] of the node it gives a reference to. *)
Fixpoint make (args : list PathArgument) (f : Value -> option Value) (node : Value) : option Value :=
  match args with
  | [] => f node
  | kindIndex i :: args =>
      node ← at_index node i;
      match value_ node with
      | arrayValue l =>
          w ← map_get index_lt i l; w ← make args f w;
          Some (set_holder node (arrayValue (map_put index_lt i w l)))
      | _ => None
      end
  | kindKey k :: args =>
      node ← resolveReference node k;
      match value_ node with
      | objectValue l =>
          w ← map_get name_lt (cstr k) l; w ← make args f w;
          Some (set_holder node (objectValue (map_put name_lt (cstr k) w l)))
      | _ => None
      end
  | kindNone :: args => make args f node
  end.

(** ** Iterators *)

(** An entry of the map of a value: its [CZString] and its value. *)
Definition entry : Type := (Z + bytes) * Value.

Definition entries (v : Value) : option (list entry) :=
  match value_ v with
  | arrayValue l => Some ((fun x => (inl x.1, x.2)) <$> l)
  | objectValue l => Some ((fun x => (inr x.1, x.2)) <$> l)
  | _ => None
  end.

(** [isNull_], or a place among the entries, the end included. *)
Inductive iterator := NullIterator | At (l : list entry) (i : nat).

Definition begin_ (v : Value) : iterator := match entries v with Some l => At l 0 | None => NullIterator end.
Definition end_ (v : Value) : iterator := match entries v with Some l => At l (length l) | None => NullIterator end.

Definition current_ (it : iterator) : option entry := match it with At l i => l !! i | NullIterator => None end.

Definition deref (it : iterator) : option Value := snd <$> current_ it.

Definition increment (it : iterator) : option iterator :=
  match it with
  | At l i => if (i <? length l)%nat then Some (At l (S i)) else None
  | NullIterator => None
  end.

Definition decrement (it : iterator) : option iterator :=
  match it with
  | At l i => if (0 <? i)%nat then Some (At l (i - 1)) else None
  | NullIterator => None
  end.

(** Iterators of the same value: the loop goes from the one to the other. *)
Definition computeDistance (it other : iterator) : option Z :=
  match it, other with
  | NullIterator, NullIterator => Some 0
  | At _ i, At _ j => if (i <=? j)%nat then Some (Z.of_nat (j - i)) else None
  | _, _ => None
  end.

Definition isEqual (it other : iterator) : option bool :=
  match it, other with
  | NullIterator, NullIterator => Some true
  | NullIterator, At _ _ => Some false
  | At _ i, At _ j => Some (i =? j)%nat
  | At _ _, NullIterator => None
  end.

Definition key (it : iterator) : option Value :=
  e ← current_ it; Some (match e.1 with inr name => Value_cstr name | inl i => Value_uint i end).

Definition index (it : iterator) : option Z :=
  e ← current_ it; Some (match e.1 with inr _ => u32 (-1) | inl i => i end).

Definition memberName (it : iterator) : option bytes :=
  e ← current_ it; Some (match e.1 with inr name => name | inl _ => [] end).

(** ** Reading and writing paths *)

(** Names that a path can spell. *)
Definition name_char (c : byte) : bool :=
  negb (bool_decide (c = "["%byte) || bool_decide (c = "."%byte) || bool_decide (c = x00)).

Definition argument_ok (a : PathArgument) : Prop :=
  match a with
  | kindNone => False
  | kindIndex i => is_u32 i
  | kindKey k => k <> [] /\ Forall (fun c => name_char c = true) k /\ head k <> Some "%"%byte
  end.

Definition argument_text (a : PathArgument) : bytes :=
  match a with kindNone => [] | kindIndex i => lit "[" ++ udec i ++ lit "]" | kindKey k => lit "." ++ k end.

Definition path_text (args : list PathArgument) : bytes := concat (argument_text <$> args).

Lemma index_loop_app ds : forall a rest,
  Forall (fun b => isdigit b = true) ds -> no_digit rest ->
  index_loop (u32 a) (ds ++ rest) = (u32 (foldl (fun a b => a * 10 + (bz b - 48)) a ds), rest).
Proof.
  induction ds as [|b ds IH]; intros a rest Hd Hr.
  - cbn [foldl app]. destruct rest as [|c rest]; [done|]. cbn [index_loop]. unfold no_digit in Hr. cbn [starts_digit] in Hr.
    unfold isdigit in Hr. by rewrite Hr.
  - inversion_clear Hd as [|? ? Hb Hds]. rewrite <- app_comm_cons. cbn [index_loop foldl]. unfold isdigit in Hb. rewrite Hb.
    assert (u32 (u32 a * 10 + (bz b - 48)) = u32 (a * 10 + (bz b - 48))) as ->; [|by apply IH].
    unfold u32. by rewrite Zplus_mod, Zmult_mod, Zmod_mod, <- Zmult_mod, <- Zplus_mod.
Qed.

(** What may follow an argument. *)
Definition stops (s : bytes) : Prop := match s with [] => True | c :: _ => name_char c = false end.

Lemma name_loop_app k : forall rest,
  Forall (fun c => name_char c = true) k -> stops rest -> name_loop (k ++ rest) = (k, rest).
Proof.
  induction k as [|c k IH]; intros rest Hk Hr.
  - cbn [app]. destruct rest as [|c rest]; [done|]. cbn [name_loop]. cbn [stops] in Hr. unfold name_char in Hr.
    apply negb_false_iff in Hr. by rewrite Hr.
  - inversion_clear Hk as [|? ? Hc Hk']. rewrite <- app_comm_cons. cbn [name_loop]. unfold name_char in Hc. apply negb_true_iff in Hc.
    rewrite Hc. by rewrite IH.
Qed.

Lemma path_text_stops args : Forall argument_ok args -> stops (path_text args).
Proof. intros H. destruct H as [|a args Ha _]; [done|]. by destruct a. Qed.

Lemma name_cstr k : Forall (fun c => name_char c = true) k -> cstr k = k.
Proof.
  intros H. apply cstr_id. eapply Forall_impl; [exact H|]. intros c Hc ->. done.
Qed.

(** The turns over the text of one argument. *)
Lemma path_argument a ins args rest fuel :
  argument_ok a -> stops rest -> (length (argument_text a ++ rest) <= fuel)%nat ->
  exists fuel', (length rest <= fuel')%nat /\ path_loop fuel ins args (argument_text a ++ rest) = path_loop fuel' ins (args ++ [a]) rest.
Proof.
  intros Ha Hr Hf. destruct a as [|i|k]; [done| |].
  - cbn [argument_text]. destruct (udec_spec i) as (Hne & Hd & Hv); [unfold argument_ok, is_u32 in Ha; lia|].
    rewrite <- !app_assoc. destruct fuel as [|fuel]; [cbn in Hf; lia|]. exists fuel.
    split; [rewrite !length_app in Hf; cbn in Hf; rewrite !length_app in Hf; lia|].
    change (lit "[" ++ udec i ++ lit "]" ++ rest) with ("["%byte :: udec i ++ lit "]" ++ rest). cbn [path_loop path_turn].
    rewrite decide_True by done. pose proof (index_loop_app (udec i) 0 (lit "]" ++ rest) Hd eq_refl) as Hi. rewrite Hv in Hi.
    change (u32 0) with 0 in Hi. rewrite u32_id in Hi by done. rewrite Hi.
    destruct (udec i ++ lit "]" ++ rest) as [|d s] eqn:Eu; [by destruct (udec i)|].
    assert (d <> "%"%byte) as Hdp.
    { destruct (udec i) as [|d' ds]; [done|]. inversion_clear Hd as [|? ? Hd' _]. injection Eu as -> _. by intros ->. }
    by rewrite decide_False by done.
  - destruct Ha as (Hne & Hk & Hp). cbn [argument_text]. rewrite <- app_assoc. destruct fuel as [|fuel]; [cbn in Hf; lia|].
    change (lit "." ++ k ++ rest) with ("."%byte :: k ++ rest) in *. cbn [length] in Hf. rewrite length_app in Hf.
    cbn [path_loop path_turn]. rewrite decide_False, decide_False, decide_True by done.
    destruct k as [|c k]; [done|]. destruct fuel as [|fuel]; [cbn in Hf; lia|]. exists fuel. split; [cbn in Hf; lia|].
    pose proof (name_loop_app (c :: k) rest Hk Hr) as Hn. rewrite <- app_comm_cons in *. cbn [path_loop path_turn].
    assert (c <> "["%byte /\ c <> "."%byte) as [H1 H2] by (inversion_clear Hk as [|? ? Hc _]; split; by intros ->).
    rewrite decide_False by done. rewrite decide_False by (intros ->; done). rewrite decide_False by done. rewrite Hn.
    unfold key_argument. by rewrite (name_cstr _ Hk).
Qed.

Lemma path_loop_text ins args : forall done fuel,
  Forall argument_ok args -> (length (path_text args) <= fuel)%nat -> path_loop fuel ins done (path_text args) = Some (done ++ args).
Proof.
  induction args as [|a args IH]; intros dn fuel Ho Hf.
  - cbn. destruct fuel; cbn; by rewrite app_nil_r.
  - inversion_clear Ho as [|? ? Ha Hargs]. unfold path_text in *. cbn [fmap list_fmap concat] in *.
    destruct (path_argument a ins dn (concat (argument_text <$> args)) fuel Ha (path_text_stops args Hargs) Hf) as (fuel' & Hf' & ->).
    rewrite IH by done. by rewrite <- app_assoc.
Qed.

(** A path reads back the arguments it was written from. *)
Theorem path_roundtrip args ins : Forall argument_ok args -> makePath (path_text args) ins = Some args.
Proof. intros Ho. unfold makePath. by rewrite path_loop_text. Qed.

Lemma index_loop_length s : forall i, (length (index_loop i s).2 <= length s)%nat.
Proof. induction s as [|c s IH]; intros i; cbn [index_loop]; [done|]. destruct (_ && _); [|done]. specialize (IH (u32 (i * 10 + (bz c - 48)))). cbn [length]. lia. Qed.

Lemma name_loop_length s : (length (name_loop s).2 <= length s)%nat.
Proof. induction s as [|c s IH]; cbn [name_loop]; [done|]. destruct (_ || _); [done|]. destruct (name_loop s). cbn [snd length] in *. lia. Qed.

Lemma index_loop_suffix s : forall i, exists p, s = p ++ (index_loop i s).2.
Proof.
  induction s as [|c s IH]; intros i; cbn [index_loop]; [by exists []|]. destruct (_ && _); [|by exists []].
  destruct (IH (u32 (i * 10 + (bz c - 48)))) as [p Hp]. exists (c :: p). cbn [app]. by rewrite <- Hp.
Qed.

Lemma name_loop_suffix s : exists p, s = p ++ (name_loop s).2.
Proof.
  induction s as [|c s [p IH]]; cbn [name_loop]; [by exists []|]. destruct (_ || _); [by exists []|].
  destruct (name_loop s) as [n r]. exists (c :: p). cbn [snd app] in *. by rewrite <- IH.
Qed.

(** Without a NUL every turn takes something. *)
Lemma path_turn_shrinks ins args s :
  s <> [] -> Forall (fun c => c <> x00) s ->
  (length (path_turn ins args s).2 < length s)%nat /\ Forall (fun c => c <> x00) (path_turn ins args s).2.
Proof.
  intros Hne Hn. destruct s as [|c s]; [done|]. inversion_clear Hn as [|? ? Hc Hs]. cbn [path_turn].
  destruct (decide (c = "["%byte)).
  - destruct s as [|d s]; [cbn; split; [lia|constructor]|]. destruct (decide (d = "%"%byte)).
    + cbn [snd]. rewrite length_drop. cbn [length]. split; [lia|by apply Forall_drop].
    + pose proof (index_loop_length (d :: s) 0) as Hl. destruct (index_loop_suffix (d :: s) 0) as [p Hp].
      destruct (index_loop 0 (d :: s)) as [i r]. cbn [snd] in *. rewrite length_drop. cbn [length] in *. split; [lia|].
      apply Forall_drop. rewrite Hp in Hs. by apply Forall_app in Hs as [_ ?].
  - destruct (decide (c = "%"%byte)); [cbn [snd length]; split; [lia|done]|].
    destruct (decide (c = "."%byte)); [cbn [snd length]; split; [lia|done]|].
    cbn [name_loop]. rewrite !bool_decide_false by done. cbn [orb]. pose proof (name_loop_length s) as Hl.
    destruct (name_loop_suffix s) as [p Hp]. destruct (name_loop s) as [nm r]. cbn [snd length] in *. split; [lia|].
    rewrite Hp in Hs. by apply Forall_app in Hs as [_ ?].
Qed.

Lemma path_loop_total ins fuel : forall args s,
  Forall (fun c => c <> x00) s -> (length s <= fuel)%nat -> is_Some (path_loop fuel ins args s).
Proof.
  induction fuel as [|fuel IH]; intros args s Hn Hf; destruct s as [|c s]; try (by eexists); [cbn in Hf; lia|].
  destruct (path_turn_shrinks ins args (c :: s)) as [Hl Hn']; [done|done|]. cbn [path_loop].
  destruct (path_turn ins args (c :: s)) as [args' s']. cbn [snd length] in *. apply IH; [done|lia].
Qed.

(** Every path without a NUL character is read. *)
Theorem make_path_returns path ins : Forall (fun c => c <> x00) path -> is_Some (makePath path ins).
Proof. intros Hn. by apply path_loop_total. Qed.

(** On one with a NUL where a name should begin, the constructor never returns:
    it appends empty names for ever. *)
Theorem nul_in_path_never_returns ins args s fuel : path_loop fuel ins args (x00 :: s) = None.
Proof. revert args. induction fuel as [|fuel IH]; intros args; [done|]. cbn. apply IH. Qed.

(** An index given as an argument leaves a member name behind it, and every
    argument is the first one. *)
Theorem path_arguments_misread i j :
  Path_new (lit ".[%]") (kindIndex i) (kindIndex j) kindNone kindNone kindNone = Some [kindIndex i; kindKey (lit "]")] /\
  Path_new (lit ".%.%") (kindKey (lit "a")) (kindKey (lit "b")) kindNone kindNone kindNone = Some [kindKey (lit "a"); kindKey (lit "a")].
Proof. done. Qed.

(** ** Nodes that were made are found *)

(** Through the reference [make] gives, a node is set that [resolve] finds. *)
Theorem made_node_is_found args : forall root w root',
  make args (fun _ => Some w) root = Some root' -> resolve args root' = Some w.
Proof.
  induction args as [|a args IH]; intros root w root'; [by intros [= <-]|]. destruct a as [|i|k]; cbn [make resolve]; [apply IH| |].
  - destruct (at_index root i) as [node|]; cbn [mbind option_bind]; [|done]. destruct (value_ node) as [| | | | | |l|] eqn:El; try done.
    destruct (map_get index_lt i l) as [v|]; cbn [mbind option_bind]; [|done].
    destruct (make args _ v) as [v'|] eqn:E; cbn [mbind option_bind]; [|done]. intros [= <-]. unfold get_index. cbn [value_ set_holder].
    rewrite map_get_put by apply _. cbn [mbind option_bind default]. by apply IH in E.
  - destruct (resolveReference root k) as [node|]; cbn [mbind option_bind]; [|done]. destruct (value_ node) as [| | | | | | |l] eqn:El; try done.
    destruct (map_get name_lt (cstr k) l) as [v|]; cbn [mbind option_bind]; [|done].
    destruct (make args _ v) as [v'|] eqn:E; cbn [mbind option_bind]; [|done]. intros [= <-]. unfold get_name. cbn [value_ set_holder].
    rewrite map_get_put by apply _. cbn [mbind option_bind default]. by apply IH in E.
Qed.

(** Array indices whose successor is a size. *)
Definition index_ok (a : PathArgument) : Prop := match a with kindIndex i => 0 <= i < 2 ^ 32 - 1 | _ => True end.

Lemma make_null args w d : Forall index_ok args ->
  exists v, make args (fun _ => Some w) null = Some v /\ resolve_default args v d = Some w.
Proof.
  induction 1 as [|a args Ha _ IH]; [by exists w|]. destruct IH as (v & E & Hr). destruct a as [|i|k].
  - by exists v.
  - cbn [make]. change (at_index null i) with (Some (fresh (arrayValue [(i, null)]))). cbn [mbind option_bind value_ fresh map_get map_put].
    assert (index_lt i i = false) as Hii by (unfold index_lt; lia). rewrite Hii. cbn [mbind option_bind]. rewrite E. cbn [mbind option_bind].
    eexists. split; [done|]. cbn [resolve_default isArray value_ set_holder negb orb]. unfold isValidIndex, size. cbn [value_ set_holder last].
    cbn [index_ok] in Ha. rewrite u32_id by (unfold is_u32; lia). destruct (Z.ltb_spec i (i + 1)); [|lia]. cbn [negb].
    unfold get_index. cbn [value_ set_holder map_get]. rewrite Hii. done.
  - cbn [make]. change (resolveReference null k) with (Some (fresh (objectValue [(cstr k, null)]))). cbn [mbind option_bind value_ fresh map_get map_put].
    assert (name_lt (cstr k) (cstr k) = false) as Hkk by apply blt_irrefl. rewrite Hkk. cbn [mbind option_bind]. rewrite E. cbn [mbind option_bind].
    eexists. split; [done|]. cbn [resolve_default isObject value_ set_holder negb]. unfold get_name. cbn [value_ set_holder map_get].
    rewrite Hkk. done.
Qed.

(** A path, as text, is an address: on an empty document the reference that
    [make] gives for any path sets a node that both forms of [resolve] find for the
    same text. *)
Theorem path_set_then_get args ins w d :
  Forall argument_ok args -> Forall index_ok args ->
  exists parsed v, makePath (path_text args) ins = Some parsed /\ make parsed (fun _ => Some w) null = Some v /\
    resolve parsed v = Some w /\ resolve_default parsed v d = Some w.
Proof.
  intros Ho Hi. destruct (make_null args w d Hi) as (v & E & Hr). exists args, v.
  split; [unfold makePath; by rewrite path_loop_text|]. split; [done|]. split; [|done]. by eapply made_node_is_found.
Qed.

Lemma path_set_then_get_witness :
  exists parsed v, makePath (lit ".name[3].x") [] = Some parsed /\ make parsed (fun _ => Some (Value_int 7)) null = Some v /\
    resolve parsed v = Some (Value_int 7) /\ resolve_default parsed v null = Some (Value_int 7).
Proof.
  apply (path_set_then_get [kindKey (lit "name"); kindIndex 3; kindKey (lit "x")] [] (Value_int 7) null).
  - repeat constructor; discriminate || (unfold is_u32; lia).
  - repeat constructor; lia.
Defined.

(** ** Walking over a value *)

(** The entries an iterator comes by, from [it] up to the end. *)
Fixpoint walk (fuel : nat) (it stop : iterator) : option (list Value) :=
  e ← isEqual it stop;
  if (e : bool) then Some []
  else
    match fuel with
    | O => None
    | S fuel => v ← deref it; it ← increment it; vs ← walk fuel it stop; Some (v :: vs)
    end.

Lemma walk_from l n : forall i, (length l = i + n)%nat -> walk n (At l i) (At l (length l)) = Some (snd <$> drop i l).
Proof.
  induction n as [|n IH]; intros i Hn; cbn [walk isEqual mbind option_bind].
  - destruct (Nat.eqb_spec i (length l)); [|lia]. by rewrite drop_ge by lia.
  - destruct (Nat.eqb_spec i (length l)); [lia|]. destruct (lookup_lt_is_Some_2 l i) as [e He]; [lia|].
    unfold deref, current_, increment. rewrite He. cbn [fmap option_fmap option_map mbind option_bind].
    destruct (Nat.ltb_spec i (length l)); [|lia]. cbn [mbind option_bind]. rewrite IH by lia. cbn [mbind option_bind].
    by rewrite (drop_S l e i He).
Qed.

(** From [begin()] to [end()] an iterator comes by every element once and in order;
    the distance between them is their number. *)
Theorem iteration_visits_elements v :
  exists n, walk n (begin_ v) (end_ v) = Some (children (value_ v)) /\
    computeDistance (begin_ v) (end_ v) = Some (Z.of_nat (length (children (value_ v)))).
Proof.
  unfold begin_, end_, entries. destruct (value_ v) as [| | | | | |l|l]; try (by exists 0%nat); cbn [children];
    (eexists; split; [rewrite (walk_from _ _ 0 eq_refl); rewrite drop_0, <- list_fmap_compose; done|]);
    cbn [computeDistance Nat.leb]; by rewrite Nat.sub_0_r, !length_fmap.
Qed.
