(* ===== verification/JsonIterator.v ===== *)
(** [ValueIterator] and [ValueConstIterator] of [common/json.h] and
    [common/jsoncpp.cpp]: the operators of both classes over [ValueIteratorBase]
    (in [JsonPath]), and the loops programs write with them. *)

From S2P Require Import Prelude Cstd Double JsonValue JsonValueSpec JsonPath.

(** ** [ValueIteratorBase] *)

Definition copy (this other : iterator) : iterator := other.

Definition iterator_eq (this other : iterator) : option bool := isEqual this other.
Definition iterator_ne (this other : iterator) : option bool := negb <$> isEqual this other.
Definition iterator_minus (this other : iterator) : option Z := computeDistance this other.

(** ** [ValueConstIterator] *)

Definition ValueConstIterator_new : iterator := NullIterator.
Definition ValueConstIterator_at (l : list entry) (current : nat) : iterator := At l current.
Definition ValueConstIterator_assign (this other : iterator) : iterator := copy this other.

(** [begin() const], [end() const] *)
Definition const_begin (v : Value) : iterator :=
  match entries v with Some l => ValueConstIterator_at l 0 | None => ValueConstIterator_new end.
Definition const_end (v : Value) : iterator :=
  match entries v with Some l => ValueConstIterator_at l (length l) | None => ValueConstIterator_new end.

(** Before the operator, or after: the value of [++it], and of [it++] with the
    iterator after it. *)
Definition const_pre_increment (it : iterator) : option iterator := increment it.
Definition const_pre_decrement (it : iterator) : option iterator := decrement it.
Definition const_post_increment (it : iterator) : option (iterator * iterator) :=
  let temp := it in it ← const_pre_increment it; Some (temp, it).
Definition const_post_decrement (it : iterator) : option (iterator * iterator) :=
  let temp := it in it ← const_pre_decrement it; Some (temp, it).
Definition const_star (it : iterator) : option Value := deref it.

(** ** [ValueIterator] *)

Definition ValueIterator_new : iterator := NullIterator.
Definition ValueIterator_at (l : list entry) (current : nat) : iterator := At l current.
Definition ValueIterator_of_const (other : iterator) : iterator := other.
Definition ValueIterator_copy (other : iterator) : iterator := other.
Definition ValueIterator_assign (this other : iterator) : iterator := copy this other.

Definition pre_increment (it : iterator) : option iterator := increment it.
Definition pre_decrement (it : iterator) : option iterator := decrement it.
Definition post_increment (it : iterator) : option (iterator * iterator) :=
  let temp := it in it ← pre_increment it; Some (temp, it).
Definition post_decrement (it : iterator) : option (iterator * iterator) :=
  let temp := it in it ← pre_decrement it; Some (temp, it).
Definition star (it : iterator) : option Value := deref it.

(** ** Loops *)

(** [while (it != end) use( *it++ );] *)
Fixpoint forward (fuel : nat) (it stop : iterator) : option (list Value) :=
  more ← iterator_ne it stop;
  if (more : bool) then
    match fuel with
    | O => None
    | S fuel => '(temp, it) ← const_post_increment it; v ← const_star temp; vs ← forward fuel it stop; Some (v :: vs)
    end
  else Some [].

(** [while (it != begin) use( *--it );] *)
Fixpoint backward (fuel : nat) (it stop : iterator) : option (list Value) :=
  more ← iterator_ne it stop;
  if (more : bool) then
    match fuel with
    | O => None
    | S fuel => it ← pre_decrement it; v ← star it; vs ← backward fuel it stop; Some (v :: vs)
    end
  else Some [].

Lemma forward_from l n : forall i, (length l = i + n)%nat -> forward n (At l i) (At l (length l)) = Some (snd <$> drop i l).
Proof.
  induction n as [|n IH]; intros i Hn; cbn [forward]; unfold iterator_ne, isEqual; cbn [fmap option_fmap option_map mbind option_bind].
  - destruct (Nat.eqb_spec i (length l)); [|lia]. cbn [negb]. by rewrite drop_ge by lia.
  - destruct (Nat.eqb_spec i (length l)); [lia|]. cbn [negb]. destruct (lookup_lt_is_Some_2 l i) as [e He]; [lia|].
    unfold const_post_increment, const_pre_increment, const_star, deref, current_, increment.
    destruct (Nat.ltb_spec i (length l)); [|lia]. cbn [mbind option_bind]. rewrite He. cbn [fmap option_fmap option_map mbind option_bind].
    rewrite IH by lia. cbn [mbind option_bind]. by rewrite (drop_S l e i He).
Qed.

Lemma backward_from l n : (n <= length l)%nat -> backward n (At l n) (At l 0) = Some (reverse (snd <$> take n l)).
Proof.
  induction n as [|n IH]; intros Hn; cbn [backward]; unfold iterator_ne, isEqual; cbn [fmap option_fmap option_map mbind option_bind]; [done|].
  cbn [Nat.eqb negb]. destruct (lookup_lt_is_Some_2 l n) as [e He]; [lia|].
  unfold pre_decrement, star, deref, current_, decrement. cbn [Nat.ltb Nat.leb mbind option_bind Nat.sub]. rewrite Nat.sub_0_r, He.
  cbn [fmap option_fmap option_map mbind option_bind]. rewrite IH by lia. cbn [mbind option_bind].
  by rewrite (take_S_r l n e He), fmap_app, reverse_app.
Qed.

(** Both loops see every element once, in order or from the last to the first. *)
Theorem loops_visit_elements v :
  exists n, forward n (const_begin v) (const_end v) = Some (children (value_ v)) /\
    backward n (end_ v) (begin_ v) = Some (reverse (children (value_ v))).
Proof.
  unfold const_begin, const_end, begin_, end_, entries. destruct (value_ v) as [| | | | | |l|l]; try (by exists 0%nat); cbn [children];
    (eexists; split; [unfold ValueConstIterator_at; rewrite (forward_from _ _ 0 eq_refl), drop_0, <- list_fmap_compose; done|]);
    rewrite backward_from, take_ge, <- list_fmap_compose by done; done.
Qed.

(** [operator-] counts from the left operand to the right one: [begin - end] is
    the number of elements, and [end - begin] runs past the end. *)
Lemma iterator_minus_is_reversed v : children (value_ v) <> [] ->
  iterator_minus (begin_ v) (end_ v) = Some (Z.of_nat (length (children (value_ v)))) /\
  iterator_minus (end_ v) (begin_ v) = None.
Proof.
  unfold iterator_minus, begin_, end_, entries.
  destruct (value_ v) as [| | | | | |[|x l]|[|x l]]; cbn [children]; try done; intros _; cbn; by rewrite ?length_fmap.
Qed.
