(* ===== verification/JsonWriter.v ===== *)
(** [common/jsoncpp.cpp]: [FastWriter], [StyledWriter] and [StyledStreamWriter].

    A writer returns the text it produces; [None] is an exception, an overrun of
    a buffer or the overflow of a signed integer.  An element that an array does
    not have is written as null. *)

From Stdlib Require Import SpecFloat.
From S2P Require Import Prelude Cstd Double JsonValue.

(** ** Quoting *)

Definition isControlCharacter (c : byte) : bool := (0 <? bz c) && (bz c <=? 31).

Definition containsControlCharacter (s : bytes) : bool := existsb isControlCharacter s.

Definition quote : byte := x22.
Definition backslash : byte := x5c.

Definition hex_upper (z : Z) : byte := zb (if z <? 10 then 48 + z else 55 + z).

(** One character of a string that needs escapes. *)
Definition escape (c : byte) : bytes :=
  if decide (c = quote) then [backslash; quote]
  else if decide (c = backslash) then [backslash; backslash]
  else if decide (c = x08) then [backslash; "b"%byte]
  else if decide (c = x0c) then [backslash; "f"%byte]
  else if decide (c = x0a) then [backslash; "n"%byte]
  else if decide (c = x0d) then [backslash; "r"%byte]
  else if decide (c = x09) then [backslash; "t"%byte]
  else if isControlCharacter c then
    [backslash; "u"%byte; "0"%byte; "0"%byte; hex_upper (bz c / 16); hex_upper (bz c mod 16)]
  else [c].

(** What [strpbrk] looks for. *)
Definition has_special (s : bytes) : bool :=
  existsb (fun c => bool_decide (c ∈ [quote; backslash; x08; x0c; x0a; x0d; x09])) s.

(** A value is quoted up to its first NUL; a null pointer gives no text. *)
Definition valueToQuotedString (value : option bytes) : bytes :=
  match value with
  | None => []
  | Some value =>
      let value := cstr value in
      if negb (has_special value) && negb (containsControlCharacter value) then [quote] ++ value ++ [quote]
      else [quote] ++ concat (escape <$> value) ++ [quote]
  end.

(** ** Values as text *)

(** The text of a value that is not a container. *)
Definition scalar_text (h : holder Value) : option bytes :=
  let v := fresh h in
  match h with
  | nullValue => Some (lit "null")
  | intValue _ => z ← asLargestInt v; valueToString_int z
  | uintValue _ => z ← asLargestUInt v; valueToString_uint z
  | realValue _ => d ← asDouble v; Some (valueToString_double d)
  | stringValue _ => s ← asCString v; Some (valueToQuotedString s)
  | booleanValue _ => b ← asBool v; Some (valueToString_bool b)
  | _ => None
  end.

(** [x, y, ...] with a separator between them. *)
Fixpoint separated (sep : bytes) (l : list bytes) : bytes :=
  match l with
  | [] => []
  | [x] => x
  | x :: l => x ++ sep ++ separated sep l
  end.

(** The elements at [0 .. size - 1], [hole] where there is none. *)
Definition elements {A} (size : Z) (hole : A) (l : list (Z * A)) : list A :=
  (fun i => default hole (map_get index_lt (Z.of_nat i) l)) <$> seq 0 (Z.to_nat size).

(** ** [FastWriter] *)

Record FastWriter := MkFastWriter { yamlCompatiblityEnabled_ : bool; dropNullPlaceholders_ : bool }.
Definition FastWriter_new : FastWriter := MkFastWriter false false.
Definition enableYAMLCompatibility (w : FastWriter) : FastWriter := MkFastWriter true (dropNullPlaceholders_ w).
Definition dropNullPlaceholders (w : FastWriter) : FastWriter := MkFastWriter (yamlCompatiblityEnabled_ w) true.

Section FastWriter.
Context (w : FastWriter).

Definition fast_null : bytes := if dropNullPlaceholders_ w then [] else lit "null".

(** [FastWriter::writeValue]: the text it appends to the document. *)
Fixpoint fast_writeValue (value : Value) : option bytes :=
  match value with
  | MkJson h _ _ _ =>
      match h with
      | nullValue => Some fast_null
      | arrayValue l =>
          texts ← (fix go (l : list (Z * Value)) : option (list (Z * bytes)) :=
                     match l with
                     | [] => Some []
                     | (i, v) :: l => t ← fast_writeValue v; r ← go l; Some ((i, t) :: r)
                     end) l;
          let size := i32 (size value) in
          Some (lit "[" ++ separated (lit ",") (elements size fast_null texts) ++ lit "]")
      | objectValue l =>
          texts ← (fix go (l : list (bytes * Value)) : option (list bytes) :=
                     match l with
                     | [] => Some []
                     | (name, v) :: l =>
                         t ← fast_writeValue v;
                         r ← go l;
                         Some ((valueToQuotedString (Some name) ++
                                (if yamlCompatiblityEnabled_ w then lit ": " else lit ":") ++ t) :: r)
                     end) l;
          Some (lit "{" ++ separated (lit ",") texts ++ lit "}")
      | h => scalar_text h
      end
  end.

Definition fast_write (root : Value) : option bytes := d ← fast_writeValue root; Some (d ++ [x0a]).

End FastWriter.

(** ** [StyledWriter] and [StyledStreamWriter] *)

(** [normalizeEOL] of both writers. *)
Fixpoint normalizeEOL (text : bytes) : bytes :=
  match text with
  | [] => []
  | c :: s =>
      if decide (c = x0d) then
        match s with
        | d :: s' => if decide (d = x0a) then x0a :: normalizeEOL s' else x0a :: normalizeEOL s
        | [] => [x0a]
        end
      else c :: normalizeEOL s
  end.

Definition rightMargin_ : Z := 74.

(** The state both writers keep while they write. *)
Record Styled := MkStyled {
  childValues_ : list bytes;
  document_ : bytes;
  indentString_ : bytes;
  addChildValues_ : bool
}.

(** [int] arithmetic that must not overflow. *)
Definition int_ok (z : Z) : option Z := if bool_decide (is_i32 z) then Some z else None.

Section Styled.
(** The indentation of one level, the two ways to begin a line, and the two
    ways to write a comment before a value. *)
Context (indentation : bytes) (line : Styled -> bytes) (comment_before : Styled -> bytes -> bytes).

Definition put_text (t : bytes) (s : Styled) : Styled :=
  MkStyled (childValues_ s) (document_ s ++ t) (indentString_ s) (addChildValues_ s).

Definition pushValue (value : bytes) (s : Styled) : Styled :=
  if addChildValues_ s then MkStyled (childValues_ s ++ [value]) (document_ s) (indentString_ s) true
  else put_text value s.

Definition writeIndent (s : Styled) : Styled := put_text (line s) s.
Definition writeWithIndent (value : bytes) (s : Styled) : Styled := put_text value (writeIndent s).

Definition indent (s : Styled) : Styled :=
  MkStyled (childValues_ s) (document_ s) (indentString_ s ++ indentation) (addChildValues_ s).

Definition unindent (s : Styled) : option Styled :=
  if (length indentation <=? length (indentString_ s))%nat then
    Some (MkStyled (childValues_ s) (document_ s)
            (take (length (indentString_ s) - length indentation) (indentString_ s)) (addChildValues_ s))
  else None.

Definition writeCommentBeforeValue (root : Value) (s : Styled) : Styled :=
  if hasComment root commentBefore
  then put_text (comment_before s (normalizeEOL (getComment root commentBefore))) s else s.

Definition writeCommentAfterValueOnSameLine (root : Value) (s : Styled) : Styled :=
  let s := if hasComment root commentAfterOnSameLine
           then put_text (lit " " ++ normalizeEOL (getComment root commentAfterOnSameLine)) s else s in
  if hasComment root commentAfter
  then put_text ([x0a] ++ normalizeEOL (getComment root commentAfter) ++ [x0a]) s else s.

Definition hasCommentForValue (v : Value) : bool :=
  hasComment v commentBefore || hasComment v commentAfterOnSameLine || hasComment v commentAfter.

(** A value and the call that writes it. *)
Definition child : Type := Value * (Styled -> option Styled).

Definition set_children (cs : list bytes) (add : bool) (s : Styled) : Styled :=
  MkStyled cs (document_ s) (indentString_ s) add.

(** [for (index = 0; index < size; ++index) writeValue(value[index]), ...] *)
Fixpoint collect_loop (cs : list child) (index : nat) (lineLength : Z) (s : Styled) : option (Z * Styled) :=
  match cs with
  | [] => Some (lineLength, s)
  | (_, write) :: cs =>
      s ← write s;
      t ← childValues_ s !! index;
      lineLength ← int_ok (lineLength + i32 (Z.of_nat (length t)));
      collect_loop cs (S index) lineLength s
  end.

Definition isMultineArray (cs : list child) (size : Z) (s : Styled) : option (bool * Styled) :=
  n ← int_ok (size * 3);
  let isMultiLine := rightMargin_ <=? n in
  let s := set_children [] (addChildValues_ s) s in
  let cs := take (Z.to_nat size) cs in
  let isMultiLine :=
    isMultiLine || existsb (fun '(v, _) => (isArray v || isObject v) && (0 <? JsonValue.size v)) cs in
  if isMultiLine then Some (true, s)
  else
    '(lineLength, s) ← collect_loop cs 0 (4 + (size - 1) * 2) (set_children (childValues_ s) true s);
    Some (rightMargin_ <=? lineLength, set_children (childValues_ s) false s).

(** The loop over the elements of an array on several lines. *)
Fixpoint array_loop (cs : list child) (hasChildValue : bool) (index : nat) (s : Styled) : option Styled :=
  match cs with
  | [] => Some s
  | (v, write) :: cs =>
      let s := writeCommentBeforeValue v s in
      s ← (if hasChildValue then t ← childValues_ s !! index; Some (writeWithIndent t s)
           else write (writeIndent s));
      match cs with
      | [] => Some (writeCommentAfterValueOnSameLine v s)
      | _ :: _ => array_loop cs hasChildValue (S index) (writeCommentAfterValueOnSameLine v (put_text (lit ",") s))
      end
  end.

Definition writeArrayValue (cs : list child) (size : Z) (s : Styled) : option Styled :=
  if size =? 0 then Some (pushValue (lit "[]") s)
  else
    '(isArrayMultiLine, s) ← isMultineArray cs (i32 size) s;
    if (isArrayMultiLine : bool) then
      let s := indent (writeWithIndent (lit "[") s) in
      let hasChildValue := negb (length (childValues_ s) =? 0)%nat in
      s ← array_loop cs hasChildValue 0 s;
      s ← unindent s;
      Some (writeWithIndent (lit "]") s)
    else if (length (childValues_ s) =? length cs)%nat then
      Some (put_text (lit "[ " ++ separated (lit ", ") (childValues_ s) ++ lit " ]") s)
    else None.

(** The loop over the members of an object. *)
Fixpoint object_loop (ms : list (bytes * child)) (s : Styled) : option Styled :=
  match ms with
  | [] => Some s
  | (name, (v, write)) :: ms =>
      let s := writeCommentBeforeValue v s in
      let s := writeWithIndent (valueToQuotedString (Some name)) s in
      s ← write (put_text (lit " : ") s);
      match ms with
      | [] => Some (writeCommentAfterValueOnSameLine v s)
      | _ :: _ => object_loop ms (writeCommentAfterValueOnSameLine v (put_text (lit ",") s))
      end
  end.

(** [writeValue] of both writers. *)
Fixpoint styled_writeValue (value : Value) : Styled -> option Styled :=
  match value with
  | MkJson h _ _ _ =>
      match h with
      | arrayValue l =>
          let cs := (fun '(i, v) => (i, (v, styled_writeValue v))) <$> l in
          let size := size value in
          writeArrayValue (elements size (null, fun s => Some (pushValue (lit "null") s)) cs) size
      | objectValue l =>
          match l with
          | [] => fun s => Some (pushValue (lit "{}") s)
          | _ :: _ =>
              fun s =>
                let s := indent (writeWithIndent (lit "{") s) in
                s ← object_loop ((fun '(k, v) => (k, (v, styled_writeValue v))) <$> l) s;
                s ← unindent s;
                Some (writeWithIndent (lit "}") s)
          end
      | h => fun s => t ← scalar_text h; Some (pushValue t s)
      end
  end.

Definition styled (root : Value) : option bytes :=
  let s := writeCommentBeforeValue root (MkStyled [] [] [] false) in
  s ← styled_writeValue root s;
  Some (document_ (writeCommentAfterValueOnSameLine root s) ++ [x0a]).

End Styled.

(** [StyledWriter::writeIndent]: nothing after a blank, no second line end. *)
Definition string_line (s : Styled) : bytes :=
  match last (document_ s) with
  | None => indentString_ s
  | Some c => if decide (c = x20) then [] else if decide (c = x0a) then indentString_ s else x0a :: indentString_ s
  end.

(** The characters of a comment; a line that begins with a slash is indented. *)
Fixpoint comment_chars (indentString : bytes) (text document : bytes) : bytes :=
  match text with
  | [] => document
  | c :: text =>
      let document := document ++ [c] in
      comment_chars indentString text
        (if bool_decide (c = x0a) && bool_decide (head text = Some "/"%byte)
         then document ++ string_line (MkStyled [] document indentString false) else document)
  end.

Definition string_comment (s : Styled) (text : bytes) : bytes :=
  let before := document_ s ++ [x0a] in
  let before := before ++ string_line (MkStyled [] before (indentString_ s) false) in
  drop (length (document_ s)) (comment_chars (indentString_ s) text before) ++ [x0a].

(** [StyledWriter::write] *)
Definition StyledWriter_write (root : Value) : option bytes := styled (replicate 3 x20) string_line string_comment root.

Definition toStyledString (v : Value) : option bytes := StyledWriter_write v.

(** ** [class StyledStreamWriter] *)

(** Its methods are those of [StyledWriter], on a stream: a line always begins
    anew, and a comment before a value is written as it is. *)
Section Stream.
Context (indentation : bytes).

Definition stream_line (s : Styled) : bytes := x0a :: indentString_ s.
Definition stream_comment (s : Styled) (text : bytes) : bytes := text ++ [x0a].

Definition stream_normalizeEOL : bytes -> bytes := normalizeEOL.
Definition stream_hasCommentForValue : Value -> bool := hasCommentForValue.
Definition stream_pushValue : bytes -> Styled -> Styled := pushValue.
Definition stream_writeWithIndent : bytes -> Styled -> Styled := writeWithIndent stream_line.
Definition stream_indent : Styled -> Styled := indent indentation.
Definition stream_unindent : Styled -> option Styled := unindent indentation.
Definition stream_writeCommentBeforeValue : Value -> Styled -> Styled := writeCommentBeforeValue stream_comment.
Definition stream_writeCommentAfterValueOnSameLine : Value -> Styled -> Styled := writeCommentAfterValueOnSameLine.
Definition stream_isMultineArray : list child -> Z -> Styled -> option (bool * Styled) := isMultineArray.
Definition stream_writeArrayValue : list child -> Z -> Styled -> option Styled :=
  writeArrayValue indentation stream_line stream_comment.
Definition stream_writeValue : Value -> Styled -> option Styled := styled_writeValue indentation stream_line stream_comment.

(** [StyledStreamWriter::write]: what it appends to the stream. *)
Definition StyledStreamWriter_write (root : Value) : option bytes :=
  let s := stream_writeCommentBeforeValue root (MkStyled [] [] [] false) in
  s ← stream_writeValue root s;
  Some (document_ (stream_writeCommentAfterValueOnSameLine root s) ++ [x0a]).

End Stream.
