(* ===== verification/JsonReader.v ===== *)
(** [common/json.h], [common/jsoncpp.cpp]: [Features] and [Reader].

    A [Location] is the text from a position to the end of the document.  The
    value under construction is kept in the reader's state; a pointer into it
    ([nodes_], [lastValue_]) is the path that leads to it from the root.  A read
    at the end of the document gives the NUL that ends a [std::string].  [None]
    is an exception, a failed assertion or a dangling pointer; that none occurs
    is proved in [JsonReaderSpec.v]. *)

From Stdlib Require Import SpecFloat.
From S2P Require Import Prelude Cstd Double JsonValue JsonWriter.

(** ** Data *)

Record Features := MkFeatures {
  allowComments_ : bool;
  strictRoot_ : bool;
  allowDroppedNullPlaceholders_ : bool;
  allowNumericKeys_ : bool
}.

Definition Features_all : Features := MkFeatures true false false false.
Definition strictMode : Features := MkFeatures false true false false.

Inductive TokenType :=
| tokenEndOfStream | tokenObjectBegin | tokenObjectEnd | tokenArrayBegin | tokenArrayEnd
| tokenString | tokenNumber | tokenTrue | tokenFalse | tokenNull
| tokenArraySeparator | tokenMemberSeparator | tokenComment | tokenError.

#[export] Instance TokenType_eq_dec : EqDecision TokenType.
Proof. solve_decision. Defined.

Definition Location : Type := bytes.

Record Token := MkToken { type_ : TokenType; tstart_ : Location; tend_ : Location }.

Record ErrorInfo := MkErrorInfo { token_ : Token; message_ : bytes; extra_ : option Location }.

(** A step of a pointer into a value. *)
Inductive step := SIndex (i : Z) | SName (k : bytes).
Definition pointer : Type := list step.

Record Reader := MkReader {
  nodes_ : list pointer;
  errors_ : list ErrorInfo;
  begin_ : Location;
  current_ : Location;
  lastValueEnd_ : option Location;
  lastValue_ : option pointer;
  commentsBefore_ : bytes;
  features_ : Features;
  collectComments_ : bool;
  root_ : Value
}.

Definition Reader_new (features : Features) : Reader :=
  MkReader [] [] [] [] None None [] features false null.

(** The text between two locations. *)
Definition between (b e : Location) : bytes := take (length b - length e) b.

Definition token_text (t : Token) : bytes := between (tstart_ t) (tend_ t).

(** [location - begin_] *)
Definition offset (r : Reader) (l : Location) : Z := Z.of_nat (length (begin_ r)) - Z.of_nat (length l).

(** Access through a pointer. *)
Fixpoint alter (p : pointer) (f : Value -> option Value) (v : Value) : option Value :=
  match p with
  | [] => f v
  | SIndex i :: p =>
      match value_ v with
      | arrayValue l =>
          w ← map_get index_lt i l; w ← alter p f w;
          Some (set_holder v (arrayValue (map_put index_lt i w l)))
      | _ => None
      end
  | SName k :: p =>
      match value_ v with
      | objectValue l =>
          w ← map_get name_lt k l; w ← alter p f w;
          Some (set_holder v (objectValue (map_put name_lt k w l)))
      | _ => None
      end
  end.

(** ** The state of the reader *)

Definition set_current (s : Location) (r : Reader) : Reader :=
  MkReader (nodes_ r) (errors_ r) (begin_ r) s (lastValueEnd_ r) (lastValue_ r) (commentsBefore_ r)
    (features_ r) (collectComments_ r) (root_ r).
Definition set_root (v : Value) (r : Reader) : Reader :=
  MkReader (nodes_ r) (errors_ r) (begin_ r) (current_ r) (lastValueEnd_ r) (lastValue_ r) (commentsBefore_ r)
    (features_ r) (collectComments_ r) v.
Definition set_commentsBefore (c : bytes) (r : Reader) : Reader :=
  MkReader (nodes_ r) (errors_ r) (begin_ r) (current_ r) (lastValueEnd_ r) (lastValue_ r) c
    (features_ r) (collectComments_ r) (root_ r).
Definition set_nodes (n : list pointer) (r : Reader) : Reader :=
  MkReader n (errors_ r) (begin_ r) (current_ r) (lastValueEnd_ r) (lastValue_ r) (commentsBefore_ r)
    (features_ r) (collectComments_ r) (root_ r).
Definition set_errors (e : list ErrorInfo) (r : Reader) : Reader :=
  MkReader (nodes_ r) e (begin_ r) (current_ r) (lastValueEnd_ r) (lastValue_ r) (commentsBefore_ r)
    (features_ r) (collectComments_ r) (root_ r).
Definition set_last (e : Location) (p : pointer) (r : Reader) : Reader :=
  MkReader (nodes_ r) (errors_ r) (begin_ r) (current_ r) (Some e) (Some p) (commentsBefore_ r)
    (features_ r) (collectComments_ r) (root_ r).

(** [currentValue()], as an update of what it refers to. *)
Definition currentValue (r : Reader) (f : Value -> option Value) : option Reader :=
  p ← head (nodes_ r); v ← alter p f (root_ r); Some (set_root v r).

(** [addError] returns [false]. *)
Definition addError (message : bytes) (token : Token) (extra : option Location) (r : Reader) : Reader :=
  set_errors (errors_ r ++ [MkErrorInfo token message extra]) r.

(** ** Characters *)

Definition peek (s : Location) : byte := hd x00 s.

(** [getNextChar]: the character and what follows; NUL at the end. *)
Definition getNextChar (s : Location) : byte * Location :=
  match s with [] => (x00, []) | c :: s => (c, s) end.

Fixpoint skipSpaces (s : Location) : Location :=
  match s with
  | c :: s' => if decide (c = x20 \/ c = x09 \/ c = x0d \/ c = x0a) then skipSpaces s' else s
  | [] => []
  end.

Definition match_text (pattern : bytes) (s : Location) : bool * Location :=
  if (length s <? length pattern)%nat then (false, s)
  else if bool_decide (take (length pattern) s = pattern) then (true, drop (length pattern) s)
  else (false, s).

Definition containsNewLine (b e : Location) : bool :=
  existsb (fun c => bool_decide (c = x0a) || bool_decide (c = x0d)) (between b e).

(** [in(c, '.', 'e', 'E', '+', '-')] or a digit *)
Definition is_number_char (c : byte) : bool :=
  isdigit c || bool_decide (c ∈ ["."%byte; "e"%byte; "E"%byte; "+"%byte; "-"%byte]).

Fixpoint readNumber (s : Location) : Location :=
  match s with
  | c :: s' => if is_number_char c then readNumber s' else s
  | [] => []
  end.

Fixpoint readString (s : Location) : bool * Location :=
  match s with
  | [] => (false, [])
  | c :: s1 =>
      if decide (c = backslash) then match s1 with [] => (false, []) | _ :: s2 => readString s2 end
      else if decide (c = quote) then (true, s1)
      else readString s1
  end.

(** The loop of [readCStyleComment]: it stops after a star before a slash. *)
Fixpoint cstyle_loop (s : Location) : Location :=
  match s with
  | [] => []
  | c :: s' => if decide (c = "*"%byte /\ peek s' = "/"%byte) then s' else cstyle_loop s'
  end.

Definition readCStyleComment (s : Location) : bool * Location :=
  let '(c, s) := getNextChar (cstyle_loop s) in (bool_decide (c = "/"%byte), s).

Fixpoint readCppStyleComment (s : Location) : Location :=
  match s with
  | [] => []
  | c :: s' => if decide (c = x0d \/ c = x0a) then s' else readCppStyleComment s'
  end.

(** ** Tokens *)

Definition addComment (b e : Location) (placement : CommentPlacement) (r : Reader) : option Reader :=
  if collectComments_ r then
    match placement with
    | commentAfterOnSameLine =>
        p ← lastValue_ r;
        v ← alter p (fun v => setComment v (between b e) placement) (root_ r);
        Some (set_root v r)
    | _ =>
        let before := commentsBefore_ r in
        let before := if bool_decide (before = []) then [] else before ++ [x0a] in
        Some (set_commentsBefore (before ++ between b e) r)
    end
  else None.

(** [commentBegin] is the location of the slash. *)
Definition readComment (commentBegin : Location) (r : Reader) : option (bool * Reader) :=
  let '(c, s) := getNextChar (current_ r) in
  let '(successful, s) :=
    if decide (c = "*"%byte) then readCStyleComment s
    else if decide (c = "/"%byte) then (true, readCppStyleComment s)
    else (false, s) in
  let r := set_current s r in
  if negb successful then Some (false, r)
  else if collectComments_ r then
    let placement :=
      match lastValueEnd_ r with
      | Some e =>
          if negb (containsNewLine e commentBegin) &&
             (negb (bool_decide (c = "*"%byte)) || negb (containsNewLine commentBegin s))
          then commentAfterOnSameLine else commentBefore
      | None => commentBefore
      end in
    r ← addComment commentBegin s placement r;
    Some (true, r)
  else Some (true, r).

Definition readToken (r : Reader) : option (Token * Reader) :=
  let start := skipSpaces (current_ r) in
  let '(c, s) := getNextChar start in
  let r := set_current s r in
  let done_ t (r : Reader) := Some (MkToken t start (current_ r), r) in
  let scan t (x : bool * Location) :=
    let r := set_current x.2 r in done_ (if x.1 then t else tokenError) r in
  if decide (c = "{"%byte) then done_ tokenObjectBegin r
  else if decide (c = "}"%byte) then done_ tokenObjectEnd r
  else if decide (c = "["%byte) then done_ tokenArrayBegin r
  else if decide (c = "]"%byte) then done_ tokenArrayEnd r
  else if decide (c = quote) then scan tokenString (readString s)
  else if decide (c = "/"%byte) then
    '(ok, r) ← readComment start r; done_ (if (ok : bool) then tokenComment else tokenError) r
  else if isdigit c || bool_decide (c = "-"%byte) then scan tokenNumber (true, readNumber s)
  else if decide (c = "t"%byte) then scan tokenTrue (match_text (lit "rue") s)
  else if decide (c = "f"%byte) then scan tokenFalse (match_text (lit "alse") s)
  else if decide (c = "n"%byte) then scan tokenNull (match_text (lit "ull") s)
  else if decide (c = ","%byte) then done_ tokenArraySeparator r
  else if decide (c = ":"%byte) then done_ tokenMemberSeparator r
  else if decide (c = x00) then done_ tokenEndOfStream r
  else done_ tokenError r.

(** [do readToken(token) while (token.type_ == tokenComment)], once more per
    character at most. *)
Fixpoint next_token_loop (fuel : nat) (r : Reader) : option (Token * Reader) :=
  match fuel with
  | O => None
  | S fuel =>
      '(token, r) ← readToken r;
      if decide (type_ token = tokenComment) then next_token_loop fuel r else Some (token, r)
  end.

Definition next_token (r : Reader) : option (Token * Reader) := next_token_loop (S (length (current_ r))) r.

Definition skipCommentTokens (r : Reader) : option (Token * Reader) :=
  if allowComments_ (features_ r) then next_token r else readToken r.

Definition expectToken (t : TokenType) (message : bytes) (r : Reader) : option (bool * Token * Reader) :=
  '(token, r) ← readToken r;
  if decide (type_ token = t) then Some (true, token, r) else Some (false, token, addError message token None r).

Fixpoint recover_loop (fuel : nat) (skipUntilToken : TokenType) (r : Reader) : option Reader :=
  match fuel with
  | O => None
  | S fuel =>
      '(skip, r) ← readToken r;
      if decide (type_ skip = skipUntilToken \/ type_ skip = tokenEndOfStream) then Some r
      else recover_loop fuel skipUntilToken r
  end.

(** Returns [false]; the errors are those before. *)
Definition recoverFromError (skipUntilToken : TokenType) (r : Reader) : option (bool * Reader) :=
  let errorCount := length (errors_ r) in
  r ← recover_loop (S (length (current_ r))) skipUntilToken r;
  Some (false, set_errors (take errorCount (errors_ r)) r).

Definition addErrorAndRecover (message : bytes) (token : Token) (skipUntilToken : TokenType) (r : Reader)
  : option (bool * Reader) :=
  recoverFromError skipUntilToken (addError message token None r).

(** ** Numbers *)

(** A decoding fails with a message and the location of a detail. *)
Definition decoded (A : Type) : Type := (bytes * option Location) + A.

Definition not_a_number (text : bytes) : bytes := lit "'" ++ text ++ lit "' is not a number.".

(** [decodeDouble]; both buffers hold the text of the token. *)
Definition decodeDouble (token : Token) : decoded (holder Value) :=
  let text := token_text token in
  if i32 (Z.of_nat (length text)) <? 0 then inl (lit "Unable to parse token length", None)
  else
    match sscanf_lf (cstr text) with
    | Some value => inr (realValue value)
    | None => inl (not_a_number text, None)
    end.

(** The digits of an integer: its value, or that it must be read as a double,
    or that it is not a number. *)
Inductive int_scan := IntValue (value : Z) | IntTooBig | IntBad.

Fixpoint int_loop (maxIntegerValue : Z) (s : bytes) (value : Z) : int_scan :=
  let threshold := maxIntegerValue / 10 in
  match s with
  | [] => IntValue value
  | c :: s =>
      if negb (isdigit c) then IntBad
      else
        let digit := bz c - 48 in
        if (threshold <=? value) &&
           ((threshold <? value) || negb (bool_decide (s = [])) || (maxIntegerValue mod 10 <? digit))
        then IntTooBig
        else int_loop maxIntegerValue s (value * 10 + digit)
  end.

(** A point, an exponent, or a sign that is not the first character. *)
Definition looks_double (text : bytes) : bool :=
  existsb (fun c => bool_decide (c ∈ ["."%byte; "e"%byte; "E"%byte; "+"%byte])) text ||
  existsb (fun c => bool_decide (c = "-"%byte)) (drop 1 text).

(** [decodeNumber]; the negations wrap for the least integer. *)
Definition decodeNumber (token : Token) : decoded (holder Value) :=
  let text := token_text token in
  if looks_double text then decodeDouble token
  else
    let isNegative := bool_decide (head text = Some "-"%byte) in
    let digits := if isNegative then drop 1 text else text in
    let maxIntegerValue := if isNegative then u64 (i64 (- minLargestInt)) else maxLargestUInt in
    match int_loop maxIntegerValue digits 0 with
    | IntBad => inl (not_a_number text, None)
    | IntTooBig => decodeDouble token
    | IntValue value =>
        inr (if isNegative then intValue (i64 (- i64 value))
             else if value <=? maxInt then intValue value else uintValue value)
    end.

(** ** Strings *)

Definition codePointToUTF8 (cp : Z) : bytes :=
  if cp <=? 0x7f then [zb cp]
  else if cp <=? 0x7ff then
    [zb (Z.lor 0xc0 (Z.land 0x1f (Z.shiftr cp 6))); zb (Z.lor 0x80 (Z.land 0x3f cp))]
  else if cp <=? 0xffff then
    [zb (Z.lor 0xe0 (Z.land 0xf (Z.shiftr cp 12))); zb (Z.lor 0x80 (Z.land 0x3f (Z.shiftr cp 6)));
     zb (Z.lor 0x80 (Z.land 0x3f cp))]
  else if cp <=? 0x10ffff then
    [zb (Z.lor 0xf0 (Z.land 0x7 (Z.shiftr cp 18))); zb (Z.lor 0x80 (Z.land 0x3f (Z.shiftr cp 12)));
     zb (Z.lor 0x80 (Z.land 0x3f (Z.shiftr cp 6))); zb (Z.lor 0x80 (Z.land 0x3f cp))]
  else [].

Definition hex_value (c : byte) : option Z :=
  let z := bz c in
  if (48 <=? z) && (z <=? 57) then Some (z - 48)
  else if (97 <=? z) && (z <=? 102) then Some (z - 97 + 10)
  else if (65 <=? z) && (z <=? 70) then Some (z - 65 + 10)
  else None.

(** The text between the quotes is [s]; [e] is the location of the closing one. *)
Section Strings.
Context (e : Location).

(** Hexadecimal digits, four to begin with. *)
Fixpoint hex_loop (n : nat) (s : bytes) (unicode : Z) : decoded (Z * bytes) :=
  match n with
  | O => inr (unicode, s)
  | S n =>
      match s with
      | [] => inl ([], None)
      | c :: s =>
          match hex_value c with
          | Some d => hex_loop n s (unicode * 16 + d)
          | None => inl (lit "Bad unicode escape sequence in string: hexadecimal digit expected.", Some (s ++ e))
          end
      end
  end.

Definition decodeUnicodeEscapeSequence (s : bytes) : decoded (Z * bytes) :=
  if (length s <? 4)%nat
  then inl (lit "Bad unicode escape sequence in string: four digits expected.", Some (s ++ e))
  else hex_loop 4 s 0.

Definition expecting_surrogate : bytes :=
  lit "expecting another \u token to begin the second half of a unicode surrogate pair".

Definition decodeUnicodeCodePoint (s : bytes) : decoded (Z * bytes) :=
  match decodeUnicodeEscapeSequence s with
  | inl x => inl x
  | inr (unicode, s) =>
      if (0xd800 <=? unicode) && (unicode <=? 0xdbff) then
        if (length s <? 6)%nat
        then inl (lit "additional six characters expected to parse unicode surrogate pair.", Some (s ++ e))
        else
          match s with
          | a :: b :: s' =>
              if negb (bool_decide (a = backslash)) then inl (expecting_surrogate, Some (b :: s' ++ e))
              else if negb (bool_decide (b = "u"%byte)) then inl (expecting_surrogate, Some (s' ++ e))
              else
                match decodeUnicodeEscapeSequence s' with
                | inl x => inl x
                | inr (surrogatePair, s') =>
                    inr (0x10000 + Z.shiftl (Z.land unicode 0x3ff) 10 + Z.land surrogatePair 0x3ff, s')
                end
          | _ => inl ([], None)
          end
      else inr (unicode, s)
  end.

(** The character an escape stands for; [u] is apart. *)
Definition simple_escape (c : byte) : option byte :=
  if decide (c = quote) then Some quote
  else if decide (c = "/"%byte) then Some "/"%byte
  else if decide (c = backslash) then Some backslash
  else if decide (c = "b"%byte) then Some x08
  else if decide (c = "f"%byte) then Some x0c
  else if decide (c = "n"%byte) then Some x0a
  else if decide (c = "r"%byte) then Some x0d
  else if decide (c = "t"%byte) then Some x09
  else None.

(** A turn of the loop consumes at least one character. *)
Fixpoint decode_loop (fuel : nat) (s acc : bytes) : decoded bytes :=
  match fuel with
  | O => inl ([], None)
  | S fuel =>
      match s with
      | [] => inr acc
      | c :: s =>
          if decide (c = quote) then inr acc
          else if decide (c = backslash) then
            match s with
            | [] => inl (lit "Empty escape sequence in string", Some e)
            | x :: s =>
                match simple_escape x with
                | Some b => decode_loop fuel s (acc ++ [b])
                | None =>
                    if decide (x = "u"%byte) then
                      match decodeUnicodeCodePoint s with
                      | inl m => inl m
                      | inr (unicode, s) => decode_loop fuel s (acc ++ codePointToUTF8 unicode)
                      end
                    else inl (lit "Bad escape sequence in string", Some (s ++ e))
                end
            end
          else decode_loop fuel s (acc ++ [c])
      end
  end.

End Strings.

(** A token is its text with both quotes. *)
Definition decodeString (token : Token) : decoded bytes :=
  let text := token_text token in
  let inner := take (length text - 2) (drop 1 text) in
  decode_loop (drop (length text - 1) (tstart_ token)) (S (length inner)) inner [].

(** ** Values *)

(** [decodeNumber(token)], [decodeString(token)]: the value is stored with its
    range, or the error is recorded. *)
Definition store_decoded (token : Token) (d : decoded (holder Value)) (r : Reader) : option (bool * Reader) :=
  match d with
  | inl (message, extra) => Some (false, addError message token extra r)
  | inr h =>
      r ← currentValue r (fun v =>
        Some (setOffsetLimit (setOffsetStart (assign v (fresh h)) (offset r (tstart_ token))) (offset r (tend_ token))));
      Some (true, r)
  end.

(** [decodeDouble(token)], the variant that stores the value. *)
Definition decodeDouble_store (token : Token) (r : Reader) : option (bool * Reader) := store_decoded token (decodeDouble token) r.

Definition decoded_string (d : decoded bytes) : decoded (holder Value) :=
  match d with inl x => inl x | inr s => inr (value_ (Value_string s)) end.

(** [nodes_.push(&value)] and [nodes_.pop()] around a call. *)
Definition with_node (s : step) (body : Reader -> option (bool * Reader)) (r : Reader) : option (bool * Reader) :=
  p ← head (nodes_ r);
  '(ok, r) ← body (set_nodes ((p ++ [s]) :: nodes_ r) r);
  Some (ok, set_nodes (tail (nodes_ r)) r).

Section Containers.
(** [readValue] on what is nested. *)
Context (readValue : Reader -> option (bool * Reader)).

(** The name of a member: [None] ends the loop, [Some (inl _)] is an error. *)
Definition member_name (token : Token) (r : Reader) : option (option (decoded bytes)) :=
  if decide (type_ token = tokenString) then Some (Some (decodeString token))
  else if decide (type_ token = tokenNumber) then
    if allowNumericKeys_ (features_ r) then
      match decodeNumber token with
      | inl x => Some (Some (inl x))
      | inr h => s ← asString (fresh h); Some (Some (inr s))
      end
    else Some None
  else Some None.

Fixpoint object_loop (fuel : nat) (name : bytes) (r : Reader) : option (bool * Reader) :=
  match fuel with
  | O => None
  | S fuel =>
      '(tokenName, r) ← next_token r;
      if bool_decide (type_ tokenName = tokenObjectEnd) && bool_decide (name = []) then Some (true, r)
      else
        m ← member_name tokenName r;
        match m with
        | None => addErrorAndRecover (lit "Missing '}' or object member name") tokenName tokenObjectEnd r
        | Some (inl (message, extra)) => recoverFromError tokenObjectEnd (addError message tokenName extra r)
        | Some (inr name) =>
            '(colon, r) ← readToken r;
            if negb (bool_decide (type_ colon = tokenMemberSeparator))
            then addErrorAndRecover (lit "Missing ':' after object member name") colon tokenObjectEnd r
            else
              r ← currentValue r (fun v => resolveReference v name);
              '(ok, r) ← with_node (SName (cstr name)) readValue r;
              if negb ok then recoverFromError tokenObjectEnd r
              else
                '(comma, r) ← readToken r;
                if negb (bool_decide (type_ comma ∈ [tokenObjectEnd; tokenArraySeparator; tokenComment]))
                then addErrorAndRecover (lit "Missing ',' or '}' in object declaration") comma tokenObjectEnd r
                else
                  '(comma, r) ← (if decide (type_ comma = tokenComment) then next_token r else Some (comma, r));
                  if decide (type_ comma = tokenObjectEnd) then Some (true, r) else object_loop fuel name r
        end
  end.

Definition readObject (fuel : nat) (tokenStart : Token) (r : Reader) : option (bool * Reader) :=
  r ← currentValue r (fun v =>
    Some (setOffsetStart (assign v (Value_type VT.objectValue)) (offset r (tstart_ tokenStart))));
  object_loop fuel [] r.

Fixpoint array_loop (fuel : nat) (index : Z) (r : Reader) : option (bool * Reader) :=
  match fuel with
  | O => None
  | S fuel =>
      r ← currentValue r (fun v => at_int v index);
      '(ok, r) ← with_node (SIndex index) readValue r;
      if negb ok then recoverFromError tokenArrayEnd r
      else
        '(token, r) ← next_token r;
        if negb (bool_decide (type_ token ∈ [tokenArraySeparator; tokenArrayEnd]))
        then addErrorAndRecover (lit "Missing ',' or ']' in array declaration") token tokenArrayEnd r
        else if decide (type_ token = tokenArrayEnd) then Some (true, r)
        else index ← int_ok (index + 1); array_loop fuel index r
  end.

Definition readArray (fuel : nat) (tokenStart : Token) (r : Reader) : option (bool * Reader) :=
  r ← currentValue r (fun v =>
    Some (setOffsetStart (assign v (Value_type VT.arrayValue)) (offset r (tstart_ tokenStart))));
  let r := set_current (skipSpaces (current_ r)) r in
  if decide (peek (current_ r) = "]"%byte) then '(_, r) ← readToken r; Some (true, r)
  else array_loop fuel 0 r.

End Containers.

(** [commentsBefore_] without the line ends that close it. *)
Fixpoint drop_newlines (rev_text : bytes) : bytes :=
  match rev_text with
  | c :: s => if decide (c = x0d \/ c = x0a) then drop_newlines s else rev_text
  | [] => []
  end.
Definition strip_newlines (s : bytes) : bytes := rev (drop_newlines (rev s)).

Definition store_comments (r : Reader) : option Reader :=
  if collectComments_ r && negb (bool_decide (commentsBefore_ r = [])) then
    r ← currentValue r (fun v => setComment v (strip_newlines (commentsBefore_ r)) commentBefore);
    Some (set_commentsBefore [] r)
  else Some r.

Definition set_range (b e : Z) (v : Value) : Value := setOffsetLimit (setOffsetStart v b) e.

(** The end of [readValue]: the value just read is the one a comment on the same
    line belongs to. *)
Definition finish_value (ok : bool) (r : Reader) : option (bool * Reader) :=
  if collectComments_ r then p ← head (nodes_ r); Some (ok, set_last (current_ r) p r) else Some (ok, r).

(** The switch of [readValue] on its first token. *)
Definition read_switch (readValue : Reader -> option (bool * Reader)) (fuel : nat) (token : Token) (r : Reader)
  : option (bool * Reader) :=
  let simple h :=
    r ← currentValue r (fun v =>
      Some (set_range (offset r (tstart_ token)) (offset r (tend_ token)) (assign v (fresh h))));
    finish_value true r in
  let container (x : option (bool * Reader)) :=
    '(ok, r) ← x;
    r ← currentValue r (fun v => Some (setOffsetLimit v (offset r (current_ r))));
    finish_value ok r in
  let syntax_error :=
    r ← currentValue r (fun v => Some (set_range (offset r (tstart_ token)) (offset r (tend_ token)) v));
    Some (false, addError (lit "Syntax error: value, object or array expected.") token None r) in
  match type_ token with
  | tokenObjectBegin => container (readObject readValue fuel token r)
  | tokenArrayBegin => container (readArray readValue fuel token r)
  | tokenNumber => '(ok, r) ← store_decoded token (decodeNumber token) r; finish_value ok r
  | tokenString => '(ok, r) ← store_decoded token (decoded_string (decodeString token)) r; finish_value ok r
  | tokenTrue => simple (booleanValue true)
  | tokenFalse => simple (booleanValue false)
  | tokenNull => simple nullValue
  | tokenArraySeparator =>
      if allowDroppedNullPlaceholders_ (features_ r) then
        let r := set_current (tstart_ token) r in
        let here := offset r (current_ r) in
        r ← currentValue r (fun v => Some (set_range (u64 (here - 1)) here (assign v null)));
        finish_value true r
      else syntax_error
  | _ => syntax_error
  end.

(** The fuel bounds the nesting and the number of elements. *)
Fixpoint readValue (fuel : nat) (r : Reader) : option (bool * Reader) :=
  match fuel with
  | O => None
  | S fuel =>
      '(token, r) ← skipCommentTokens r;
      r ← store_comments r;
      read_switch (readValue fuel) fuel token r
  end.

(** [parse(beginDoc, endDoc, root, collectComments)] *)
Definition parse (reader : Reader) (document : bytes) (root : Value) (collectComments : bool)
  : option (bool * Reader) :=
  let collectComments := if allowComments_ (features_ reader) then collectComments else false in
  let r := MkReader [[]] [] document document None None [] (features_ reader) collectComments root in
  '(successful, r) ← readValue (S (length document)) r;
  '(token, r) ← skipCommentTokens r;
  r ← (if collectComments_ r && negb (bool_decide (commentsBefore_ r = []))
       then v ← setComment (root_ r) (commentsBefore_ r) commentAfter; Some (set_root v r) else Some r);
  if strictRoot_ (features_ r) && negb (isArray (root_ r)) && negb (isObject (root_ r)) then
    Some (false, addError (lit "A valid JSON document must be either an array or an object value.")
                   (MkToken tokenError document []) None r)
  else Some (successful, r).

(** ** Error messages *)

(** The loop of [getLocationLineAndColumn]: the line, counted from 0, and the
    start of the last line. *)
Fixpoint line_loop (fuel : nat) (current location lastLineStart : Location) (line : Z) : Z * Location :=
  match fuel with
  | O => (line, lastLineStart)
  | S fuel =>
      match current with
      | [] => (line, lastLineStart)
      | c :: current =>
          if (length location <=? length current)%nat then
            if decide (c = x0d) then
              let current := if decide (peek current = x0a) then tail current else current in
              line_loop fuel current location current (line + 1)
            else if decide (c = x0a) then line_loop fuel current location current (line + 1)
            else line_loop fuel current location lastLineStart line
          else (line, lastLineStart)
      end
  end.

Definition getLocationLineAndColumn (r : Reader) (location : Location) : Z * Z :=
  let '(line, start) := line_loop (length (begin_ r)) (begin_ r) location (begin_ r) 0 in
  (line + 1, Z.of_nat (length start) - Z.of_nat (length location) + 1).

(** ["Line %d, Column %d"] in 51 bytes. *)
Definition location_text (r : Reader) (location : Location) : bytes :=
  let '(line, column) := getLocationLineAndColumn r location in
  take 50 (lit "Line " ++ sdec line ++ lit ", Column " ++ sdec column).

Definition error_text (r : Reader) (e : ErrorInfo) : bytes :=
  lit "* " ++ location_text r (tstart_ (token_ e)) ++ [x0a] ++
  lit "  " ++ message_ e ++ [x0a] ++
  match extra_ e with
  | Some l => lit "See " ++ location_text r l ++ lit " for detail." ++ [x0a]
  | None => []
  end.

Definition getFormattedErrorMessages (r : Reader) : bytes := concat (error_text r <$> errors_ r).

(** The name it had before. *)
Definition getFormatedErrorMessages (r : Reader) : bytes := getFormattedErrorMessages r.

Record StructuredError := MkStructuredError { offset_start : Z; offset_limit : Z; message : bytes }.

Definition getStructuredErrors (r : Reader) : list StructuredError :=
  (fun e => MkStructuredError (offset r (tstart_ (token_ e))) (offset r (tend_ (token_ e))) (message_ e))
    <$> errors_ r.
