(* ===== verification/JsonReaderSpec.v ===== *)
(** Properties of the JSON reader: every document is read without a dangling
    pointer or an exception and gives a well-formed value; the text of a value,
    whatever blanks it has between its tokens, is read back as that value. *)

From Stdlib Require Import SpecFloat Sorted.
From S2P Require Import Prelude Cstd Double JsonValue JsonValueSpec JsonWriter JsonReader.

(** ** Pointers *)

Fixpoint deref (p : pointer) (v : Value) : option Value :=
  match p with
  | [] => Some v
  | SIndex i :: p => match value_ v with arrayValue l => map_get index_lt i l ≫= deref p | _ => None end
  | SName k :: p => match value_ v with objectValue l => map_get name_lt k l ≫= deref p | _ => None end
  end.

Lemma deref_app p q v : deref (p ++ q) v = deref p v ≫= deref q.
Proof.
  revert v. induction p as [|[i|k] p IH]; intros v; cbn [app deref]; [done|..].
  - destruct (value_ v); try done. destruct (map_get _ _ _) as [w|]; [apply IH|done].
  - destruct (value_ v); try done. destruct (map_get _ _ _) as [w|]; [apply IH|done].
Qed.

Lemma alter_app p q f v : alter (p ++ q) f v = alter p (alter q f) v.
Proof.
  revert v. induction p as [|[i|k] p IH]; intros v; cbn [app alter]; [done|..].
  - destruct (value_ v); try done. destruct (map_get _ _ _) as [w|]; [|done]. cbn [mbind option_bind]. by rewrite IH.
  - destruct (value_ v); try done. destruct (map_get _ _ _) as [w|]; [|done]. cbn [mbind option_bind]. by rewrite IH.
Qed.

Lemma alter_Some p f v v' :
  alter p f v = Some v' -> exists w w', deref p v = Some w /\ f w = Some w' /\ deref p v' = Some w'.
Proof.
  revert v v'. induction p as [|[i|k] p IH]; intros v v'; cbn [alter deref]; [by eauto|..];
    (destruct (value_ v) as [| | | | | |l|l] eqn:E; try done);
    (destruct (map_get _ _ l) as [w|] eqn:Eg; [|done]); cbn [mbind option_bind];
    (destruct (alter p f w) as [w'|] eqn:Ea; [|done]); intros [= <-];
    destruct (IH _ _ Ea) as (u & u' & H1 & H2 & H3); exists u, u'; cbn [value_ set_holder];
    rewrite map_get_put by apply _; done.
Qed.

Lemma alter_defined p f v w w' : deref p v = Some w -> f w = Some w' -> exists v', alter p f v = Some v'.
Proof.
  revert v. induction p as [|[i|k] p IH]; intros v; cbn [alter deref]; [by intros [= ->]; eauto|..];
    (destruct (value_ v) as [| | | | | |l|l] eqn:E; try done);
    (destruct (map_get _ _ l) as [u|] eqn:Eg; [|done]); cbn [mbind option_bind]; intros H1 H2;
    destruct (IH u H1 H2) as [u' ->]; cbn [mbind option_bind]; by eauto.
Qed.

(** Two updates at the same place. *)
Lemma alter_alter p f g v : (alter p f v ≫= alter p g) = alter p (fun w => f w ≫= g) v.
Proof.
  revert v. induction p as [|[i|k] p IH]; intros v; cbn [alter]; [done|..];
    (destruct (value_ v) as [| | | | | |l|l] eqn:E; try done);
    (destruct (map_get _ _ l) as [u|] eqn:Eg; [|done]); cbn [mbind option_bind];
    rewrite <- (IH u); (destruct (alter p f u) as [w|]; [|done]); cbn [mbind option_bind value_ set_holder];
    rewrite map_get_put by apply _; cbn [mbind option_bind]; (destruct (alter p g w); [|done]); cbn [mbind option_bind];
    by rewrite map_put_put by apply _.
Qed.

Lemma alter_id p v w : deref p v = Some w -> alter p Some v = Some v.
Proof.
  revert v. induction p as [|[i|k] p IH]; intros v; cbn [alter deref]; [done|..];
    (destruct (value_ v) as [| | | | | |l|l] eqn:E; try done);
    (destruct (map_get _ _ l) as [u|] eqn:Eg; [|done]); cbn [mbind option_bind]; intros H;
    rewrite (IH u H); cbn [mbind option_bind]; rewrite (map_put_same _ _ _ _ Eg); unfold set_holder;
    destruct v; cbn in *; by rewrite E.
Qed.

Lemma alter_wf p f v v' :
  wf v -> (forall w w', deref p v = Some w -> wf w -> f w = Some w' -> wf w') -> alter p f v = Some v' -> wf v'.
Proof.
  revert v v'. induction p as [|[i|k] p IH]; intros v v' Hv Hf; cbn [alter]; [by apply Hf|..];
    (destruct (value_ v) as [| | | | | |l|l] eqn:E; try done);
    (destruct (map_get _ _ l) as [u|] eqn:Eg; [|done]); cbn [mbind option_bind];
    (destruct (alter p f u) as [w'|] eqn:Ea; [|done]); intros [= <-]; pose proof (proj1 (wf_alt v) Hv) as [Hh _];
    rewrite E in Hh; destruct Hh as [_ Hk].
  - apply wf_array_put; [done|done| |].
    + apply (IH u w'); [by eapply wf_child_index| |done]. intros w w2 Hd. apply Hf. cbn [deref]. by rewrite E, Eg.
    + apply (proj1 (Forall_forall _ _) Hk). apply map_get_key in Eg; [done|apply _].
  - apply wf_object_put; [done|done| |].
    + apply (IH u w'); [by eapply wf_child_name| |done]. intros w w2 Hd. apply Hf. cbn [deref]. by rewrite E, Eg.
    + apply (proj1 (Forall_forall _ _) Hk). apply map_get_key in Eg; [done|apply _].
Qed.

(** An update below [p] leaves the pointers that do not lead below [p]. *)
Lemma alter_keeps p f v v' q :
  alter p f v = Some v' -> is_Some (deref q v) -> (forall s t, q <> p ++ s :: t) -> is_Some (deref q v').
Proof.
  revert v v' q. induction p as [|st p IH]; intros v v' q Ha Hq Hn.
  { destruct q as [|s q]; [by eexists|]. by destruct (Hn s q). }
  destruct q as [|sq q]; [by eexists|]. cbn [alter deref] in *.
  destruct st as [i|k]; (destruct (value_ v) as [| | | | | |l|l] eqn:E; try done);
    (destruct (map_get _ _ l) as [u|] eqn:Eg; [|done]); cbn [mbind option_bind] in Ha;
    (destruct (alter p f u) as [w'|] eqn:Ea; [|done]); injection Ha as <-; cbn [deref value_ set_holder];
    (destruct sq as [j|k']; try (by destruct Hq)).
  - destruct (decide (j = i)) as [->|Hne]; [|by rewrite map_get_put_other by (done || apply _)].
    rewrite map_get_put by apply _. rewrite Eg in Hq. apply (IH u); [done|done|]. intros s t ->. by eapply Hn.
  - destruct (decide (k' = k)) as [->|Hne]; [|by rewrite map_get_put_other by (done || apply _)].
    rewrite map_get_put by apply _. rewrite Eg in Hq. apply (IH u); [done|done|]. intros s t ->. by eapply Hn.
Qed.

(** ** Content *)

Lemma strip_value v : value_ (strip v) = strip_holder (value_ v).
Proof. by rewrite strip_alt. Qed.

Lemma deref_strip p v : deref p (strip v) = strip <$> deref p v.
Proof.
  revert v. induction p as [|[i|k] p IH]; intros v; cbn [deref]; [done|..]; rewrite strip_value;
    destruct (value_ v) as [| | | | | |l|l]; try done; unfold strip_holder; cbn [strip fresh value_];
    rewrite map_get_fmap; (destruct (map_get _ _ l) as [u|]; [apply IH|done]).
Qed.

Lemma strip_set_array v l : strip (set_holder v (arrayValue l)) = fresh (arrayValue ((fun x => (x.1, strip x.2)) <$> l)).
Proof. by destruct v. Qed.
Lemma strip_set_object v l : strip (set_holder v (objectValue l)) = fresh (objectValue ((fun x => (x.1, strip x.2)) <$> l)).
Proof. by destruct v. Qed.

(** An update that has a counterpart on contents. *)
Lemma strip_alter p f g v v' :
  (forall w w', deref p v = Some w -> f w = Some w' -> g (strip w) = Some (strip w')) ->
  alter p f v = Some v' -> alter p g (strip v) = Some (strip v').
Proof.
  revert v v'. induction p as [|[i|k] p IH]; intros v v' Hg; cbn [alter]; [by apply Hg|..];
    rewrite strip_value; (destruct (value_ v) as [| | | | | |l|l] eqn:E; try done); unfold strip_holder;
    cbn [strip fresh value_]; rewrite map_get_fmap; (destruct (map_get _ _ l) as [u|] eqn:Eg; [|done]);
    cbn [mbind option_bind fmap option_fmap option_map]; (destruct (alter p f u) as [w'|] eqn:Ea; [|done]);
    intros [= <-]; rewrite (IH u w'); try done;
    try (intros w w2 Hd; apply Hg; cbn [deref]; by rewrite E, Eg); cbn [mbind option_bind].
  - rewrite strip_set_array, map_put_fmap. by rewrite strip_alt.
  - rewrite strip_set_object, map_put_fmap. by rewrite strip_alt.
Qed.

Lemma strip_alter_quiet p f v v' :
  (forall w w', deref p v = Some w -> f w = Some w' -> strip w' = strip w) ->
  alter p f v = Some v' -> strip v' = strip v.
Proof.
  intros Hf Ha. destruct (alter_Some _ _ _ _ Ha) as (w & w' & Hd & _).
  pose proof (strip_alter p f Some v v') as H. rewrite (alter_id p (strip v) (strip w)) in H.
  - injection H as ->; [done| |done]. intros u u' H1 H2. by rewrite (Hf u u' H1 H2).
  - by rewrite deref_strip, Hd.
Qed.

Lemma setComment_quiet v t p v' : setComment v t p = Some v' -> strip v' = strip v.
Proof. unfold setComment. destruct (valid_comment t); [|done]. intros [= <-]. by apply strip_same. Qed.

Lemma deref_strip_is_Some p v : is_Some (deref p (strip v)) <-> is_Some (deref p v).
Proof. rewrite deref_strip. apply fmap_is_Some. Qed.

(** ** Tokens *)

(** What reading tokens does not change: comments may be attached to values. *)
Record quiet (r r' : Reader) : Prop := {
  q_nodes : nodes_ r' = nodes_ r;
  q_errors : errors_ r' = errors_ r;
  q_begin : begin_ r' = begin_ r;
  q_last_end : lastValueEnd_ r' = lastValueEnd_ r;
  q_last : lastValue_ r' = lastValue_ r;
  q_features : features_ r' = features_ r;
  q_collect : collectComments_ r' = collectComments_ r;
  q_root : strip (root_ r') = strip (root_ r);
  q_current : (length (current_ r') <= length (current_ r))%nat
}.

#[export] Instance quiet_preorder : PreOrder quiet.
Proof.
  split; [by intros r; split|]. intros a b c [] []. split; try congruence. lia.
Qed.

Lemma quiet_set_current r s : (length s <= length (current_ r))%nat -> quiet r (set_current s r).
Proof. by split. Qed.

(** The comments collected so far, and the value a comment may belong to. *)
Definition comment_ok (r : Reader) : Prop :=
  (commentsBefore_ r = [] \/ exists s, commentsBefore_ r = "/"%byte :: s) /\
  (lastValueEnd_ r = None \/ exists q, lastValue_ r = Some q /\ is_Some (deref q (strip (root_ r)))).

Lemma comment_ok_current r s : comment_ok r -> comment_ok (set_current s r).
Proof. done. Qed.

Lemma skipSpaces_length s : (length (skipSpaces s) <= length s)%nat.
Proof. induction s as [|c s IH]; cbn [skipSpaces]; [done|]. case_decide; cbn [length]; lia. Qed.

Lemma readString_length s : (length (readString s).2 <= length s)%nat.
Proof.
  induction s as [s IH] using (induction_ltof1 _ length). unfold ltof in IH. destruct s as [|c s]; [done|]. cbn [readString].
  case_decide.
  - destruct s as [|d s]; [cbn; lia|]. specialize (IH s). cbn [length] in *. lia.
  - case_decide; [cbn [snd length]; lia|]. specialize (IH s). cbn [length] in *. lia.
Qed.

Lemma readNumber_length s : (length (readNumber s) <= length s)%nat.
Proof. induction s as [|c s IH]; cbn [readNumber]; [done|]. destruct (is_number_char c); cbn [length]; lia. Qed.

Lemma match_text_length p s : (length (match_text p s).2 <= length s)%nat.
Proof. unfold match_text. destruct (_ <? _)%nat; [done|]. case_bool_decide; cbn [snd]; [rewrite length_drop|]; lia. Qed.

Lemma cstyle_loop_length s : (length (cstyle_loop s) <= length s)%nat.
Proof. induction s as [|c s IH]; cbn [cstyle_loop]; [done|]. case_decide; cbn [length]; lia. Qed.

Lemma getNextChar_length s : (length (getNextChar s).2 <= length s)%nat.
Proof. destruct s; cbn; lia. Qed.

Lemma readCStyleComment_length s : (length (readCStyleComment s).2 <= length s)%nat.
Proof.
  unfold readCStyleComment. pose proof (getNextChar_length (cstyle_loop s)). pose proof (cstyle_loop_length s).
  destruct (getNextChar _). cbn [snd] in *. lia.
Qed.

Lemma readCppStyleComment_length s : (length (readCppStyleComment s) <= length s)%nat.
Proof. induction s as [|c s IH]; cbn [readCppStyleComment]; [done|]. case_decide; cbn [length]; lia. Qed.

(** The text of a comment starts with its slash. *)
Lemma between_slash s e :
  (length e <= length s)%nat -> exists t, between ("/"%byte :: s) e = "/"%byte :: t.
Proof. intros H. unfold between. cbn [length]. rewrite Nat.sub_succ_l by done. by eexists. Qed.

Lemma valid_comment_slash s : valid_comment ("/"%byte :: s) = true.
Proof. done. Qed.

Lemma addComment_spec b e p r t :
  between b e = "/"%byte :: t -> collectComments_ r = true -> comment_ok r ->
  (p = commentAfterOnSameLine -> lastValueEnd_ r <> None) ->
  exists r', addComment b e p r = Some r' /\ quiet r r' /\ comment_ok r' /\ current_ r' = current_ r.
Proof.
  intros Ht Hc Hok Hp. pose proof Hok as [Hb Hl]. unfold addComment. rewrite Hc, Ht. destruct p.
  2: { destruct Hl as [Hl|(q & Hq & Hv)]; [by destruct (Hp eq_refl)|]. rewrite Hq. cbn [mbind option_bind].
       rewrite deref_strip_is_Some in Hv. destruct Hv as [w Hw].
       destruct (alter_defined q (fun v => setComment v ("/"%byte :: t) commentAfterOnSameLine) (root_ r) w) with
         (w' := default w (setComment w ("/"%byte :: t) commentAfterOnSameLine)) as [v' Ha];
         [done|unfold setComment; by rewrite valid_comment_slash|].
       rewrite Ha. cbn [mbind option_bind]. eexists. split; [done|].
       assert (strip v' = strip (root_ r)) as Hs.
       { eapply strip_alter_quiet; [|done]. intros ? ? _. apply setComment_quiet. }
       split; [by split; cbn [root_ set_root]|]. split; [|done].
       split; [done|]. cbn [root_ set_root lastValueEnd_ lastValue_]. right. exists q. rewrite Hs.
       split; [done|]. rewrite deref_strip_is_Some. by eexists. }
  all: eexists; (split; [done|]); (split; [by split|]); (split; [|done]); (split; [|done]);
    cbn [commentsBefore_ set_commentsBefore]; right;
    (destruct Hb as [->|[s ->]]; [rewrite bool_decide_eq_true_2 by done; by eexists|]);
    rewrite bool_decide_eq_false_2 by done; by eexists.
Qed.

(** What reading a comment makes of the text after its slash. *)
Definition comment_scan (s : bytes) : bool * bytes :=
  let '(c, s) := getNextChar s in
  if decide (c = "*"%byte) then readCStyleComment s
  else if decide (c = "/"%byte) then (true, readCppStyleComment s)
  else (false, s).

Lemma comment_scan_length s : (length (comment_scan s).2 <= length s)%nat.
Proof.
  unfold comment_scan. pose proof (getNextChar_length s) as L. destruct (getNextChar s) as [c s1]. cbn [snd] in L.
  pose proof (readCStyleComment_length s1). pose proof (readCppStyleComment_length s1).
  case_decide; [by etrans|]. case_decide; cbn [snd]; [by etrans|done].
Qed.

Lemma readComment_spec s r :
  comment_ok r -> current_ r = s ->
  exists r', readComment ("/"%byte :: s) r = Some ((comment_scan s).1, r') /\ quiet r r' /\ comment_ok r' /\
    current_ r' = (comment_scan s).2.
Proof.
  intros Hok Hs. pose proof (comment_scan_length s) as L. revert L. unfold comment_scan, readComment. rewrite Hs.
  destruct (getNextChar s) as [c s1] eqn:E1. set (x := if decide (c = "*"%byte) then _ else _).
  destruct x as [successful s2]. cbn [fst snd]. intros L. destruct successful; cbn [negb].
  2: { eexists. split; [done|]. split; [apply quiet_set_current; rewrite Hs; lia|done]. }
  cbn [collectComments_ set_current lastValueEnd_]. destruct (collectComments_ r) eqn:Hc.
  2: { eexists. split; [done|]. split; [apply quiet_set_current; rewrite Hs; lia|done]. }
  set (p := match lastValueEnd_ r with Some e => _ | None => _ end).
  destruct (between_slash s s2 ltac:(lia)) as [t Ht].
  destruct (addComment_spec ("/"%byte :: s) s2 p (set_current s2 r) t Ht Hc (comment_ok_current _ _ Hok)) as (r' & -> & Hq & Hok' & Hcur).
  { subst p. cbn [lastValueEnd_ set_current]. by destruct (lastValueEnd_ r). }
  cbn [mbind option_bind]. eexists. split; [done|]. split; [|by split].
  etrans; [|exact Hq]. apply quiet_set_current. rewrite Hs. lia.
Qed.

(** A token starts where the reader stands or later, and is not empty before the
    end. *)
Definition token_progress (r : Reader) (t : Token) (r' : Reader) : Prop :=
  (length (tstart_ t) <= length (current_ r))%nat /\
  ((length (current_ r') < length (current_ r))%nat \/ type_ t = tokenEndOfStream).

Lemma readToken_spec r :
  comment_ok r ->
  exists t r', readToken r = Some (t, r') /\ quiet r r' /\ comment_ok r' /\
    token_progress r t r'.
Proof.
  intros Hok. unfold readToken. pose proof (skipSpaces_length (current_ r)) as L0.
  destruct (skipSpaces (current_ r)) as [|c s]; cbn [getNextChar length] in *.
  { eexists _, _. split; [done|]. split; [apply quiet_set_current; cbn; lia|]. split; [done|].
    split; [cbn; lia|by right]. }
  assert (forall t s', (length s' <= length s)%nat ->
    exists t0 r', Some (MkToken t (c :: s) (current_ (set_current s' (set_current s r))), set_current s' (set_current s r)) = Some (t0, r') /\
      quiet r r' /\ comment_ok r' /\ token_progress r t0 r') as Hdone.
  { intros t s' Hs'. eexists _, _. split; [done|]. split; [|split; [done|split; [cbn [tstart_ length]; lia|left; cbn [current_ set_current]; lia]]].
    change (set_current s' (set_current s r)) with (set_current s' r). apply quiet_set_current. lia. }
  pose proof (fun t => Hdone t s (le_n _)) as Hhere. change (set_current s (set_current s r)) with (set_current s r) in Hhere.
  pose proof (readString_length s). pose proof (readNumber_length s). pose proof (match_text_length (lit "rue") s).
  pose proof (match_text_length (lit "alse") s). pose proof (match_text_length (lit "ull") s).
  do 5 (case_decide; [by apply Hhere || by apply Hdone|]). case_decide as Hslash.
  { subst c. destruct (readComment_spec s (set_current s r)) as (r' & -> & Hq & Hok' & _); [done|done|].
    cbn [mbind option_bind]. eexists _, _. split; [done|].
    split; [etrans; [|exact Hq]; apply quiet_set_current; lia|]. split; [done|]. split; [cbn [tstart_ length]; lia|left].
    pose proof (q_current _ _ Hq). cbn [current_ set_current] in *. lia. }
  destruct (isdigit c || _); [by apply Hdone|].
  do 3 (case_decide; [by apply Hdone|]). repeat (case_decide; [by apply Hhere|]). apply Hhere.
Qed.

(** Reading on behalf of the loops: some token is reached. *)
Lemma next_token_loop_spec fuel r :
  comment_ok r -> (length (current_ r) < fuel)%nat ->
  exists t r', next_token_loop fuel r = Some (t, r') /\ quiet r r' /\ comment_ok r' /\
    token_progress r t r'.
Proof.
  revert r. induction fuel as [|fuel IH]; intros r Hok Hf; [lia|]. cbn [next_token_loop].
  destruct (readToken_spec r Hok) as (t & r1 & -> & Hq & Hok1 & Hp). cbn [mbind option_bind].
  case_decide as Ht; [|by eauto 10]. destruct Hp as [Hs [Hp|Hp]]; [|by rewrite Ht in Hp].
  destruct (IH r1 Hok1) as (t2 & r2 & -> & Hq2 & Hok2 & Hp2); [lia|]. eexists _, _. split; [done|].
  split; [by etrans|]. split; [done|]. destruct Hp2 as [Hs2 Hp2]. split; [lia|]. destruct Hp2; [left; lia|by right].
Qed.

Lemma next_token_spec r :
  comment_ok r ->
  exists t r', next_token r = Some (t, r') /\ quiet r r' /\ comment_ok r' /\
    token_progress r t r'.
Proof. intros Hok. apply next_token_loop_spec; [done|lia]. Qed.

Lemma skipCommentTokens_spec r :
  comment_ok r ->
  exists t r', skipCommentTokens r = Some (t, r') /\ quiet r r' /\ comment_ok r' /\
    token_progress r t r'.
Proof. intros Hok. unfold skipCommentTokens. destruct (allowComments_ _); [by apply next_token_spec|by apply readToken_spec]. Qed.

Lemma recover_loop_spec fuel t r :
  comment_ok r -> (length (current_ r) < fuel)%nat ->
  exists r', recover_loop fuel t r = Some r' /\ quiet r r' /\ comment_ok r'.
Proof.
  revert r. induction fuel as [|fuel IH]; intros r Hok Hf; [lia|]. cbn [recover_loop].
  destruct (readToken_spec r Hok) as (tk & r1 & -> & Hq & Hok1 & Hp). cbn [mbind option_bind].
  case_decide as Ht; [by eauto|]. destruct Hp as [_ [Hp|Hp]]; [|destruct Ht; by right].
  destruct (IH r1 Hok1) as (r2 & -> & Hq2 & Hok2); [lia|]. eexists. split; [done|]. split; [by etrans|done].
Qed.

(** Recovery keeps the errors recorded before. *)
Lemma recoverFromError_spec t r :
  comment_ok r -> exists r', recoverFromError t r = Some (false, r') /\ quiet r r' /\ comment_ok r'.
Proof.
  intros Hok. unfold recoverFromError.
  destruct (recover_loop_spec (S (length (current_ r))) t r Hok ltac:(lia)) as (r' & -> & Hq & Hok').
  cbn [mbind option_bind]. eexists. split; [done|]. split; [|done]. destruct Hq. split; try done.
  cbn [errors_ set_errors]. by rewrite q_errors0, firstn_all.
Qed.

Lemma addErrorAndRecover_spec m tk t r :
  comment_ok r -> exists r', addErrorAndRecover m tk t r = Some (false, r') /\ quiet (addError m tk None r) r' /\ comment_ok r'.
Proof. intros Hok. by apply recoverFromError_spec. Qed.

(** ** Every document is read *)

#[export] Instance step_eq_dec : EqDecision step.
Proof. solve_decision. Defined.

(** An update at [p] that keeps what is below [p]. *)
Lemma alter_keeps_below p f v v' q :
  alter p f v = Some v' -> is_Some (deref q v) ->
  (forall w w' s t, deref p v = Some w -> f w = Some w' -> is_Some (deref (s :: t) w) -> is_Some (deref (s :: t) w')) ->
  is_Some (deref q v').
Proof.
  intros Ha Hq Hf. destruct (alter_Some _ _ _ _ Ha) as (w & w' & Hw & Hfw & Hw').
  destruct (decide (p `prefix_of` q)) as [[[|s t] ->]|Hn].
  - rewrite app_nil_r. by eexists.
  - rewrite deref_app, Hw in Hq. rewrite deref_app, Hw'. cbn [mbind option_bind] in *. by eapply Hf.
  - eapply alter_keeps; [done|done|]. intros s t ->. apply Hn. by eexists.
Qed.

(** What stays the same while a value is read. *)
Record kept (r r' : Reader) : Prop := {
  k_nodes : nodes_ r' = nodes_ r;
  k_begin : begin_ r' = begin_ r;
  k_features : features_ r' = features_ r;
  k_collect : collectComments_ r' = collectComments_ r;
  k_last : collectComments_ r = false -> lastValue_ r' = lastValue_ r;
  k_current : (length (current_ r') <= length (current_ r))%nat
}.

#[export] Instance kept_preorder : PreOrder kept.
Proof.
  split; [by intros r; split|]. intros a b c [] []. split; try congruence; [|lia].
  intros H. rewrite k_last1, k_last0; congruence.
Qed.

Lemma quiet_kept r r' : quiet r r' -> kept r r'.
Proof. intros []. by split. Qed.

(** The result says whether an error was recorded. *)
Definition told (ok : bool) (r r' : Reader) : Prop := if ok then errors_ r' = errors_ r else errors_ r' <> [].

Lemma told_trans r0 r ok r' : errors_ r = errors_ r0 -> told ok r r' -> told ok r0 r'.
Proof. unfold told. destruct ok; congruence. Qed.

(** The node being read: [p] leads to it, comments can be placed. *)
Definition at_node (r : Reader) (p : pointer) : Prop :=
  comment_ok r /\ wf (root_ r) /\ head (nodes_ r) = Some p /\ is_Some (deref p (root_ r)).

(** The value a comment may belong to is not further than [n] steps below. *)
Definition last_within (n : nat) (r : Reader) (p : pointer) : Prop :=
  forall q t, lastValue_ r = Some q -> q = p ++ t -> (length t <= n)%nat.

Lemma quiet_at_node r r' p : quiet r r' -> comment_ok r' -> at_node r p -> at_node r' p.
Proof.
  intros [] Hok (_ & Hw & Hh & Hd). split; [done|]. split; [by rewrite <- strip_wf, q_root0, strip_wf|].
  split; [congruence|]. by rewrite <- deref_strip_is_Some, q_root0, deref_strip_is_Some.
Qed.

Lemma last_within_eq n r r' p : lastValue_ r' = lastValue_ r -> last_within n r p -> last_within n r' p.
Proof. intros E H q t. rewrite E. apply H. Qed.

(** An update of the current value. *)
Lemma currentValue_spec r p f w w' :
  at_node r p -> deref p (root_ r) = Some w -> f w = Some w' -> (wf w -> wf w') ->
  (last_within 0 r p \/ forall s t, is_Some (deref (s :: t) w) -> is_Some (deref (s :: t) w')) ->
  exists v, currentValue r f = Some (set_root v r) /\ at_node (set_root v r) p /\ deref p v = Some w'.
Proof.
  intros (Hok & Hwf & Hh & _) Hw Hf Hww Hl. unfold currentValue. rewrite Hh. cbn [mbind option_bind].
  destruct (alter_defined p f (root_ r) w w' Hw Hf) as [v Ha]. rewrite Ha. cbn [mbind option_bind].
  exists v. split; [done|]. destruct (alter_Some _ _ _ _ Ha) as (w0 & w0' & Hw0 & Hf0 & Hv).
  assert (w0' = w') as -> by congruence.
  split; [|done]. split; [|split; [|split; [done|by eexists]]].
  - destruct Hok as [Hb [Hn|(q & Hq & Hqv)]]; (split; [done|]); [by left|right]. exists q. split; [done|].
    cbn [root_ set_root]. rewrite deref_strip_is_Some in *. destruct Hl as [Hl|Hl].
    + eapply alter_keeps; [done|done|]. intros s t E. apply Hl in E; [cbn in E; lia|done].
    + eapply alter_keeps_below; [done|done|]. intros u u' s t Hu Hfu. assert (u = w) as -> by congruence.
      assert (u' = w') as -> by congruence. apply Hl.
  - cbn [root_ set_root]. eapply alter_wf; [exact Hwf| |exact Ha]. intros u u' Hu Hwu Hfu.
    assert (u = w) as -> by congruence. assert (u' = w') as -> by congruence. by apply Hww.
Qed.

(** A step of the reader and what it promises. *)
Definition finished (r : Reader) (p : pointer) (x : option (bool * Reader)) : Prop :=
  exists ok r', x = Some (ok, r') /\ kept r r' /\ at_node r' p /\ told ok r r' /\
    (lastValue_ r' = Some p \/ lastValue_ r' = lastValue_ r).

Definition reads (body : Reader -> option (bool * Reader)) (n : nat) : Prop :=
  forall r p, at_node r p -> last_within 0 r p -> (length (current_ r) < n)%nat ->
    Z.of_nat (length (current_ r)) < 2 ^ 31 - 1 -> finished r p (body r).

Lemma at_index_below v i v' s t :
  at_index v i = Some v' -> is_Some (deref (s :: t) v) -> is_Some (deref (s :: t) v').
Proof.
  unfold at_index. intros Hv Hd. assert (isNull v = false) as Hn.
  { unfold isNull. destruct s; cbn [deref] in Hd; destruct (value_ v); by destruct Hd. }
  unfold promoted in Hv. rewrite Hn in Hv. destruct (value_ v) as [| | | | | |l|] eqn:E; try done.
  destruct (map_get index_lt i l) as [u|] eqn:Eg; injection Hv as <-; [done|].
  destruct s as [j|k]; cbn [deref] in *; rewrite E in Hd; [|by destruct Hd]. cbn [value_ set_holder].
  destruct (decide (j = i)) as [->|Hne]; [rewrite Eg in Hd; by destruct Hd|]. by rewrite map_get_put_other by (done || apply _).
Qed.

Lemma resolveReference_below v k v' s t :
  resolveReference v k = Some v' -> is_Some (deref (s :: t) v) -> is_Some (deref (s :: t) v').
Proof.
  unfold resolveReference. intros Hv Hd. assert (isNull v = false) as Hn.
  { unfold isNull. destruct s; cbn [deref] in Hd; destruct (value_ v); by destruct Hd. }
  unfold promoted in Hv. rewrite Hn in Hv. destruct (value_ v) as [| | | | | | |l] eqn:E; try done.
  destruct (map_get name_lt (cstr k) l) as [u|] eqn:Eg; injection Hv as <-; [done|].
  destruct s as [j|k']; cbn [deref] in *; rewrite E in Hd; [by destruct Hd|]. cbn [value_ set_holder].
  destruct (decide (k' = cstr k)) as [->|Hne]; [rewrite Eg in Hd; by destruct Hd|].
  by rewrite map_get_put_other by (done || apply _).
Qed.

Lemma at_index_finds v i v' : at_index v i = Some v' -> is_Some (deref [SIndex i] v').
Proof.
  unfold at_index. set (p := promoted v VT.arrayValue). destruct (value_ p) as [| | | | | |l|] eqn:E; try done.
  destruct (map_get index_lt i l) as [u|] eqn:Eg; intros [= <-]; cbn [deref value_ set_holder].
  - rewrite E, Eg. by eexists.
  - rewrite map_get_put by apply _. by eexists.
Qed.

Lemma resolveReference_finds v k v' : resolveReference v k = Some v' -> is_Some (deref [SName (cstr k)] v').
Proof.
  unfold resolveReference. set (p := promoted v VT.objectValue). destruct (value_ p) as [| | | | | | |l] eqn:E; try done.
  destruct (map_get name_lt (cstr k) l) as [u|] eqn:Eg; intros [= <-]; cbn [deref value_ set_holder].
  - rewrite E, Eg. by eexists.
  - rewrite map_get_put by apply _. by eexists.
Qed.

(** Reading a child of the node. *)
Lemma with_node_spec body n r p s :
  reads body n -> at_node r p -> last_within 1 r p -> is_Some (deref (p ++ [s]) (root_ r)) ->
  (length (current_ r) < n)%nat -> Z.of_nat (length (current_ r)) < 2 ^ 31 - 1 ->
  exists ok r', with_node s body r = Some (ok, r') /\ kept r r' /\ at_node r' p /\
    is_Some (deref (p ++ [s]) (root_ r')) /\ told ok r r' /\ last_within 1 r' p.
Proof.
  intros Hb (Hok & Hw & Hh & Hp) Hl Hs Hn Hz. unfold with_node. rewrite Hh. cbn [mbind option_bind].
  set (r0 := set_nodes ((p ++ [s]) :: nodes_ r) r).
  destruct (Hb r0 (p ++ [s])) as (ok & r1 & -> & Hk & (Hok1 & Hw1 & _ & Hd1) & Ht1 & Hl1); [exact (conj Hok (conj Hw (conj eq_refl Hs)))| |done|done|].
  { intros q t Hq ->. specialize (Hl _ (s :: t) Hq). rewrite <- app_assoc in Hl. specialize (Hl eq_refl). cbn in Hl. lia. }
  cbn [mbind option_bind]. eexists _, _. split; [done|]. destruct Hk as [Hkn]. cbn [nodes_ r0 set_nodes] in Hkn.
  rewrite Hkn. cbn [tail]. split; [by split|]. split; [|split; [done|split; [exact Ht1|]]].
  - split; [exact Hok1|]. split; [exact Hw1|]. split; [exact Hh|]. cbn [root_ set_nodes]. rewrite deref_app in Hd1.
    destruct (deref p (root_ r1)); [by eexists|by destruct Hd1].
  - destruct Hl1 as [Hl1|Hl1].
    + intros q t. cbn [lastValue_ set_nodes]. rewrite Hl1. intros [= <-] E. apply app_inv_head in E as <-. done.
    + eapply last_within_eq; [|exact Hl]. exact Hl1.
Qed.

(** ** Decoded values *)

Lemma int_loop_bound m s : forall v x, 0 <= v <= m -> int_loop m s v = IntValue x -> 0 <= x <= m.
Proof.
  induction s as [|c s IH]; intros v x Hv; cbn [int_loop]; [by intros [= <-]|].
  destruct (isdigit c) eqn:Ed; cbn [negb]; [|done]. unfold isdigit in Ed.
  match goal with |- (if ?b then _ else _) = _ -> _ => destruct b eqn:Eb end; [done|]. apply IH. pose proof (Z.div_mod m 10 ltac:(lia)) as Hm.
  pose proof (Z.mod_pos_bound m 10 ltac:(lia)). set (d := bz c - 48) in *.
  assert (0 <= d <= 9) by (subst d; lia).
  destruct (Z.leb_spec (m / 10) v); [|nia]. cbn [andb] in Eb.
  apply orb_false_iff in Eb as [Eb1 Eb3]. apply orb_false_iff in Eb1 as [Eb1 _]. nia.
Qed.

Lemma decodeDouble_ok t h : decodeDouble t = inr h -> exists d, h = realValue d.
Proof.
  unfold decodeDouble. destruct (_ <? 0); [done|]. destruct (sscanf_lf _); [|done]. intros [= <-]. by eexists.
Qed.

Lemma decodeNumber_ok t h :
  decodeNumber t = inr h ->
  (exists z, h = intValue z /\ is_i64 z) \/ (exists z, h = uintValue z /\ is_u64 z) \/ (exists d, h = realValue d).
Proof.
  unfold decodeNumber. destruct (looks_double _).
  { intros H. right. right. by eapply decodeDouble_ok. }
  destruct (bool_decide _).
  - destruct (int_loop _ _ _) as [v| |] eqn:E; [|intros H; right; right; by eapply decodeDouble_ok|done].
    intros [= <-]. left. eexists. split; [done|]. apply i64_range.
  - destruct (int_loop _ _ _) as [v| |] eqn:E; [|intros H; right; right; by eapply decodeDouble_ok|done].
    apply int_loop_bound in E; [|unfold maxLargestUInt, maxUInt64; lia]. unfold maxLargestUInt, maxUInt64, maxInt in *.
    destruct (Z.leb_spec v (2 ^ 31 - 1)); intros [= <-].
    + left. eexists. split; [done|]. unfold is_i64. lia.
    + right. left. eexists. split; [done|]. unfold is_u64. lia.
Qed.

Lemma decodeNumber_wf t h : decodeNumber t = inr h -> wf (fresh h).
Proof.
  intros [(z & -> & Hz)|[(z & -> & Hz)|(d & ->)]]%decodeNumber_ok; rewrite wf_fresh; (split; [done|constructor]).
Qed.

Lemma member_name_defined t r : exists m, member_name t r = Some m.
Proof.
  unfold member_name. case_decide; [by eexists|]. case_decide; [|by eexists].
  destruct (allowNumericKeys_ _); [|by eexists]. destruct (decodeNumber t) as [x|h] eqn:E; [by eexists|].
  apply decodeNumber_ok in E as [(z & -> & Hz)|[(z & -> & Hz)|(d & ->)]]; cbn [asString fresh value_].
  - rewrite valueToString_int_sdec by done. by eexists.
  - unfold valueToString_uint. rewrite uintToString_udec by done. by eexists.
  - by eexists.
Qed.

(** ** The loops *)

Lemma array_at r p i :
  is_Some (deref (p ++ [SIndex i]) (root_ r)) -> exists w l, deref p (root_ r) = Some w /\ value_ w = arrayValue l.
Proof.
  rewrite deref_app. destruct (deref p (root_ r)) as [w|]; [|by intros []]. cbn [mbind option_bind deref].
  destruct (value_ w) as [| | | | | |l|] eqn:E; intros []; try done. by eauto.
Qed.

Lemma object_at r p k :
  is_Some (deref (p ++ [SName k]) (root_ r)) -> exists w l, deref p (root_ r) = Some w /\ value_ w = objectValue l.
Proof.
  rewrite deref_app. destruct (deref p (root_ r)) as [w|]; [|by intros []]. cbn [mbind option_bind deref].
  destruct (value_ w) as [| | | | | | |l] eqn:E; intros []; try done. by eauto.
Qed.

Lemma quiet_deref r r' q : quiet r r' -> is_Some (deref q (root_ r)) -> is_Some (deref q (root_ r')).
Proof. intros []. by rewrite <- (deref_strip_is_Some q (root_ r)), <- (deref_strip_is_Some q (root_ r')), q_root0. Qed.

Lemma quiet_object_at r r' p :
  quiet r r' -> (exists w l, deref p (root_ r) = Some w /\ value_ w = objectValue l) ->
  exists w l, deref p (root_ r') = Some w /\ value_ w = objectValue l.
Proof.
  intros Hq (w & l & Hw & El). pose proof (deref_strip p (root_ r)) as D. rewrite <- (q_root _ _ Hq), deref_strip, Hw in D.
  destruct (deref p (root_ r')) as [w2|]; [|done]. injection D as D. exists w2. rewrite !strip_alt, El in D.
  injection D as D. destruct (value_ w2); try done. by eauto.
Qed.

(** An error path ends the reading of the node. *)
Definition stopped (r : Reader) (p : pointer) (x : option (bool * Reader)) : Prop :=
  exists ok r', x = Some (ok, r') /\ kept r r' /\ at_node r' p /\ told ok r r'.

Lemma recover_stops t r r0 p :
  kept r r0 -> at_node r0 p -> errors_ r0 <> [] -> stopped r p (recoverFromError t r0).
Proof.
  intros Hk Hn He. destruct (recoverFromError_spec t r0 (proj1 Hn)) as (r1 & -> & Hq & Hok). exists false, r1.
  split; [done|]. split; [etrans; [done|by apply quiet_kept]|]. split; [by eapply quiet_at_node|].
  unfold told. by rewrite (q_errors _ _ Hq).
Qed.

Lemma error_stops m tk x t r r0 p :
  kept r r0 -> at_node r0 p -> stopped r p (recoverFromError t (addError m tk x r0)).
Proof.
  intros Hk Hn. apply recover_stops; [etrans; [done|by split]|exact Hn|]. cbn [errors_ addError set_errors].
  intros H. by destruct (errors_ r0).
Qed.

(** Reading goes on after a quiet step. *)
Lemma stopped_after r r0 p x : kept r r0 -> errors_ r0 = errors_ r -> stopped r0 p x -> stopped r p x.
Proof.
  intros Hk He (ok & r' & Hx & Hk' & Hn & Ht). exists ok, r'. split; [done|]. split; [by etrans|]. split; [done|].
  by eapply told_trans.
Qed.

Lemma stopped_here r r0 p : kept r r0 -> errors_ r0 = errors_ r -> at_node r0 p -> stopped r p (Some (true, r0)).
Proof. intros Hk He Hn. by exists true, r0. Qed.

Lemma read_array_loop_spec body n fuel : reads body n -> forall index r p,
  at_node r p -> last_within 1 r p -> (exists w l, deref p (root_ r) = Some w /\ value_ w = arrayValue l) ->
  (length (current_ r) < fuel)%nat -> (length (current_ r) < n)%nat -> 0 <= index ->
  index + Z.of_nat (length (current_ r)) < 2 ^ 31 - 1 -> stopped r p (array_loop body fuel index r).
Proof.
  intros Hb. induction fuel as [|fuel IH]; intros index r p Hn Hl (w & l & Hw & El) Hf Hfn Hi Hz; [lia|]. cbn [array_loop].
  assert (exists w', at_int w index = Some w') as [w' Hw'].
  { unfold at_int, at_index, promoted, isNull. rewrite (proj2 (Z.leb_le 0 index) Hi), El, El.
    destruct (map_get index_lt index l); by eexists. }
  pose proof Hw' as Hai. unfold at_int in Hai. destruct (Z.leb_spec 0 index); [|done].
  destruct (currentValue_spec r p (fun v => at_int v index) w w' Hn Hw Hw') as (v & -> & Hn1 & Hv).
  { intros Hwf. eapply at_index_wf; [done| |done]. unfold is_u32. lia. }
  { right. intros s t. by eapply at_index_below. }
  cbn [mbind option_bind].
  destruct (with_node_spec body n (set_root v r) p (SIndex index) Hb Hn1 Hl)
    as (ok & r1 & -> & Hk1 & Hn2 & Hd1 & Ht1 & Hl1); [|done|cbn [current_ set_root]; lia|].
  { cbn [root_ set_root]. rewrite deref_app, Hv. cbn [mbind option_bind]. by eapply at_index_finds. }
  assert (kept r r1) as Hkr by (etrans; [|exact Hk1]; by split). cbn [mbind option_bind].
  destruct ok; cbn [negb]; [|by apply recover_stops]. cbn [told errors_ set_root] in Ht1.
  destruct (next_token_spec r1 (proj1 Hn2)) as (t & r2 & -> & Hq & Hok3 & Hp). cbn [mbind option_bind].
  assert (at_node r2 p) as Hn3 by by eapply quiet_at_node. assert (kept r r2) as Hkr2 by (etrans; [done|by apply quiet_kept]).
  assert (errors_ r2 = errors_ r) as He2 by (etrans; [apply (q_errors _ _ Hq)|done]).
  case_bool_decide as Ht; cbn [negb]; [|by apply error_stops].
  case_decide as Hte; [by apply stopped_here|]. destruct Hp as [_ [Hp|Hp]]; [|rewrite Hp in Ht; set_solver].
  pose proof (k_current _ _ Hkr) as Hlen. unfold int_ok. rewrite bool_decide_eq_true_2 by (unfold is_i32; lia). cbn [mbind option_bind].
  eapply stopped_after; [exact Hkr2|exact He2|]. apply IH; [done|..]; try lia.
  - eapply last_within_eq; [apply (q_last _ _ Hq)|done].
  - eapply (array_at _ _ index), quiet_deref; done.
Qed.

(** What follows a member: a comma, the end of the object, or an error. *)
Definition after_member (fuel : nat) (body : Reader -> option (bool * Reader)) (nm : bytes) (r : Reader)
  : option (bool * Reader) :=
  '(comma, r) ← readToken r;
  if negb (bool_decide (type_ comma ∈ [tokenObjectEnd; tokenArraySeparator; tokenComment]))
  then addErrorAndRecover (lit "Missing ',' or '}' in object declaration") comma tokenObjectEnd r
  else
    '(comma, r) ← (if decide (type_ comma = tokenComment) then next_token r else Some (comma, r));
    if decide (type_ comma = tokenObjectEnd) then Some (true, r) else object_loop body fuel nm r.

Lemma after_member_spec fuel body nm r p :
  at_node r p ->
  (forall r', quiet r r' -> comment_ok r' -> stopped r' p (object_loop body fuel nm r')) ->
  stopped r p (after_member fuel body nm r).
Proof.
  intros Hn IH. unfold after_member. destruct (readToken_spec r (proj1 Hn)) as (comma & r1 & -> & Hq & Hok & _).
  cbn [mbind option_bind]. pose proof (quiet_kept _ _ Hq) as Hk.
  case_bool_decide; cbn [negb]; [|apply error_stops; [done|by eapply quiet_at_node]].
  set (nt := if decide (type_ comma = tokenComment) then _ else _).
  assert (exists c2 r2, nt = Some (c2, r2) /\ quiet r r2 /\ comment_ok r2) as (c2 & r2 & -> & Hq2 & Hok2).
  { subst nt. case_decide; [|by eauto]. destruct (next_token_spec r1 Hok) as (c2 & r2 & -> & Hq2 & Hok2 & _).
    exists c2, r2. split; [done|]. split; [by etrans|done]. }
  cbn [mbind option_bind]. pose proof (quiet_kept _ _ Hq2) as Hk2. pose proof (q_errors _ _ Hq2) as He2.
  case_decide; [apply stopped_here; [done|done|by eapply quiet_at_node]|].
  eapply stopped_after; [done|done|]. by apply IH.
Qed.

Lemma read_object_loop_spec body n fuel : reads body n -> forall name r p,
  at_node r p -> last_within 1 r p -> (exists w l, deref p (root_ r) = Some w /\ value_ w = objectValue l) ->
  (length (current_ r) < fuel)%nat -> (length (current_ r) < n)%nat ->
  Z.of_nat (length (current_ r)) < 2 ^ 31 - 1 -> stopped r p (object_loop body fuel name r).
Proof.
  intros Hb. induction fuel as [|fuel IH]; intros name r p Hn Hl Ho Hf Hfn Hz; [lia|]. cbn [object_loop].
  destruct (next_token_spec r (proj1 Hn)) as (t & r1 & -> & Hq & Hok1 & Hp). cbn [mbind option_bind].
  assert (at_node r1 p) as Hn1 by by eapply quiet_at_node. pose proof (quiet_kept _ _ Hq) as Hk1.
  pose proof (q_errors _ _ Hq) as He1.
  destruct (bool_decide _ && _); [by apply stopped_here|]. destruct (member_name_defined t r1) as [m Hm]. rewrite Hm. cbn [mbind option_bind].
  destruct m as [[[msg ex]|nm]|]; [by apply error_stops| |by apply error_stops].
  destruct Hp as [_ [Hp|Hp]]; [|unfold member_name in Hm; rewrite Hp in Hm; by repeat case_decide].
  destruct (readToken_spec r1 Hok1) as (colon & r2 & -> & Hq2 & Hok2 & _). cbn [mbind option_bind].
  assert (at_node r2 p) as Hn2 by by eapply quiet_at_node.
  assert (kept r r2) as Hk2 by (etrans; [done|by apply quiet_kept]).
  case_bool_decide; cbn [negb]; [|by apply error_stops].
  destruct (quiet_object_at r r2 p ltac:(by etrans) Ho) as (w & l & Hw & El).
  assert (exists w', resolveReference w nm = Some w') as [w' Hw'].
  { unfold resolveReference, promoted, isNull. rewrite El, El. destruct (map_get name_lt (cstr nm) l); by eexists. }
  destruct (currentValue_spec r2 p (fun v => resolveReference v nm) w w' Hn2 Hw Hw') as (v & -> & Hn3 & Hv).
  { intros Hwf. by eapply resolveReference_wf. }
  { right. intros s x. by eapply resolveReference_below. }
  cbn [mbind option_bind]. pose proof (q_current _ _ Hq2) as Hlen2.
  destruct (with_node_spec body n (set_root v r2) p (SName (cstr nm)) Hb Hn3)
    as (ok & r3 & -> & Hk3 & Hn4 & Hd3 & Ht3 & Hl3); try (cbn [current_ set_root]; lia).
  { eapply last_within_eq; [|exact Hl]. cbn [lastValue_ set_root]. etrans; [apply (q_last _ _ Hq2)|apply (q_last _ _ Hq)]. }
  { cbn [root_ set_root]. rewrite deref_app, Hv. cbn [mbind option_bind]. by eapply resolveReference_finds. }
  assert (kept r r3) as Hkr by (etrans; [exact Hk2|]; etrans; [|exact Hk3]; by split). cbn [mbind option_bind].
  destruct ok; cbn [negb]; [|by apply recover_stops]. cbn [told errors_ set_root] in Ht3.
  pose proof (k_current _ _ Hk3) as L3. cbn [current_ set_root] in L3.
  eapply stopped_after; [exact Hkr|by rewrite Ht3, (q_errors _ _ Hq2)|].
  apply (after_member_spec fuel body nm r3 p Hn4). intros r5 Hq5 Hok5. pose proof (q_current _ _ Hq5) as L5.
  apply IH; [by eapply quiet_at_node|..]; try lia.
  - eapply last_within_eq; [apply (q_last _ _ Hq5)|done].
  - eapply (object_at _ _ (cstr nm)), quiet_deref; done.
Qed.

(** ** Values and documents *)

(** An assignment to the node, where nothing below it can be referred to. *)
Lemma assign_spec r p f w' :
  at_node r p -> last_within 0 r p -> wf w' -> (forall w, f w = Some (assign w w')) ->
  exists v u, currentValue r f = Some (set_root v r) /\ at_node (set_root v r) p /\
    deref p v = Some (assign u w') /\ deref p (root_ r) = Some u.
Proof.
  intros Hn Hl Hw Hf. pose proof Hn as (_ & _ & _ & [u Hu]).
  destruct (currentValue_spec r p f u (assign u w') Hn Hu (Hf u)) as (v & E & Hn' & Hv);
    [intros _; by apply wf_assign|by left|]. by eauto 6.
Qed.

(** A change of the offsets or comments of the node. *)
Lemma touch_spec r p f :
  at_node r p -> (forall w, exists w', f w = Some w' /\ value_ w' = value_ w) ->
  exists v, currentValue r f = Some (set_root v r) /\ at_node (set_root v r) p.
Proof.
  intros Hn Hf. pose proof Hn as (_ & _ & _ & [u Hu]). destruct (Hf u) as (u' & Hfu & Ev).
  destruct (currentValue_spec r p f u u' Hn Hu Hfu) as (v & E & Hn' & _).
  - by apply wf_holder.
  - right. intros s t. destruct s; cbn [deref]; by rewrite Ev.
  - by eauto.
Qed.

Lemma strip_newlines_slash s : s = [] \/ (exists t, s = "/"%byte :: t) ->
  strip_newlines s = [] \/ exists t, strip_newlines s = "/"%byte :: t.
Proof.
  intros [->|[t ->]]; [by left|]. right. unfold strip_newlines. cbn [rev].
  assert (forall l, exists l', drop_newlines (l ++ ["/"%byte]) = l' ++ ["/"%byte]) as H.
  { induction l as [|c l [l' IH]]; cbn [app drop_newlines]; [by exists []|]. case_decide; [by exists l'|by exists (c :: l)]. }
  destruct (H (rev t)) as [l' ->]. rewrite rev_app_distr. by eexists.
Qed.

Lemma valid_comment_ok s : s = [] \/ (exists t, s = "/"%byte :: t) -> valid_comment s = true.
Proof. by intros [->|[t ->]]. Qed.

Lemma setComment_defined s p w : valid_comment s = true -> exists w', setComment w s p = Some w' /\ value_ w' = value_ w.
Proof. unfold setComment. intros ->. by eauto. Qed.

Lemma store_comments_spec r p :
  at_node r p -> exists r', store_comments r = Some r' /\ kept r r' /\ at_node r' p /\
    lastValue_ r' = lastValue_ r /\ current_ r' = current_ r /\ errors_ r' = errors_ r /\ strip (root_ r') = strip (root_ r).
Proof.
  intros Hn. unfold store_comments. destruct (_ && _); [|exists r; by split].
  destruct (touch_spec r p (fun v => setComment v (strip_newlines (commentsBefore_ r)) commentBefore) Hn) as (v & E & Hn').
  { intros w. apply setComment_defined, valid_comment_ok, strip_newlines_slash. apply Hn. }
  rewrite E. cbn [mbind option_bind]. eexists. split; [done|]. split; [by split|]. split; [|split_and!; try done].
  - destruct Hn' as ((_ & Hl) & Hrest). split; [|exact Hrest]. split; [by left|exact Hl].
  - unfold currentValue in E. destruct (head (nodes_ r)) as [q|]; [|done]. cbn [mbind option_bind] in E.
    destruct (alter q _ (root_ r)) as [u|] eqn:Ea; [|done]. injection E as ->. cbn [root_ set_commentsBefore set_root].
    eapply strip_alter_quiet; [|exact Ea]. intros ? ? _. apply setComment_quiet.
Qed.

(** The end of [readValue]. *)
Lemma finish_value_spec r r1 p ok :
  kept r r1 -> at_node r1 p -> told ok r r1 -> finished r p (finish_value ok r1).
Proof.
  intros Hk Hn Ht. unfold finish_value. destruct (collectComments_ r1) eqn:Hc.
  - pose proof Hn as (Hok & Hw & Hh & Hd). rewrite Hh. cbn [mbind option_bind]. eexists _, _. split; [done|].
    split; [destruct Hk; split; try done; congruence|]. split; [|split; [exact Ht|by left]]. split; [|by split].
    destruct Hok as [Hb _]. split; [done|]. right. exists p. split; [done|]. by rewrite deref_strip_is_Some.
  - eexists _, _. split; [done|]. split; [done|]. split; [done|]. split; [exact Ht|]. right.
    apply (k_last _ _ Hk). by rewrite <- (k_collect _ _ Hk).
Qed.

Lemma finish_assigned r r2 p h s e :
  kept r r2 -> at_node r2 p -> last_within 0 r2 p -> errors_ r2 = errors_ r -> wf (fresh h) ->
  finished r p (r3 ← currentValue r2 (fun v => Some (set_range s e (assign v (fresh h)))); finish_value true r3).
Proof.
  intros Hk Hn Hl He Hh.
  destruct (assign_spec r2 p (fun v => Some (set_range s e (assign v (fresh h)))) (MkJson h no_comments s e) Hn Hl)
    as (v & u & -> & Hn3 & _); [by apply (wf_holder (fresh h))|done|]. cbn [mbind option_bind].
  apply finish_value_spec; [|done|done]. etrans; [exact Hk|by split].
Qed.

Lemma finish_container r r2 p x :
  kept r r2 -> errors_ r2 = errors_ r -> stopped r2 p x ->
  finished r p ('(ok, r3) ← x; r4 ← currentValue r3 (fun v => Some (setOffsetLimit v (offset r3 (current_ r3)))); finish_value ok r4).
Proof.
  intros Hk He (ok & r3 & -> & Hk3 & Hn3 & Ht3). cbn [mbind option_bind].
  destruct (touch_spec r3 p (fun v => Some (setOffsetLimit v (offset r3 (current_ r3)))) Hn3) as (v & -> & Hn4); [by eauto|].
  cbn [mbind option_bind]. apply finish_value_spec; [|done|by eapply told_trans in Ht3].
  etrans; [exact Hk|]. etrans; [exact Hk3|by split].
Qed.

Lemma finish_decoded r r2 p t d :
  kept r r2 -> at_node r2 p -> last_within 0 r2 p -> errors_ r2 = errors_ r -> (forall h, d = inr h -> wf (fresh h)) ->
  finished r p ('(ok, r3) ← store_decoded t d r2; finish_value ok r3).
Proof.
  intros Hk Hn Hl He Hd. unfold store_decoded. destruct d as [[m x]|h].
  - cbn [mbind option_bind]. apply finish_value_spec; [etrans; [exact Hk|by split]|exact Hn|].
    cbn [told errors_ addError set_errors]. intros H. by destruct (errors_ r2).
  - pose proof (finish_assigned r r2 p h (offset r2 (tstart_ t)) (offset r2 (tend_ t)) Hk Hn Hl He (Hd h eq_refl)) as H.
    unfold set_range in H. by destruct (currentValue r2 _).
Qed.

Lemma finish_error r r2 p m t s e :
  kept r r2 -> at_node r2 p -> lastValue_ r2 = lastValue_ r ->
  finished r p (r3 ← currentValue r2 (fun v => Some (set_range s e v)); Some (false, addError m t None r3)).
Proof.
  intros Hk Hn Hl. destruct (touch_spec r2 p (fun v => Some (set_range s e v)) Hn) as (v & -> & Hn3); [by eauto|].
  cbn [mbind option_bind]. eexists _, _. split; [done|]. split; [etrans; [exact Hk|by split]|]. split; [exact Hn3|].
  split; [|by right]. cbn [told errors_ addError set_errors]. intros H. by destruct (errors_ (set_root v r2)).
Qed.

Lemma decoded_string_wf t h : decoded_string (decodeString t) = inr h -> wf (fresh h).
Proof. unfold decoded_string. destruct (decodeString t); [done|]. intros [= <-]. apply wf_string. Qed.

(** The two containers: the node is emptied, then its children are read. *)
Lemma readArray_spec body n fuel r p t :
  reads body n -> at_node r p -> last_within 0 r p -> (length (current_ r) < fuel)%nat -> (length (current_ r) < n)%nat ->
  Z.of_nat (length (current_ r)) < 2 ^ 31 - 1 -> stopped r p (readArray body fuel t r).
Proof.
  intros Hb Hn Hl Hf Hfn Hz. unfold readArray.
  destruct (assign_spec r p (fun v => Some (setOffsetStart (assign v (Value_type VT.arrayValue)) (offset r (tstart_ t))))
    (MkJson (arrayValue []) no_comments (offset r (tstart_ t)) 0) Hn Hl) as (v & u & -> & Hn' & Hv & _); [|done|].
  { apply (wf_holder (Value_type VT.arrayValue)); [done|apply wf_type]. }
  cbn [mbind option_bind]. set (r1 := set_current _ _). pose proof (skipSpaces_length (current_ r)) as Ls.
  assert (quiet (set_root v r) r1) as Hq1 by (by apply quiet_set_current).
  assert (at_node r1 p) as Hn1 by (eapply quiet_at_node; [exact Hq1|apply Hn'|done]).
  assert (kept r r1) as Hk1 by (etrans; [|by apply quiet_kept]; by split).
  assert (length (current_ r1) <= length (current_ r))%nat as Lr by apply (k_current _ _ Hk1).
  case_decide.
  - destruct (readToken_spec r1 (proj1 Hn1)) as (tk & r2 & -> & Hq & Hok & _). cbn [mbind option_bind].
    apply stopped_here; [etrans; [done|by apply quiet_kept]|apply (q_errors _ _ Hq)|by eapply quiet_at_node].
  - eapply stopped_after; [exact Hk1|done|]. apply (read_array_loop_spec body n fuel Hb 0 r1 p Hn1); try lia.
    + intros q x Hq E. specialize (Hl q x Hq E). lia.
    + eexists _, _. by split; [exact Hv|].
Qed.

Lemma readObject_spec body n fuel r p t :
  reads body n -> at_node r p -> last_within 0 r p -> (length (current_ r) < fuel)%nat -> (length (current_ r) < n)%nat ->
  Z.of_nat (length (current_ r)) < 2 ^ 31 - 1 -> stopped r p (readObject body fuel t r).
Proof.
  intros Hb Hn Hl Hf Hfn Hz. unfold readObject.
  destruct (assign_spec r p (fun v => Some (setOffsetStart (assign v (Value_type VT.objectValue)) (offset r (tstart_ t))))
    (MkJson (objectValue []) no_comments (offset r (tstart_ t)) 0) Hn Hl) as (v & u & -> & Hn' & Hv & _); [|done|].
  { apply (wf_holder (Value_type VT.objectValue)); [done|apply wf_type]. }
  cbn [mbind option_bind]. eapply (stopped_after r (set_root v r)); [by split|done|].
  apply (read_object_loop_spec body n fuel Hb [] (set_root v r) p Hn'); try done.
  - intros q x Hq E. specialize (Hl q x Hq E). lia.
  - eexists _, _. by split; [exact Hv|].
Qed.

Lemma readValue_spec n : reads (readValue n) n.
Proof.
  induction n as [|n IH]; intros r p Hn Hl Hf Hz; [lia|]. cbn [readValue].
  destruct (skipCommentTokens_spec r (proj1 Hn)) as (t & r1 & -> & Hq & Hok & Hp). cbn [mbind option_bind].
  destruct (store_comments_spec r1 p (quiet_at_node _ _ _ Hq Hok Hn)) as (r2 & -> & Hk2 & Hn2 & Hl2 & Hc2 & He2 & _). cbn [mbind option_bind].
  assert (kept r r2) as Hk by (etrans; [by apply quiet_kept|done]).
  assert (lastValue_ r2 = lastValue_ r) as Hlast by (rewrite Hl2; apply (q_last _ _ Hq)).
  assert (errors_ r2 = errors_ r) as He by (rewrite He2; apply (q_errors _ _ Hq)).
  assert (last_within 0 r2 p) as Hw2 by by eapply last_within_eq.
  assert (type_ t <> tokenEndOfStream -> (length (current_ r2) < n)%nat) as Hlen.
  { intros Hne. destruct Hp as [_ [Hp|Hp]]; [|done]. rewrite Hc2. lia. }
  pose proof (k_current _ _ Hk) as Lk.
  assert (forall b, wf (fresh (booleanValue b))) as Hb by (intros b; rewrite wf_fresh; split; [done|constructor]).
  unfold read_switch. destruct (type_ t) eqn:Et; try (by apply finish_error); try (by apply finish_assigned).
  - apply (finish_container r r2); [done|done|]. apply (readObject_spec _ n); [done|done|done|by apply Hlen|by apply Hlen|lia].
  - apply (finish_container r r2); [done|done|]. apply (readArray_spec _ n); [done|done|done|by apply Hlen|by apply Hlen|lia].
  - apply finish_decoded; [done|done|done|done|apply decoded_string_wf].
  - apply finish_decoded; [done|done|done|done|apply decodeNumber_wf].
  - destruct (allowDroppedNullPlaceholders_ _); [|by apply finish_error].
    apply (finish_assigned r (set_current (tstart_ t) r2) p nullValue); [|done|done|done|apply wf_null].
    destruct Hk. destruct Hp as [Hs _]. by split.
Qed.

(** C24. [Reader::parse] reads every document of less than 2 GB, whatever it holds and
    whatever the features: it ends, throws no exception, follows no dangling
    pointer, leaves a well-formed value, and returns [false] exactly when it
    has recorded an error. *)
Theorem parse_total features document root collectComments :
  Z.of_nat (length document) < 2 ^ 31 - 1 -> wf root ->
  exists ok r, parse (Reader_new features) document root collectComments = Some (ok, r) /\
    wf (root_ r) /\ (ok = false <-> errors_ r <> []).
Proof.
  intros Hd Hw. unfold parse. cbn [features_ Reader_new].
  set (r0 := MkReader _ _ _ _ _ _ _ _ _ _).
  assert (at_node r0 []) as Hn0.
  { split; [|by split; [|split; [|by eexists]]]. split; [by left|by left]. }
  destruct (readValue_spec (S (length document)) r0 [] Hn0) as (ok & r1 & -> & Hk & Hn1 & Ht & _); [by intros q t [=]|cbn; lia|done|].
  cbn [mbind option_bind].
  destruct (skipCommentTokens_spec r1 (proj1 Hn1)) as (t & r2 & -> & Hq & Hok2 & _). cbn [mbind option_bind].
  pose proof (quiet_at_node _ _ _ Hq Hok2 Hn1) as (_ & Hw2 & _).
  assert (told ok r0 r2) as Ht2 by (unfold told in *; by rewrite (q_errors _ _ Hq)).
  set (x := if collectComments_ r2 && _ then _ else _).
  assert (exists r3, x = Some r3 /\ wf (root_ r3) /\ errors_ r3 = errors_ r2) as (r3 & -> & Hw3 & He3).
  { subst x. destruct (_ && _); [|by eauto].
    destruct (setComment_defined (commentsBefore_ r2) commentAfter (root_ r2)) as (w & -> & Ew); [apply valid_comment_ok, Hok2|].
    cbn [mbind option_bind]. eexists. split; [done|]. split; [|done]. by apply (wf_holder (root_ r2)). }
  cbn [mbind option_bind]. destruct (_ && _).
  - eexists _, _. split; [done|]. split; [done|]. cbn [errors_ addError set_errors]. split; [|done]. intros _ H. by destruct (errors_ r3).
  - exists ok, r3. split; [done|]. split; [done|]. rewrite He3. unfold told in Ht2. destruct ok; split; try done.
Qed.

(** A document that is not JSON: an error is recorded and the elements read so far
    are there. *)
Definition demo_broken : bytes := lit "[1, tru".

Lemma parse_total_witness :
  exists ok r, parse (Reader_new Features_all) demo_broken null false = Some (ok, r) /\
    wf (root_ r) /\ errors_ r <> [] /\ size (root_ r) = 2.
Proof.
  destruct (parse_total Features_all demo_broken null false) as (ok & r & E & Hw & Hok).
  - vm_compute. reflexivity.
  - apply wf_null.
  - exists ok, r. split; [exact E|]. split; [exact Hw|]. vm_compute in E. injection E as <- <-. split; [discriminate|reflexivity].
Defined.
