(* ===== verification/JsonGrammar.v ===== *)
(** The grammar of JSON with its meaning, and the proof that the reader
    implements it: a document of the grammar is read, without an error, as the
    value it denotes. *)

From Stdlib Require Import SpecFloat Sorted.
From S2P Require Import Prelude Cstd Double JsonValue JsonValueSpec JsonWriter JsonReader JsonReaderSpec.

(** ** The grammar *)

Definition is_blank (c : byte) : Prop := c = x20 \/ c = x09 \/ c = x0d \/ c = x0a.
Definition blank (s : bytes) : Prop := Forall is_blank s.

Lemma blank_nil : blank [].
Proof. constructor. Qed.
#[export] Hint Resolve blank_nil : core.

Definition digits (s : bytes) : Prop := s <> [] /\ Forall (fun c => isdigit c = true) s.

Definition sign_text (neg : bool) : bytes := if neg then lit "-" else [].

(** The value of an integer; one out of range is a real number. *)
Definition integer_holder (neg : bool) (v : Z) : holder Value :=
  if neg then if v <=? 2 ^ 63 then intValue (- v) else realValue (round_decimal true v 0)
  else if v <=? maxInt then intValue v
  else if v <=? maxUInt64 then uintValue v else realValue (round_decimal false v 0).

(** An exponent: its text and its value. *)
Inductive exponent_denotes : bytes -> Z -> Prop :=
| exp_none : exponent_denotes [] 0
| exp_plain e ds : e = "e"%byte \/ e = "E"%byte -> digits ds -> exponent_denotes (e :: ds) (digits_value ds)
| exp_plus e ds : e = "e"%byte \/ e = "E"%byte -> digits ds -> exponent_denotes (e :: "+"%byte :: ds) (digits_value ds)
| exp_minus e ds : e = "e"%byte \/ e = "E"%byte -> digits ds -> exponent_denotes (e :: "-"%byte :: ds) (- digits_value ds).

Inductive fraction_denotes : bytes -> bytes -> Prop :=
| frac_none : fraction_denotes [] []
| frac_some ds : digits ds -> fraction_denotes ("."%byte :: ds) ds.

Inductive number_denotes : bytes -> holder Value -> Prop :=
| num_integer neg ds : digits ds -> number_denotes (sign_text neg ++ ds) (integer_holder neg (digits_value ds))
| num_real neg ds ft fs et e :
    digits ds -> fraction_denotes ft fs -> exponent_denotes et e -> ft ++ et <> [] ->
    number_denotes (sign_text neg ++ ds ++ ft ++ et)
      (realValue (round_decimal neg (digits_value (ds ++ fs)) (e - Z.of_nat (length fs)))).

(** Four hexadecimal digits. *)
Definition hex4 (s : bytes) (u : Z) : Prop :=
  exists a b c d x y z w, s = [a; b; c; d] /\ hex_value a = Some x /\ hex_value b = Some y /\
    hex_value c = Some z /\ hex_value d = Some w /\ u = ((x * 16 + y) * 16 + z) * 16 + w.

(** A character of a string, as it is written and what it stands for. *)
Inductive char_denotes : bytes -> bytes -> Prop :=
| ch_plain c : c <> quote -> c <> backslash -> char_denotes [c] [c]
| ch_escape c b : simple_escape c = Some b -> char_denotes [backslash; c] [b]
| ch_unicode h u :
    hex4 h u -> ~ (0xd800 <= u <= 0xdbff) -> char_denotes (backslash :: "u"%byte :: h) (codePointToUTF8 u)
| ch_pair h1 u1 h2 u2 :
    hex4 h1 u1 -> 0xd800 <= u1 <= 0xdbff -> hex4 h2 u2 ->
    char_denotes (backslash :: "u"%byte :: h1 ++ backslash :: "u"%byte :: h2)
      (codePointToUTF8 (0x10000 + Z.shiftl (Z.land u1 0x3ff) 10 + Z.land u2 0x3ff)).

Inductive chars_denote : bytes -> bytes -> Prop :=
| chs_nil : chars_denote [] []
| chs_cons t b ts bs : char_denotes t b -> chars_denote ts bs -> chars_denote (t ++ ts) (b ++ bs).

Inductive string_denotes : bytes -> bytes -> Prop :=
| str_intro ts s : chars_denote ts s -> string_denotes (quote :: ts ++ [quote]) s.

(** The elements of an array from index [i] on. *)
Fixpoint indexed (i : Z) (l : list Value) : list (Z * Value) :=
  match l with [] => [] | v :: l => (i, v) :: indexed (i + 1) l end.

(** The members of an object; of two with the same name the second counts. *)
Definition members (ms : list (bytes * Value)) : list (bytes * Value) :=
  foldl (fun o x => map_put name_lt x.1 x.2 o) [] ms.

(** What may stand between two tokens: blanks and, when they are allowed, comments
    of both kinds. *)
Inductive gap (cm : bool) : bytes -> Prop :=
| gap_nil : gap cm []
| gap_blank c s : is_blank c -> gap cm s -> gap cm (c :: s)
| gap_block body s :
    cm = true -> find (lit "*/") body = None -> gap cm s ->
    gap cm ("/"%byte :: "*"%byte :: body ++ "*"%byte :: "/"%byte :: s)
| gap_line body c s :
    cm = true -> Forall (fun b => ~ (b = x0d \/ b = x0a)) body -> c = x0d \/ c = x0a -> gap cm s ->
    gap cm ("/"%byte :: "/"%byte :: body ++ c :: s).

(** The values; [cm] says whether comments may stand before a value.  Before a name,
    a comma and a closing bracket the reader takes them in any case; before a
    colon and in an empty array it never does. *)
Section Denotes.
Context (cm : bool).

Inductive denotes : bytes -> Value -> Prop :=
| dn_null : denotes (lit "null") (fresh nullValue)
| dn_true : denotes (lit "true") (fresh (booleanValue true))
| dn_false : denotes (lit "false") (fresh (booleanValue false))
| dn_number t h : number_denotes t h -> denotes t (fresh h)
| dn_string t s : string_denotes t s -> denotes t (fresh (stringValue (Some (cstr s))))
| dn_empty_array w : blank w -> denotes ("["%byte :: w ++ ["]"%byte]) (fresh (arrayValue []))
| dn_array t l : elements_denote t l -> denotes ("["%byte :: t ++ ["]"%byte]) (fresh (arrayValue (indexed 0 l)))
| dn_empty_object w : gap true w -> denotes ("{"%byte :: w ++ ["}"%byte]) (fresh (objectValue []))
| dn_object t ms : members_denote t ms -> denotes ("{"%byte :: t ++ ["}"%byte]) (fresh (objectValue (members ms)))
with elements_denote : bytes -> list Value -> Prop :=
| el_last w1 t w2 v : gap cm w1 -> denotes t v -> gap true w2 -> elements_denote (w1 ++ t ++ w2) [v]
| el_cons w1 t w2 v ts l :
    gap cm w1 -> denotes t v -> gap true w2 -> elements_denote ts l ->
    elements_denote (w1 ++ t ++ w2 ++ ","%byte :: ts) (v :: l)
with members_denote : bytes -> list (bytes * Value) -> Prop :=
| mb_last w1 n name w2 w3 t w4 v :
    gap true w1 -> string_denotes n name -> blank w2 -> gap cm w3 -> denotes t v -> gap true w4 ->
    members_denote (w1 ++ n ++ w2 ++ ":"%byte :: w3 ++ t ++ w4) [(cstr name, v)]
| mb_cons w1 n name w2 w3 t w4 v ts ms :
    gap true w1 -> string_denotes n name -> blank w2 -> gap cm w3 -> denotes t v -> gap true w4 -> members_denote ts ms ->
    members_denote (w1 ++ n ++ w2 ++ ":"%byte :: w3 ++ t ++ w4 ++ ","%byte :: ts) ((cstr name, v) :: ms).

End Denotes.

Scheme denotes_mut := Minimality for denotes Sort Prop
with elements_mut := Minimality for elements_denote Sort Prop
with members_mut := Minimality for members_denote Sort Prop.

(** Text without comments does not depend on whether they are allowed. *)
Lemma gap_any cm w : gap false w -> gap cm w.
Proof. intros H. induction H; [constructor|by constructor|done..]. Qed.

Lemma denotes_any cm t v : denotes false t v -> denotes cm t v.
Proof.
  revert t v. apply (denotes_mut false (denotes cm) (elements_denote cm) (members_denote cm));
    intros; first [by eauto using denotes, gap_any|by apply el_last; auto using gap_any|by apply el_cons; auto using gap_any
      |by apply mb_last; auto using gap_any|by apply mb_cons; auto using gap_any].
Qed.

(** A document: a value between gaps. *)
Definition document_denotes (cm : bool) (d : bytes) (v : Value) : Prop :=
  exists w1 t w2, d = w1 ++ t ++ w2 /\ gap cm w1 /\ denotes cm t v /\ gap cm w2.

Lemma document_any cm d v : document_denotes false d v -> document_denotes cm d v.
Proof.
  intros (w1 & t & w2 & -> & H1 & Ht & H2). exists w1, t, w2. split_and!; auto using gap_any, denotes_any.
Qed.

(** ** Numbers *)

Lemma read_digits_concat ds : forall acc r,
  Forall (fun c => isdigit c = true) ds -> read_digits acc (ds ++ r) = read_digits (read_digits acc ds).1 r.
Proof.
  induction ds as [|c ds IH]; intros acc r H; [done|]. inversion H as [|?? Hc Hd]; subst.
  cbn [app read_digits]. rewrite Hc. by apply IH.
Qed.

Lemma digits_value_app ds c :
  Forall (fun c => isdigit c = true) ds -> isdigit c = true -> digits_value (ds ++ [c]) = digits_value ds * 10 + (bz c - 48).
Proof. intros H Hc. unfold digits_value. rewrite read_digits_concat by done. cbn [read_digits]. by rewrite Hc. Qed.

Lemma digit_range c : isdigit c = true -> 0 <= bz c - 48 <= 9.
Proof. unfold isdigit. lia. Qed.

Lemma read_digits_ge ds : forall acc, 0 <= acc -> Forall (fun c => isdigit c = true) ds -> acc <= (read_digits acc ds).1.
Proof.
  induction ds as [|c ds IH]; intros acc Ha H; [cbn; lia|]. inversion H as [|?? Hc Hd]; subst.
  cbn [read_digits]. rewrite Hc. pose proof (digit_range c Hc). specialize (IH (acc * 10 + (bz c - 48)) ltac:(lia) Hd). lia.
Qed.

Lemma int_loop_spec m ds : forall acc,
  10 <= m -> 0 <= acc <= m -> Forall (fun c => isdigit c = true) ds ->
  int_loop m ds acc = if (read_digits acc ds).1 <=? m then IntValue (read_digits acc ds).1 else IntTooBig.
Proof.
  induction ds as [|c ds IH]; intros acc Hm Ha H.
  { cbn [int_loop read_digits fst]. destruct (Z.leb_spec acc m); [done|lia]. }
  inversion H as [|?? Hc Hd]; subst. cbn [int_loop read_digits]. rewrite Hc. cbn [negb].
  pose proof (digit_range c Hc) as Hr. set (d := bz c - 48) in *.
  pose proof (Z.div_mod m 10 ltac:(lia)) as Hdm. pose proof (Z.mod_pos_bound m 10 ltac:(lia)).
  assert (1 <= m / 10) by (apply Z.div_le_lower_bound; lia).
  pose proof (read_digits_ge ds (acc * 10 + d) ltac:(lia) Hd) as Hge.
  match goal with |- (if ?b then _ else _) = _ => destruct b eqn:E end.
  - destruct (Z.leb_spec (m / 10) acc) as [Hle|]; [|done]. cbn [andb] in E.
    destruct (Z.leb_spec (read_digits (acc * 10 + d) ds).1 m) as [Hbad|]; [|done]. exfalso.
    destruct (Z.ltb_spec (m / 10) acc); [nia|]. assert (acc = m / 10) as -> by lia. cbn [orb] in E.
    destruct ds as [|c2 ds]; [cbn in E; lia|]. inversion Hd as [|?? Hc2 Hd2]; subst.
    cbn [read_digits] in Hbad. rewrite Hc2 in Hbad. pose proof (digit_range c2 Hc2).
    pose proof (read_digits_ge ds ((m / 10 * 10 + d) * 10 + (bz c2 - 48)) ltac:(lia) Hd2). nia.
  - apply IH; [done| |done]. split; [lia|]. destruct (Z.leb_spec (m / 10) acc) as [Hle|]; [|nia]. cbn [andb] in E.
    apply orb_false_iff in E as [E E3]. apply orb_false_iff in E as [E1 _]. nia.
Qed.

Lemma span_digits_app ds r :
  Forall (fun c => isdigit c = true) ds -> no_digit r -> span_digits (ds ++ r) = (ds, r).
Proof.
  induction 1 as [|c ds Hc _ IH]; intros Hr; cbn [app span_digits].
  - destruct r as [|b r]; [done|]. unfold no_digit in Hr. cbn in *. by rewrite Hr.
  - by rewrite Hc, (IH Hr).
Qed.

Lemma digits_not_space c : isdigit c = true -> isspace c = false.
Proof. by destruct c. Qed.

Lemma sign_digits neg ds r :
  digits ds -> read_sign (skip_space (sign_text neg ++ ds ++ r)) = (neg, ds ++ r).
Proof.
  intros [Hne Hd]. destruct ds as [|c ds]; [done|]. inversion Hd as [|?? Hc _]; subst.
  destruct neg; [done|]. cbn [sign_text app skip_space]. rewrite (digits_not_space c Hc). cbn [read_sign].
  by rewrite !decide_False by (intros ->; done).
Qed.

Lemma scan_exponent_spec et e : exponent_denotes et e ->
  et = [] \/ exists c s, et = c :: s /\ (c = "e"%byte \/ c = "E"%byte) /\ scan_exponent s = Some e.
Proof.
  assert (forall ds, digits ds -> exists c s, ds = c :: s /\ isdigit c = true /\ (span_digits ds).1 = c :: s) as Hspan.
  { intros ds [Hne Hd]. destruct ds as [|c s]; [done|]. exists c, s. split; [done|].
    inversion Hd; subst. split; [done|]. pose proof (span_digits_app (c :: s) [] Hd eq_refl) as H. rewrite app_nil_r in H. by rewrite H. }
  intros [|x ds Hx Hds|x ds Hx Hds|x ds Hx Hds]; [by left|right..]; eexists _, _; (split; [done|]); (split; [done|]);
    destruct (Hspan ds Hds) as (c & s & -> & Hc & Hs); unfold scan_exponent; cbn [read_sign].
  - rewrite !decide_False by (intros ->; done). by rewrite Hs.
  - rewrite decide_False, decide_True by done. by rewrite Hs.
  - rewrite decide_True by done. by rewrite Hs.
Qed.

Lemma sscanf_lf_spec neg ds ft fs et e :
  digits ds -> fraction_denotes ft fs -> exponent_denotes et e ->
  sscanf_lf (sign_text neg ++ ds ++ ft ++ et) = Some (round_decimal neg (digits_value (ds ++ fs)) (e - Z.of_nat (length fs))).
Proof.
  intros Hds Hf He. unfold sscanf_lf. rewrite sign_digits by done. destruct Hds as [Hne Hd].
  assert (no_digit et) as Het by (destruct He; try done; by destruct H as [->| ->]).
  pose proof (scan_exponent_spec et e He) as Hsc.
  assert (match et with
    | [] => Some (round_decimal neg (digits_value (ds ++ fs)) (- Z.of_nat (length fs)))
    | c :: s' => if decide (c = "e"%byte \/ c = "E"%byte)
                 then x ← scan_exponent s'; Some (round_decimal neg (digits_value (ds ++ fs)) (x + - Z.of_nat (length fs)))
                 else Some (round_decimal neg (digits_value (ds ++ fs)) (- Z.of_nat (length fs)))
    end = Some (round_decimal neg (digits_value (ds ++ fs)) (e - Z.of_nat (length fs)))) as Hfin.
  { destruct Hsc as [->|(c & s & -> & Hc & Hs)].
    - by inversion He; subst.
    - rewrite decide_True by done. by rewrite Hs. }
  assert (exists c l, ds ++ fs = c :: l) as (c & l & Ecl) by (destruct ds; [done|by eexists _, _]).
  destruct Hf as [|fs [Hfne Hfd]].
  - cbn [app]. rewrite span_digits_app by done.
    assert ((match et with c :: s' => if decide (c = "."%byte) then span_digits s' else ([], et) | [] => ([], []) end) = ([], et)) as ->.
    { destruct et as [|b et]; [done|]. rewrite decide_False; [done|]. intros ->. destruct Hsc as [|(? & ? & [= <- <-] & [|] & _)]; done. }
    rewrite Ecl in *. destruct et; exact Hfin.
  - rewrite span_digits_app by done. cbn [app]. rewrite decide_True by done. rewrite span_digits_app by done.
    rewrite Ecl in *. destruct et; exact Hfin.
Qed.

Lemma digit_number_char c : isdigit c = true -> is_number_char c = true.
Proof. unfold is_number_char. by intros ->. Qed.

Lemma digits_number_chars ds : Forall (fun c => isdigit c = true) ds -> Forall (fun c => is_number_char c = true) ds.
Proof. intros H. eapply Forall_impl; [exact H|]. apply digit_number_char. Qed.

Lemma exponent_number_chars et e : exponent_denotes et e -> Forall (fun c => is_number_char c = true) et.
Proof.
  intros [|x ds Hx [_ Hd]|x ds Hx [_ Hd]|x ds Hx [_ Hd]]; [constructor|..]; repeat (constructor; [by destruct Hx as [->| ->]|] || (constructor; [done|]));
    by apply digits_number_chars.
Qed.

(** The text of a number: its first character, and that all belong to it. *)
Lemma number_text t h :
  number_denotes t h -> Forall (fun c => is_number_char c = true) t /\
    exists c s, t = c :: s /\ (isdigit c = true \/ c = "-"%byte).
Proof.
  assert (forall neg ds r, digits ds -> exists c s, sign_text neg ++ ds ++ r = c :: s /\ (isdigit c = true \/ c = "-"%byte)) as Hhead.
  { intros neg ds r [Hne Hd]. destruct ds as [|c ds]; [done|]. inversion Hd; subst.
    destruct neg; cbn [sign_text app]; eexists _, _; (split; [done|]); auto. }
  assert (forall neg, Forall (fun c => is_number_char c = true) (sign_text neg)) as Hsign by (intros []; repeat constructor).
  intros [neg ds Hd|neg ds ft fs et e Hd Hf He _].
  - split; [apply Forall_app; split; [done|apply digits_number_chars, Hd]|].
    destruct (Hhead neg ds [] Hd) as (c & s & E & Hc). rewrite app_nil_r in E. by eauto.
  - split; [|by apply Hhead]. repeat (apply Forall_app; split); [done|apply digits_number_chars, Hd| |by eapply exponent_number_chars].
    destruct Hf as [|fs [_ Hf]]; [constructor|]. constructor; [done|]. by apply digits_number_chars.
Qed.

Lemma number_chars_no_nul t : Forall (fun c => is_number_char c = true) t -> Forall (fun b => b <> x00) t.
Proof. intros H. eapply Forall_impl; [exact H|]. intros c Hc ->. done. Qed.

Definition double_mark (c : byte) : bool := bool_decide (c ∈ ["."%byte; "e"%byte; "E"%byte; "+"%byte]).

Lemma digits_no_mark ds : Forall (fun c => isdigit c = true) ds ->
  existsb double_mark ds = false /\ existsb (fun c => bool_decide (c = "-"%byte)) ds = false.
Proof.
  induction 1 as [|c ds Hc _ [IH1 IH2]]; [done|]. cbn [existsb]. rewrite IH1, IH2. by destruct c.
Qed.

Lemma looks_double_integer neg ds : digits ds -> looks_double (sign_text neg ++ ds) = false.
Proof.
  intros [Hne Hd]. destruct (digits_no_mark ds Hd) as [H1 H2]. unfold looks_double. fold double_mark.
  apply orb_false_iff. destruct neg; [by split|]. destruct ds as [|c ds]; [done|]. cbn [sign_text app drop].
  split; [exact H1|]. cbn [existsb] in H2. by apply orb_false_iff in H2 as [_ H2].
Qed.

Lemma looks_double_real neg ds ft fs et e :
  fraction_denotes ft fs -> exponent_denotes et e -> ft ++ et <> [] -> looks_double (sign_text neg ++ ds ++ ft ++ et) = true.
Proof.
  intros Hf He Hne. unfold looks_double. apply orb_true_iff. left. apply existsb_exists.
  assert (exists c s, ft ++ et = c :: s /\ double_mark c = true) as (c & s & E & Hc).
  { destruct Hf as [|fs Hf]; [|by eexists _, _]. destruct He as [|x ds' [->| ->]|x ds' [->| ->]|x ds' [->| ->]]; by eauto. }
  exists c. split; [|exact Hc]. rewrite E, !in_app_iff. right. right. by left.
Qed.

Lemma decodeDouble_text neg ds ft fs et e t :
  digits ds -> fraction_denotes ft fs -> exponent_denotes et e ->
  token_text t = sign_text neg ++ ds ++ ft ++ et -> Forall (fun c => is_number_char c = true) (token_text t) ->
  Z.of_nat (length (token_text t)) < 2 ^ 31 ->
  decodeDouble t = inr (realValue (round_decimal neg (digits_value (ds ++ fs)) (e - Z.of_nat (length fs)))).
Proof.
  intros Hd Hf He Et Hn Hl. unfold decodeDouble. rewrite i32_id by (unfold is_i32; lia).
  destruct (Z.ltb_spec (Z.of_nat (length (token_text t))) 0); [lia|].
  rewrite cstr_id by by apply number_chars_no_nul. rewrite Et. by erewrite sscanf_lf_spec.
Qed.

Lemma decodeNumber_text tx h t :
  number_denotes tx h -> token_text t = tx -> Z.of_nat (length tx) < 2 ^ 31 -> decodeNumber t = inr h.
Proof.
  intros Hn Et Hl. pose proof (proj1 (number_text tx h Hn)) as Hch. unfold decodeNumber.
  destruct Hn as [neg ds Hd|neg ds ft fs et e Hd Hf He Hne].
  - rewrite Et, looks_double_integer by done. destruct (Hd) as [Hdne Hdd]. destruct ds as [|c ds]; [done|].
    pose proof (decodeDouble_text neg (c :: ds) [] [] [] 0 t Hd frac_none exp_none) as Hdbl.
    rewrite !app_nil_r in Hdbl. specialize (Hdbl Et). rewrite Et in Hdbl. specialize (Hdbl Hch Hl).
    change (0 - Z.of_nat (length [])) with 0 in Hdbl.
    inversion Hdd as [|?? Hc Hds]; subst. pose proof (read_digits_ge (c :: ds) 0 ltac:(lia) Hdd) as Hge.
    destruct neg; cbn [sign_text app] in *.
    + change (lit "-" ++ c :: ds) with ("-"%byte :: c :: ds) in *. rewrite bool_decide_eq_true_2 by done. cbn [drop].
      change (u64 (i64 (- minLargestInt))) with (2 ^ 63). rewrite int_loop_spec by (done || lia).
      change (read_digits 0 (c :: ds)).1 with (digits_value (c :: ds)) in *. unfold integer_holder.
      destruct (Z.leb_spec (digits_value (c :: ds)) (2 ^ 63)) as [Hle|]; [|exact Hdbl]. do 2 f_equal.
      destruct (decide (digits_value (c :: ds) = 2 ^ 63)) as [->|]; [by vm_compute|].
      rewrite (i64_id (digits_value _)), i64_id by (unfold is_i64; lia). done.
    + rewrite bool_decide_eq_false_2 by (cbn; intros [= ->]; done). unfold maxLargestUInt, maxUInt64.
      rewrite int_loop_spec by (done || lia). change (read_digits 0 (c :: ds)).1 with (digits_value (c :: ds)) in *.
      unfold integer_holder, maxUInt64, maxInt.
      destruct (Z.leb_spec (digits_value (c :: ds)) (2 ^ 64 - 1)), (Z.leb_spec (digits_value (c :: ds)) (2 ^ 31 - 1)); try lia; done.
  - rewrite Et, (looks_double_real neg ds ft fs et e) by done. apply decodeDouble_text with (ft := ft) (et := et); try done; by rewrite Et.
Qed.

(** ** Strings *)

Lemma hex4_loop e h u r :
  hex4 h u -> decodeUnicodeEscapeSequence e (h ++ r) = inr (u, r).
Proof.
  intros (a & b & c & d & x & y & z & w & -> & Ha & Hb & Hc & Hd & ->). unfold decodeUnicodeEscapeSequence.
  cbn [app length Nat.ltb Nat.leb hex_loop]. by rewrite Ha, Hb, Hc, Hd.
Qed.

Lemma hex_digit_plain c x : hex_value c = Some x -> c <> quote /\ c <> backslash.
Proof. intros H. split; intros ->; done. Qed.

(** The reader passes over a character as it is written. *)
Lemma readString_char t b r : char_denotes t b -> readString (t ++ r) = readString r.
Proof.
  assert (forall h u s, hex4 h u -> readString (h ++ s) = readString s) as Hhex.
  { intros h u s (a & b' & c & d & x & y & z & w & -> & Ha & Hb & Hc & Hd & _). cbn [app readString].
    apply hex_digit_plain in Ha as [? ?]; apply hex_digit_plain in Hb as [? ?];
    apply hex_digit_plain in Hc as [? ?]; apply hex_digit_plain in Hd as [? ?]. by rewrite !decide_False by done. }
  intros [c Hq Hb|c b' _|h u Hh _|h1 u1 h2 u2 H1 _ H2].
  - cbn [app readString]. by rewrite !decide_False by done.
  - done.
  - cbn [app readString]. rewrite decide_True by done. by eapply Hhex.
  - cbn [app readString]. rewrite decide_True by done. rewrite <- app_assoc. erewrite Hhex by done. cbn [app readString].
    rewrite decide_True by done. by eapply Hhex.
Qed.

Lemma readString_chars ts s r : chars_denote ts s -> readString (ts ++ quote :: r) = (true, r).
Proof.
  induction 1 as [|t b ts bs Hc _ IH]; [done|]. rewrite <- app_assoc. by rewrite (readString_char t b) by done.
Qed.

Lemma decode_char e t b fuel r acc :
  char_denotes t b -> decode_loop e (S fuel) (t ++ r) acc = decode_loop e fuel r (acc ++ b).
Proof.
  intros [c Hq Hb|c b' Hs|h u Hh Hu|h1 u1 h2 u2 H1 Hu H2]; cbn [app decode_loop].
  - by rewrite !decide_False by done.
  - rewrite decide_False, decide_True by done. by rewrite Hs.
  - rewrite decide_False, decide_True by done. change (simple_escape "u"%byte) with (@None byte).
    rewrite decide_True by done. unfold decodeUnicodeCodePoint. rewrite (hex4_loop _ _ _ _ Hh).
    destruct (Z.leb_spec 0xd800 u), (Z.leb_spec u 0xdbff); try done. lia.
  - rewrite decide_False, decide_True by done. change (simple_escape "u"%byte) with (@None byte).
    rewrite decide_True by done. unfold decodeUnicodeCodePoint. rewrite <- app_assoc, (hex4_loop _ _ _ _ H1).
    destruct (Z.leb_spec 0xd800 u1), (Z.leb_spec u1 0xdbff); try lia. cbn [andb app].
    assert (length h2 = 4%nat) as L2 by (by destruct H2 as (? & ? & ? & ? & ? & ? & ? & ? & -> & _)).
    destruct (Nat.ltb_spec (length (backslash :: "u"%byte :: h2 ++ r)) 6); [cbn [length] in *; rewrite length_app in *; lia|].
    rewrite !bool_decide_eq_true_2 by done. cbn [negb]. by rewrite (hex4_loop _ _ _ _ H2).
Qed.

Lemma char_text_length t b : char_denotes t b -> (1 <= length t)%nat.
Proof. intros []; cbn [length]; lia. Qed.

Lemma decode_chars e ts s : chars_denote ts s -> forall fuel acc,
  (length ts < fuel)%nat -> decode_loop e fuel ts acc = inr (acc ++ s).
Proof.
  induction 1 as [|t b ts bs Hc _ IH]; intros fuel acc Hf; (destruct fuel as [|fuel]; [lia|]).
  - cbn. by rewrite app_nil_r.
  - rewrite (decode_char e t b) by done. rewrite length_app in Hf. pose proof (char_text_length t b Hc).
    rewrite IH by lia. by rewrite <- app_assoc.
Qed.

Lemma decodeString_text tx s t : string_denotes tx s -> token_text t = tx -> decodeString t = inr s.
Proof.
  intros [ts s' Hc] Et. unfold decodeString. rewrite Et.
  assert (take (length (quote :: ts ++ [quote]) - 2) (drop 1 (quote :: ts ++ [quote])) = ts) as ->.
  { cbn [drop length]. rewrite length_app. cbn [length].
    replace (S (length ts + 1) - 2)%nat with (length ts) by lia. apply take_app_length. }
  apply (decode_chars _ ts s'); [done|lia].
Qed.

(** ** Tokens *)

(** What follows a value does not extend a number. *)
Definition ends (s : bytes) : Prop := match s with [] => True | c :: _ => is_number_char c = false end.

Lemma skipSpaces_blank w s : blank w -> skipSpaces (w ++ s) = skipSpaces s.
Proof. induction 1 as [|c w Hc _ IH]; [done|]. cbn [app skipSpaces]. by rewrite decide_True. Qed.

Lemma skipSpaces_idem s : skipSpaces (skipSpaces s) = skipSpaces s.
Proof.
  induction s as [|c s IH]; [done|]. cbn [skipSpaces]. case_decide as E; [done|]. cbn [skipSpaces]. by rewrite decide_False.
Qed.

Lemma skipSpaces_stays c s : ~ is_blank c -> skipSpaces (c :: s) = c :: s.
Proof. intros H. cbn [skipSpaces]. by rewrite decide_False. Qed.

Lemma token_text_app ty t rest : token_text (MkToken ty (t ++ rest) rest) = t.
Proof.
  unfold token_text, between. cbn [tstart_ tend_]. rewrite length_app.
  replace (length t + length rest - length rest)%nat with (length t) by lia. apply take_app_length.
Qed.

(** The reader, at [t] before [rest], reads the token [t]. *)
Definition lexes (ty : TokenType) (t rest : bytes) : Prop :=
  forall r, skipSpaces (current_ r) = t ++ rest ->
    readToken r = Some (MkToken ty (t ++ rest) rest, set_current rest r).

Definition structural (c : byte) : option TokenType :=
  if decide (c = "{"%byte) then Some tokenObjectBegin
  else if decide (c = "}"%byte) then Some tokenObjectEnd
  else if decide (c = "["%byte) then Some tokenArrayBegin
  else if decide (c = "]"%byte) then Some tokenArrayEnd
  else if decide (c = ","%byte) then Some tokenArraySeparator
  else if decide (c = ":"%byte) then Some tokenMemberSeparator
  else None.

Lemma lex_structural c ty rest : structural c = Some ty -> lexes ty [c] rest.
Proof.
  intros Hc r Hr. unfold readToken. rewrite Hr. cbn [app getNextChar]. unfold structural in Hc.
  repeat (case_decide; [subst c; injection Hc as <-; done|]). done.
Qed.

Lemma readNumber_app t rest :
  Forall (fun c => is_number_char c = true) t -> ends rest -> readNumber (t ++ rest) = rest.
Proof.
  induction 1 as [|c t Hc _ IH]; intros He; cbn [app readNumber].
  - destruct rest as [|c rest]; [done|]. cbn [readNumber]. cbn in He. by rewrite He.
  - by rewrite Hc, (IH He).
Qed.

Lemma lex_number t h rest : number_denotes t h -> ends rest -> lexes tokenNumber t rest.
Proof.
  intros Hn He r Hr. destruct (number_text t h Hn) as [Hch (c & s & -> & Hc)]. inversion Hch as [|?? Hc1 Hs]; subst.
  unfold readToken. rewrite Hr. cbn [app getNextChar]. rewrite readNumber_app by done.
  rewrite !(decide_False (P := c = _)) by (intros ->; destruct Hc as [Hc|Hc]; done).
  assert (isdigit c || bool_decide (c = "-"%byte) = true) as -> by (destruct Hc as [->| ->]; done). done.
Qed.

Lemma lex_string t s rest : string_denotes t s -> lexes tokenString t rest.
Proof.
  intros [ts s' Hc] r Hr. unfold readToken. rewrite Hr. cbn [app getNextChar].
  rewrite !(decide_False (P := quote = _)), decide_True by done.
  rewrite <- (app_assoc ts [quote] rest). cbn [app]. by rewrite (readString_chars ts s') by done.
Qed.

Lemma match_text_app p s : match_text p (p ++ s) = (true, s).
Proof.
  unfold match_text. destruct (Nat.ltb_spec (length (p ++ s)) (length p)) as [H|_]; [rewrite length_app in H; lia|].
  by rewrite take_app_length, bool_decide_eq_true_2, drop_app_length.
Qed.

Lemma lex_null rest : lexes tokenNull (lit "null") rest.
Proof.
  intros r Hr. unfold readToken. rewrite Hr.
  change (lit "null" ++ rest) with ("n"%byte :: lit "ull" ++ rest). cbn [getNextChar]. by rewrite match_text_app.
Qed.

Lemma lex_true rest : lexes tokenTrue (lit "true") rest.
Proof.
  intros r Hr. unfold readToken. rewrite Hr.
  change (lit "true" ++ rest) with ("t"%byte :: lit "rue" ++ rest). cbn [getNextChar]. by rewrite match_text_app.
Qed.

Lemma lex_false rest : lexes tokenFalse (lit "false") rest.
Proof.
  intros r Hr. unfold readToken. rewrite Hr.
  change (lit "false" ++ rest) with ("f"%byte :: lit "alse" ++ rest). cbn [getNextChar]. by rewrite match_text_app.
Qed.

(** ** Gaps *)

Lemma blank_gap cm w : blank w -> gap cm w.
Proof. induction 1; by constructor. Qed.

Lemma gap_app cm a b : gap cm a -> gap cm b -> gap cm (a ++ b).
Proof.
  intros Ha Hb. induction Ha as [|c s Hc _ IH|body s Hcm Hf _ IH|body c s Hcm Hf Hc _ IH]; cbn [app]; [done|by constructor|..];
    rewrite <- app_assoc; by constructor.
Qed.

Lemma gap_mono cm w : gap cm w -> gap true w.
Proof. induction 1; by constructor. Qed.

Lemma cstyle_loop_block body s :
  find (lit "*/") body = None -> cstyle_loop (body ++ "*"%byte :: "/"%byte :: s) = "/"%byte :: s.
Proof.
  induction body as [|c body IH]; intros Hf.
  { cbn [app cstyle_loop]. by rewrite decide_True. }
  change (find (lit "*/") (c :: body)) with
    (if bool_decide ("*"%byte = c) && is_prefix (lit "/") body then Some 0%nat else S <$> find (lit "*/") body) in Hf.
  destruct (bool_decide _ && _) eqn:E; [done|]. destruct (find (lit "*/") body); [done|].
  cbn [app cstyle_loop]. rewrite decide_False; [by apply IH|]. intros [-> Hp]. rewrite bool_decide_eq_true_2 in E by done.
  destruct body as [|d body]; [done|]. cbn in Hp. subst d. by destruct body.
Qed.

Lemma readCppStyleComment_line body c s :
  Forall (fun b => ~ (b = x0d \/ b = x0a)) body -> c = x0d \/ c = x0a -> readCppStyleComment (body ++ c :: s) = s.
Proof. intros Hb Hc. induction Hb as [|d body Hd _ IH]; cbn [app readCppStyleComment]; [by rewrite decide_True|by rewrite decide_False]. Qed.

(** After its blanks a gap is over, or a comment begins. *)
Lemma gap_cases cm g x :
  gap cm g ->
  skipSpaces (g ++ x) = skipSpaces x \/
  cm = true /\ exists text g', skipSpaces (g ++ x) = "/"%byte :: text /\ comment_scan text = (true, g' ++ x) /\
    gap cm g' /\ (length g' < length g)%nat.
Proof.
  induction 1 as [|c s Hc Hs IH|body s Hcm Hf Hs IH|body c s Hcm Hf Hc Hs IH].
  - by left.
  - cbn [app skipSpaces]. rewrite decide_True by done. destruct IH as [IH|(E & t & g' & H1 & H2 & H3 & H4)]; [by left|].
    right. split; [done|]. exists t, g'. split_and!; [done..|cbn [length]; lia].
  - right. split; [done|]. exists ("*"%byte :: body ++ "*"%byte :: "/"%byte :: s ++ x), s. split_and!.
    + cbn [app]. rewrite <- app_assoc. by apply skipSpaces_stays; intros [|[|[|]]].
    + unfold comment_scan. cbn [getNextChar]. rewrite decide_True by done. unfold readCStyleComment. by rewrite cstyle_loop_block.
    + done.
    + cbn [length]. rewrite length_app. cbn [length]. lia.
  - right. split; [done|]. exists ("/"%byte :: body ++ c :: s ++ x), s. split_and!.
    + cbn [app]. rewrite <- app_assoc. by apply skipSpaces_stays; intros [|[|[|]]].
    + unfold comment_scan. cbn [getNextChar]. rewrite decide_False, decide_True by done. by rewrite readCppStyleComment_line.
    + done.
    + cbn [length]. rewrite length_app. cbn [length]. lia.
Qed.

Lemma gap_length cm g x : gap cm g -> (length (skipSpaces x) <= length (skipSpaces (g ++ x)))%nat.
Proof.
  remember (length g) as m eqn:Em. revert g Em. induction m as [m IH] using lt_wf_ind. intros g -> Hg.
  destruct (gap_cases _ g x Hg) as [->|(_ & text & g' & -> & Hs & Hg' & Hl)]; [done|].
  pose proof (comment_scan_length text) as L1. rewrite Hs in L1. cbn [snd] in L1. specialize (IH _ Hl g' eq_refl Hg').
  pose proof (skipSpaces_length (g' ++ x)). cbn [length]. lia.
Qed.

(** A comment is a token. *)
Lemma lex_comment r text after :
  comment_ok r -> skipSpaces (current_ r) = "/"%byte :: text -> comment_scan text = (true, after) ->
  exists r', readToken r = Some (MkToken tokenComment ("/"%byte :: text) after, r') /\ quiet r r' /\ comment_ok r' /\
    current_ r' = after.
Proof.
  intros Hok Hs Hc. unfold readToken. rewrite Hs. cbn [getNextChar].
  rewrite !(decide_False (P := "/"%byte = _)), decide_True by done.
  destruct (readComment_spec text (set_current text r) Hok eq_refl) as (r' & -> & Hq & Hok' & Hcur). rewrite Hc in *.
  cbn [mbind option_bind fst snd] in *. exists r'. rewrite Hcur. split; [done|]. split; [|done].
  etrans; [|exact Hq]. apply quiet_set_current. pose proof (skipSpaces_length (current_ r)) as L. rewrite Hs in L. cbn [length] in L. lia.
Qed.

(** The reader gets through to a token. *)
Definition lexed (ty : TokenType) (t rest : bytes) (r : Reader) (x : option (Token * Reader)) : Prop :=
  exists r', x = Some (MkToken ty (t ++ rest) rest, r') /\ quiet r r' /\ comment_ok r' /\ current_ r' = rest.

Lemma lexes_lexed ty t rest r :
  lexes ty t rest -> comment_ok r -> skipSpaces (current_ r) = t ++ rest -> lexed ty t rest r (readToken r).
Proof.
  intros Hl Hok Hs. exists (set_current rest r). split; [by apply Hl|]. split; [|done]. apply quiet_set_current.
  pose proof (skipSpaces_length (current_ r)) as L. rewrite Hs, length_app in L. lia.
Qed.

Lemma lexed_after ty t rest r r1 x : quiet r r1 -> lexed ty t rest r1 x -> lexed ty t rest r x.
Proof. intros Hq (r' & -> & Hq' & H). exists r'. split; [done|]. split; [by etrans|done]. Qed.

Lemma gap_next_loop cm g ty t rest :
  gap cm g -> lexes ty t rest -> ty <> tokenComment -> skipSpaces (t ++ rest) = t ++ rest ->
  forall fuel r, comment_ok r -> skipSpaces (current_ r) = skipSpaces (g ++ t ++ rest) -> (length (current_ r) < fuel)%nat ->
  lexed ty t rest r (next_token_loop fuel r).
Proof.
  intros Hg Hl Hty Ht. remember (length g) as n eqn:En. revert g Hg En.
  induction n as [n IH] using lt_wf_ind. intros g Hg -> fuel r Hok Hs Hf. destruct fuel as [|fuel]; [lia|]. cbn [next_token_loop].
  destruct (gap_cases cm g (t ++ rest) Hg) as [E|(_ & text & g' & E & Hc & Hg' & Hlen)]; rewrite E in Hs.
  - rewrite Ht in Hs. destruct (lexes_lexed ty t rest r Hl Hok Hs) as (r' & -> & H). cbn [mbind option_bind type_].
    rewrite decide_False by done. by exists r'.
  - destruct (lex_comment r text (g' ++ t ++ rest) Hok Hs Hc) as (r1 & -> & Hq & Hok1 & Hcur). cbn [mbind option_bind type_].
    rewrite decide_True by done. eapply lexed_after; [done|]. apply (IH (length g') Hlen g' Hg' eq_refl); [done|by rewrite Hcur|].
    rewrite Hcur. pose proof (comment_scan_length text) as L1. rewrite Hc in L1. cbn [snd] in L1.
    pose proof (skipSpaces_length (current_ r)) as L2. rewrite Hs in L2. cbn [length] in L2. lia.
Qed.

Lemma gap_next cm g ty t rest r :
  gap cm g -> lexes ty t rest -> ty <> tokenComment -> skipSpaces (t ++ rest) = t ++ rest ->
  comment_ok r -> skipSpaces (current_ r) = skipSpaces (g ++ t ++ rest) -> lexed ty t rest r (next_token r).
Proof. intros. eapply gap_next_loop; try done. lia. Qed.

(** Before a value, and at the end of the document. *)
Lemma gap_skip g ty t rest r :
  gap (allowComments_ (features_ r)) g -> lexes ty t rest -> ty <> tokenComment -> skipSpaces (t ++ rest) = t ++ rest ->
  comment_ok r -> skipSpaces (current_ r) = skipSpaces (g ++ t ++ rest) -> lexed ty t rest r (skipCommentTokens r).
Proof.
  intros Hg Hl Hty Ht Hok Hs. unfold skipCommentTokens. destruct (allowComments_ _); [by eapply gap_next|].
  apply lexes_lexed; [done|done|]. destruct (gap_cases false g (t ++ rest) Hg) as [E|[? _]]; [congruence|done].
Qed.

(** After a member: one token, and more if it is a comment. *)
Lemma gap_after_member g ty t rest r :
  gap true g -> lexes ty t rest -> ty ∈ [tokenObjectEnd; tokenArraySeparator] -> skipSpaces (t ++ rest) = t ++ rest ->
  comment_ok r -> skipSpaces (current_ r) = skipSpaces (g ++ t ++ rest) ->
  exists c1 r1, readToken r = Some (c1, r1) /\ bool_decide (type_ c1 ∈ [tokenObjectEnd; tokenArraySeparator; tokenComment]) = true /\
    lexed ty t rest r (if decide (type_ c1 = tokenComment) then next_token r1 else Some (c1, r1)).
Proof.
  intros Hg Hl Hty Ht Hok Hs. assert (ty <> tokenComment) as Hne by (intros ->; set_solver).
  destruct (gap_cases true g (t ++ rest) Hg) as [E|(_ & text & g' & E & Hc & Hg' & _)]; rewrite E in Hs.
  - rewrite Ht in Hs. destruct (lexes_lexed ty t rest r Hl Hok Hs) as (r' & -> & H). eexists _, _. split; [done|]. cbn [type_].
    split; [apply bool_decide_eq_true_2; set_solver|]. rewrite decide_False by done. by exists r'.
  - destruct (lex_comment r text (g' ++ t ++ rest) Hok Hs Hc) as (r1 & -> & Hq & Hok1 & Hcur). eexists _, _. split; [done|]. cbn [type_].
    split; [done|]. rewrite decide_True by done. eapply lexed_after; [done|]. eapply gap_next; try done. by rewrite Hcur.
Qed.

(** ** Values in place *)

(** The reader has gone on to [rest]. *)
Record went (r : Reader) (rest : bytes) (r' : Reader) : Prop := {
  w_nodes : nodes_ r' = nodes_ r;
  w_errors : errors_ r' = errors_ r;
  w_features : features_ r' = features_ r;
  w_collect : collectComments_ r' = collectComments_ r;
  w_current : current_ r' = rest
}.

Lemma quiet_went r r' : quiet r r' -> went r (current_ r') r'.
Proof. intros []. by split. Qed.

Lemma went_trans a s b s' c : went a s b -> went b s' c -> went a s' c.
Proof. intros [] []. split; congruence. Qed.

(** The value at [p] has become [v]; the rest of the content is as it was. *)
Definition placed (p : pointer) (v : Value) (r r' : Reader) : Prop :=
  alter p (fun _ => Some v) (strip (root_ r)) = Some (strip (root_ r')).

(** The reader stands at the node [p]. *)
Definition stands (r : Reader) (p : pointer) : Prop :=
  head (nodes_ r) = Some p /\ is_Some (deref p (strip (root_ r))).

Lemma at_node_stands r p : at_node r p -> stands r p.
Proof. intros (_ & _ & Hh & Hd). split; [done|]. by apply deref_strip_is_Some. Qed.
#[local] Hint Resolve at_node_stands : core.

Lemma alter_ext p f g v : (forall w, f w = g w) -> alter p f v = alter p g v.
Proof.
  intros H. revert v. induction p as [|[i|k] p IH]; intros v; cbn [alter]; [apply H|..];
    destruct (value_ v); try done; (destruct (map_get _ _ _); [|done]); cbn [mbind option_bind]; by rewrite IH.
Qed.

Lemma alter_same p v w : deref p v = Some w -> alter p (fun _ => Some w) v = Some v.
Proof.
  revert v. induction p as [|[i|k] p IH]; intros v; cbn [alter deref]; [by intros [= ->]|..];
    (destruct (value_ v) as [| | | | | |l|l] eqn:E; try done); (destruct (map_get _ _ l) as [u|] eqn:Eg; [|done]);
    cbn [mbind option_bind]; intros H; rewrite (IH u H); cbn [mbind option_bind]; rewrite (map_put_same _ _ _ _ Eg);
    destruct v; cbn in *; by rewrite E.
Qed.

Lemma placed_quiet p v r r1 r' : strip (root_ r1) = strip (root_ r) -> placed p v r1 r' -> placed p v r r'.
Proof. unfold placed. by intros ->. Qed.

Lemma placed_quiet_after p v r r1 r' : strip (root_ r') = strip (root_ r1) -> placed p v r r1 -> placed p v r r'.
Proof. unfold placed. by intros ->. Qed.

Lemma placed_deref p v r r' : placed p v r r' -> deref p (strip (root_ r')) = Some v.
Proof. intros H. apply alter_Some in H as (w & w' & _ & [= ->] & H). done. Qed.

Lemma placed_trans p v r1 w r2 r3 : placed p v r1 r2 -> placed p w r2 r3 -> placed p w r1 r3.
Proof.
  unfold placed. intros H1 H2. rewrite <- H2. rewrite <- (alter_ext p (fun x => Some v ≫= (fun _ => Some w))) by done.
  by rewrite <- alter_alter, H1.
Qed.

Lemma currentValue_placed r p f v :
  stands r p -> (forall w, deref p (root_ r) = Some w -> exists w', f w = Some w' /\ strip w' = v) ->
  exists u, currentValue r f = Some (set_root u r) /\ placed p v r (set_root u r).
Proof.
  intros (Hh & Hd) Hf. rewrite deref_strip_is_Some in Hd. destruct Hd as [w Hw]. destruct (Hf w Hw) as (w' & Hfw & Hv).
  unfold currentValue. rewrite Hh. cbn [mbind option_bind].
  destruct (alter_defined p f (root_ r) w w' Hw Hfw) as [u Hu]. rewrite Hu. cbn [mbind option_bind]. exists u. split; [done|].
  unfold placed. cbn [root_ set_root]. eapply strip_alter; [|exact Hu]. intros x x' Hx Hfx. cbn.
  assert (x = w) as -> by congruence. congruence.
Qed.

Lemma went_stands r rest r' p v : stands r p -> went r rest r' -> placed p v r r' -> stands r' p.
Proof.
  intros (Hh & _) [] Hp. split; [congruence|]. eexists. by eapply placed_deref.
Qed.

Lemma finish_value_went r p :
  stands r p -> exists r', finish_value true r = Some (true, r') /\ went r (current_ r) r' /\ root_ r' = root_ r.
Proof.
  intros (Hh & _). unfold finish_value. destruct (collectComments_ r) eqn:E.
  - rewrite Hh. cbn [mbind option_bind]. eexists. split; [done|]. by split.
  - eexists. split; [done|]. by split.
Qed.

(** A gap, then [t] before [rest], is read as [v]; [cm] says whether the reader
    allows comments. *)
Definition reads_text (cm : bool) (t : bytes) (v : Value) : Prop :=
  forall n r p g rest,
    at_node r p -> last_within 0 r p -> allowComments_ (features_ r) = cm ->
    gap cm g -> skipSpaces (current_ r) = skipSpaces (g ++ t ++ rest) -> ends rest ->
    (length (current_ r) < n)%nat -> Z.of_nat (length (current_ r)) < 2 ^ 31 - 1 ->
    exists r', readValue n r = Some (true, r') /\ went r rest r' /\ placed p v r r'.

Definition scalar (h : holder Value) : Prop := match h with arrayValue _ | objectValue _ => False | _ => True end.

Lemma strip_scalar h w s e : scalar h -> strip (set_range s e (assign w (fresh h))) = fresh h.
Proof. by destruct h. Qed.

(** A value that is one token. *)
Lemma scalar_placed r p h s e :
  stands r p -> scalar h ->
  exists r', (r1 ← currentValue r (fun v => Some (set_range s e (assign v (fresh h)))); finish_value true r1) = Some (true, r') /\
    went r (current_ r) r' /\ placed p (fresh h) r r'.
Proof.
  intros Hr Hh.
  destruct (currentValue_placed r p (fun v => Some (set_range s e (assign v (fresh h)))) (fresh h) Hr) as (u & -> & Hu).
  { intros w _. eexists. split; [done|]. by apply strip_scalar. }
  assert (stands (set_root u r) p) as Hs by (eapply (went_stands r (current_ r)); [done|by split|done]).
  destruct (finish_value_went _ p Hs) as (r' & E & Hw & Er). cbn [mbind option_bind]. rewrite E. exists r'.
  split; [done|]. unfold placed in *. rewrite Er. split; [|done]. by destruct Hw.
Qed.

Lemma store_decoded_inr t h r :
  store_decoded t (inr h) r =
  (r1 ← currentValue r (fun v => Some (set_range (offset r (tstart_ t)) (offset r (tend_ t)) (assign v (fresh h)))); Some (true, r1)).
Proof. done. Qed.

Lemma number_scalar t h : number_denotes t h -> scalar h.
Proof. intros [neg ds _|]; [|done]. unfold integer_holder. by repeat destruct (_ <=? _); destruct neg. Qed.

Lemma char_length t b : char_denotes t b -> (length b <= length t)%nat.
Proof.
  assert (forall u, (length (codePointToUTF8 u) <= 4)%nat) as Hu.
  { intros u. unfold codePointToUTF8. repeat destruct (_ <=? _); cbn; lia. }
  intros [| |h u (? & ? & ? & ? & ? & ? & ? & ? & -> & _) _|h1 u1 h2 u2 _ _ _]; cbn [length]; try lia;
    (etrans; [apply Hu|]); rewrite ?length_app; cbn [length]; lia.
Qed.

Lemma chars_length ts s : chars_denote ts s -> (length s <= length ts)%nat.
Proof. induction 1 as [|t b ts bs H _ IH]; [done|]. rewrite !length_app. apply char_length in H. lia. Qed.

Lemma Value_string_cstr s : Z.of_nat (length s) < 2 ^ 31 - 1 -> value_ (Value_string s) = stringValue (Some (cstr s)).
Proof.
  intros H. unfold Value_string. cbn [fresh value_]. do 3 f_equal. unfold duplicateStringValue, unknown, maxInt.
  rewrite u32_id by (unfold is_u32; lia).
  destruct (Z.eqb_spec (Z.of_nat (length s)) (2 ^ 32 - 1)); [lia|].
  destruct (Z.leb_spec (2 ^ 31 - 1) (Z.of_nat (length s))); [lia|].
  by destruct (Z.leb_spec (Z.of_nat (length s)) (Z.of_nat (length s))); [|lia].
Qed.

Section Reading.
Context (cm : bool).

(** A value begins with the token [tk]. *)
Lemma reads_from tk more ty v :
  ty <> tokenComment -> (forall rest, ends rest -> lexes ty tk (more ++ rest)) ->
  (forall rest, skipSpaces (tk ++ rest) = tk ++ rest) ->
  (forall n r p rest,
    at_node r p -> last_within 0 r p -> allowComments_ (features_ r) = cm -> current_ r = more ++ rest -> ends rest ->
    (length (tk ++ more ++ rest) < S n)%nat -> Z.of_nat (length (tk ++ more ++ rest)) < 2 ^ 31 - 1 ->
    exists r', read_switch (readValue n) n (MkToken ty (tk ++ more ++ rest) (more ++ rest)) r = Some (true, r') /\
      went r rest r' /\ placed p v r r') ->
  reads_text cm (tk ++ more) v.
Proof.
  intros Hty Hl Hsk Hsw n r p g rest Hn Hlast Hcm Hg Hc He Hf Hz. destruct n as [|n]; [lia|]. cbn [readValue]. rewrite <- app_assoc in Hc.
  rewrite <- Hcm in Hg.
  destruct (gap_skip g ty tk (more ++ rest) r Hg (Hl rest He) Hty (Hsk _) (proj1 Hn) Hc) as (r1 & -> & Hq & Hok1 & Hcur). cbn [mbind option_bind].
  destruct (store_comments_spec r1 p (quiet_at_node _ _ _ Hq Hok1 Hn)) as (r2 & -> & Hk & Hn2 & Hl2 & Hc2 & He2 & Hroot). cbn [mbind option_bind].
  assert (length (tk ++ more ++ rest) <= length (current_ r))%nat as L.
  { pose proof (gap_length _ g (tk ++ more ++ rest) Hg) as Hlen. rewrite Hsk in Hlen. rewrite <- Hc in Hlen.
    pose proof (skipSpaces_length (current_ r)). lia. }
  destruct (Hsw n r2 p rest) as (r' & -> & Hw & Hp); try done; try lia.
  - eapply last_within_eq; [|exact Hlast]. rewrite Hl2. apply (q_last _ _ Hq).
  - by rewrite (k_features _ _ Hk), (q_features _ _ Hq).
  - by rewrite Hc2.
  - exists r'. split; [done|]. split.
    + destruct Hw, Hq, Hk. split; congruence.
    + eapply placed_quiet; [|exact Hp]. rewrite Hroot. apply (q_root _ _ Hq).
Qed.

Lemma reads_token t ty v :
  ty <> tokenComment -> (forall rest, ends rest -> lexes ty t rest) -> (forall rest, skipSpaces (t ++ rest) = t ++ rest) ->
  (forall n r p rest,
    stands r p -> current_ r = rest -> Z.of_nat (length (t ++ rest)) < 2 ^ 31 - 1 ->
    exists r', read_switch (readValue n) n (MkToken ty (t ++ rest) rest) r = Some (true, r') /\
      went r rest r' /\ placed p v r r') ->
  reads_text cm t v.
Proof.
  intros Hty Hl Hsk Hsw. rewrite <- (app_nil_r t). apply (reads_from t [] ty v); [done|done|done|].
  intros n r p rest Hn _ _ Hc _ _. apply Hsw; auto.
Qed.

Lemma reads_null : reads_text cm (lit "null") (fresh nullValue).
Proof.
  apply (reads_token _ tokenNull); [done|intros; apply lex_null|done|]. intros n r p rest Hr <- _. by apply scalar_placed.
Qed.

Lemma reads_true : reads_text cm (lit "true") (fresh (booleanValue true)).
Proof.
  apply (reads_token _ tokenTrue); [done|intros; apply lex_true|done|]. intros n r p rest Hr <- _. by apply scalar_placed.
Qed.

Lemma reads_false : reads_text cm (lit "false") (fresh (booleanValue false)).
Proof.
  apply (reads_token _ tokenFalse); [done|intros; apply lex_false|done|]. intros n r p rest Hr <- _. by apply scalar_placed.
Qed.

(** A number or a string: the token is decoded, then stored. *)
Lemma decoded_placed r p t h :
  stands r p -> scalar h ->
  exists r', ('(ok, r1) ← store_decoded t (inr h) r; finish_value ok r1) = Some (true, r') /\
    went r (current_ r) r' /\ placed p (fresh h) r r'.
Proof.
  intros Hr Hh. rewrite store_decoded_inr.
  destruct (scalar_placed r p h (offset r (tstart_ t)) (offset r (tend_ t)) Hr Hh) as (r' & E & H). exists r'. split; [|done].
  by destruct (currentValue _ _).
Qed.

Lemma number_starts t h s : number_denotes t h -> skipSpaces (t ++ s) = t ++ s.
Proof.
  intros Hn. destruct (number_text t h Hn) as [_ (c & t' & -> & Hc)]. apply skipSpaces_stays.
  intros [->|[->|[->| ->]]]; by destruct Hc.
Qed.

Lemma string_starts t x s : string_denotes t x -> skipSpaces (t ++ s) = t ++ s.
Proof. intros [ts s' _]. apply skipSpaces_stays. by intros [|[|[|]]]. Qed.

Lemma reads_number t h : number_denotes t h -> reads_text cm t (fresh h).
Proof.
  intros Hn. apply (reads_token _ tokenNumber); [done|intros; by eapply lex_number|by intros; eapply number_starts|]. intros n r p rest Hr <- Hz.
  unfold read_switch. cbn [type_]. rewrite (decodeNumber_text t h) by (done || apply token_text_app || (rewrite length_app in Hz; lia)).
  apply decoded_placed; [done|by eapply number_scalar].
Qed.

Lemma reads_string t s : string_denotes t s -> reads_text cm t (fresh (stringValue (Some (cstr s)))).
Proof.
  intros Hs. apply (reads_token _ tokenString); [done|intros; by eapply lex_string|by intros; eapply string_starts|]. intros n r p rest Hr <- Hz.
  unfold read_switch. cbn [type_]. rewrite (decodeString_text t s) by (done || apply token_text_app).
  unfold decoded_string. rewrite Value_string_cstr; [by apply decoded_placed|].
  destruct Hs as [ts s Hs]. apply chars_length in Hs. rewrite length_app in Hz. cbn [length] in Hz. rewrite length_app in Hz. lia.
Qed.

(** ** Containers *)

(** A child is made room for, then read into it. *)
Lemma child_read t v n r p g rest f st c c' :
  reads_text cm t v -> at_node r p -> last_within 1 r p -> allowComments_ (features_ r) = cm ->
  deref p (strip (root_ r)) = Some c ->
  (forall w, strip w = c -> exists w', f w = Some w' /\ alter [st] (fun _ => Some v) (strip w') = Some c') ->
  (forall w w', f w = Some w' -> (wf w -> wf w') /\ forall s t, is_Some (deref (s :: t) w) -> is_Some (deref (s :: t) w')) ->
  gap cm g -> skipSpaces (current_ r) = skipSpaces (g ++ t ++ rest) -> ends rest ->
  (length (current_ r) < n)%nat -> Z.of_nat (length (current_ r)) < 2 ^ 31 - 1 ->
  exists r1 r2, currentValue r f = Some r1 /\ with_node st (readValue n) r1 = Some (true, r2) /\
    went r rest r2 /\ placed p c' r r2 /\ at_node r2 p /\ last_within 1 r2 p.
Proof.
  intros Ht Hr Hl Hcm Hc Hf Hk Hg Hs He Hn Hz.
  rewrite deref_strip in Hc. destruct (deref p (root_ r)) as [w0|] eqn:Hw0; [|done]. injection Hc as Hc.
  destruct (Hf w0 Hc) as (w' & Hfw & Hst). destruct (Hk w0 w' Hfw) as [Hwf Hbelow].
  destruct (currentValue_placed r p f (strip w') (at_node_stands _ _ Hr)) as (u & Hu & Hpl).
  { intros w Hw. assert (w = w0) as -> by congruence. by eauto. }
  destruct (currentValue_spec r p f w0 w' Hr Hw0 Hfw Hwf (or_intror Hbelow)) as (u' & Hu' & Hn1 & Hd1).
  rewrite Hu' in Hu. injection Hu as ->.
  assert (is_Some (deref (p ++ [st]) u)) as Hchild.
  { destruct (alter_Some _ _ _ _ Hst) as (x & _ & Hx & _). rewrite deref_app, Hd1. cbn [mbind option_bind].
    apply deref_strip_is_Some. by eexists. }
  set (r1 := set_nodes ((p ++ [st]) :: nodes_ r) (set_root u r)).
  destruct (Ht n r1 (p ++ [st]) g rest) as (r2 & E2 & Hw2 & Hp2); try done.
  { destruct Hn1 as (? & ? & _). by split_and!. }
  { intros q x Hq ->. specialize (Hl _ (st :: x) Hq). rewrite <- app_assoc in Hl. specialize (Hl eq_refl). cbn in Hl. lia. }
  destruct (with_node_spec (readValue n) n (set_root u r) p st (readValue_spec n) Hn1 Hl Hchild Hn Hz)
    as (ok & r3 & E3 & _ & Hn3 & _ & _ & Hl3).
  exists (set_root u r), r3. split; [done|]. unfold with_node in E3. cbn [nodes_ set_root] in E3. pose proof Hr as (_ & _ & Hh & _).
  rewrite Hh in E3. cbn [mbind option_bind] in E3. fold r1 in E3. rewrite E2 in E3. cbn [mbind option_bind] in E3. injection E3 as <- <-.
  unfold with_node. cbn [nodes_ set_root]. rewrite Hh. cbn [mbind option_bind]. fold r1. rewrite E2. split; [done|].
  split; [|split; [|done]].
  { destruct Hw2. split; try done. cbn [nodes_ set_nodes]. by rewrite w_nodes0. }
  unfold placed in *. cbn [root_ set_nodes r1 set_root] in *. rewrite alter_app in Hp2.
  rewrite <- Hp2, <- (alter_ext p (fun x => Some (strip w') ≫= alter [st] (fun _ => Some v))) by (intros; cbn [mbind option_bind]; by rewrite Hst).
  by rewrite <- alter_alter, Hpl.
Qed.

Lemma indexed_app i l1 l2 : indexed i (l1 ++ l2) = indexed i l1 ++ indexed (i + Z.of_nat (length l1)) l2.
Proof.
  revert i. induction l1 as [|v l1 IH]; intros i; cbn [indexed app length]; [by rewrite Z.add_0_r|].
  rewrite IH. do 3 f_equal. lia.
Qed.

Lemma indexed_below i l j : i + Z.of_nat (length l) <= j -> Forall (fun k => index_lt k j = true) (indexed i l).*1.
Proof.
  revert i. induction l as [|v l IH]; intros i H; cbn [indexed fmap list_fmap fst]; constructor; cbn [length] in H.
  - unfold index_lt. lia.
  - apply IH. lia.
Qed.

Lemma map_get_below {K V} (lt : K -> K -> bool) `{!KeyOrder lt} k (l : list (K * V)) :
  Forall (fun k' => lt k' k = true) l.*1 -> map_get lt k l = None.
Proof.
  induction l as [|[k' v] l IH]; cbn [map_get fmap list_fmap fst]; intros H; [done|]. inversion H as [|?? E Hl]; subst.
  rewrite (key_asym lt _ _ E), E. by apply IH.
Qed.

(** An array is extended at its end. *)
Lemma array_room acc v w :
  strip w = fresh (arrayValue (indexed 0 acc)) ->
  exists w', at_int w (Z.of_nat (length acc)) = Some w' /\
    alter [SIndex (Z.of_nat (length acc))] (fun _ => Some v) (strip w') = Some (fresh (arrayValue (indexed 0 (acc ++ [v])))).
Proof.
  intros Hw. set (i := Z.of_nat (length acc)).
  assert (Forall (fun k => index_lt k i = true) (indexed 0 acc).*1) as Hb by (apply indexed_below; lia).
  destruct w as [h c s e]. destruct h as [| | | | | |l|l]; try done. injection Hw as Hl. unfold at_int, at_index.
  destruct (Z.leb_spec 0 i); [|lia]. unfold promoted, isNull. cbn [value_].
  assert (map_get index_lt i l = None) as ->.
  { pose proof (map_get_fmap index_lt strip i l) as H1. rewrite Hl, map_get_below in H1 by (done || apply _). by destruct (map_get _ _ l). }
  eexists. split; [done|]. rewrite strip_set_array, <- (map_put_fmap index_lt strip), Hl. cbn [alter fresh value_].
  rewrite map_get_put by apply _. cbn [mbind option_bind set_holder]. rewrite map_put_put by apply _.
  rewrite !map_put_last by (done || apply _). by rewrite indexed_app.
Qed.

(** An object gets a member, or the member another value. *)
Lemma object_room o name v w :
  strip w = fresh (objectValue o) ->
  exists w', resolveReference w name = Some w' /\
    alter [SName (cstr name)] (fun _ => Some v) (strip w') = Some (fresh (objectValue (map_put name_lt (cstr name) v o))).
Proof.
  intros Hw. destruct w as [h c s e]. destruct h as [| | | | | |l|l]; try done. injection Hw as Hl. unfold resolveReference.
  unfold promoted, isNull. cbn [value_]. destruct (map_get name_lt (cstr name) l) as [x|] eqn:E.
  - eexists. split; [done|]. cbn [strip fresh value_ alter]. rewrite map_get_fmap, E. cbn [fmap option_fmap option_map mbind option_bind].
    by rewrite Hl.
  - eexists. split; [done|]. rewrite strip_set_object, <- (map_put_fmap name_lt strip), Hl. cbn [alter fresh value_].
    rewrite map_get_put by apply _. cbn [mbind option_bind set_holder]. by rewrite map_put_put by apply _.
Qed.

(** The first character of a value. *)
Lemma denotes_head t v : denotes cm t v -> exists c s, t = c :: s /\ ~ is_blank c /\ c <> "]"%byte.
Proof.
  assert (forall c, (isdigit c = true \/ c = "-"%byte) -> ~ is_blank c /\ c <> "]"%byte) as Hd.
  { intros c Hc. split; [intros [->|[->|[->| ->]]]|intros ->]; by destruct Hc. }
  intros [| | |t' h Hn|t' s [ts s' _]| | | |]; try (eexists _, _; split; [done|]; split; [intros [|[|[|]]]; done|done]).
  destruct (number_text t' h Hn) as [_ (c & s & -> & Hc)]. exists c, s. split; [done|]. by apply Hd.
Qed.

(** A gap before a character that belongs to no number. *)
Lemma gap_ends b w c s : gap b w -> is_number_char c = false -> ends (w ++ c :: s).
Proof. intros [|d w' Hb _|body w' _ _ _|body d w' _ _ _ _] Hc; [exact Hc| |done..]. by destruct Hb as [->|[->|[->| ->]]]. Qed.

Lemma skip_to_char w c s : blank w -> ~ is_blank c -> skipSpaces (w ++ c :: s) = c :: s.
Proof. intros Hw Hc. rewrite skipSpaces_blank by done. by apply skipSpaces_stays. Qed.

Lemma denotes_starts t v s : denotes cm t v -> skipSpaces (t ++ s) = t ++ s.
Proof. intros H. destruct (denotes_head t v H) as (c & t' & -> & Hc & _). by apply skipSpaces_stays. Qed.

Lemma at_int_keeps i w w' : 0 <= i < 2 ^ 31 -> at_int w i = Some w' ->
  (wf w -> wf w') /\ forall s t, is_Some (deref (s :: t) w) -> is_Some (deref (s :: t) w').
Proof.
  intros Hi. unfold at_int. destruct (Z.leb_spec 0 i); [|done]. intros H1. split.
  - intros Hw. eapply at_index_wf; [done| |done]. unfold is_u32. lia.
  - intros s t. by eapply at_index_below.
Qed.

Lemma resolveReference_keeps k w w' : resolveReference w k = Some w' ->
  (wf w -> wf w') /\ forall s t, is_Some (deref (s :: t) w) -> is_Some (deref (s :: t) w').
Proof. intros H. split; [intros Hw; by eapply resolveReference_wf|intros s t; by eapply resolveReference_below]. Qed.

Definition elements_read (t : bytes) (l : list Value) : Prop :=
  forall n fuel acc r p rest,
    at_node r p -> last_within 1 r p -> allowComments_ (features_ r) = cm ->
    deref p (strip (root_ r)) = Some (fresh (arrayValue (indexed 0 acc))) ->
    skipSpaces (current_ r) = skipSpaces (t ++ "]"%byte :: rest) ->
    (length (current_ r) < fuel)%nat -> (length (current_ r) < n)%nat ->
    Z.of_nat (length acc) + Z.of_nat (length (current_ r)) < 2 ^ 31 - 1 ->
    exists r', array_loop (readValue n) fuel (Z.of_nat (length acc)) r = Some (true, r') /\ went r rest r' /\
      placed p (fresh (arrayValue (indexed 0 (acc ++ l)))) r r'.

(** An element and the character after it. *)
Lemma element_read n fuel acc r p w1 t w2 v c ty rest :
  gap cm w1 -> denotes cm t v -> reads_text cm t v -> gap true w2 ->
  structural c = Some ty -> is_number_char c = false -> ~ is_blank c -> ty ∈ [tokenArraySeparator; tokenArrayEnd] ->
  at_node r p -> last_within 1 r p -> allowComments_ (features_ r) = cm ->
  deref p (strip (root_ r)) = Some (fresh (arrayValue (indexed 0 acc))) ->
  skipSpaces (current_ r) = skipSpaces (w1 ++ t ++ w2 ++ c :: rest) ->
  (length (current_ r) < n)%nat -> Z.of_nat (length acc) + Z.of_nat (length (current_ r)) < 2 ^ 31 - 1 ->
  exists r', went r rest r' /\ placed p (fresh (arrayValue (indexed 0 (acc ++ [v])))) r r' /\ at_node r' p /\ last_within 1 r' p /\
    array_loop (readValue n) (S fuel) (Z.of_nat (length acc)) r =
      (if decide (ty = tokenArrayEnd) then Some (true, r')
       else index ← int_ok (Z.of_nat (length acc) + 1); array_loop (readValue n) fuel index r').
Proof.
  intros Hw1 Ht Hr Hw2 Hc Hcn Hcb Hty Hs Hl Hcm Ha Hsk Hn Hz.
  destruct (child_read t v n r p w1 (w2 ++ c :: rest) (fun x => at_int x (Z.of_nat (length acc))) (SIndex (Z.of_nat (length acc)))
    (fresh (arrayValue (indexed 0 acc))) (fresh (arrayValue (indexed 0 (acc ++ [v])))))
    as (r1 & r2 & E1 & E2 & Hw & Hp & Hn2 & Hl2); try done;
    [intros w; apply array_room|intros w w'; apply at_int_keeps; lia|by eapply gap_ends|lia|].
  destruct (gap_next true w2 ty [c] rest r2 Hw2) as (r3 & E3 & Hq3 & Hok3 & Hc3);
    [by apply lex_structural|set_solver|by apply skipSpaces_stays|apply Hn2|by rewrite (w_current _ _ _ Hw)|].
  exists r3. split; [|split; [|split; [by eapply quiet_at_node|split]]].
  - eapply went_trans; [exact Hw|]. rewrite <- Hc3. by apply quiet_went.
  - eapply placed_quiet_after; [apply (q_root _ _ Hq3)|done].
  - eapply last_within_eq; [apply (q_last _ _ Hq3)|done].
  - cbn [array_loop]. rewrite E1. cbn [mbind option_bind]. rewrite E2. cbn [mbind option_bind negb]. rewrite E3.
    cbn [mbind option_bind type_]. by rewrite bool_decide_eq_true_2.
Qed.

Lemma elements_last w1 t w2 v :
  gap cm w1 -> denotes cm t v -> reads_text cm t v -> gap true w2 -> elements_read (w1 ++ t ++ w2) [v].
Proof.
  intros Hw1 Ht Hr Hw2 n fuel acc r p rest Hs Hl Hcm Ha Hsk Hf Hn Hz. destruct fuel as [|fuel]; [lia|]. rewrite <- !app_assoc in Hsk.
  destruct (element_read n fuel acc r p w1 t w2 v "]"%byte tokenArrayEnd rest) as (r' & Hw & Hp & _ & _ & ->);
    try done; [by intros [|[|[|]]]|set_solver|]. by exists r'.
Qed.

Lemma elements_cons w1 t w2 v ts l :
  gap cm w1 -> denotes cm t v -> reads_text cm t v -> gap true w2 -> elements_read ts l ->
  elements_read (w1 ++ t ++ w2 ++ ","%byte :: ts) (v :: l).
Proof.
  intros Hw1 Ht Hr Hw2 IH n fuel acc r p rest Hs Hl Hcm Ha Hsk Hf Hn Hz. destruct fuel as [|fuel]; [lia|].
  assert ((w1 ++ t ++ w2 ++ ","%byte :: ts) ++ "]"%byte :: rest = w1 ++ t ++ w2 ++ ","%byte :: (ts ++ "]"%byte :: rest)) as Eq
    by (by rewrite <- !app_assoc). rewrite Eq in Hsk.
  destruct (element_read n fuel acc r p w1 t w2 v ","%byte tokenArraySeparator (ts ++ "]"%byte :: rest)) as (r' & Hw & Hp & Hn' & Hl' & ->);
    try done; [by intros [|[|[|]]]|set_solver|]. rewrite decide_False by done.
  assert (length (current_ r') < length (current_ r))%nat as Hlen.
  { rewrite (w_current _ _ _ Hw). pose proof (skipSpaces_length (current_ r)) as L. rewrite Hsk in L.
    pose proof (gap_length cm w1 (t ++ w2 ++ ","%byte :: ts ++ "]"%byte :: rest) Hw1) as L1. rewrite (denotes_starts t v) in L1 by done.
    repeat (rewrite !length_app in L1; cbn [length] in L1). rewrite length_app. cbn [length]. lia. }
  unfold int_ok. rewrite bool_decide_eq_true_2 by (unfold is_i32; lia). cbn [mbind option_bind].
  pose proof (IH n fuel (acc ++ [v]) r' p rest) as IH'. rewrite length_app in IH'. cbn [length] in IH'.
  replace (Z.of_nat (length acc + 1)) with (Z.of_nat (length acc) + 1) in IH' by lia.
  destruct IH' as (r2 & E2 & Hw2' & Hp2);
    [done|done|by rewrite (w_features _ _ _ Hw)|by eapply placed_deref|by rewrite (w_current _ _ _ Hw)|lia|lia|lia|].
  exists r2. split; [done|]. split; [by eapply went_trans|]. rewrite <- app_assoc in Hp2. by eapply placed_trans.
Qed.

Definition members_read (t : bytes) (ms : list (bytes * Value)) : Prop :=
  forall n fuel name o r p rest,
    at_node r p -> last_within 1 r p -> allowComments_ (features_ r) = cm ->
    deref p (strip (root_ r)) = Some (fresh (objectValue o)) ->
    skipSpaces (current_ r) = skipSpaces (t ++ "}"%byte :: rest) ->
    (length (current_ r) < fuel)%nat -> (length (current_ r) < n)%nat -> Z.of_nat (length (current_ r)) < 2 ^ 31 - 1 ->
    exists r', object_loop (readValue n) fuel name r = Some (true, r') /\ went r rest r' /\
      placed p (fresh (objectValue (foldl (fun o x => map_put name_lt x.1 x.2 o) o ms))) r r'.

Lemma string_head n name : string_denotes n name -> exists s, n = quote :: s.
Proof. intros [ts s _]. by eexists. Qed.

(** The name of a member and the colon. *)
Lemma name_read r w1 tn name w2 after :
  gap true w1 -> string_denotes tn name -> blank w2 -> comment_ok r ->
  skipSpaces (current_ r) = skipSpaces (w1 ++ tn ++ w2 ++ ":"%byte :: after) ->
  exists r1 r2, next_token r = Some (MkToken tokenString (tn ++ w2 ++ ":"%byte :: after) (w2 ++ ":"%byte :: after), r1) /\
    readToken r1 = Some (MkToken tokenMemberSeparator (":"%byte :: after) after, r2) /\
    quiet r r2 /\ comment_ok r2 /\ current_ r2 = after.
Proof.
  intros Hw1 Hn Hw2 Hok Hs.
  destruct (gap_next true w1 tokenString tn (w2 ++ ":"%byte :: after) r Hw1) as (r1 & -> & Hq1 & Hok1 & Hc1);
    [by eapply lex_string|done|by eapply string_starts|done|done|].
  destruct (lexes_lexed tokenMemberSeparator [":"%byte] after r1) as (r2 & E2 & Hq2 & Hok2 & Hc2);
    [by apply lex_structural|done|rewrite Hc1; apply skip_to_char; [done|by intros [|[|[|]]]]|].
  exists r1, r2. split; [done|]. split; [exact E2|]. split; [by etrans|done].
Qed.

(** A member and the character after it. *)
Lemma member_read n fuel nm o r p w1 tn name w2 w3 t w4 v c ty rest :
  gap true w1 -> string_denotes tn name -> blank w2 -> gap cm w3 -> denotes cm t v -> reads_text cm t v -> gap true w4 ->
  structural c = Some ty -> is_number_char c = false -> ~ is_blank c -> ty ∈ [tokenObjectEnd; tokenArraySeparator] ->
  at_node r p -> last_within 1 r p -> allowComments_ (features_ r) = cm ->
  deref p (strip (root_ r)) = Some (fresh (objectValue o)) ->
  skipSpaces (current_ r) = skipSpaces (w1 ++ tn ++ w2 ++ ":"%byte :: w3 ++ t ++ w4 ++ c :: rest) ->
  (length (current_ r) < n)%nat -> Z.of_nat (length (current_ r)) < 2 ^ 31 - 1 ->
  exists r', went r rest r' /\ placed p (fresh (objectValue (map_put name_lt (cstr name) v o))) r r' /\ at_node r' p /\ last_within 1 r' p /\
    object_loop (readValue n) (S fuel) nm r =
      (if decide (ty = tokenObjectEnd) then Some (true, r') else object_loop (readValue n) fuel name r').
Proof.
  intros Hw1 Hn Hw2 Hw3 Ht Hr Hw4 Hc Hcn Hcb Hty Hs Hl Hcm Ha Hsk Hfn Hz.
  destruct (name_read r w1 tn name w2 _ Hw1 Hn Hw2 (proj1 Hs) Hsk) as (r1 & r2 & E1 & E2 & Hq2 & Hok2 & Hc2).
  pose proof (q_current _ _ Hq2) as L2.
  destruct (child_read t v n r2 p w3 (w4 ++ c :: rest) (fun x => resolveReference x name) (SName (cstr name))
    (fresh (objectValue o)) (fresh (objectValue (map_put name_lt (cstr name) v o))))
    as (r3 & r4 & E3 & E4 & Hw & Hp & Hn4 & Hl4); try done;
    [by eapply quiet_at_node|eapply last_within_eq; [apply (q_last _ _ Hq2)|done]|by rewrite (q_features _ _ Hq2)
    |by rewrite (q_root _ _ Hq2)|intros w; apply object_room|intros w w'; apply resolveReference_keeps|by rewrite Hc2|by eapply gap_ends|lia|lia|].
  destruct (gap_after_member w4 ty [c] rest r4 Hw4) as (c1 & r5 & E5 & Hc1 & r6 & E6 & Hq6 & Hok6 & Hc6);
    [by apply lex_structural|done|by apply skipSpaces_stays|apply Hn4|by rewrite (w_current _ _ _ Hw)|].
  exists r6. split; [|split; [|split; [by eapply quiet_at_node|split]]].
  - eapply went_trans; [|rewrite <- Hc6; by apply quiet_went]. eapply went_trans; [|exact Hw]. by apply quiet_went.
  - eapply placed_quiet; [apply (q_root _ _ Hq2)|]. eapply placed_quiet_after; [apply (q_root _ _ Hq6)|done].
  - eapply last_within_eq; [apply (q_last _ _ Hq6)|done].
  - cbn [object_loop]. rewrite E1. cbn [mbind option_bind type_]. rewrite bool_decide_eq_false_2 by done. cbn [andb].
    unfold member_name. cbn [type_]. rewrite decide_True by done. cbn [mbind option_bind].
    rewrite (decodeString_text tn name) by (done || apply token_text_app). rewrite E2. cbn [mbind option_bind type_].
    rewrite bool_decide_eq_true_2 by done. cbn [negb]. rewrite E3. cbn [mbind option_bind]. rewrite E4. cbn [mbind option_bind negb].
    rewrite E5. cbn [mbind option_bind]. rewrite Hc1. cbn [negb]. rewrite E6. cbn [mbind option_bind type_]. done.
Qed.

Lemma members_last w1 tn name w2 w3 t w4 v :
  gap true w1 -> string_denotes tn name -> blank w2 -> gap cm w3 -> denotes cm t v -> reads_text cm t v -> gap true w4 ->
  members_read (w1 ++ tn ++ w2 ++ ":"%byte :: w3 ++ t ++ w4) [(cstr name, v)].
Proof.
  intros Hw1 Hn Hw2 Hw3 Ht Hr Hw4 n fuel nm o r p rest Hs Hl Hcm Ha Hsk Hf Hfn Hz. destruct fuel as [|fuel]; [lia|].
  assert ((w1 ++ tn ++ w2 ++ ":"%byte :: w3 ++ t ++ w4) ++ "}"%byte :: rest =
    w1 ++ tn ++ w2 ++ ":"%byte :: w3 ++ t ++ w4 ++ "}"%byte :: rest) as Eq by (by repeat (rewrite <- !app_assoc; cbn [app])).
  rewrite Eq in Hsk.
  destruct (member_read n fuel nm o r p w1 tn name w2 w3 t w4 v "}"%byte tokenObjectEnd rest) as (r' & Hw & Hp & _ & _ & ->);
    try done; [by intros [|[|[|]]]|set_solver|]. by exists r'.
Qed.

Lemma members_cons w1 tn name w2 w3 t w4 v ts ms :
  gap true w1 -> string_denotes tn name -> blank w2 -> gap cm w3 -> denotes cm t v -> reads_text cm t v -> gap true w4 ->
  members_read ts ms ->
  members_read (w1 ++ tn ++ w2 ++ ":"%byte :: w3 ++ t ++ w4 ++ ","%byte :: ts) ((cstr name, v) :: ms).
Proof.
  intros Hw1 Hn Hw2 Hw3 Ht Hr Hw4 IH n fuel nm o r p rest Hs Hl Hcm Ha Hsk Hf Hfn Hz. destruct fuel as [|fuel]; [lia|].
  assert ((w1 ++ tn ++ w2 ++ ":"%byte :: w3 ++ t ++ w4 ++ ","%byte :: ts) ++ "}"%byte :: rest =
    w1 ++ tn ++ w2 ++ ":"%byte :: w3 ++ t ++ w4 ++ ","%byte :: (ts ++ "}"%byte :: rest)) as Eq
    by (by repeat (rewrite <- !app_assoc; cbn [app])).
  rewrite Eq in Hsk.
  destruct (member_read n fuel nm o r p w1 tn name w2 w3 t w4 v ","%byte tokenArraySeparator (ts ++ "}"%byte :: rest)) as (r' & Hw & Hp & Hn' & Hl' & ->);
    try done; [by intros [|[|[|]]]|set_solver|]. rewrite decide_False by done.
  assert (length (current_ r') < length (current_ r))%nat as Hlen.
  { rewrite (w_current _ _ _ Hw). pose proof (skipSpaces_length (current_ r)) as L. rewrite Hsk in L.
    set (more := w2 ++ ":"%byte :: w3 ++ t ++ w4 ++ ","%byte :: ts ++ "}"%byte :: rest) in *.
    pose proof (gap_length true w1 (tn ++ more) Hw1) as L1. rewrite (string_starts tn name) in L1 by done. subst more.
    repeat (rewrite !length_app in L1; cbn [length] in L1). rewrite length_app. cbn [length]. lia. }
  destruct (IH n fuel name (map_put name_lt (cstr name) v o) r' p rest) as (r2 & E2 & Hw2' & Hp2);
    [done|done|by rewrite (w_features _ _ _ Hw)|by eapply placed_deref|by rewrite (w_current _ _ _ Hw)|lia|lia|lia|].
  exists r2. split; [done|]. split; [by eapply went_trans|]. by eapply placed_trans.
Qed.

Lemma container_placed r p x r3 rest v :
  stands r p -> x = Some (true, r3) -> went r rest r3 -> placed p v r r3 ->
  exists r', ('(ok, r3) ← x; r4 ← currentValue r3 (fun v => Some (setOffsetLimit v (offset r3 (current_ r3)))); finish_value ok r4) = Some (true, r') /\
    went r rest r' /\ placed p v r r'.
Proof.
  intros Hr -> Hw Hp. cbn [mbind option_bind]. assert (stands r3 p) as Hs3 by by eapply went_stands.
  destruct (currentValue_placed r3 p (fun v => Some (setOffsetLimit v (offset r3 (current_ r3)))) v Hs3) as (u & -> & Hu).
  { intros w Hd. eexists. split; [done|]. apply placed_deref in Hp. rewrite deref_strip, Hd in Hp. injection Hp as <-. by apply strip_same. }
  cbn [mbind option_bind].
  assert (stands (set_root u r3) p) as Hs4 by (eapply (went_stands r3 (current_ r3)); [done|by split|done]).
  destruct (finish_value_went _ p Hs4) as (r' & E & Hw' & Er). exists r'. split; [done|]. cbn [current_ set_root] in Hw'. split.
  - rewrite (w_current _ _ _ Hw) in Hw'. eapply went_trans; [exact Hw|]. by destruct Hw'.
  - eapply placed_trans; [exact Hp|]. unfold placed in *. by rewrite Er.
Qed.

(** The node becomes an empty container. *)
Lemma emptied r p ty e :
  at_node r p -> last_within 0 r p -> ty = VT.arrayValue \/ ty = VT.objectValue ->
  exists u, currentValue r (fun v => Some (setOffsetStart (assign v (Value_type ty)) e)) = Some (set_root u r) /\
    at_node (set_root u r) p /\ last_within 1 (set_root u r) p /\ placed p (Value_type ty) r (set_root u r).
Proof.
  intros Hr Hl Hty.
  destruct (currentValue_placed r p (fun v => Some (setOffsetStart (assign v (Value_type ty)) e)) (Value_type ty)) as (u & Eu & Hu); [auto|..].
  { intros w _. eexists. split; [done|]. by destruct Hty as [->| ->]. }
  destruct (assign_spec r p (fun v => Some (setOffsetStart (assign v (Value_type ty)) e)) (setOffsetStart (Value_type ty) e) Hr Hl)
    as (u' & x & Eu' & Hn & _); [by apply (wf_holder (Value_type ty)), wf_type|done|].
  rewrite Eu' in Eu. injection Eu as ->. exists u. split; [done|]. split; [done|]. split; [|done].
  intros q t Hq E. specialize (Hl q t Hq E). lia.
Qed.

(** What follows the bracket is read into the container. *)
Lemma reads_array_body t v :
  (forall n r p rest,
    at_node r p -> last_within 1 r p -> allowComments_ (features_ r) = cm ->
    current_ r = t ++ "]"%byte :: rest -> deref p (strip (root_ r)) = Some (fresh (arrayValue [])) ->
    (length (current_ r) < n)%nat -> Z.of_nat (length (current_ r)) < 2 ^ 31 - 1 ->
    let r1 := set_current (skipSpaces (current_ r)) r in
    exists r', (if decide (peek (current_ r1) = "]"%byte) then '(_, r) ← readToken r1; Some (true, r)
                else array_loop (readValue n) n 0 r1) = Some (true, r') /\ went r1 rest r' /\ placed p v r1 r') ->
  reads_text cm ("["%byte :: t ++ ["]"%byte]) v.
Proof.
  intros Hb. apply (reads_from ["["%byte] (t ++ ["]"%byte]) tokenArrayBegin);
    [done|intros; by apply lex_structural|intros; by apply skipSpaces_stays; intros [|[|[|]]]|].
  intros n r p rest Hr Hl Hcm Hc He Hn Hz. cbn [app length] in Hn, Hz. unfold read_switch. cbn [type_]. unfold readArray.
  destruct (emptied r p VT.arrayValue (offset r (tstart_ (MkToken tokenArrayBegin (["["%byte] ++ (t ++ ["]"%byte]) ++ rest) ((t ++ ["]"%byte]) ++ rest)))) Hr Hl (or_introl eq_refl))
    as (u & -> & Hs & Hl1 & Hu). cbn [mbind option_bind]. rewrite <- app_assoc in *. cbn [app] in *.
  destruct (Hb n (set_root u r) p rest Hs Hl1 Hcm Hc) as (r3 & E & Hw & Hp);
    [exact (placed_deref _ _ _ _ Hu)|cbn [current_ set_root]; rewrite Hc; lia|cbn [current_ set_root]; rewrite Hc; lia|].
  apply (container_placed r p _ r3 rest v (at_node_stands _ _ Hr) E); [by destruct Hw|]. by eapply placed_trans.
Qed.

Lemma reads_empty_array w : blank w -> reads_text cm ("["%byte :: w ++ ["]"%byte]) (fresh (arrayValue [])).
Proof.
  intros Hw. apply reads_array_body. intros n r p rest Hs _ _ Hc Hd _ _ r1. subst r1. cbn [current_ set_current].
  assert (skipSpaces (current_ r) = "]"%byte :: rest) as Hsk by (rewrite Hc; apply skip_to_char; [done|by intros [|[|[|]]]]).
  rewrite Hsk. cbn [peek hd]. rewrite decide_True by done.
  rewrite (lex_structural "]"%byte tokenArrayEnd rest) by (done || (cbn [current_ set_current]; by rewrite <- Hsk, skipSpaces_idem, Hsk)).
  cbn [mbind option_bind]. eexists. split; [done|]. split; [by split|]. unfold placed. cbn [root_ set_current].
  by apply alter_same.
Qed.

Lemma elements_head t l x : elements_denote cm t l -> exists c s, skipSpaces (t ++ x) = c :: s /\ c <> "]"%byte.
Proof.
  assert (forall w t v y, gap cm w -> denotes cm t v -> exists c s, skipSpaces (w ++ t ++ y) = c :: s /\ c <> "]"%byte) as H.
  { intros w t' v y Hw Ht. destruct (gap_cases cm w (t' ++ y) Hw) as [->|(_ & text & g & -> & _)]; [|by eauto].
    rewrite (denotes_starts t' v) by done. destruct (denotes_head t' v Ht) as (c & s & -> & _ & Hc). by exists c, (s ++ y). }
  intros [w1 t' w2 v Hw Ht _|w1 t' w2 v ts l' Hw Ht _ _]; rewrite <- !app_assoc; by eapply H.
Qed.

Lemma reads_array t l :
  elements_denote cm t l -> elements_read t l -> reads_text cm ("["%byte :: t ++ ["]"%byte]) (fresh (arrayValue (indexed 0 l))).
Proof.
  intros Ht IH. apply reads_array_body. intros n r p rest Hs Hl Hcm Hc Hd Hn Hz r1. subst r1. cbn [current_ set_current].
  destruct (elements_head t l ("]"%byte :: rest) Ht) as (c & s & Hsk & Hc1). rewrite <- Hc in Hsk.
  pose proof (skipSpaces_length (current_ r)) as L.
  rewrite decide_False by (by rewrite Hsk).
  destruct (IH n n [] (set_current (skipSpaces (current_ r)) r) p rest) as (r' & E & H); [| | | | | | | |by exists r'];
    cbn [current_ set_current length]; try done; try lia.
  by rewrite skipSpaces_idem, Hc.
Qed.

Lemma reads_object_body t v :
  (forall n r p rest,
    at_node r p -> last_within 1 r p -> allowComments_ (features_ r) = cm ->
    current_ r = t ++ "}"%byte :: rest -> deref p (strip (root_ r)) = Some (fresh (objectValue [])) ->
    (length (current_ r) < n)%nat -> Z.of_nat (length (current_ r)) < 2 ^ 31 - 1 ->
    exists r', object_loop (readValue n) n [] r = Some (true, r') /\ went r rest r' /\ placed p v r r') ->
  reads_text cm ("{"%byte :: t ++ ["}"%byte]) v.
Proof.
  intros Hb. apply (reads_from ["{"%byte] (t ++ ["}"%byte]) tokenObjectBegin);
    [done|intros; by apply lex_structural|intros; by apply skipSpaces_stays; intros [|[|[|]]]|].
  intros n r p rest Hr Hl Hcm Hc He Hn Hz. cbn [app length] in Hn, Hz. unfold read_switch. cbn [type_]. unfold readObject.
  destruct (emptied r p VT.objectValue (offset r (tstart_ (MkToken tokenObjectBegin (["{"%byte] ++ (t ++ ["}"%byte]) ++ rest) ((t ++ ["}"%byte]) ++ rest)))) Hr Hl (or_intror eq_refl))
    as (u & -> & Hs & Hl1 & Hu). cbn [mbind option_bind]. rewrite <- app_assoc in *. cbn [app] in *.
  destruct (Hb n (set_root u r) p rest Hs Hl1 Hcm Hc) as (r3 & E & Hw & Hp);
    [exact (placed_deref _ _ _ _ Hu)|cbn [current_ set_root]; rewrite Hc; lia|cbn [current_ set_root]; rewrite Hc; lia|].
  apply (container_placed r p _ r3 rest v (at_node_stands _ _ Hr) E); [by destruct Hw|]. by eapply placed_trans.
Qed.

Lemma reads_empty_object w : gap true w -> reads_text cm ("{"%byte :: w ++ ["}"%byte]) (fresh (objectValue [])).
Proof.
  intros Hw. apply reads_object_body. intros n r p rest Hs _ _ Hc Hd Hn _. destruct n as [|n]; [lia|]. cbn [object_loop].
  destruct (gap_next true w tokenObjectEnd ["}"%byte] rest r Hw) as (r' & -> & Hq & _ & Hcur);
    [by apply lex_structural|done|by apply skipSpaces_stays; intros [|[|[|]]]|apply Hs|by rewrite Hc|].
  cbn [mbind option_bind type_]. rewrite !bool_decide_eq_true_2 by done. cbn [andb]. exists r'. split; [done|].
  split; [rewrite <- Hcur; by apply quiet_went|]. eapply placed_quiet_after; [apply (q_root _ _ Hq)|]. by apply alter_same.
Qed.

Lemma reads_object t ms :
  members_read t ms -> reads_text cm ("{"%byte :: t ++ ["}"%byte]) (fresh (objectValue (members ms))).
Proof. intros IH. apply reads_object_body. intros n r p rest Hs Hl Hcm Hc Hd Hn Hz. apply IH; try done. by rewrite Hc. Qed.

(** ** Documents *)

Lemma denotes_read t v : denotes cm t v -> reads_text cm t v.
Proof.
  revert t v. apply (denotes_mut cm (reads_text cm) elements_read members_read).
  - apply reads_null.
  - apply reads_true.
  - apply reads_false.
  - apply reads_number.
  - apply reads_string.
  - apply reads_empty_array.
  - apply reads_array.
  - apply reads_empty_object.
  - intros t ms _. apply reads_object.
  - intros w1 t w2 v Hw1 Ht Hr Hw2. by apply elements_last.
  - intros w1 t w2 v ts l Hw1 Ht Hr Hw2 _ IH. by apply elements_cons.
  - intros w1 n name w2 w3 t w4 v Hw1 Hn Hw2 Hw3 Ht Hr Hw4. by apply members_last.
  - intros w1 n name w2 w3 t w4 v ts ms Hw1 Hn Hw2 Hw3 Ht Hr Hw4 _ IH. by apply members_cons.
Qed.

End Reading.

(** Only an array or an object may be the root in strict mode. *)
Definition root_allowed (features : Features) (v : Value) : bool := negb (strictRoot_ features) || isArray v || isObject v.

Lemma isArray_strip v : isArray (strip v) = isArray v.
Proof. by destruct v as [[] ? ? ?]. Qed.
Lemma isObject_strip v : isObject (strip v) = isObject v.
Proof. by destruct v as [[] ? ? ?]. Qed.

Lemma read_document features d v root cc :
  document_denotes (allowComments_ features) d v -> Z.of_nat (length d) < 2 ^ 31 - 1 -> root_allowed features v = true -> wf root ->
  exists r, parse (Reader_new features) d root cc = Some (true, r) /\ errors_ r = [] /\ strip (root_ r) = v.
Proof.
  intros (w1 & t & w2 & -> & Hw1 & Ht & Hw2) Hz Hroot Hwf. unfold parse. cbn [features_ Reader_new]. set (d := w1 ++ t ++ w2) in *.
  set (r0 := MkReader _ _ _ _ _ _ _ _ _ _).
  assert (at_node r0 []) as Hn0 by (split; [by split; left|]; split; [done|]; split; [done|by eexists]).
  assert (last_within 0 r0 []) as Hl0 by by intros q x [=].
  destruct (denotes_read _ t v Ht (S (length d)) r0 [] w1 w2) as (r1 & E1 & Hw & Hp); try done;
    [destruct Hw2 as [|c s [->|[->|[->| ->]]] _|body s _ _ _|body c s _ _ _ _]; done|cbn; lia|].
  destruct (readValue_spec (S (length d)) r0 [] Hn0 Hl0) as (ok & r1' & E1' & _ & Hn1 & _); [cbn; lia|done|].
  rewrite E1 in E1'. injection E1' as <- <-. rewrite E1. cbn [mbind option_bind].
  destruct (gap_skip w2 tokenEndOfStream [] [] r1) as (r2 & -> & Hq & Hok2 & _); try done.
  { by rewrite (w_features _ _ _ Hw). }
  { intros r Hr. unfold readToken. by rewrite Hr. }
  { apply Hn1. }
  { rewrite (w_current _ _ _ Hw). by rewrite app_nil_r. }
  cbn [mbind option_bind].
  set (x := if collectComments_ r2 && _ then _ else _).
  assert (exists r3, x = Some r3 /\ strip (root_ r3) = v /\ errors_ r3 = [] /\ features_ r3 = features) as (r3 & -> & Hv & He & Hf).
  { assert (strip (root_ r2) = v) as Hv by (rewrite (q_root _ _ Hq); unfold placed in Hp; by injection Hp).
    assert (errors_ r2 = [] /\ features_ r2 = features) as [He Hf].
    { by rewrite (q_errors _ _ Hq), (w_errors _ _ _ Hw), (q_features _ _ Hq), (w_features _ _ _ Hw). }
    subst x. destruct (_ && _); [|by eauto].
    destruct (setComment_defined (commentsBefore_ r2) commentAfter (root_ r2)) as (w & E & _); [apply valid_comment_ok, Hok2|].
    rewrite E. cbn [mbind option_bind]. eexists. split; [done|]. split; [|done]. rewrite <- Hv. by eapply setComment_quiet. }
  cbn [mbind option_bind].
  assert (strictRoot_ (features_ r3) && negb (isArray (root_ r3)) && negb (isObject (root_ r3)) = false) as ->.
  { rewrite Hf, <- isArray_strip, <- isObject_strip, Hv.
    unfold root_allowed in Hroot. by destruct (strictRoot_ features), (isArray v), (isObject v). }
  by exists r3.
Qed.

(** C23. The reader implements the grammar of JSON with comments: a document of the
    grammar, with any blanks and comments between its tokens, is read without an
    error as the value it denotes, whether comments are collected or not, in
    strict mode when it is an array or an object (there, comments are taken only
    before names, commas and closing brackets). *)
Theorem reader_implements_grammar features document value root collectComments :
  document_denotes (allowComments_ features) document value -> Z.of_nat (length document) < 2 ^ 31 - 1 ->
  root_allowed features value = true -> wf root ->
  exists r, parse (Reader_new features) document root collectComments = Some (true, r) /\
    errors_ r = [] /\ strip (root_ r) = value.
Proof. apply read_document. Qed.

Definition demo_document : bytes := lit " /* a * b */ [ // one" ++ [x0a] ++ lit "1,{/**/} ] ".
Definition demo_value : Value := fresh (arrayValue [(0, fresh (intValue 1)); (1, fresh (objectValue []))]).

Lemma demo_document_denotes : document_denotes true demo_document demo_value.
Proof.
  assert (gap true [x20]) as Hb by (apply gap_blank; [by left|constructor]).
  exists (lit " /* a * b */ "), (lit "[ // one" ++ [x0a] ++ lit "1,{/**/} ]"), [x20]. split; [done|].
  split; [apply gap_blank; [by left|]; by apply (gap_block true (lit " a * b "))|]. split; [|done].
  apply (dn_array true (lit " // one" ++ [x0a] ++ lit "1,{/**/} ") [fresh (intValue 1); fresh (objectValue [])]).
  apply (el_cons true (lit " // one" ++ [x0a]) (lit "1") [] (fresh (intValue 1)) (lit "{/**/} ")); [| |constructor|].
  - apply gap_blank; [by left|]. apply (gap_line true (lit " one") x0a []); [done| |by right|constructor].
    repeat (constructor; [intros [|]; discriminate|]). constructor.
  - apply (dn_number true (lit "1") (intValue 1)), (num_integer false (lit "1")). split; [done|by repeat constructor].
  - apply (el_last true [] (lit "{/**/}") [x20]); [constructor| |done].
    apply (dn_empty_object true (lit "/**/")), (gap_block true []); [done|done|constructor].
Qed.

Lemma reader_implements_grammar_witness :
  exists r, parse (Reader_new Features_all) demo_document null true = Some (true, r) /\
    errors_ r = [] /\ strip (root_ r) = demo_value.
Proof.
  apply (reader_implements_grammar Features_all demo_document demo_value null true).
  - apply demo_document_denotes.
  - vm_compute. reflexivity.
  - reflexivity.
  - apply wf_null.
Defined.

(** Strict mode does not keep comments out: after a value they are skipped. *)
Theorem strict_mode_takes_comments :
  (fun x => (x.1, errors_ x.2)) <$> parse (Reader_new strictMode) (lit "{ /* a */ } // b") null false = Some (true, []) /\
  (fun x => (x.1, errors_ x.2)) <$> parse (Reader_new strictMode) (lit "[1 /* a */]") null false = Some (true, []).
Proof. vm_compute. done. Qed.
