(* ===== verification/JsonWriterSpec.v ===== *)
(** Properties of the JSON writers: what they write is a document of the grammar
    of [JsonGrammar.v] that denotes the value written, so the reader reads it
    back. *)

From Stdlib Require Import SpecFloat Sorted.
From S2P Require Import Prelude Cstd Double JsonValue JsonValueSpec JsonWriter JsonReader JsonReaderSpec JsonGrammar.

(** ** Scalars *)

Definition is_nan (d : double) : bool := match d with S754_nan => true | _ => false end.

(** The number a text spells. *)
Definition number_value (t : bytes) : holder Value :=
  if looks_double t then match sscanf_lf t with Some d => realValue d | None => nullValue end
  else
    let neg := bool_decide (head t = Some "-"%byte) in
    integer_holder neg (digits_value (if neg then drop 1 t else t)).

Lemma number_value_denotes t h : number_denotes t h -> number_value t = h.
Proof.
  intros [neg ds Hd|neg ds ft fs et e Hd Hf He Hne]; unfold number_value.
  - rewrite looks_double_integer by done. destruct Hd as [Hne Hd]. destruct neg; [done|].
    destruct ds as [|c ds]; [done|]. cbn [sign_text app head]. inversion Hd; subst.
    rewrite bool_decide_eq_false_2 by (intros [= ->]; done). done.
  - rewrite (looks_double_real neg ds ft fs et e) by done. by erewrite sscanf_lf_spec.
Qed.

Lemma udec_digits_value z : 0 <= z -> digits (udec z) /\ digits_value (udec z) = z.
Proof.
  intros Hz. destruct (udec_spec z Hz) as (Hne & Hd & Hv). split; [done|]. rewrite <- Hv at 2. unfold digits_value.
  generalize 0 as acc. clear Hne Hv. induction Hd as [|c ds Hc Hd IH]; intros acc; cbn [read_digits foldl]; [done|].
  rewrite Hc. apply IH.
Qed.

Lemma sdec_denotes z : number_denotes (sdec z) (integer_holder (z <? 0) (Z.abs z)).
Proof.
  unfold sdec. destruct (Z.ltb_spec z 0).
  - destruct (udec_digits_value (- z)) as [Hd Hv]; [lia|]. replace (Z.abs z) with (- z) by lia. rewrite <- Hv at 2.
    by apply (num_integer true).
  - destruct (udec_digits_value z) as [Hd Hv]; [lia|]. replace (Z.abs z) with z by lia. rewrite <- Hv at 2.
    by apply (num_integer false).
Qed.

Lemma udec_denotes z : 0 <= z -> number_denotes (udec z) (integer_holder false z).
Proof. intros Hz. destruct (udec_digits_value z Hz) as [Hd Hv]. rewrite <- Hv at 2. by apply (num_integer false). Qed.

(** *** Reals *)

Definition all_digits (s : bytes) : Prop := Forall (fun c => isdigit c = true) s.

Lemma trim_zeros_digits s : all_digits s -> all_digits (trim_zeros s).
Proof.
  intros H. unfold trim_zeros. apply Forall_rev. apply Forall_rev in H. revert H. unfold all_digits.
  induction (rev s) as [|c l IH]; cbn [drop_zeros]; intros H; [done|]. inversion H; subst. case_decide; [by apply IH|by constructor].
Qed.

Lemma with_fraction_text int frac :
  all_digits frac -> exists ft fs, with_fraction int frac = int ++ ft /\ fraction_denotes ft fs.
Proof.
  intros H. apply trim_zeros_digits in H. unfold with_fraction. destruct (trim_zeros frac) as [|c f].
  - exists [], []. rewrite app_nil_r. split; [done|constructor].
  - exists ("."%byte :: c :: f), (c :: f). split; [done|]. by constructor.
Qed.

Lemma exponent_text_denotes x : exists e, exponent_denotes ("e"%byte :: exponent_text x) e.
Proof.
  destruct (udec_digits_value (Z.abs x)) as [[Hne Hd] _]; [lia|]. unfold exponent_text. cbv zeta.
  set (ds := if (length (udec (Z.abs x)) <? 2)%nat then _ else _).
  assert (digits ds) as Hds by (subst ds; destruct (_ <? _)%nat; [split; [done|by constructor]|done]).
  destruct (x <? 0); eexists; [apply (exp_minus "e"%byte ds)|apply (exp_plus "e"%byte ds)]; auto.
Qed.

(** The three parts of a number make a number. *)
Lemma number_parts neg ds ft fs et e :
  digits ds -> fraction_denotes ft fs -> exponent_denotes et e -> exists h, number_denotes (sign_text neg ++ ds ++ ft ++ et) h.
Proof.
  intros Hd Hf He. destruct (decide (ft ++ et = [])) as [E|E].
  - rewrite E, app_nil_r. eexists. by apply num_integer.
  - eexists. by eapply num_real.
Qed.

Lemma take_digits n s : (0 < n)%nat -> digits s -> digits (take n s) /\ all_digits (drop n s).
Proof.
  intros Hn [Hne Hd]. split; [split; [destruct n, s; (done || lia)|by apply Forall_take]|by apply Forall_drop].
Qed.

Lemma format_g16_text neg m k : 0 <= m -> exists h, number_denotes (sign_text neg ++ format_g16 m k) h.
Proof.
  intros Hm. destruct (udec_digits_value m Hm) as [Hd _]. unfold format_g16. cbv zeta. destruct (_ || _).
  - destruct (take_digits 1 (udec m)) as [Ht Hdr]; [lia|done|].
    destruct (with_fraction_text (take 1 (udec m)) (drop 1 (udec m)) Hdr) as (ft & fs & -> & Hf).
    destruct (exponent_text_denotes k) as [e He]. rewrite <- app_assoc. by apply (number_parts neg _ ft fs _ e).
  - destruct (k <? 0) eqn:Ek.
    + destruct (with_fraction_text (lit "0") (replicate (Z.to_nat (- k - 1)) "0"%byte ++ udec m)) as (ft & fs & -> & Hf).
      { apply Forall_app. split; [by apply Forall_replicate|apply Hd]. }
      rewrite <- (app_nil_r ft). apply (number_parts neg (lit "0") ft fs [] 0); [split; [done|by repeat constructor]|done|constructor].
    + destruct (take_digits (Z.to_nat (k + 1)) (udec m)) as [Ht Hdr]; [lia|done|].
      destruct (with_fraction_text (take (Z.to_nat (k + 1)) (udec m)) (drop (Z.to_nat (k + 1)) (udec m)) Hdr) as (ft & fs & -> & Hf).
      rewrite <- (app_nil_r ft). apply (number_parts neg _ ft fs [] 0); [done|done|constructor].
Qed.

Lemma div_round_nonneg n d : 0 <= n -> 0 < d -> 0 <= div_round n d.
Proof.
  intros Hn Hd. unfold div_round. pose proof (Z.div_pos n d Hn Hd). destruct (_ ?= _); [destruct (Z.even _)|..]; lia.
Qed.

Lemma digits16_nonneg n d : 0 <= n -> 0 < d -> 0 <= (digits16 n d).1.
Proof.
  intros Hn Hd. unfold digits16. cbv zeta. set (k := log10_floor n d).
  assert (0 <= (if 0 <=? 15 - k then div_round (n * 10 ^ (15 - k)) d else div_round n (d * 10 ^ (k - 15)))).
  { destruct (Z.leb_spec 0 (15 - k)); apply div_round_nonneg; lia. }
  destruct (_ =? _); cbn [fst]; lia.
Qed.

Lemma printf_g16_text d : exists h, number_denotes (printf_g16 d) h.
Proof.
  assert (forall neg, exists h, number_denotes (sign_text neg ++ lit "0") h) as H0.
  { intros neg. eexists. apply num_integer. split; [done|by repeat constructor]. }
  unfold printf_g16. destruct d as [s|s| |s m e]; cbn [d_neg].
  - destruct s; [apply (H0 true)|apply (H0 false)].
  - destruct s; [apply (H0 true)|apply (H0 false)].
  - apply (H0 false).
  - set (n := if 0 <=? e then _ else _). set (dd := if 0 <=? e then 1 else _).
    pose proof (digits16_nonneg n dd) as Hm. destruct (digits16 n dd) as [m16 k]. cbn [fst] in Hm.
    assert (0 <= m16) as Hm16.
    { apply Hm; subst n dd; destruct (Z.leb_spec 0 e); lia. }
    destruct s; [apply (format_g16_text true m16 k Hm16)|apply (format_g16_text false m16 k Hm16)].
Qed.

Lemma fixNumericLocale_number t : Forall (fun c => is_number_char c = true) t -> fixNumericLocale t = t.
Proof.
  unfold fixNumericLocale. induction 1 as [|c t Hc _ IH]; [done|]. cbn [fmap list_fmap]. rewrite IH.
  by rewrite decide_False by (intros ->; done).
Qed.

Lemma valueToString_double_denotes d :
  is_nan d = false -> number_denotes (valueToString_double d) (number_value (valueToString_double d)).
Proof.
  intros Hn. assert (exists h, number_denotes (valueToString_double d) h) as [h Hh].
  { unfold valueToString_double. destruct (d_finite d) eqn:Ef.
    - destruct (printf_g16_text d) as [h Hh]. rewrite fixNumericLocale_number by apply (number_text _ _ Hh). by eauto.
    - destruct d as [s|s| |s m e]; try done.
      assert (forall neg, exists h, number_denotes (sign_text neg ++ lit "1" ++ [] ++ lit "e+9999") h) as H.
      { intros neg. eapply number_parts; [|constructor|apply (exp_plus "e"%byte (lit "9999"))]; try (split; [done|by repeat constructor]). by left. }
      destruct s; [apply (H true)|apply (H false)]. }
  by rewrite (number_value_denotes _ _ Hh).
Qed.

(** *** Strings *)

Lemma control_escape c :
  isControlCharacter c = true ->
  hex4 ["0"%byte; "0"%byte; hex_upper (bz c / 16); hex_upper (bz c mod 16)] (bz c) /\ codePointToUTF8 (bz c) = [c].
Proof.
  intros H. split; [|by destruct c].
  exists "0"%byte, "0"%byte, (hex_upper (bz c / 16)), (hex_upper (bz c mod 16)), 0, 0, (bz c / 16), (bz c mod 16).
  split; [done|]. split; [done|]. split; [done|]. split; [by destruct c|]. split; [by destruct c|].
  pose proof (Z.div_mod (bz c) 16 ltac:(lia)). lia.
Qed.

Lemma escape_denotes c : c <> x00 -> char_denotes (escape c) [c].
Proof.
  intros Hc. unfold escape.
  case_decide as E1; [subst c; by apply ch_escape|]. case_decide as E2; [subst c; by apply ch_escape|].
  do 5 (case_decide; [subst c; by apply ch_escape|]).
  destruct (isControlCharacter c) eqn:Ec; [|by apply ch_plain].
  destruct (control_escape c Ec) as [H4 Hu]. rewrite <- Hu. apply (ch_unicode _ (bz c)); [exact H4|].
  unfold isControlCharacter in Ec. lia.
Qed.

Lemma escapes_denote s : Forall (fun b => b <> x00) s -> chars_denote (concat (escape <$> s)) s.
Proof.
  induction 1 as [|c s Hc _ IH]; [constructor|]. cbn [fmap list_fmap concat].
  apply (chs_cons _ [c]); [by apply escape_denotes|done].
Qed.

Lemma plain_denotes s : has_special s = false -> chars_denote s s.
Proof.
  induction s as [|c s IH]; [constructor|]. cbn [has_special existsb]. intros H. apply orb_false_iff in H as [Hc Hs].
  apply (chs_cons [c] [c]); [|by apply IH]. apply bool_decide_eq_false in Hc. constructor; intros ->; apply Hc; set_solver.
Qed.

Lemma quoted_denotes s : Forall (fun b => b <> x00) s -> string_denotes (valueToQuotedString (Some s)) s.
Proof.
  intros Hs. unfold valueToQuotedString. cbv zeta. rewrite cstr_id by done. destruct (negb _ && _) eqn:E.
  - apply andb_true_iff in E as [E _]. apply negb_true_iff in E. by apply str_intro, plain_denotes.
  - by apply str_intro, escapes_denote.
Qed.

(** ** What is read back *)

(** An integer gets the type the reader gives it, a real the value its digits
    spell, a hole of an array becomes null. *)
Fixpoint norm (v : Value) : Value :=
  match v with
  | MkJson h _ _ _ =>
      fresh match h with
            | intValue z => integer_holder (z <? 0) (Z.abs z)
            | uintValue z => integer_holder false z
            | realValue d => if is_nan d then nullValue else number_value (valueToString_double d)
            | arrayValue l => arrayValue (indexed 0 (elements (size v) null ((fun x => (x.1, norm x.2)) <$> l)))
            | objectValue l => objectValue ((fun x => (x.1, norm x.2)) <$> l)
            | h => h
            end
  end.

(** A condition on a value and all it contains. *)
Fixpoint every (P : Value -> Prop) (v : Value) : Prop :=
  match v with
  | MkJson h _ _ _ =>
      P v /\
      match h with
      | arrayValue l =>
          (fix go (l : list (Z * Value)) : Prop := match l with [] => True | (_, w) :: l => every P w /\ go l end) l
      | objectValue l =>
          (fix go (l : list (bytes * Value)) : Prop := match l with [] => True | (_, w) :: l => every P w /\ go l end) l
      | _ => True
      end
  end.

Lemma every_alt P v : every P v <-> P v /\ Forall (every P) (children (value_ v)).
Proof.
  destruct v as [h c s l]. cbn [every value_]. apply and_iff_compat_l.
  destruct h as [| | | | | |a|o]; cbn [children]; try (split; [constructor|done]).
  - induction a as [|[i w] a IH]; cbn [fmap list_fmap snd]; [split; [constructor|done]|]. rewrite Forall_cons, <- IH. done.
  - induction o as [|[k w] o IH]; cbn [fmap list_fmap snd]; [split; [constructor|done]|]. rewrite Forall_cons, <- IH. done.
Qed.

(** No string is a null pointer, no array has 2^31 elements. *)
Definition writable_here (v : Value) : Prop :=
  match value_ v with stringValue s => s <> None | arrayValue _ => size v < 2 ^ 31 | _ => True end.
Definition writable (v : Value) : Prop := every writable_here v.

Section Pieces.
Context (cm : bool).

Lemma scalar_text_denotes h c s l :
  scalar h -> holder_ok h -> writable_here (MkJson h c s l) ->
  exists t, scalar_text h = Some t /\ denotes cm t (norm (MkJson h c s l)).
Proof.
  intros Hs Hok Hw. destruct h as [|z|z|d|[s'|]|b|a|o]; try done; cbn [norm holder_ok] in *; unfold scalar_text.
  - eexists. split; [done|constructor].
  - assert (asLargestInt (fresh (intValue z)) = Some z) as ->.
    { done. }
    cbn [mbind option_bind]. rewrite valueToString_int_sdec by done. eexists. split; [done|]. apply dn_number, sdec_denotes.
  - assert (asLargestUInt (fresh (uintValue z)) = Some z) as ->.
    { done. }
    cbn [mbind option_bind]. unfold valueToString_uint. rewrite uintToString_udec by done. eexists. split; [done|].
    apply dn_number, udec_denotes. unfold is_u64 in Hok. lia.
  - assert (asDouble (fresh (realValue d)) = Some d) as -> by done. cbn [mbind option_bind]. eexists. split; [done|].
    destruct (is_nan d) eqn:E; [destruct d; try done; constructor|]. by apply dn_number, valueToString_double_denotes.
  - eexists. split; [done|]. rewrite <- (cstr_id s') at 2 by done. by apply dn_string, quoted_denotes.
  - eexists. split; [done|]. destruct b; constructor.
Qed.

(** ** Separated lists *)

Lemma blank_app a b : blank a -> blank b -> blank (a ++ b).
Proof. intros Ha Hb. by apply Forall_app. Qed.

Lemma elements_gap w t l : gap cm w -> elements_denote cm t l -> elements_denote cm (w ++ t) l.
Proof.
  intros Hw [w1 t' w2 v H1 H2 H3|w1 t' w2 v ts l' H1 H2 H3 H4]; rewrite app_assoc; constructor; try done; by apply gap_app.
Qed.

Lemma elements_gap_after w t l : gap true w -> elements_denote cm t l -> elements_denote cm (t ++ w) l.
Proof.
  intros Hw. induction 1 as [w1 t' w2 v H1 H2 H3|w1 t' w2 v ts l' H1 H2 H3 H4 IH].
  - rewrite <- !app_assoc. constructor; try done. by apply gap_app.
  - rewrite <- !app_assoc. cbn [app]. by constructor.
Qed.

Lemma members_gap w t l : gap true w -> members_denote cm t l -> members_denote cm (w ++ t) l.
Proof.
  intros Hw [w1 n name w2 w3 t' w4 v|w1 n name w2 w3 t' w4 v ts ms]; rewrite app_assoc; constructor; try done; by apply gap_app.
Qed.

Lemma members_gap_after w t l : gap true w -> members_denote cm t l -> members_denote cm (t ++ w) l.
Proof.
  intros Hw. induction 1 as [w1 n name w2 w3 t' w4 v|w1 n name w2 w3 t' w4 v ts ms ? ? ? ? ? ? ? IH];
    repeat (rewrite <- !app_assoc; cbn [app]); constructor; try done. by apply gap_app.
Qed.

Lemma separated_elements w ts vs :
  gap cm w -> Forall2 (denotes cm) ts vs -> vs <> [] -> elements_denote cm (separated (","%byte :: w) ts) vs.
Proof.
  intros Hw. induction 1 as [|t v ts vs Ht Hts IH]; [done|]. intros _. destruct Hts as [|t2 v2 ts vs Ht2 Hts].
  - cbn [separated]. rewrite <- (app_nil_r t). by apply (el_last cm []); try constructor.
  - change (elements_denote cm ([] ++ t ++ [] ++ ","%byte :: (w ++ separated (","%byte :: w) (t2 :: ts))) (v :: v2 :: vs)).
    apply el_cons; try (done || constructor). apply elements_gap; [done|]. by apply IH.
Qed.

(** A member as the writers write it. *)
Definition member_text (b a t : bytes) (name : bytes) : bytes := valueToQuotedString (Some name) ++ b ++ ":"%byte :: a ++ t.

Lemma separated_members b a ts ms :
  blank b -> gap cm a ->
  Forall2 (fun t m => exists tv, t = member_text b a tv m.1 /\ denotes cm tv m.2 /\ Forall (fun b => b <> x00) m.1) ts ms -> ms <> [] ->
  members_denote cm (separated (lit ",") ts) ms.
Proof.
  intros Hb Ha. induction 1 as [|t [name v] ts ms (tv & -> & Hv & Hn) Hts IH]; [done|]. intros _. cbn [fst snd] in *.
  rewrite <- (cstr_id name) at 2 by done. destruct Hts as [|t2 m2 ts ms Ht2 Hts].
  - cbn [separated]. unfold member_text. rewrite <- (app_nil_r tv).
    apply (mb_last cm []); try (done || constructor). by apply quoted_denotes.
  - change (separated (lit ",") (member_text b a tv name :: t2 :: ts)) with
      (member_text b a tv name ++ ","%byte :: separated (lit ",") (t2 :: ts)). unfold member_text.
    assert ((valueToQuotedString (Some name) ++ b ++ ":"%byte :: a ++ tv) ++ ","%byte :: separated (lit ",") (t2 :: ts) =
      [] ++ valueToQuotedString (Some name) ++ b ++ ":"%byte :: a ++ tv ++ [] ++ ","%byte :: separated (lit ",") (t2 :: ts)) as ->
      by (by repeat (rewrite <- !app_assoc; cbn [app])).
    apply mb_cons; try (done || constructor); [by apply quoted_denotes|by apply IH].
Qed.

End Pieces.

(** The names of an object are in order: it is the object of its members. *)
Lemma members_sorted o : keys_sorted name_lt o -> members o = o.
Proof.
  unfold members. assert (forall acc, keys_sorted name_lt (acc ++ o) ->
    foldl (fun o x => map_put name_lt x.1 x.2 o) acc o = acc ++ o) as H; [|apply (H [])].
  induction o as [|[k v] o IH]; intros acc Hs; cbn [foldl fst snd]; [by rewrite app_nil_r|].
  rewrite (cons_middle (k, v)), app_assoc in *. rewrite map_put_last; [by apply IH|apply _|].
  unfold keys_sorted in Hs. rewrite fmap_app in Hs. clear IH.
  induction acc as [|[k' v'] acc IH]; cbn [fmap list_fmap fst app] in *; constructor; inversion Hs as [|?? Hs' Hf]; subst.
  - rewrite fmap_app in Hf. cbn in Hf. apply Forall_app in Hf as [Hf _]. apply Forall_app in Hf as [_ Hf]. by inversion Hf.
  - by apply IH.
Qed.

(** ** Elements *)

Lemma map_get_Forall2 {K A B} (lt : K -> K -> bool) (R : A -> B -> Prop) k la lb :
  Forall2 (fun x y => x.1 = y.1 /\ R x.2 y.2) la lb -> option_Forall2 R (map_get lt k la) (map_get lt k lb).
Proof.
  induction 1 as [|[k1 a] [k2 b] la lb [E H] _ IH]; [constructor|]. cbn [fst snd] in *. subst k2. cbn [map_get].
  destruct (lt k k1); [constructor|]. destruct (lt k1 k); [done|by constructor].
Qed.

Lemma elements_Forall2 {A B} (R : A -> B -> Prop) n ha hb la lb :
  R ha hb -> Forall2 (fun x y => x.1 = y.1 /\ R x.2 y.2) la lb -> Forall2 R (elements n ha la) (elements n hb lb).
Proof.
  intros Hh Hl. unfold elements. apply Forall2_fmap, Forall_Forall2_diag, Forall_forall. intros i _.
  by destruct (map_get_Forall2 index_lt R (Z.of_nat i) la lb Hl).
Qed.

Lemma elements_length {A} n (h : A) l : length (elements n h l) = Z.to_nat n.
Proof. unfold elements. by rewrite length_fmap, length_seq. Qed.

Lemma size_range v : 0 <= size v.
Proof.
  unfold size. destruct (value_ v) as [| | | | | |l|l]; try lia; [destruct (last l) as [[i w]|]; [|lia]|];
    apply u32_range.
Qed.

(** ** [FastWriter] *)

Section FastWriterSpec.
Context (w : FastWriter) (Hdrop : dropNullPlaceholders_ w = false).

Lemma fast_array l c s e :
  fast_writeValue w (MkJson (arrayValue l) c s e) =
  (texts ← mapM (fun x => t ← fast_writeValue w x.2; Some (x.1, t)) l;
   Some (lit "[" ++ separated (lit ",") (elements (i32 (size (MkJson (arrayValue l) c s e))) (fast_null w) texts) ++ lit "]")).
Proof.
  cbn [fast_writeValue]. f_equal. induction l as [|[i v] l IH]; [done|]. cbn [mapM fst snd]. rewrite IH.
  by destruct (fast_writeValue w v).
Qed.

Definition colon_after : bytes := if yamlCompatiblityEnabled_ w then lit " " else [].

Lemma fast_object l c s e :
  fast_writeValue w (MkJson (objectValue l) c s e) =
  (texts ← mapM (fun x => t ← fast_writeValue w x.2; Some (member_text [] colon_after t x.1)) l;
   Some (lit "{" ++ separated (lit ",") texts ++ lit "}")).
Proof.
  cbn [fast_writeValue]. f_equal. induction l as [|[k v] l IH]; [done|]. cbn [mapM fst snd]. rewrite IH.
  destruct (fast_writeValue w v); [|done]. cbn [mbind option_bind]. destruct (mapM _ l); [|done]. cbn [mbind option_bind mret option_ret].
  unfold member_text, colon_after. by destruct (yamlCompatiblityEnabled_ w).
Qed.

(** What each child is written as. *)
Lemma mapM_writes {K B} (f : K * Value -> bytes -> B) (l : list (K * Value)) :
  Forall (fun x => exists t, fast_writeValue w x.2 = Some t /\ denotes false t (norm x.2)) l ->
  exists ts, mapM (fun x => t ← fast_writeValue w x.2; Some (f x t)) l = Some ts /\
    Forall2 (fun y x => x ∈ l /\ exists t, y = f x t /\ denotes false t (norm x.2)) ts l.
Proof.
  induction 1 as [|[k v] l (t & Ht & Hd) _ (ts & IH & Hts)]; [by exists []|]. cbn [mapM fst snd] in *. rewrite Ht. cbn [mbind option_bind].
  rewrite IH. cbn [mbind option_bind mret option_ret]. eexists. split; [done|]. constructor; [split; [left|by eauto]|].
  eapply Forall2_impl; [exact Hts|]. intros y x [Hx Hy]. split; [by right|done].
Qed.

Lemma fast_writeValue_denotes v :
  wf v -> writable v -> exists t, fast_writeValue w v = Some t /\ denotes false t (norm v).
Proof.
  induction v as [h c s e IH] using Value_induction. intros Hwf Hw. rewrite wf_alt in Hwf. cbn [value_] in Hwf.
  unfold writable in Hw. rewrite every_alt in Hw. cbn [value_] in Hw. destruct Hwf as [Hok Hwf], Hw as [Hh Hw].
  assert (Forall (fun v => exists t, fast_writeValue w v = Some t /\ denotes false t (norm v)) (children h)) as Hc.
  { rewrite Forall_forall in *. intros v Hv. apply IH; [done|by apply Hwf|by apply Hw]. }
  destruct h as [|z|z|d|s'|b|l|l]; try (by apply scalar_text_denotes).
  - cbn [fast_writeValue norm]. eexists. split; [done|]. unfold fast_null. rewrite Hdrop. constructor.
  - rewrite fast_array. cbn [children] in Hc. apply Forall_snd in Hc.
    destruct (mapM_writes (fun x t => (x.1, t)) l Hc) as (ts & -> & Hts). cbn [mbind option_bind norm]. eexists. split; [done|].
    set (n := size _). assert (0 <= n < 2 ^ 31) as Hn by (split; [apply size_range|exact Hh]). rewrite i32_id by (unfold is_i32; lia).
    assert (Forall2 (denotes false) (elements n (fast_null w) ts) (elements n null ((fun x => (x.1, norm x.2)) <$> l))) as Hel.
    { apply elements_Forall2; [unfold fast_null; rewrite Hdrop; constructor|]. apply Forall2_fmap_r.
      eapply Forall2_impl; [exact Hts|]. intros y x (_ & t & -> & Hd). by split. }
    destruct (elements n null _) as [|v vs].
    + inversion Hel. apply (dn_empty_array false []). constructor.
    + apply dn_array, separated_elements; [constructor|done|done].
  - rewrite fast_object. cbn [children] in Hc. apply Forall_snd in Hc.
    destruct (mapM_writes (fun x t => member_text [] colon_after t x.1) l Hc) as (ts & -> & Hts). cbn [mbind option_bind norm].
    eexists. split; [done|]. set (ms := (fun x => (x.1, norm x.2)) <$> l).
    assert (keys_sorted name_lt ms) as Hsort.
    { unfold keys_sorted, ms. rewrite <- list_fmap_compose. apply Hok. }
    rewrite <- (members_sorted ms Hsort). destruct l as [|[k v] l'] eqn:El.
    + inversion Hts. apply (dn_empty_object false []). constructor.
    + apply dn_object, (separated_members false [] colon_after); [constructor| | |done].
      { unfold colon_after. destruct (yamlCompatiblityEnabled_ w); repeat constructor. }
      subst ms. apply Forall2_fmap_r. eapply Forall2_impl; [exact Hts|]. intros y x (Hx & t & -> & Hd). exists t.
      split; [done|]. split; [done|]. destruct Hok as [_ Hnames]. apply (proj1 (Forall_forall _ _) Hnames).
      apply list_elem_of_fmap. by exists x.
Qed.

End FastWriterSpec.

(** ** [StyledWriter] and [StyledStreamWriter] *)

(** The text of a scalar has less than 64 MB, an array less than 2^31 / 3 elements,
    an object less than 2^32 members. *)
Definition short_here (v : Value) : Prop :=
  match value_ v with
  | arrayValue _ => size v * 3 < 2 ^ 31
  | objectValue l => Z.of_nat (length l) < 2 ^ 32
  | h => forall t, scalar_text h = Some t -> Z.of_nat (length t) < 2 ^ 26
  end.

(** The comments of a value are whole: each is blanks and comments once the writers
    have put it on lines of its own; one on the line of the value brings its own
    line end, as the reader collects it. *)
Definition commented_here (v : Value) : Prop :=
  (hasComment v commentBefore = true -> gap true (normalizeEOL (getComment v commentBefore) ++ [x0a])) /\
  (hasComment v commentAfterOnSameLine = true -> gap true (normalizeEOL (getComment v commentAfterOnSameLine))) /\
  (hasComment v commentAfter = true -> gap true (normalizeEOL (getComment v commentAfter) ++ [x0a])).

(** What the styled writers are asked to write. *)
Definition styleable (v : Value) : Prop := every short_here v /\ every commented_here v.

(** A value written as one piece: a scalar or an empty container. *)
Definition leaf (v : Value) : bool := negb ((isArray v || isObject v) && (0 <? size v)).

Section StyledSpec.
Context (indentation : bytes) (line : Styled -> bytes) (comment_before : Styled -> bytes -> bytes).
Context (Hindent : blank indentation) (Hline : forall s, blank (indentString_ s) -> blank (line s)).
Context (Hbefore : forall s c, blank (indentString_ s) -> gap true (c ++ [x0a]) -> gap true (comment_before s c)).

(** [s'] is [s] after the text [t] was added to the document. *)
Record appended (s : Styled) (t : bytes) (s' : Styled) : Prop := {
  ap_document : document_ s' = document_ s ++ t;
  ap_indent : indentString_ s' = indentString_ s;
  ap_add : addChildValues_ s' = addChildValues_ s
}.

Lemma appended_refl s : appended s [] s.
Proof. split; [by rewrite app_nil_r|done|done]. Qed.

Lemma appended_put s t s' t' : appended s t s' -> appended s (t ++ t') (put_text t' s').
Proof. intros []. split; [|done|done]. cbn [document_ put_text]. by rewrite ap_document0, app_assoc. Qed.

Lemma appended_trans s t s' t' s'' : appended s t s' -> appended s' t' s'' -> appended s (t ++ t') s''.
Proof. intros [] []. split; [|congruence|congruence]. by rewrite ap_document1, ap_document0, app_assoc. Qed.

(** The call writes, after blanks, a text of [v]. *)
Definition writes (write : Styled -> option Styled) (v : Value) : Prop :=
  forall s, blank (indentString_ s) -> addChildValues_ s = false ->
    exists w t s', write s = Some s' /\ appended s (w ++ t) s' /\ blank w /\ denotes true t v.

(** The call writes one piece. *)
Definition pushes (write : Styled -> option Styled) (v : Value) : Prop :=
  exists t, (forall s, write s = Some (pushValue t s)) /\ denotes true t v /\ Z.of_nat (length t) < 2 ^ 26.

Lemma pushes_writes write v : pushes write v -> writes write v.
Proof.
  intros (t & Hw & Ht & _) s _ Ha. exists [], t, (put_text t s). rewrite Hw. unfold pushValue. rewrite Ha.
  split; [done|]. split; [by split|]. split; [constructor|done].
Qed.

Record child_ok (x : child) (v : Value) : Prop := {
  ch_writes : writes x.2 v;
  ch_pushes : leaf x.1 = true -> pushes x.2 v;
  ch_comments : commented_here x.1
}.

(** The comments before and after a value. *)
Lemma comment_before_gap v s :
  commented_here v -> blank (indentString_ s) ->
  exists g, appended s g (writeCommentBeforeValue comment_before v s) /\ gap true g /\
    childValues_ (writeCommentBeforeValue comment_before v s) = childValues_ s.
Proof.
  intros (Hc & _) Hi. unfold writeCommentBeforeValue. destruct (hasComment v commentBefore).
  - eexists. split; [by split|]. split; [|done]. by apply Hbefore; auto.
  - exists []. split; [apply appended_refl|]. split; [constructor|done].
Qed.

Lemma comment_after_gap v s :
  commented_here v ->
  exists g, appended s g (writeCommentAfterValueOnSameLine v s) /\ gap true g /\
    childValues_ (writeCommentAfterValueOnSameLine v s) = childValues_ s.
Proof.
  intros (_ & Hs & Ha). unfold writeCommentAfterValueOnSameLine.
  assert (is_blank x20 /\ is_blank x0a) as [Hb1 Hb2] by (split; [by left|by right; right; right]).
  set (s1 := if hasComment v commentAfterOnSameLine then _ else s).
  assert (exists g, appended s g s1 /\ gap true g /\ childValues_ s1 = childValues_ s) as (g & Hap & Hg & Hcs).
  { subst s1. destruct (hasComment v commentAfterOnSameLine).
    - eexists. split; [by split|]. split; [|done]. apply gap_blank; auto.
    - exists []. split; [apply appended_refl|]. split; [constructor|done]. }
  destruct (hasComment v commentAfter); [|by exists g].
  eexists. split; [by apply appended_put|]. split; [|done]. apply gap_app; [done|]. cbn [app]. apply gap_blank; auto.
Qed.

Lemma hole_ok : child_ok (null, fun s => Some (pushValue (lit "null") s)) null.
Proof.
  assert (pushes (fun s => Some (pushValue (lit "null") s)) null) as H by (eexists; split; [done|]; split; [constructor|done]).
  split; [by apply pushes_writes|done|]. split_and!; done.
Qed.

(** The elements collected by [isMultineArray]. *)
Lemma collect_loop_spec cs vs : Forall2 child_ok cs vs -> Forall (fun x => leaf x.1 = true) cs -> forall n s,
  addChildValues_ s = true -> 0 <= n -> n + Z.of_nat (length cs) * 2 ^ 26 < 2 ^ 31 ->
  exists n' ts, collect_loop cs (length (childValues_ s)) n s = Some (n', set_children (childValues_ s ++ ts) true s) /\
    Forall2 (denotes true) ts vs.
Proof.
  induction 1 as [|[v write] u cs vs Hc _ IH]; intros Hl n s Ha Hn Hb.
  { exists n, []. rewrite app_nil_r. destruct s; cbn in *; by subst. }
  inversion Hl as [|?? Hlv Hlc]; subst. destruct (ch_pushes _ _ Hc Hlv) as (t & Hw & Ht & Hlen). cbn [snd] in Hw.
  cbn [collect_loop]. rewrite Hw. cbn [mbind option_bind]. unfold pushValue. rewrite Ha. cbn [childValues_].
  rewrite list_lookup_middle by done. cbn [mbind option_bind length] in *. rewrite i32_id by (unfold is_i32; lia).
  unfold int_ok. rewrite bool_decide_eq_true_2 by (unfold is_i32; lia). cbn [mbind option_bind].
  destruct (IH Hlc (n + Z.of_nat (length t)) (MkStyled (childValues_ s ++ [t]) (document_ s) (indentString_ s) true)) as (n' & ts & E & Hts);
    [done|lia|lia|]. cbn [childValues_] in E. rewrite length_app in E. cbn [length] in E. rewrite Nat.add_1_r in E.
  exists n', (t :: ts). split; [|by constructor]. rewrite E. unfold set_children. cbn [document_ indentString_]. by rewrite <- app_assoc.
Qed.

(** Either nothing is collected, or every element. *)
Lemma isMultineArray_spec cs vs size s :
  Forall2 child_ok cs vs -> Z.of_nat (length cs) = size -> size * 3 < 2 ^ 31 -> addChildValues_ s = false ->
  exists multi ts, isMultineArray cs size s = Some (multi, set_children ts false s) /\
    (Forall2 (denotes true) ts vs \/ (ts = [] /\ multi = true)).
Proof.
  intros Hc Hs Hb Ha. unfold isMultineArray. unfold int_ok at 1. rewrite bool_decide_eq_true_2 by (unfold is_i32; lia).
  cbn [mbind option_bind]. rewrite <- Hs, Nat2Z.id, firstn_all. rewrite Ha. destruct (_ || _) eqn:E.
  { exists true, []. split; [done|by right]. }
  apply orb_false_iff in E as [E1 E2]. unfold rightMargin_ in E1.
  assert (Forall (fun x => leaf x.1 = true) cs) as Hl.
  { apply Forall_forall. intros [v write] Hv. unfold leaf. cbn [fst]. apply negb_true_iff.
    destruct ((isArray v || isObject v) && (0 <? JsonValue.size v)) eqn:Ev; [|done]. rewrite <- E2. symmetry. apply existsb_exists.
    exists (v, write). split; [by apply list_elem_of_In|done]. }
  destruct cs as [|c0 cs].
  { inversion Hc; subst. cbn [collect_loop mbind option_bind]. eexists _, []. split; [done|left; constructor]. }
  destruct (collect_loop_spec (c0 :: cs) vs Hc Hl (4 + (Z.of_nat (length (c0 :: cs)) - 1) * 2) (set_children [] true s)) as (n' & ts & E & Hts);
    [done|cbn [length]; lia|lia|].
  unfold set_children in *. cbn [document_ indentString_ childValues_ addChildValues_ app] in *. change (length (@nil bytes)) with 0%nat in E.
  rewrite E. cbn [mbind option_bind childValues_ document_ indentString_]. eexists _, ts. split; [done|by left].
Qed.

(** The elements of an array on several lines. *)
Lemma write_array_loop_spec cs vs : Forall2 child_ok cs vs -> vs <> [] -> forall has index s,
  blank (indentString_ s) -> addChildValues_ s = false ->
  (has = true -> exists pre ts, childValues_ s = pre ++ ts /\ length pre = index /\ Forall2 (denotes true) ts vs) ->
  exists t s', JsonWriter.array_loop line comment_before cs has index s = Some s' /\ appended s t s' /\ elements_denote true t vs.
Proof.
  induction 1 as [|[v write] u cs vs Hc Hcs IH]; [done|]. intros _ has index s0 Hi0 Ha0 Hhas0. cbn [JsonWriter.array_loop].
  pose proof (ch_comments _ _ Hc) as Hco. cbn [fst] in Hco.
  destruct (comment_before_gap v s0 Hco Hi0) as (g & Hap0 & Hg & Hch). set (s := writeCommentBeforeValue comment_before v s0) in *.
  assert (blank (indentString_ s)) as Hi by by rewrite (ap_indent _ _ _ Hap0).
  assert (addChildValues_ s = false) as Ha by by rewrite (ap_add _ _ _ Hap0).
  rewrite <- Hch in Hhas0. set (step := if has then _ else _).
  assert (exists w t s1, step = Some s1 /\ appended s (w ++ t) s1 /\ blank w /\ denotes true t u /\
    (has = true -> exists pre ts, childValues_ s1 = (pre ++ [t]) ++ ts /\ length pre = index /\ Forall2 (denotes true) ts vs)) as (w & t & s1 & -> & Hap & Hw & Ht & Hnext).
  { subst step. destruct has.
    - destruct (Hhas0 eq_refl) as (pre & ts & Ets & Hpre & Hden). destruct ts as [|t ts]; [by inversion Hden|].
      apply Forall2_cons in Hden as [Hd Hds]. rewrite Ets, list_lookup_middle by done. cbn [mbind option_bind].
      exists (line s), t, (writeWithIndent line t s). split; [done|]. split; [by split; [cbn; by rewrite app_assoc|..]|].
      split; [by apply Hline|]. split; [done|]. intros _. exists pre, ts. split; [|done]. cbn. by rewrite Ets, <- app_assoc.
    - destruct (ch_writes _ _ Hc (writeIndent line s) Hi Ha) as (w & t & s1 & E & Hap & Hw & Ht). cbn [snd] in E. rewrite E.
      exists (line s ++ w), t, s1. split; [done|]. split; [|split; [apply blank_app; [by apply Hline|done]|by split]].
      rewrite <- app_assoc. eapply appended_trans; [|exact Hap]. by split. }
  cbn [mbind option_bind]. assert (appended s0 (g ++ w ++ t) s1) as Hap1 by (by eapply appended_trans).
  assert (gap true (g ++ w)) as Hgw by (apply gap_app; [done|by apply blank_gap]).
  destruct Hcs as [|[v2 write2] u2 cs vs Hc2 Hcs].
  { destruct (comment_after_gap v s1 Hco) as (g2 & Hap2 & Hg2 & _). exists ((g ++ w) ++ t ++ g2), (writeCommentAfterValueOnSameLine v s1).
    split; [done|]. split; [|by apply el_last]. pose proof (appended_trans _ _ _ _ _ Hap1 Hap2) as H. by rewrite <- !app_assoc in *. }
  destruct (comment_after_gap v (put_text (lit ",") s1) Hco) as (g2 & Hap2 & Hg2 & Hch2). set (s2 := writeCommentAfterValueOnSameLine v _) in *.
  destruct (IH ltac:(done) has (S index) s2) as (t2 & s3 & -> & Hap3 & Ht2).
  - rewrite (ap_indent _ _ _ Hap2). cbn [indentString_ put_text]. by rewrite (ap_indent _ _ _ Hap).
  - rewrite (ap_add _ _ _ Hap2). cbn [addChildValues_ put_text]. by rewrite (ap_add _ _ _ Hap).
  - intros Hh. destruct (Hnext Hh) as (pre & ts & E & Hl & Hd). exists (pre ++ [t]), ts. rewrite Hch2. split; [exact E|].
    split; [rewrite length_app; cbn [length]; lia|done].
  - exists ((g ++ w) ++ t ++ [] ++ ","%byte :: g2 ++ t2), s3. split; [done|]. split; [|by apply el_cons; [..|apply elements_gap]; auto using gap].
    apply (appended_put _ _ _ (lit ",")) in Hap1. pose proof (appended_trans _ _ _ _ _ Hap1 (appended_trans _ _ _ _ _ Hap2 Hap3)) as H.
    repeat (rewrite <- !app_assoc in H; cbn [app] in H). repeat (rewrite <- !app_assoc; cbn [app]). exact H.
Qed.

Lemma unindent_indent s s0 :
  indentString_ s = indentString_ s0 ++ indentation ->
  exists s', unindent indentation s = Some s' /\ childValues_ s' = childValues_ s /\ document_ s' = document_ s /\
    indentString_ s' = indentString_ s0 /\ addChildValues_ s' = addChildValues_ s.
Proof.
  intros E. unfold unindent. rewrite E, length_app. destruct (Nat.leb_spec (length indentation) (length (indentString_ s0) + length indentation)); [|lia].
  eexists. split; [done|]. cbn. split; [done|]. split; [done|]. split; [|done].
  rewrite Nat.add_sub. apply take_app_length.
Qed.

(** Brackets around lines that are indented. *)
Lemma bracketed (Q : bytes -> Prop) b e body s :
  blank (indentString_ s) -> addChildValues_ s = false ->
  (forall s1, childValues_ s1 = childValues_ s -> blank (indentString_ s1) -> addChildValues_ s1 = false ->
     exists t s2, body s1 = Some s2 /\ appended s1 t s2 /\ Q t) ->
  exists t w s', (s2 ← body (indent indentation (writeWithIndent line b s)); s3 ← unindent indentation s2; Some (writeWithIndent line e s3)) = Some s' /\
    appended s (line s ++ b ++ t ++ w ++ e) s' /\ blank w /\ Q t.
Proof.
  intros Hi Ha Hb. set (s1 := indent indentation (writeWithIndent line b s)).
  destruct (Hb s1 eq_refl) as (t & s2 & -> & Hap & Hq); [by apply blank_app|done|]. cbn [mbind option_bind].
  destruct (unindent_indent s2 s) as (s3 & -> & Hc3 & Hd3 & Hi3 & Ha3); [apply (ap_indent _ _ _ Hap)|]. cbn [mbind option_bind].
  exists t, (line s3), (writeWithIndent line e s3). split; [done|]. split.
  - split; [|done|cbn; by rewrite Ha3, (ap_add _ _ _ Hap)]. cbn. rewrite Hd3, (ap_document _ _ _ Hap). cbn. by rewrite <- !app_assoc.
  - split; [apply Hline; by rewrite Hi3|done].
Qed.

Lemma writeArrayValue_spec cs vs size :
  Forall2 child_ok cs vs -> Z.of_nat (length cs) = size -> 0 < size -> size * 3 < 2 ^ 31 ->
  writes (writeArrayValue indentation line comment_before cs size) (fresh (arrayValue (indexed 0 vs))).
Proof.
  intros Hc Hs Hpos Hb s Hi Ha. unfold writeArrayValue. destruct (Z.eqb_spec size 0); [lia|].
  rewrite i32_id by (unfold is_i32; lia). destruct (isMultineArray_spec cs vs size s Hc Hs Hb Ha) as (multi & ts & -> & Hts).
  assert (vs <> []) as Hne by (intros ->; inversion Hc; subst; cbn in *; lia). cbn [mbind option_bind]. destruct multi.
  - destruct (bracketed (fun t => elements_denote true t vs) (lit "[") (lit "]")
      (fun s1 => JsonWriter.array_loop line comment_before cs (negb (length (childValues_ s1) =? 0)%nat) 0 s1) (set_children ts false s))
      as (t & w & s' & E & Hap & Hw & Ht); [done|done| |].
    { intros s1 Hc1 Hi1 Ha1. apply (write_array_loop_spec cs vs Hc Hne); [done|done|]. cbn [childValues_ set_children] in Hc1. rewrite Hc1. intros Hh.
      exists [], ts. split; [done|]. split; [done|]. destruct Hts as [|[-> _]]; done. }
    cbv beta in E. exists (line (set_children ts false s)), (lit "[" ++ t ++ w ++ lit "]"), s'. split; [exact E|].
    split; [destruct Hap; split; [done|done|by rewrite Ha]|]. split; [by apply Hline|]. change (denotes true ("["%byte :: t ++ w ++ ["]"%byte]) (fresh (arrayValue (indexed 0 vs)))).
    rewrite app_assoc. by apply dn_array, elements_gap_after; [apply blank_gap|].
  - destruct Hts as [Hts|[_ ?]]; [|done]. cbn [childValues_ set_children].
    apply Forall2_length in Hts as Hl1. apply Forall2_length in Hc as Hl2. rewrite Hl1, Hl2, Nat.eqb_refl.
    eexists [], _, _. split; [done|]. split; [by split|]. split; [done|]. cbn [childValues_ set_children].
    change (denotes true ("["%byte :: x20 :: separated (","%byte :: [x20]) ts ++ [x20; "]"%byte]) (fresh (arrayValue (indexed 0 vs)))).
    assert (x20 :: separated (","%byte :: [x20]) ts ++ [x20; "]"%byte] = ([x20] ++ separated (","%byte :: [x20]) ts ++ [x20]) ++ ["]"%byte]) as ->
      by (by rewrite <- !app_assoc).
    assert (blank [x20]) as Hx by (constructor; [by left|constructor]).
    apply dn_array, elements_gap, elements_gap_after, separated_elements; try done; by apply blank_gap.
Qed.

(** The members of an object. *)
Lemma write_object_loop_spec ms nms :
  Forall2 (fun m n => m.1 = n.1 /\ child_ok m.2 n.2 /\ Forall (fun b => b <> x00) n.1) ms nms -> nms <> [] -> forall s,
  blank (indentString_ s) -> addChildValues_ s = false ->
  exists t s', JsonWriter.object_loop line comment_before ms s = Some s' /\ appended s t s' /\ members_denote true t nms.
Proof.
  induction 1 as [|[name [v write]] [name' u] ms nms (En & Hc & Hnm) Hms IH]; [done|]. intros _ s Hi Ha. cbn [fst snd] in *. subst name'.
  cbn [JsonWriter.object_loop]. pose proof (ch_comments _ _ Hc) as Hco. cbn [fst] in Hco.
  destruct (comment_before_gap v s Hco Hi) as (g & Hapg & Hg & _). set (sg := writeCommentBeforeValue comment_before v s) in *.
  set (s0 := put_text (lit " : ") _).
  destruct (ch_writes _ _ Hc s0) as (w & t & s1 & E & Hap & Hw & Ht);
    [by rewrite <- (ap_indent _ _ _ Hapg) in Hi|by rewrite <- (ap_add _ _ _ Hapg) in Ha|].
  cbn [snd] in E. rewrite E. cbn [mbind option_bind].
  pose proof (quoted_denotes name Hnm) as Hq. set (qn := valueToQuotedString (Some name)) in *.
  assert (appended s ((g ++ line sg) ++ qn ++ [x20] ++ ":"%byte :: (x20 :: w) ++ t) s1) as Hap1.
  { assert (appended sg (line sg ++ qn ++ lit " : ") s0) as H0 by (split; [cbn; by rewrite <- !app_assoc|done|done]).
    pose proof (appended_trans _ _ _ _ _ Hapg (appended_trans _ _ _ _ _ H0 Hap)) as H.
    repeat (rewrite <- !app_assoc in H; cbn [app] in H). repeat (rewrite <- !app_assoc; cbn [app]). exact H. }
  assert (blank [x20]) as Hx by (constructor; [by left|done]).
  assert (gap true (x20 :: w)) as Hxw by (apply gap_blank; [by left|by apply blank_gap]). rewrite <- (cstr_id name) by done.
  assert (gap true (g ++ line sg)) as Hgl.
  { apply gap_app; [done|]. apply blank_gap, Hline. by rewrite (ap_indent _ _ _ Hapg). }
  destruct Hms as [|[name2 [v2 write2]] [n2 u2] ms nms Hm2 Hms].
  { destruct (comment_after_gap v s1 Hco) as (g2 & Hap2 & Hg2 & _).
    eexists _, (writeCommentAfterValueOnSameLine v s1). split; [done|]. split; [exact (appended_trans _ _ _ _ _ Hap1 Hap2)|].
    assert (((g ++ line sg) ++ qn ++ [x20] ++ ":"%byte :: (x20 :: w) ++ t) ++ g2 = (g ++ line sg) ++ qn ++ [x20] ++ ":"%byte :: (x20 :: w) ++ t ++ g2) as ->
      by (by repeat (rewrite <- !app_assoc; cbn [app])).
    by apply mb_last. }
  destruct (comment_after_gap v (put_text (lit ",") s1) Hco) as (g2 & Hap2 & Hg2 & _). set (s2 := writeCommentAfterValueOnSameLine v _) in *.
  destruct (IH ltac:(done) s2) as (t2 & s3 & -> & Hap3 & Ht2).
  - rewrite (ap_indent _ _ _ Hap2). cbn [indentString_ put_text]. by rewrite (ap_indent _ _ _ Hap1).
  - rewrite (ap_add _ _ _ Hap2). cbn [addChildValues_ put_text]. by rewrite (ap_add _ _ _ Hap1).
  - exists ((g ++ line sg) ++ qn ++ [x20] ++ ":"%byte :: (x20 :: w) ++ t ++ [] ++ ","%byte :: g2 ++ t2), s3. split; [done|]. split.
    + apply (appended_put _ _ _ (lit ",")) in Hap1. pose proof (appended_trans _ _ _ _ _ Hap1 (appended_trans _ _ _ _ _ Hap2 Hap3)) as H.
      repeat (rewrite <- !app_assoc in H; cbn [app] in H). repeat (rewrite <- !app_assoc; cbn [app]). exact H.
    + apply mb_cons; try done; [constructor|by apply members_gap].
Qed.

Lemma styled_array l c s e :
  styled_writeValue indentation line comment_before (MkJson (arrayValue l) c s e) =
  writeArrayValue indentation line comment_before
    (elements (size (MkJson (arrayValue l) c s e)) (null, fun s => Some (pushValue (lit "null") s))
       ((fun x => (x.1, (x.2, styled_writeValue indentation line comment_before x.2))) <$> l))
    (size (MkJson (arrayValue l) c s e)).
Proof. cbn [styled_writeValue]. f_equal. f_equal. apply list_fmap_ext. by intros ? [i v]. Qed.

Lemma styled_object x l c s e :
  styled_writeValue indentation line comment_before (MkJson (objectValue (x :: l)) c s e) = fun st =>
  (s2 ← JsonWriter.object_loop line comment_before
          ((fun x => (x.1, (x.2, styled_writeValue indentation line comment_before x.2))) <$> (x :: l))
          (indent indentation (writeWithIndent line (lit "{") st));
   s3 ← unindent indentation s2; Some (writeWithIndent line (lit "}") s3)).
Proof.
  cbn [styled_writeValue]. assert (forall l : list (bytes * Value),
    ((fun '(k, v) => (k, (v, styled_writeValue indentation line comment_before v))) <$> l) =
    ((fun x => (x.1, (x.2, styled_writeValue indentation line comment_before x.2))) <$> l)) as ->; [|done].
  intros l0. apply list_fmap_ext. by intros ? [k v].
Qed.

Lemma scalar_child h c s e :
  scalar h -> holder_ok h -> writable_here (MkJson h c s e) -> short_here (MkJson h c s e) -> commented_here (MkJson h c s e) ->
  child_ok (MkJson h c s e, styled_writeValue indentation line comment_before (MkJson h c s e)) (norm (MkJson h c s e)).
Proof.
  intros Hs Hok Hw Hsh Hco. destruct (scalar_text_denotes true h c s e Hs Hok Hw) as (t & Ht & Hd).
  assert (pushes (styled_writeValue indentation line comment_before (MkJson h c s e)) (norm (MkJson h c s e))) as Hp.
  { exists t. split; [|split; [done|]]; destruct h; try done; intros; try (by apply Hsh); cbn [styled_writeValue]; by rewrite Ht. }
  split; [by apply pushes_writes|done|done].
Qed.

Lemma array_child l c s e :
  wf (MkJson (arrayValue l) c s e) -> short_here (MkJson (arrayValue l) c s e) -> commented_here (MkJson (arrayValue l) c s e) ->
  Forall (fun x => child_ok (x.2, styled_writeValue indentation line comment_before x.2) (norm x.2)) l ->
  child_ok (MkJson (arrayValue l) c s e, styled_writeValue indentation line comment_before (MkJson (arrayValue l) c s e))
    (norm (MkJson (arrayValue l) c s e)).
Proof.
  intros Hwf Hsh Hco Hc. rewrite styled_array. cbn [norm]. set (v := MkJson (arrayValue l) c s e) in *. unfold short_here in Hsh.
  cbn [value_ v] in Hsh. fold v in Hsh. pose proof (size_range v) as Hn.
  set (cs := elements _ _ _). set (vs := elements (size v) null _).
  assert (Forall2 child_ok cs vs) as Hcs.
  { apply elements_Forall2; [apply hole_ok|]. apply Forall2_fmap, Forall_Forall2_diag. eapply Forall_impl; [exact Hc|]. by intros x Hx. }
  assert (Z.of_nat (length cs) = size v) as Hl by (subst cs; rewrite elements_length; lia).
  destruct (decide (size v = 0)) as [E0|E0].
  - assert (pushes (writeArrayValue indentation line comment_before cs (size v)) (fresh (arrayValue (indexed 0 vs)))) as Hp.
    { exists (lit "[]"). split; [intros st; unfold writeArrayValue; by rewrite E0|]. split; [|done].
      subst vs. rewrite E0. by apply (dn_empty_array true []). }
    split; [by apply pushes_writes|done|done].
  - split; [apply writeArrayValue_spec; [done|done|lia|done]| |done].
    unfold leaf. cbn [fst isArray value_ v]. fold v. destruct (Z.ltb_spec 0 (size v)); [done|lia].
Qed.

Lemma object_child l c s e :
  wf (MkJson (objectValue l) c s e) -> short_here (MkJson (objectValue l) c s e) -> commented_here (MkJson (objectValue l) c s e) ->
  Forall (fun x => child_ok (x.2, styled_writeValue indentation line comment_before x.2) (norm x.2)) l ->
  child_ok (MkJson (objectValue l) c s e, styled_writeValue indentation line comment_before (MkJson (objectValue l) c s e))
    (norm (MkJson (objectValue l) c s e)).
Proof.
  intros Hwf Hsh Hco Hc. apply wf_alt in Hwf as [[Hsort Hnames] _]. cbn [norm]. destruct l as [|x l].
  { assert (pushes (styled_writeValue indentation line comment_before (MkJson (objectValue []) c s e)) (fresh (objectValue []))) as Hp.
    { exists (lit "{}"). split; [done|]. split; [by apply (dn_empty_object true []), gap_nil|done]. }
    split; [by apply pushes_writes|done|done]. }
  rewrite styled_object. set (nms := (fun x => (x.1, norm x.2)) <$> x :: l).
  assert (members nms = nms) as Hm.
  { apply members_sorted. unfold keys_sorted, nms. rewrite <- list_fmap_compose. exact Hsort. }
  split; [|intros H; exfalso|done].
  - intros st Hi Ha. rewrite <- Hm.
    destruct (bracketed (fun t => members_denote true t nms) (lit "{") (lit "}")
      (JsonWriter.object_loop line comment_before ((fun x => (x.1, (x.2, styled_writeValue indentation line comment_before x.2))) <$> x :: l)) st)
      as (t & w & st' & E & Hap & Hw & Ht); [done|done| |].
    { intros s1 _ Hi1 Ha1. apply write_object_loop_spec; [|done|done|done]. apply Forall2_fmap, Forall_Forall2_diag.
      apply Forall_forall. intros y Hy. cbn [fst snd]. split; [done|]. split; [exact (proj1 (Forall_forall _ _) Hc y Hy)|].
      apply (proj1 (Forall_forall _ _) Hnames). apply list_elem_of_fmap. by exists y. }
    exists (line st), (lit "{" ++ t ++ w ++ lit "}"), st'. split; [exact E|]. split; [exact Hap|]. split; [by apply Hline|].
    change (denotes true ("{"%byte :: t ++ w ++ ["}"%byte]) (fresh (objectValue (members nms)))). rewrite app_assoc.
    apply dn_object, members_gap_after; [by apply blank_gap|done].
  - unfold short_here in Hsh. cbn [value_] in Hsh. unfold leaf, size in H. cbn [isArray isObject value_ orb andb fst] in H.
    rewrite u32_id in H by (unfold is_u32; lia). destruct (Z.ltb_spec 0 (Z.of_nat (length (x :: l)))); [done|]. cbn [length] in *. lia.
Qed.

Lemma styled_child v :
  wf v -> writable v -> styleable v -> child_ok (v, styled_writeValue indentation line comment_before v) (norm v).
Proof.
  induction v as [h c s e IH] using Value_induction. intros Hwf Hw [Hs Hp]. unfold writable in Hw.
  pose proof (proj1 (every_alt _ _) Hw) as [Hwh Hwc]. pose proof (proj1 (every_alt _ _) Hs) as [Hsh Hsc].
  pose proof (proj1 (every_alt _ _) Hp) as [Hph Hpc]. pose proof (proj1 (wf_alt _) Hwf) as [Hok Hwfc].
  cbn [value_] in *.
  assert (Forall (fun v => child_ok (v, styled_writeValue indentation line comment_before v) (norm v)) (children h)) as Hc.
  { rewrite Forall_forall in *. intros v Hv. apply IH; [done|by apply Hwfc|by apply Hwc|]. split; [by apply Hsc|by apply Hpc]. }
  destruct h as [| | | | | |l|l]; try (by apply scalar_child).
  - apply array_child; [done|done|done|by apply Forall_snd in Hc].
  - apply object_child; [done|done|done|by apply Forall_snd in Hc].
Qed.

Lemma styled_denotes v :
  wf v -> writable v -> styleable v ->
  exists t, styled indentation line comment_before v = Some t /\ document_denotes true t (norm v).
Proof.
  intros Hwf Hw Hs. destruct (styled_child v Hwf Hw Hs) as [Hwr _ Hco]. cbn [fst snd] in *. unfold styled.
  destruct (comment_before_gap v (MkStyled [] [] [] false) Hco) as (g & Hapg & Hg & _); [done|].
  destruct (Hwr (writeCommentBeforeValue comment_before v (MkStyled [] [] [] false))) as (w & t & s' & -> & Hap & Hb & Ht);
    [by rewrite (ap_indent _ _ _ Hapg)|by rewrite (ap_add _ _ _ Hapg)|].
  cbn [mbind option_bind]. destruct (comment_after_gap v s' Hco) as (g2 & Hap2 & Hg2 & _). eexists. split; [done|].
  exists (g ++ w), t, (g2 ++ [x0a]). pose proof (appended_trans _ _ _ _ _ Hapg (appended_trans _ _ _ _ _ Hap Hap2)) as [Hd _ _].
  rewrite Hd. cbn [document_ app]. split; [by rewrite <- !app_assoc|]. split; [|split; [done|]].
  - apply gap_app; [done|by apply blank_gap].
  - apply gap_app; [done|]. apply gap_blank; [by right; right; right|constructor].
Qed.

End StyledSpec.

Lemma string_line_blank s : blank (indentString_ s) -> blank (string_line s).
Proof.
  intros H. unfold string_line. destruct (last _); [|done]. repeat case_decide; try done. constructor; [by right; right; right|done].
Qed.

Lemma stream_line_blank s : blank (indentString_ s) -> blank (stream_line s).
Proof. intros H. constructor; [by right; right; right|done]. Qed.

(** *** Comments on their own lines *)

(** A comment with its lines indented. *)
Fixpoint reindent (ind text : bytes) : bytes :=
  match text with
  | [] => []
  | c :: text =>
      c :: (if bool_decide (c = x0a) && bool_decide (head text = Some "/"%byte) then ind else []) ++ reindent ind text
  end.

Lemma string_line_here children document ind add : string_line (MkStyled children (document ++ [x0a]) ind add) = ind.
Proof. unfold string_line. cbn [document_ indentString_]. rewrite last_snoc. by rewrite decide_False, decide_True. Qed.

Lemma comment_chars_reindent ind text : forall document, comment_chars ind text document = document ++ reindent ind text.
Proof.
  induction text as [|c text IH]; intros document; cbn [comment_chars reindent]; [by rewrite app_nil_r|].
  case_bool_decide as Hc; cbn [andb app]; [subst c; case_bool_decide|]; rewrite IH; try rewrite string_line_here;
    cbn [app]; by rewrite <- ?app_assoc.
Qed.

Lemma reindent_cons ind c t : reindent ind (c :: t) =
  c :: (if bool_decide (c = x0a) && bool_decide (head t = Some "/"%byte) then ind else []) ++ reindent ind t.
Proof. done. Qed.

Lemma reindent_app ind a c b : c <> "/"%byte -> reindent ind (a ++ c :: b) = reindent ind a ++ reindent ind (c :: b).
Proof.
  intros Hc. induction a as [|d a IH]; [done|]. cbn [app]. rewrite !(reindent_cons ind d), IH. cbn [app]. rewrite <- app_assoc.
  destruct a as [|e a]; [|done]. cbn [app head]. rewrite (bool_decide_eq_false_2 (Some c = Some "/"%byte)) by congruence.
  by destruct (bool_decide (d = x0a)).
Qed.

Lemma reindent_no_newline ind a : Forall (fun b => ~ (b = x0d \/ b = x0a)) a -> reindent ind a = a.
Proof.
  induction 1 as [|c a Hc _ IH]; [done|]. cbn [reindent]. rewrite bool_decide_eq_false_2 by tauto. cbn [andb app]. by rewrite IH.
Qed.

Lemma star_slash c t : find (lit "*/") (c :: t) = if bool_decide ("*"%byte = c) && is_prefix (lit "/") t then Some 0%nat else S <$> find (lit "*/") t.
Proof. done. Qed.

Lemma star_slash_blank w t : blank w -> find (lit "*/") t = None -> find (lit "*/") (w ++ t) = None.
Proof.
  intros Hw Ht. induction Hw as [|c w Hc _ IH]; [done|]. cbn [app]. rewrite star_slash, IH.
  by destruct Hc as [->|[->|[->| ->]]].
Qed.

Lemma reindent_body ind body : blank ind -> find (lit "*/") body = None -> find (lit "*/") (reindent ind body) = None.
Proof.
  intros Hi. induction body as [|c body IH]; [done|]. rewrite star_slash. destruct (bool_decide _ && _) eqn:E; [done|].
  destruct (find (lit "*/") body); [done|]. intros _. specialize (IH eq_refl). cbn [reindent]. rewrite star_slash.
  destruct (bool_decide (c = x0a) && _) eqn:Ei.
  - apply andb_true_iff in Ei as [->%bool_decide_eq_true_1 _]. cbn [bool_decide andb]. by rewrite star_slash_blank.
  - cbn [app]. rewrite IH. assert (is_prefix (lit "/") (reindent ind body) = is_prefix (lit "/") body) as ->; [by destruct body|].
    by rewrite E.
Qed.

Lemma reindent_gap ind g : blank ind -> gap true g -> gap true (reindent ind g).
Proof.
  intros Hi. assert (forall (b : bool), gap true (if b then ind else [])) as Hif by (intros []; [by apply blank_gap|constructor]).
  induction 1 as [|c s Hc _ IH|body s _ Hf _ IH|body c s _ Hf Hc _ IH].
  - constructor.
  - cbn [reindent]. apply gap_blank; [done|]. by apply gap_app.
  - cbn [reindent]. rewrite !(bool_decide_eq_false_2 (_ = x0a)) by done. cbn [andb app]. rewrite reindent_app by done.
    cbn [reindent]. rewrite !(bool_decide_eq_false_2 (_ = x0a)) by done. cbn [andb app].
    apply gap_block; [done|by apply reindent_body|done].
  - assert (c <> "/"%byte) as Hc' by by destruct Hc as [->| ->].
    cbn [reindent]. rewrite !(bool_decide_eq_false_2 ("/"%byte = x0a)) by done. cbn [andb app].
    rewrite reindent_app, reindent_no_newline, reindent_cons by done. apply gap_line; [done|done|done|]. by apply gap_app.
Qed.

Lemma string_comment_gap s c : blank (indentString_ s) -> gap true (c ++ [x0a]) -> gap true (string_comment s c).
Proof.
  intros Hi Hg. unfold string_comment. rewrite string_line_here, comment_chars_reindent, <- !app_assoc, drop_app_length.
  cbn [app]. rewrite <- app_assoc. apply gap_blank; [by right; right; right|]. apply gap_app; [by apply blank_gap|].
  apply (reindent_gap (indentString_ s)) in Hg; [|done]. rewrite reindent_app in Hg by done. exact Hg.
Qed.

Lemma stream_comment_gap s c : blank (indentString_ s) -> gap true (c ++ [x0a]) -> gap true (stream_comment s c).
Proof. done. Qed.

(** ** Values that are read back as they are *)

(** Integers in the type the reader gives them, no reals, no holes. *)
Definition canonical_here (v : Value) : Prop :=
  match value_ v with
  | intValue z => minInt64 <= z <= maxInt
  | uintValue z => maxInt < z <= maxUInt64
  | realValue _ => False
  | arrayValue l => l = indexed 0 l.*2 /\ Z.of_nat (length l) < 2 ^ 32
  | _ => True
  end.
Definition canonical (v : Value) : Prop := every canonical_here v.

Lemma indexed_fmap (f : Value -> Value) i l : (fun x => (x.1, f x.2)) <$> indexed i l = indexed i (f <$> l).
Proof. revert i. induction l as [|v l IH]; intros i; [done|]. cbn [indexed fmap list_fmap fst snd]. by rewrite IH. Qed.

Lemma indexed_length i l : length (indexed i l) = length l.
Proof. revert i. induction l as [|v l IH]; intros i; cbn [indexed length]; [done|]. by rewrite IH. Qed.

Lemma indexed_get i l j : map_get index_lt (i + Z.of_nat j) (indexed i l) = l !! j.
Proof.
  revert i j. induction l as [|v l IH]; intros i j; [done|]. cbn [indexed map_get]. unfold index_lt at 1 2.
  destruct (Z.ltb_spec (i + Z.of_nat j) i); [lia|]. destruct j as [|j].
  - destruct (Z.ltb_spec i (i + Z.of_nat 0)); [lia|done].
  - destruct (Z.ltb_spec i (i + Z.of_nat (S j))); [|lia]. cbn [lookup list_lookup].
    replace (i + Z.of_nat (S j)) with ((i + 1) + Z.of_nat j) by lia. apply IH.
Qed.

Lemma elements_indexed l : elements (Z.of_nat (length l)) null (indexed 0 l) = l.
Proof.
  unfold elements. rewrite Nat2Z.id. apply list_eq. intros j. rewrite list_lookup_fmap.
  destruct (decide (j < length l)%nat) as [Hj|Hj].
  - rewrite lookup_seq_lt by done. cbn [fmap option_fmap option_map]. pose proof (indexed_get 0 l j) as Hg. rewrite Z.add_0_l in Hg. change (0 + j)%nat with j. rewrite Hg.
    by destruct (lookup_lt_is_Some_2 l j Hj) as [v ->].
  - rewrite lookup_seq_ge by lia. by rewrite lookup_ge_None_2 by lia.
Qed.

Lemma indexed_last i l : last (indexed i l) = (fun v => (i + Z.of_nat (length l) - 1, v)) <$> last l.
Proof.
  revert i. induction l as [|v l IH]; intros i; [done|]. cbn [indexed]. destruct l as [|w l].
  - cbn. do 2 f_equal. lia.
  - cbn [indexed] in *. rewrite !last_cons_cons. rewrite IH. destruct (last (w :: l)); [|done]. cbn [fmap option_fmap option_map length].
    do 2 f_equal. lia.
Qed.

Lemma size_indexed l c s e : Z.of_nat (length l) < 2 ^ 32 -> size (MkJson (arrayValue (indexed 0 l)) c s e) = Z.of_nat (length l).
Proof.
  intros H. unfold size. cbn [value_]. rewrite indexed_last. destruct (last l) as [v|] eqn:E; [|apply last_None in E as ->; done].
  cbn [fmap option_fmap option_map]. rewrite u32_id; [lia|]. unfold is_u32.
  assert (length l <> 0)%nat by (intros ->%nil_length_inv; done). lia.
Qed.

Lemma indexed_snd i l : (indexed i l).*2 = l.
Proof. revert i. induction l as [|v l IH]; intros i; [done|]. cbn [indexed fmap list_fmap snd]. by rewrite IH. Qed.

Lemma indexed_keys i l : Forall (fun k => i <= k < i + Z.of_nat (length l)) (indexed i l).*1.
Proof.
  revert i. induction l as [|v l IH]; intros i; cbn [indexed fmap list_fmap fst length]; constructor; [lia|].
  eapply Forall_impl; [apply IH|]. cbn. intros k. lia.
Qed.

Lemma indexed_sorted i l : keys_sorted index_lt (indexed i l).
Proof.
  unfold keys_sorted. revert i. induction l as [|v l IH]; intros i; cbn [indexed fmap list_fmap fst]; constructor; [apply IH|].
  eapply Forall_impl; [apply indexed_keys|]. cbn. intros k. unfold index_lt. lia.
Qed.

Lemma wf_indexed l : Forall wf l -> Z.of_nat (length l) < 2 ^ 32 -> wf (fresh (arrayValue (indexed 0 l))).
Proof.
  intros Hw Hl. rewrite wf_fresh. cbn [holder_ok children]. rewrite indexed_snd. split; [|done]. split; [apply indexed_sorted|].
  eapply Forall_impl; [apply indexed_keys|]. cbn. intros k. unfold is_u32. lia.
Qed.

Lemma every_indexed P l :
  P (fresh (arrayValue (indexed 0 l))) -> Forall (every P) l -> every P (fresh (arrayValue (indexed 0 l))).
Proof. intros Hp Hl. rewrite every_alt. cbn [fresh value_ children]. by rewrite indexed_snd. Qed.

Lemma norm_canonical v : canonical v -> norm v = strip v.
Proof.
  induction v as [h c s e IH] using Value_induction. intros Hc. unfold canonical in Hc.
  pose proof (proj1 (every_alt _ _) Hc) as [Hh Hcs]. cbn [value_] in *.
  destruct h as [|z|z|d|s'|b|l|o]; try done; unfold canonical_here in Hh; cbn [value_ norm strip children] in *.
  - unfold minInt64, maxInt in Hh. unfold integer_holder, maxInt. destruct (Z.ltb_spec z 0).
    + destruct (Z.leb_spec (Z.abs z) (2 ^ 63)); [|lia]. do 2 f_equal. lia.
    + destruct (Z.leb_spec (Z.abs z) (2 ^ 31 - 1)); [|lia]. do 2 f_equal. lia.
  - unfold integer_holder. destruct (Z.leb_spec z maxInt); [lia|]. by destruct (Z.leb_spec z maxUInt64); [|lia].
  - destruct Hh as [El Hl]. set (ws := l.*2) in *. rewrite El, !indexed_fmap. assert (length ws = length l) as Hlen by apply length_fmap.
    rewrite size_indexed by lia. replace (length ws) with (length (norm <$> ws)) by apply length_fmap. rewrite elements_indexed.
    do 3 f_equal. apply list_fmap_ext. intros j v Hj.
    assert (v ∈ ws) as Hv by (by eapply list_elem_of_lookup_2).
    apply (proj1 (Forall_forall _ _) IH v Hv). exact (proj1 (Forall_forall _ _) Hcs v Hv).
  - do 2 f_equal. apply list_fmap_ext. intros j [k v] Hj. cbn [fst snd]. f_equal.
    assert (v ∈ o.*2) as Hv by (apply list_elem_of_fmap; exists (k, v); split; [done|by eapply list_elem_of_lookup_2]).
    apply (proj1 (Forall_forall _ _) IH v Hv). exact (proj1 (Forall_forall _ _) Hcs v Hv).
Qed.

(** ** Round trips *)

Lemma fast_write_document w v :
  wf v -> writable v -> dropNullPlaceholders_ w = false ->
  exists t, fast_write w v = Some t /\ document_denotes false t (norm v).
Proof.
  intros Hwf Hw Hd. destruct (fast_writeValue_denotes w Hd v Hwf Hw) as (t & E & Ht). unfold fast_write. rewrite E. cbn [mbind option_bind].
  eexists. split; [done|]. exists [], t, [x0a]. split; [done|]. split; [constructor|]. split; [done|].
  apply gap_blank; [by right; right; right|constructor].
Qed.

Lemma styled_documents indentation v :
  wf v -> writable v -> styleable v -> blank indentation ->
  exists t1 t2, toStyledString v = Some t1 /\ StyledStreamWriter_write indentation v = Some t2 /\
    document_denotes true t1 (norm v) /\ document_denotes true t2 (norm v).
Proof.
  intros Hwf Hw Hs Hi.
  destruct (styled_denotes (replicate 3 x20) string_line string_comment) with (v := v) as (t1 & E1 & H1); try done;
    [repeat (constructor; [by left|]); done|apply string_line_blank|apply string_comment_gap|].
  destruct (styled_denotes indentation stream_line stream_comment) with (v := v) as (t2 & E2 & H2); try done;
    [apply stream_line_blank|]. by exists t1, t2.
Qed.

(** C25. [FastWriter::write], with or without YAML compatibility and without
    [dropNullPlaceholders], writes a value in which no string is a null pointer
    (such a string is written as nothing) and no array has 2^31 elements as a
    document of the grammar of JSON without comments, and [Reader::parse], with
    any features that allow the root, reads it back without an error as the
    value, normalised: integers in the type the reader uses, reals as their
    sixteen digits spell them, the holes of arrays as null, no comments. *)
Theorem fast_write_reads_back w v :
  wf v -> writable v -> dropNullPlaceholders_ w = false ->
  exists t, fast_write w v = Some t /\ document_denotes false t (norm v) /\
    (Z.of_nat (length t) < 2 ^ 31 - 1 -> forall features root cc, root_allowed features (norm v) = true -> wf root ->
       exists r, parse (Reader_new features) t root cc = Some (true, r) /\ errors_ r = [] /\ strip (root_ r) = norm v).
Proof.
  intros Hwf Hw Hd. destruct (fast_write_document w v Hwf Hw Hd) as (t & E & Ht). exists t. split; [done|]. split; [done|].
  intros Hl features root cc Hf Hroot. apply read_document; auto using document_any.
Qed.

(** C26. [StyledWriter::write] ([Value::toStyledString]) and
    [StyledStreamWriter::write], with any indentation of blanks, write a value in
    which no string is a null pointer and no array has 2^31 elements as a
    document of the grammar of JSON with comments, whatever whole comments the
    value and its parts carry, and [Reader::parse] reads it back without an error,
    whether it collects comments or not, as the value normalised: integers in the
    type the reader uses, reals as their sixteen digits spell them, the holes of
    arrays as null, comments not compared. *)
Theorem styled_write_reads_back indentation v :
  wf v -> writable v -> styleable v -> blank indentation ->
  exists t1 t2, toStyledString v = Some t1 /\ StyledStreamWriter_write indentation v = Some t2 /\
    forall t, t ∈ [t1; t2] -> document_denotes true t (norm v) /\
      (Z.of_nat (length t) < 2 ^ 31 - 1 -> forall root cc, wf root ->
         exists r, parse (Reader_new Features_all) t root cc = Some (true, r) /\ errors_ r = [] /\ strip (root_ r) = norm v).
Proof.
  intros Hwf Hw Hs Hi. destruct (styled_documents indentation v Hwf Hw Hs Hi) as (t1 & t2 & E1 & E2 & H1 & H2).
  exists t1, t2. split; [done|]. split; [done|]. intros t Ht. assert (document_denotes true t (norm v)) as Hd by set_solver.
  split; [done|]. intros Hl root cc Hroot. by apply read_document.
Qed.

(** An array with a hole, a large integer and a string to escape, with comments of
    all three places. *)
Definition demo_written : Value :=
  MkJson (arrayValue [
      (0, MkJson (intValue (2 ^ 40)) (MkComments (Some (lit "// large")) (Some (lit "// here" ++ [x0a])) None) 0 0);
      (2, MkJson (stringValue (Some [quote; x01; "a"%byte])) (MkComments None (Some (lit "/* s */")) (Some (lit "// last"))) 0 0)])
    (MkComments (Some (lit "/* all" ++ [x0a] ++ lit "/ of it */")) None None) 0 0.

Lemma gap_line_whole body : Forall (fun b => ~ (b = x0d \/ b = x0a)) body -> gap true ("/"%byte :: "/"%byte :: body ++ [x0a]).
Proof. intros H. apply (gap_line true body x0a []); [done|done|by right|constructor]. Qed.

Lemma gap_block_whole body : find (lit "*/") body = None -> gap true ("/"%byte :: "*"%byte :: body ++ lit "*/").
Proof. intros H. apply (gap_block true body []); [done|done|constructor]. Qed.

Lemma demo_written_ok : wf demo_written /\ writable demo_written /\ styleable demo_written.
Proof.
  assert (forall s, forallb (fun b => negb (bool_decide (b = x0d \/ b = x0a))) s = true -> Forall (fun b => ~ (b = x0d \/ b = x0a)) s) as Hb.
  { intros s H. apply Forall_forall. intros b Hb. rewrite forallb_forall in H. specialize (H b (proj1 (list_elem_of_In _ _) Hb)).
    apply negb_true_iff in H. by apply bool_decide_eq_false_1 in H. }
  split_and!.
  - rewrite wf_alt. split.
    + split; [repeat constructor|]. repeat (constructor; [unfold is_u32; cbn; lia|]). constructor.
    + repeat constructor; unfold holder_ok, is_i64; try lia; repeat constructor; discriminate.
  - unfold writable. repeat split; try discriminate.
  - split.
    + repeat split; unfold short_here; cbn [value_].
      * intros t Ht. vm_compute in Ht. injection Ht as <-. vm_compute. reflexivity.
      * intros t Ht. vm_compute in Ht. injection Ht as <-. vm_compute. reflexivity.
    + unfold demo_written. cbn [every]. unfold commented_here. split_and!; try (intros [=]; fail); try exact I; intros _.
      * change (gap true ("/"%byte :: "*"%byte :: (lit " all" ++ [x0a] ++ lit "/ of it ") ++ lit "*/" ++ [x0a])).
        rewrite app_assoc. apply (gap_app true (_ :: _ :: _ ++ _) [x0a]); [by apply gap_block_whole|].
        apply gap_blank; [by right; right; right|constructor].
      * by apply (gap_line_whole (lit " large")), Hb.
      * by apply (gap_line_whole (lit " here")), Hb.
      * by apply (gap_block_whole (lit " s ")).
      * by apply (gap_line_whole (lit " last")), Hb.
Qed.

Lemma fast_write_reads_back_witness :
  exists t r, fast_write FastWriter_new demo_written = Some t /\
    parse (Reader_new strictMode) t null false = Some (true, r) /\
    strip (root_ r) = fresh (arrayValue [(0, fresh (uintValue (2 ^ 40))); (1, null);
                                         (2, fresh (stringValue (Some [quote; x01; "a"%byte])))]).
Proof.
  destruct (fast_write_reads_back FastWriter_new demo_written) as (t & E & _ & Hr).
  - apply demo_written_ok.
  - apply demo_written_ok.
  - reflexivity.
  - assert (Z.of_nat (length t) < 2 ^ 31 - 1) as Hl by (vm_compute in E; injection E as <-; vm_compute; reflexivity).
    destruct (Hr Hl strictMode null false) as (r & Hp & _ & Hs); [reflexivity|apply wf_null|].
    exists t, r. split; [exact E|]. split; [exact Hp|]. rewrite Hs. vm_compute. reflexivity.
Defined.

Lemma styled_write_reads_back_witness :
  exists t r, toStyledString demo_written = Some t /\
    parse (Reader_new Features_all) t null true = Some (true, r) /\ size (root_ r) = 3.
Proof.
  destruct (styled_write_reads_back [x09] demo_written) as (t1 & t2 & E & _ & H).
  - apply demo_written_ok.
  - apply demo_written_ok.
  - apply demo_written_ok.
  - constructor; [right; left; reflexivity|constructor].
  - destruct (H t1) as [_ Hr]; [left|].
    assert (Z.of_nat (length t1) < 2 ^ 31 - 1) as Hl by (vm_compute in E; injection E as <-; vm_compute; reflexivity).
    destruct (Hr Hl null true) as (r & Hp & _ & Hs); [apply wf_null|]. exists t1, r. split; [exact E|]. split; [exact Hp|].
    vm_compute in E. injection E as <-. vm_compute in Hp. injection Hp as <-. reflexivity.
Defined.

(** A comment set without its line end can take what follows with it: the styled
    writer begins no new line after a blank, and the stream writer begins none
    before the comment of the next value. *)
Definition blank_comment : Value :=
  fresh (arrayValue [(0, MkJson (objectValue [(lit "a", null)]) (MkComments None (Some (lit "// a ")) None) 0 0)]).
Definition two_comments : Value :=
  fresh (arrayValue [
    (0, MkJson (objectValue [(lit "a", null)]) (MkComments None (Some (lit "// a")) None) 0 0);
    (1, MkJson nullValue (MkComments (Some (lit "/* b" ++ [x0a] ++ lit "*/")) None None) 0 0)]).

Theorem unended_comments_break_the_document :
  (t ← toStyledString blank_comment; fst <$> parse (Reader_new Features_all) t null true) = Some false /\
  (t ← StyledStreamWriter_write [x09] two_comments; fst <$> parse (Reader_new Features_all) t null true) = Some false.
Proof. vm_compute. done. Qed.
