(* ===== verification/IniFloat.v ===== *)
(** The floating-point and formatted accessors of [common/xIniFile.cpp]:
    [SetValueF], [GetValueF], [SetValueV], [GetValueV], with [printf("%f")] and
    [atof] of binary64 numbers.  The format of the last two is interpreted by the
    C library: what [vsprintf] writes and what [sscanf] reads are arguments. *)

From Stdlib Require Import SpecFloat.
From S2P Require Import Prelude Cstd IniFile Double JsonValue JsonValueSpec JsonWriter JsonReader JsonReaderSpec JsonGrammar JsonWriterSpec.

Definition MAX_VALUEDATA : Z := 2048.

(** ** [sprintf(svalue, "%f", value)] *)

(** A magnitude as a fraction. *)
Definition fraction_of (m : positive) (e : Z) : Z * Z :=
  if 0 <=? e then (Z.pos m * 2 ^ e, 1) else (Z.pos m, 2 ^ (- e)).

(** The number of millionths, rounded. *)
Definition millionths (m : positive) (e : Z) : Z :=
  let '(n, d) := fraction_of m e in div_round (n * 10 ^ 6) d.

Definition six_digits (z : Z) : bytes := replicate (6 - length (udec z)) "0"%byte ++ udec z.

(** glibc's words for what is no number; the sign of a NaN is not kept. *)
Definition printf_f (v : double) : bytes :=
  (if d_neg v then lit "-" else []) ++
  match v with
  | S754_zero _ => lit "0.000000"
  | S754_infinity _ => lit "inf"
  | S754_nan => lit "nan"
  | S754_finite _ m e => let z := millionths m e in udec (z / 10 ^ 6) ++ lit "." ++ six_digits (z mod 10 ^ 6)
  end.

(** ** [atof] *)

(** What does not start a number is 0, an exponent without digits is not read.
    [None]: hexadecimal constants, which are left out. *)
Definition atof (s : bytes) : option double :=
  let '(neg, t) := read_sign (skip_space s) in
  let word := tolower <$> take 3 t in
  if bool_decide (word = lit "inf") then Some (S754_infinity neg)
  else if bool_decide (word = lit "nan") then Some S754_nan
  else if bool_decide (take 2 word = lit "0x") then None
  else
    let '(int, t) := span_digits t in
    let '(frac, t) :=
      match t with
      | c :: t' => if decide (c = "."%byte) then span_digits t' else ([], t)
      | [] => ([], [])
      end in
    match int ++ frac with
    | [] => Some (S754_zero false)
    | digits =>
        let x :=
          match t with
          | c :: t' => if decide (c = "e"%byte \/ c = "E"%byte) then default 0 (scan_exponent t') else 0
          | [] => 0
          end in
        Some (round_decimal neg (digits_value digits) (x - Z.of_nat (length frac)))
    end.

(** ** The accessors *)

(** [None] in the result: the text does not fit the buffer. *)
Definition SetValueF (f : CIniFile) (keyname valuename : bytes) (value : double) (create : bool) : option (bool * CIniFile) :=
  let svalue := printf_f value in
  if MAX_VALUEDATA <=? Z.of_nat (length svalue) then None
  else Some (SetValue f keyname valuename svalue true).

Definition GetValueF (f : CIniFile) (keyname valuename : bytes) (defValue : double) : option double :=
  let svalue := printf_f defValue in
  if MAX_VALUEDATA <=? Z.of_nat (length svalue) then None
  else atof (cstr (GetValue f keyname valuename svalue)).

(** [value] is what [vsprintf] writes. *)
Definition SetValueV (f : CIniFile) (keyname valuename value : bytes) : option (bool * CIniFile) :=
  if MAX_VALUEDATA <=? Z.of_nat (length value) then None
  else Some (SetValue f keyname valuename (cstr value) true).

(** [scan] is [sscanf] with the format: its result, and what it stores. *)
Definition GetValueV {A} (f : CIniFile) (keyname valuename : bytes) (scan : bytes -> Z * list A) : Z * list A :=
  match GetValue f keyname valuename [] with
  | [] => (0, [])
  | value => let '(n, vs) := scan (cstr value) in (u32 n, vs)
  end.

(** ** Six decimals are kept *)

(** The mantissa and the exponent fit binary64. *)
Definition valid_double (v : double) : Prop :=
  match v with S754_finite _ m e => Z.pos m < 2 ^ 53 /\ e <= 971 | _ => True end.

Lemma div_round_le n d : 0 <= n -> 0 < d -> 0 <= div_round n d <= n / d + 1.
Proof.
  intros Hn Hd. unfold div_round. pose proof (Z.div_pos n d Hn Hd).
  destruct (2 * (n mod d) ?= d); [destruct (Z.even (n / d))|..]; lia.
Qed.

Lemma millionths_bound m e : Z.pos m < 2 ^ 53 -> e <= 971 -> 0 <= millionths m e < 10 ^ 316.
Proof.
  intros Hm He. unfold millionths, fraction_of. destruct (Z.leb_spec 0 e) as [H0|H0].
  - assert (0 <= Z.pos m * 2 ^ e < 2 ^ 1024).
    { assert (0 < 2 ^ e) by lia. assert (2 ^ e <= 2 ^ 971) by (apply Z.pow_le_mono_r; lia). change (2 ^ 1024) with (2 ^ 53 * 2 ^ 971). nia. }
    pose proof (div_round_le (Z.pos m * 2 ^ e * 10 ^ 6) 1 ltac:(lia) ltac:(lia)) as Hr. rewrite Z.div_1_r in Hr.
    assert (2 ^ 1024 * 10 ^ 6 + 1 < 10 ^ 316) by (vm_compute; reflexivity). lia.
  - assert (1 <= 2 ^ (- e)) by (pose proof (Z.pow_pos_nonneg 2 (- e)); lia).
    pose proof (div_round_le (Z.pos m * 10 ^ 6) (2 ^ (- e)) ltac:(lia) ltac:(lia)).
    assert (Z.pos m * 10 ^ 6 / 2 ^ (- e) <= Z.pos m * 10 ^ 6) by (apply Z.div_le_upper_bound; nia).
    assert (2 ^ 53 * 10 ^ 6 + 1 < 10 ^ 316) by (vm_compute; reflexivity). lia.
Qed.

Lemma read_digits_shift ds : forall acc, Forall (fun c => isdigit c = true) ds ->
  (read_digits acc ds).1 = acc * 10 ^ Z.of_nat (length ds) + digits_value ds.
Proof.
  unfold digits_value. induction ds as [|c ds IH]; intros acc H; [cbn; lia|]. inversion H as [|? ? Hc Hd]; subst.
  cbn [read_digits length]. rewrite Hc, (IH (acc * 10 + _)), (IH (0 * 10 + _)) by done.
  rewrite Nat2Z.inj_succ, Z.pow_succ_r by lia. lia.
Qed.

Lemma six_digits_spec z : 0 <= z < 10 ^ 6 ->
  length (six_digits z) = 6%nat /\ Forall (fun c => isdigit c = true) (six_digits z) /\ digits_value (six_digits z) = z.
Proof.
  intros Hz. destruct (udec_digits_value z) as [[Hne Hd] Hv]; [lia|]. pose proof (length_udec 5 z Hz) as Hl.
  unfold six_digits. split_and!.
  - rewrite length_app, length_replicate. lia.
  - apply Forall_app. split; [|done]. by apply Forall_replicate.
  - unfold digits_value. rewrite read_digits_concat by by apply Forall_replicate.
    assert ((read_digits 0 (replicate (6 - length (udec z)) "0"%byte)).1 = 0) as ->; [|exact Hv].
    induction (6 - length (udec z))%nat as [|n IH]; [done|]. exact IH.
Qed.

(** The text of a finite number, and what it spells. *)
Lemma printf_f_text s m e : valid_double (S754_finite s m e) ->
  let v := S754_finite s m e in
  exists ds fs, printf_f v = sign_text s ++ ds ++ lit "." ++ fs /\ digits ds /\ digits fs /\ length fs = 6%nat /\
    digits_value (ds ++ fs) = millionths m e /\ (length (printf_f v) <= 325)%nat.
Proof.
  intros [Hm He] v. pose proof (millionths_bound m e Hm He) as Hz. set (z := millionths m e) in *.
  assert (0 <= z / 10 ^ 6 < 10 ^ 316) as Hq.
  { split; [apply Z.div_pos; lia|]. apply Z.div_lt_upper_bound; [lia|]. assert (10 ^ 316 <= 10 ^ 6 * 10 ^ 316) by (vm_compute; discriminate). lia. }
  destruct (six_digits_spec (z mod 10 ^ 6)) as (Hl & Hd & Hv); [by apply Z.mod_pos_bound|].
  destruct (udec_digits_value (z / 10 ^ 6)) as [Hds Hvs]; [lia|]. pose proof (length_udec 315 (z / 10 ^ 6) Hq).
  exists (udec (z / 10 ^ 6)), (six_digits (z mod 10 ^ 6)). split_and!.
  - unfold printf_f, v. cbn [d_neg]. fold z. by destruct s.
  - done.
  - split; [|done]. intros E. by rewrite E in Hl.
  - done.
  - unfold digits_value. rewrite read_digits_concat by apply Hds. fold (digits_value (udec (z / 10 ^ 6))).
    rewrite Hvs, read_digits_shift, Hl, Hv by done. change (Z.of_nat 6) with 6. pose proof (Z.div_mod z (10 ^ 6)). lia.
  - unfold printf_f, v. cbn [d_neg]. fold z. rewrite !length_app, Hl.
    assert (length (if s then lit "-" else []) <= 1)%nat by (destruct s; cbn; lia). change (length (lit ".")) with 1%nat. lia.
Qed.

Lemma atof_decimal neg ds fs : digits ds -> digits fs ->
  atof (sign_text neg ++ ds ++ lit "." ++ fs) = Some (round_decimal neg (digits_value (ds ++ fs)) (- Z.of_nat (length fs))).
Proof.
  intros Hds Hfs. unfold atof. rewrite sign_digits by done. destruct Hds as [Hne Hd].
  assert (exists c ds', ds = c :: ds' /\ isdigit c = true) as (c & ds' & Eds & Hc).
  { destruct ds as [|c ds']; [done|]. inversion Hd; subst. eauto. }
  assert (forall b t, bool_decide ((tolower <$> take 3 (ds ++ lit "." ++ fs)) = b :: t) = true -> tolower c = b) as Hword.
  { intros b t H%bool_decide_eq_true. rewrite Eds in H. cbn in H. by injection H. }
  destruct (bool_decide (_ = lit "inf")) eqn:E1; [apply Hword in E1; by destruct c|].
  destruct (bool_decide (_ = lit "nan")) eqn:E2; [apply Hword in E2; by destruct c|].
  destruct (bool_decide (take 2 _ = lit "0x")) eqn:E3.
  { exfalso. apply bool_decide_eq_true in E3. rewrite Eds in E3, Hd. inversion Hd as [|? ? _ Hd']; subst.
    destruct ds' as [|c2 ds']; cbn in E3; [done|]. injection E3 as _ E3. inversion Hd' as [|? ? Hc2 _]; subst. by destruct c2. }
  rewrite span_digits_app by done. change (lit "." ++ fs) with ("."%byte :: fs). cbn iota. rewrite decide_True by done.
  destruct Hfs as [Hfne Hfd]. pose proof (span_digits_app fs [] Hfd eq_refl) as Ef. rewrite app_nil_r in Ef. rewrite Ef.
  rewrite Eds. cbn [app]. done.
Qed.

(** A finite number that is stored is read back, under any spelling of the names
    that the case setting identifies, as its value to six decimals: the nearest
    number to that many millionths. *)
Theorem ini_float_set_then_get f s n sg m e d create : ini_wf f -> valid_double (S754_finite sg m e) -> (length (printf_f d) <= 325)%nat ->
  exists f', SetValueF f s n (S754_finite sg m e) create = Some (true, f') /\ ini_wf f' /\
    forall s' n', CheckCase f s' = CheckCase f s -> CheckCase f n' = CheckCase f n ->
      GetValueF f' s' n' d = Some (round_decimal sg (millionths m e) (- 6)).
Proof.
  intros Hwf Hv Hlen. destruct (printf_f_text sg m e Hv) as (ds & fs & Et & Hds & Hfs & Hl & Hval & Hll).
  unfold SetValueF. destruct (Z.leb_spec MAX_VALUEDATA (Z.of_nat (length (printf_f (S754_finite sg m e))))) as [Hbad|_];
    [unfold MAX_VALUEDATA in Hbad; lia|].
  pose proof (SetValue_spec f s n (printf_f (S754_finite sg m e)) Hwf) as (Hok & Hwf' & Hci & Hget).
  destruct (SetValue f s n _ true) as [ok f']. cbn [fst snd] in *. subst ok. exists f'. split; [done|]. split; [done|].
  intros s' n' Hs Hn. unfold GetValueF.
  destruct (Z.leb_spec MAX_VALUEDATA (Z.of_nat (length (printf_f d)))) as [Hbad|_]; [unfold MAX_VALUEDATA in Hbad; lia|].
  rewrite GetValue_lookup, Hget, decide_True by done. rewrite Et.
  rewrite cstr_id.
  2:{ apply number_chars_no_nul. repeat (apply Forall_app; split); [by destruct sg; repeat constructor|by apply digits_number_chars, Hds|by repeat constructor|by apply digits_number_chars, Hfs]. }
  change (default _ (Some ?x)) with x. by rewrite (atof_decimal sg ds fs Hds Hfs), Hval, Hl.
Qed.

Lemma ini_float_set_then_get_witness :
  exists f', SetValueF ini_new (lit "a") (lit "b") (S754_finite true 3 (-1)) true = Some (true, f') /\
    GetValueF f' (lit "A") (lit "b") (S754_zero false) = Some (round_decimal true 1500000 (- 6)).
Proof.
  destruct (ini_float_set_then_get ini_new (lit "a") (lit "b") true 3 (-1) (S754_zero false) true) as (f' & E & _ & H).
  - split; [reflexivity|constructor].
  - split; [reflexivity|discriminate].
  - vm_compute. lia.
  - exists f'. split; [exact E|]. exact (H (lit "A") (lit "b") eq_refl eq_refl).
Defined.

(** Which is -1.5 again. *)
Example six_decimals_of_minus_three_halves : round_decimal true 1500000 (- 6) = S754_finite true 6755399441055744 (-52).
Proof. vm_compute. reflexivity. Qed.

(** A missing key is created whatever the argument says. *)
Lemma SetValueF_ignores_create f s n v : SetValueF f s n v false = SetValueF f s n v true.
Proof. done. Qed.

(** [sscanf]'s EOF comes out as a large count. *)
Lemma GetValueV_eof f s n : GetValue f s n [] <> [] -> (GetValueV f s n (fun _ => (-1, @nil Z))).1 = 4294967295.
Proof. unfold GetValueV. by destruct (GetValue f s n []). Qed.
