(* ===== verification/JsonStream.v ===== *)
(** [common/jsoncpp.cpp]: values on streams: [operator<<], [operator>>] and the
    [Reader::parse] of strings and streams.  A stream is the bytes it holds. *)

From S2P Require Import Prelude Cstd Double JsonValue JsonValueSpec JsonWriter JsonReader JsonReaderSpec JsonGrammar JsonWriterSpec.

(** ** Reading *)

(** [std::getline(sin, doc, delim)]: what was read, and what is left. *)
Fixpoint getline (delim : byte) (sin : bytes) : bytes * bytes :=
  match sin with
  | [] => ([], [])
  | c :: sin => if decide (c = delim) then ([], sin) else let '(doc, rest) := getline delim sin in (c :: doc, rest)
  end.

(** [(char)EOF] *)
Definition EOF_char : byte := xff.

(** [parse(const std::string &, ...)] *)
Definition parse_string (r : Reader) (document : bytes) (root : Value) (collectComments : bool) : option (bool * Reader) :=
  parse r document root collectComments.

(** [parse(std::istream &, ...)] *)
Definition parse_stream (r : Reader) (sin : bytes) (root : Value) (collectComments : bool) : option (bool * Reader * bytes) :=
  let '(doc, sin) := getline EOF_char sin in
  '(ok, r) ← parse_string r doc root collectComments;
  Some (ok, r, sin).

(** [operator>>]: the value and the rest of the stream, or the text printed to
    standard error before the exception. *)
Definition value_read (sin : bytes) (root : Value) : option (Value * bytes + bytes) :=
  '(ok, r, sin) ← parse_stream (Reader_new Features_all) sin root true;
  if (ok : bool) then Some (inl (root_ r, sin))
  else Some (inr (lit "Error from reader: " ++ cstr (getFormattedErrorMessages r))).

(** ** Writing *)

(** [operator<<], with the default indentation. *)
Definition value_written (sout : bytes) (root : Value) : option bytes :=
  t ← StyledStreamWriter_write [x09] root; Some (sout ++ t).

(** ** Round trip *)

Lemma getline_all delim s : delim ∉ s -> getline delim s = (s, []).
Proof.
  induction s as [|c s IH]; intros Hn; cbn [getline]; [done|]. rewrite not_elem_of_cons in Hn. destruct Hn as [Hc Hn].
  rewrite decide_False by done. by rewrite IH.
Qed.

(** What [operator<<] appends for a value, with whole comments in it or not,
    [operator>>] reads back as the value, unless a byte 255 occurs in it. *)
Theorem stream_roundtrip sout v root :
  wf v -> writable v -> styleable v -> wf root ->
  exists t, value_written sout v = Some (sout ++ t) /\
    (xff ∉ t -> Z.of_nat (length t) < 2 ^ 31 - 1 -> exists w, value_read t root = Some (inl (w, [])) /\ strip w = norm v).
Proof.
  intros Hwf Hw Hs Hroot. assert (blank [x09]) as Hb by (constructor; [by right; left|done]).
  destruct (styled_documents [x09] v Hwf Hw Hs Hb) as (_ & t & _ & E & _ & Hd).
  exists t. unfold value_written. rewrite E.
  split; [done|]. intros Hff Hl. destruct (read_document Features_all t (norm v) root true Hd Hl eq_refl Hroot) as (r & Er & _ & Hr).
  exists (root_ r). split; [|done]. unfold value_read, parse_stream, parse_string. rewrite getline_all by done. by rewrite Er.
Qed.

Lemma stream_roundtrip_witness :
  exists t w, value_written [] demo_written = Some t /\ value_read t null = Some (inl (w, [])) /\ strip w = norm demo_written.
Proof.
  destruct demo_written_ok as (Hwf & Hw & Hs).
  destruct (stream_roundtrip [] demo_written null Hwf Hw Hs wf_null) as (t & E & Ht).
  assert (t = default [] (value_written [] demo_written)) as Et by (by rewrite E). destruct Ht as (w & Er & Hv).
  - rewrite Et. apply (bool_decide_eq_true_1 (xff ∉ _)). vm_compute. reflexivity.
  - rewrite Et. vm_compute. reflexivity.
  - exists t, w. split; [exact E|]. split; [exact Er|exact Hv].
Defined.

(** The delimiter given to [getline] is the character 255: a string that holds it
    is written, and then cut and refused. *)
Theorem byte_255_ends_the_document :
  let v := Value_string [xff] in
  exists t, value_written [] v = Some t /\ t = [x22; xff; x22; x0a] /\
    exists message, value_read t null = Some (inr message).
Proof. eexists. split; [vm_compute; reflexivity|]. split; [reflexivity|]. eexists. vm_compute. reflexivity. Qed.
