(* ===== verification/Mpfd.v ===== *)
(** [common/Parser.cpp], [common/Field.cpp] and [common/Exception.cpp]: the
    parser of multipart/form-data bodies.  Exceptions are values; the buffers
    are byte strings.  A file stored on disk is the bytes written to it;
    [MpfdDisk] has the file system they are written to. *)

From S2P Require Import Prelude Cstd.

(** ** Exceptions *)

(** [MPFD::Exception], by its cause. *)
Inductive exn :=
| NotMultipart | NoBoundary | CollectorFull | ContentTypeNotSet
| NotFormData | NoName | NoNameQuote | NoFileNameQuote
| BadType | NoType | NotText | NotFile | NotInMemory | NotInFilesystem | NoTempDir
| CannotWrite (path : bytes).

Definition result (A : Type) : Type := A + exn.

Definition rbind {A B} (f : A -> result B) (r : result A) : result B :=
  match r with inl a => f a | inr e => inr e end.

Notation "x <- m ;; k" := (rbind (fun x => k) m) (at level 60, m at next level, right associativity).

(** ** Fields *)

Inductive storage := InFilesystem | InMemory.
Inductive ftype := NoFType | TextType | FileType.

#[global] Instance ftype_eq_dec : EqDecision ftype.
Proof. solve_decision. Defined.

(** [FieldContent] is [None] while the pointer is NULL; [file] is the open
    temporary file. *)
Record Field := MkField {
  ty : ftype;
  FieldContent : option bytes;
  WhereStored : storage;
  TempDir : bytes;
  FileName : bytes;
  FileContentType : bytes;
  file : option bytes
}.

Definition field_new : Field := MkField NoFType None InFilesystem [] [] [] None.

Definition SetType (f : Field) (t : ftype) : result Field :=
  match t with
  | NoFType => inr BadType
  | _ => inl (MkField t (FieldContent f) (WhereStored f) (TempDir f) (FileName f) (FileContentType f) (file f))
  end.

Definition GetType (f : Field) : result ftype :=
  match ty f with NoFType => inr NoType | t => inl t end.

Definition Field_AcceptSomeData (f : Field) (data : bytes) : result Field :=
  let stored c d :=
    MkField (ty f) c (WhereStored f) (TempDir f) (FileName f) (FileContentType f) d in
  match ty f with
  | TextType => inl (stored (Some (default [] (FieldContent f) ++ data)) (file f))
  | FileType =>
      match WhereStored f with
      | InFilesystem =>
          match TempDir f with
          | [] => inr NoTempDir
          | _ :: _ => inl (stored (FieldContent f) (Some (default [] (file f) ++ data)))
          end
      | InMemory => inl (stored (Some (default [] (FieldContent f) ++ data)) (file f))
      end
  | NoFType => inr NoType
  end.

Definition GetFileContentSize (f : Field) : result Z :=
  match ty f with
  | NoFType => inr NoType
  | FileType =>
      match WhereStored f with
      | InMemory => inl (Z.of_nat (length (default [] (FieldContent f))))
      | InFilesystem => inr NotInMemory
      end
  | TextType => inr NotFile
  end.

Definition GetFileContent (f : Field) : result (option bytes) :=
  match ty f with
  | NoFType => inr NoType
  | FileType => match WhereStored f with InMemory => inl (FieldContent f) | InFilesystem => inr NotInMemory end
  | TextType => inr NotFile
  end.

(** The content is read as a C string. *)
Definition GetTextTypeContent (f : Field) : result bytes :=
  match ty f with
  | NoFType => inr NoType
  | TextType => inl (match FieldContent f with None => [] | Some c => cstr c end)
  | FileType => inr NotText
  end.

Definition GetFileName (f : Field) : result bytes :=
  match ty f with NoFType => inr NoType | FileType => inl (FileName f) | TextType => inr NotFile end.

Definition GetFileMimeType (f : Field) : result bytes :=
  match ty f with NoFType => inr NoType | FileType => inl (FileContentType f) | TextType => inr NotFile end.

Definition SetTempDir (f : Field) (dir : bytes) : Field :=
  MkField (ty f) (FieldContent f) (WhereStored f) dir (FileName f) (FileContentType f) (file f).
Definition SetFileName (f : Field) (name : bytes) : Field :=
  MkField (ty f) (FieldContent f) (WhereStored f) (TempDir f) name (FileContentType f) (file f).
Definition Field_SetUploadedFilesStorage (f : Field) (w : storage) : Field :=
  MkField (ty f) (FieldContent f) w (TempDir f) (FileName f) (FileContentType f) (file f).
Definition SetFileContentType (f : Field) (type : bytes) : Field :=
  MkField (ty f) (FieldContent f) (WhereStored f) (TempDir f) (FileName f) type (file f).

(** ** The parser *)

Inductive pstatus := LookingForStartingBoundary | ProcessingHeaders | ProcessingContentOfTheField.

Record Parser := MkParser {
  WhereToStoreUploadedFiles : storage;
  Fields : gmap bytes Field;
  TempDirForFileUpload : bytes;
  CurrentStatus : pstatus;
  Boundary : bytes;
  ProcessingFieldName : bytes;
  DataCollector : option bytes;
  MaxDataCollectorLength : Z
}.

Definition parser_new : Parser :=
  MkParser InFilesystem ∅ [] LookingForStartingBoundary [] [] None (16 * 1024 * 1024).

Definition SetUploadedFilesStorage (p : Parser) (w : storage) : Parser :=
  MkParser w (Fields p) (TempDirForFileUpload p) (CurrentStatus p) (Boundary p) (ProcessingFieldName p)
    (DataCollector p) (MaxDataCollectorLength p).
Definition SetTempDirForFileUpload (p : Parser) (d : bytes) : Parser :=
  MkParser (WhereToStoreUploadedFiles p) (Fields p) d (CurrentStatus p) (Boundary p) (ProcessingFieldName p)
    (DataCollector p) (MaxDataCollectorLength p).
Definition SetMaxCollectedDataLength (p : Parser) (max : Z) : Parser :=
  MkParser (WhereToStoreUploadedFiles p) (Fields p) (TempDirForFileUpload p) (CurrentStatus p) (Boundary p)
    (ProcessingFieldName p) (DataCollector p) max.

Definition set_boundary (p : Parser) (b : bytes) : Parser :=
  MkParser (WhereToStoreUploadedFiles p) (Fields p) (TempDirForFileUpload p) (CurrentStatus p) b
    (ProcessingFieldName p) (DataCollector p) (MaxDataCollectorLength p).
Definition set_data (p : Parser) (d : bytes) : Parser :=
  MkParser (WhereToStoreUploadedFiles p) (Fields p) (TempDirForFileUpload p) (CurrentStatus p) (Boundary p)
    (ProcessingFieldName p) (Some d) (MaxDataCollectorLength p).
Definition set_status (p : Parser) (s : pstatus) : Parser :=
  MkParser (WhereToStoreUploadedFiles p) (Fields p) (TempDirForFileUpload p) s (Boundary p)
    (ProcessingFieldName p) (DataCollector p) (MaxDataCollectorLength p).
Definition set_field (p : Parser) (name : bytes) (f : Field) : Parser :=
  MkParser (WhereToStoreUploadedFiles p) (<[name := f]> (Fields p)) (TempDirForFileUpload p) (CurrentStatus p)
    (Boundary p) name (DataCollector p) (MaxDataCollectorLength p).

Definition data (p : Parser) : bytes := default [] (DataCollector p).

Definition GetFieldsMap (p : Parser) : gmap bytes Field := Fields p.
Definition GetField (p : Parser) (name : bytes) : option Field := Fields p !! name.

Definition dquote : bytes := [x22].

(** [substr(bp + 9, ...)] takes the rest. *)
Definition SetContentType (p : Parser) (type : bytes) : result Parser :=
  match find (lit "multipart/form-data;") type with
  | Some 0%nat =>
      match find (lit "boundary=") type with
      | None => inr NoBoundary
      | Some bp => inl (set_boundary p (lit "--" ++ drop (bp + 9) type))
      end
  | _ => inr NotMultipart
  end.

Definition TruncateDataCollectorFromTheBeginning (p : Parser) (n : nat) : Parser :=
  set_data p (drop n (data p)).

(** The first position of the boundary, or [None] for -1. *)
Definition BoundaryPositionInDataCollector (p : Parser) : option nat := find (Boundary p) (data p).

Definition FindStartingBoundaryAndTruncData (p : Parser) : bool * Parser :=
  match BoundaryPositionInDataCollector p with
  | Some n => (true, TruncateDataCollectorFromTheBeginning p (n + length (Boundary p)))
  | None => (false, p)
  end.

(** The end of a content type: one before the first blank, and 0 when there is
    none, which [substr] takes as the rest of the headers. *)
Definition content_type_of (headers : bytes) (pos : nat) : bytes :=
  let start := drop (pos + 14) headers in
  match find_first (fun b => bool_decide (b ∈ [x20; x0a; x0d])) start with
  | None => start
  | Some i => if (i =? 0)%nat then start else take (i - 1) start
  end.

Definition ParseHeaders (p : Parser) (headers : bytes) : result Parser :=
  match find (lit "Content-Disposition: form-data;") headers with
  | None => inr NotFormData
  | Some _ =>
      match find (lit "name=" ++ dquote) headers with
      | None => inr NoName
      | Some name_pos =>
          match find dquote (drop (name_pos + 6) headers) with
          | None => inr NoNameQuote
          | Some len =>
              let name := take len (drop (name_pos + 6) headers) in
              match find (lit "filename=" ++ dquote) headers with
              | None => f <- SetType field_new TextType ;; inl (set_field p name f)
              | Some filename_pos =>
                  f <- SetType field_new FileType ;;
                  let f := Field_SetUploadedFilesStorage (SetTempDir f (TempDirForFileUpload p)) (WhereToStoreUploadedFiles p) in
                  match find dquote (drop (filename_pos + 10) headers) with
                  | None => inr NoFileNameQuote
                  | Some flen =>
                      let f := SetFileName f (take flen (drop (filename_pos + 10) headers)) in
                      let ctype :=
                        match find (lit "Content-Type: ") headers with
                        | Some pos => content_type_of headers pos
                        | None => []
                        end in
                      inl (set_field p name (SetFileContentType f ctype))
                  end
              end
          end
      end
  end.

(** The headers end at the first empty line; they are read as a C string. *)
Definition header_end : bytes := [x0d; x0a; x0d; x0a].

Definition WaitForHeadersEndAndParseThem (p : Parser) : result (bool * Parser) :=
  match find header_end (data p) with
  | None => inl (false, p)
  | Some i =>
      p <- ParseHeaders p (cstr (take i (data p))) ;;
      inl (true, TruncateDataCollectorFromTheBeginning p (i + 4))
  end.

(** The field always exists here: the headers have just created it. *)
Definition send_to_field (p : Parser) (n : nat) : result Parser :=
  match Fields p !! ProcessingFieldName p with
  | None => inr NoType
  | Some f =>
      f <- Field_AcceptSomeData f (take n (data p)) ;;
      inl (TruncateDataCollectorFromTheBeginning (set_field p (ProcessingFieldName p) f) n)
  end.

Definition ProcessContentOfTheField (p : Parser) : result (bool * Parser) :=
  let pos := BoundaryPositionInDataCollector p in
  let n :=
    match pos with
    | Some b => Z.of_nat b - 2
    | None => Z.of_nat (length (data p)) - (Z.of_nat (length (Boundary p)) + 2)
    end in
  p <- (if 0 <? n then send_to_field p (Z.to_nat n) else inl p) ;;
  match pos with
  | Some _ => inl (true, set_status p LookingForStartingBoundary)
  | None => inl (false, p)
  end.

(** One turn of the loop: whether it must be repeated. *)
Definition process_turn (p : Parser) : result (bool * Parser) :=
  match CurrentStatus p with
  | LookingForStartingBoundary =>
      let '(b, p) := FindStartingBoundaryAndTruncData p in
      inl (b, if b then set_status p ProcessingHeaders else p)
  | ProcessingHeaders =>
      r <- WaitForHeadersEndAndParseThem p ;;
      let '(b, p) := r in
      inl (b, if (b : bool) then set_status p ProcessingContentOfTheField else p)
  | ProcessingContentOfTheField => ProcessContentOfTheField p
  end.

Fixpoint process_loop (fuel : nat) (p : Parser) : result Parser :=
  match fuel with
  | O => inl p
  | S fuel =>
      r <- process_turn p ;;
      let '(b, p) := r in
      if (b : bool) then process_loop fuel p else inl p
  end.

(** Three turns consume at least the boundary. *)
Definition ProcessData (p : Parser) : result Parser := process_loop (3 * length (data p) + 4) p.

Definition AcceptSomeData (p : Parser) (d : bytes) : result Parser :=
  match Boundary p with
  | [] => inr ContentTypeNotSet
  | _ :: _ =>
      let p := set_data p (data p ++ d) in
      if MaxDataCollectorLength p <? Z.of_nat (length (data p)) then inr CollectorFull
      else ProcessData p
  end.

(** ** Forms, as browsers write them *)

Record part := MkPart { pname : bytes; pfile : option bytes; ptype : option bytes; pcontent : bytes }.

Definition crlf : bytes := [x0d; x0a].

Definition disposition (q : part) : bytes :=
  lit "Content-Disposition: form-data; name=" ++ dquote ++ pname q ++ dquote
  ++ match pfile q with None => [] | Some fn => lit "; filename=" ++ dquote ++ fn ++ dquote end.

Definition type_tag : bytes := lit "Content-Type: ".

Definition type_line (q : part) : bytes :=
  match ptype q with None => [] | Some t => crlf ++ type_tag ++ t end.

Definition part_headers (q : part) : bytes := disposition q ++ type_line q.

Definition enc_part (B : bytes) (q : part) : bytes :=
  B ++ crlf ++ part_headers q ++ header_end ++ pcontent q ++ crlf.

Definition enc_form (B : bytes) (qs : list part) : bytes :=
  concat (enc_part B <$> qs) ++ B ++ lit "--" ++ crlf.

(** Text that may stand in a header: no quote, NUL or line feed. *)
Definition header_text (s : bytes) : Prop := Forall (fun b => b <> x22 /\ b <> x00 /\ b <> x0a) s.

Definition filename_tag : bytes := lit "filename=" ++ dquote.

(** A content type: not empty, without blanks. *)
Definition type_text (t : bytes) : Prop := t <> [] /\ header_text t /\ Forall (fun b => b <> x20 /\ b <> x0d) t.

(** The boundary does not occur in the content, nor across its end; a name does
    not imitate a file name, nor a name or a file name a content type. *)
Definition part_ok (B : bytes) (q : part) : Prop :=
  (header_text (pname q) /\ (forall fn, pfile q = Some fn -> header_text fn) /\
   (forall t, ptype q = Some t -> type_text t) /\
   find type_tag (disposition q ++ crlf ++ type_tag) = Some (length (disposition q) + 2)%nat) /\
  find filename_tag (pname q ++ dquote) = None /\
  find B (pcontent q ++ crlf ++ B) = Some (length (pcontent q) + 2)%nat.

(** ** Searching *)

Lemma is_prefix_app_long p s x : (length p <= length s)%nat -> is_prefix p (s ++ x) = is_prefix p s.
Proof.
  revert s. induction p as [|a p IH]; intros [|b s] Hl; [by destruct x| |cbn in Hl; lia|]; [done|].
  cbn [app is_prefix]. by rewrite IH by (cbn in Hl; lia).
Qed.

Lemma is_prefix_length p s : is_prefix p s = true -> (length p <= length s)%nat.
Proof.
  revert s. induction p as [|a p IH]; intros [|b s]; cbn; [lia|lia|done|].
  intros [_ H%IH]%andb_true_iff. lia.
Qed.

Lemma find_length p s i : find p s = Some i -> (i + length p <= length s)%nat.
Proof.
  revert i. induction s as [|b s IH]; intros i; cbn [find].
  - destruct (is_prefix p []) eqn:E; [|done]. intros [= <-]. apply is_prefix_length in E. done.
  - destruct (is_prefix p (b :: s)) eqn:E; [intros [= <-]; apply is_prefix_length in E; cbn in *; lia|].
    destruct (find p s) as [j|]; [|done]. intros [= <-]. specialize (IH j eq_refl). cbn. lia.
Qed.

Lemma find_app_r p s x i : find p s = Some i -> find p (s ++ x) = Some i.
Proof.
  revert i. induction s as [|b s IH]; intros i Hf.
  - pose proof (find_length _ _ _ Hf) as Hl. cbn in Hl. destruct p; [|cbn in Hl; lia]. cbn in Hf. by destruct x.
  - pose proof (find_length _ _ _ Hf) as Hl. cbn [app find] in *.
    destruct (is_prefix p (b :: s)) eqn:E.
    + rewrite app_comm_cons, is_prefix_app_long, E by (apply is_prefix_length in E; done). done.
    + destruct (find p s) as [j|]; [|done]. injection Hf as <-.
      rewrite app_comm_cons, is_prefix_app_long, E by lia. by rewrite (IH j).
Qed.

Lemma find_drop p a s i : find p (a ++ s) = Some (length a + i)%nat -> find p s = Some i.
Proof.
  induction a as [|b a IH]; [done|]. cbn [app find length Nat.add].
  destruct (is_prefix p (b :: a ++ s)); [done|]. destruct (find p (a ++ s)) as [j|]; [|done].
  intros [= ->]. by apply IH.
Qed.

Lemma find_quote s r : Forall (fun b => b <> x22) s -> find dquote (s ++ dquote ++ r) = Some (length s).
Proof.
  induction 1 as [|b s Hb _ IH]; [by destruct r|]. cbn [app find length]. cbn [is_prefix dquote].
  rewrite bool_decide_false by done. cbn [andb]. change (find [x22]) with (find dquote). by rewrite IH.
Qed.

(** A pattern that ends in the only quote of a text cannot reach beyond it. *)
Lemma is_prefix_quote P n r :
  Forall (fun b => b <> x22) P -> Forall (fun b => b <> x22) n ->
  is_prefix (P ++ dquote) (n ++ x22 :: r) = is_prefix (P ++ dquote) (n ++ dquote).
Proof.
  intros HP. revert n. induction HP as [|a P Ha HP IH]; intros n Hn; destruct Hn as [|b n Hb Hn];
    cbn [app is_prefix dquote].
  - done.
  - by rewrite bool_decide_false by done.
  - by rewrite bool_decide_false by done.
  - change [x22] with dquote. by rewrite IH.
Qed.

Lemma find_past_quote P n r :
  Forall (fun b => b <> x22) P -> Forall (fun b => b <> x22) n -> find (P ++ dquote) (n ++ dquote) = None ->
  find (P ++ dquote) (n ++ x22 :: r) = (fun i => (S (length n) + i)%nat) <$> find (P ++ dquote) r.
Proof.
  intros HP Hn. induction Hn as [|b n Hb Hn IH]; intros Hf; cbn [app find length Nat.add] in *.
  - pose proof (is_prefix_quote P [] r HP (Forall_nil_2 _)) as E. cbn [app] in E. rewrite E.
    destruct (is_prefix (P ++ dquote) dquote) eqn:E1; [unfold dquote in Hf at 2; cbn [find] in Hf; unfold dquote in E1 at 2; by rewrite E1 in Hf|].
    by destruct (find (P ++ dquote) r).
  - assert (Forall (fun b => b <> x22) (b :: n)) as Hbn by by constructor.
    pose proof (is_prefix_quote P (b :: n) r HP Hbn) as E. cbn [app] in E. rewrite E.
    destruct (is_prefix (P ++ dquote) (b :: n ++ dquote)); [done|].
    destruct (find (P ++ dquote) (n ++ dquote)); [done|]. rewrite IH by done.
    by destruct (find (P ++ dquote) r).
Qed.

Lemma find_header_end h r :
  Forall (fun b => b <> x0a) h -> find header_end (h ++ header_end ++ r) = Some (length h).
Proof.
  induction 1 as [|b h Hb Hh IH]; [done|]. cbn [app find length].
  assert (is_prefix header_end (b :: h ++ header_end ++ r) = false) as ->; [|by rewrite IH].
  destruct Hh as [|c h Hc _]; cbn [app is_prefix header_end].
  - by rewrite andb_false_r.
  - rewrite (bool_decide_false (x0a = c)) by done. by rewrite andb_false_r.
Qed.

Lemma find_skip p b s : is_prefix p (b :: s) = false -> find p (b :: s) = S <$> find p s.
Proof. intros H. cbn [find]. by rewrite H. Qed.

(** Two lines. *)
Lemma find_header_end2 h1 h2 r :
  Forall (fun b => b <> x0a) h1 -> Forall (fun b => b <> x0a) h2 -> h2 <> [] -> head h2 <> Some x0d ->
  find header_end (h1 ++ crlf ++ h2 ++ header_end ++ r) = Some (length (h1 ++ crlf ++ h2)).
Proof.
  intros H1 H2 Hne Hd. induction H1 as [|b h1 Hb H1 IH].
  - destruct h2 as [|c h2]; [done|]. assert (c <> x0d) as Hc by (intros ->; done). pose proof (find_header_end (c :: h2) r H2) as Hf.
    change ([] ++ crlf ++ (c :: h2) ++ header_end ++ r) with (x0d :: x0a :: (c :: h2) ++ header_end ++ r).
    rewrite find_skip; [rewrite find_skip by done; by rewrite Hf|].
    cbn [app is_prefix header_end]. by rewrite (bool_decide_false (x0d = c)), !andb_false_r by done.
  - cbn [app find length].
    assert (is_prefix header_end (b :: h1 ++ crlf ++ h2 ++ header_end ++ r) = false) as ->; [|by rewrite IH].
    destruct H1 as [|c h1 Hc _]; cbn [app is_prefix header_end].
    + by rewrite andb_false_r.
    + rewrite (bool_decide_false (x0a = c)) by done. by rewrite andb_false_r.
Qed.

(** A pattern with a quote does not occur in a text without. *)
Lemma find_no_quote P s : Forall (fun b => b <> x22) s -> find (P ++ dquote) s = None.
Proof.
  intros Hs. assert (forall P s, Forall (fun b => b <> x22) s -> is_prefix (P ++ dquote) s = false) as Hp.
  { clear. induction P as [|a P IH]; intros s Hs; destruct Hs as [|b s Hb Hs]; cbn [app is_prefix dquote]; try done.
    - by rewrite bool_decide_false.
    - change [x22] with dquote. by rewrite IH, andb_false_r. }
  induction Hs as [|b s Hb Hs IH].
  - cbn [find]. by rewrite (Hp P []).
  - rewrite find_skip by (apply Hp; by constructor). by rewrite IH.
Qed.

(** ** One part *)

Lemma header_text_lf s : header_text s -> Forall (fun b => b <> x0a) s.
Proof. intros H. eapply Forall_impl; [exact H|]. naive_solver. Qed.
Lemma header_text_quote s : header_text s -> Forall (fun b => b <> x22) s.
Proof. intros H. eapply Forall_impl; [exact H|]. naive_solver. Qed.
Lemma header_text_nul s : header_text s -> Forall (fun b => b <> x00) s.
Proof. intros H. eapply Forall_impl; [exact H|]. naive_solver. Qed.

Lemma not_blank (b : byte) : b <> x20 -> b <> x0d -> b <> x0a -> b ∉ [x20; x0a; x0d].
Proof. intros H1 H2 H3. by rewrite !elem_of_cons, elem_of_nil; intros [->|[->|[->|[]]]]. Qed.

(** The field the headers of a part announce. *)
Definition announces (q : part) (w : storage) (td : bytes) (f : Field) : Prop :=
  FieldContent f = None /\ file f = None /\
  match pfile q with
  | None => ty f = TextType
  | Some fn =>
      ty f = FileType /\ WhereStored f = w /\ TempDir f = td /\ FileName f = fn /\ FileContentType f = default [] (ptype q)
  end.

(** A content type that is not the last thing in the headers loses its last
    character: the end the code remembers is one before the blank. *)
Lemma content_type_cut h t r :
  type_text t -> content_type_of (h ++ type_tag ++ t ++ crlf ++ r) (length h) = take (length t - 1) t.
Proof.
  intros (Hne & Hh & Hb). unfold content_type_of. change 14%nat with (length type_tag). rewrite <- length_app, app_assoc, drop_app_length.
  assert (find_first (fun b => bool_decide (b ∈ [x20; x0a; x0d])) (t ++ crlf ++ r) = Some (length t)) as ->.
  { apply header_text_lf in Hh. clear Hne. induction t as [|b t IH]; [done|]. cbn [app find_first length].
    apply Forall_cons in Hh as [H1 Hh]. apply Forall_cons in Hb as [[H2 H3] Hb].
    rewrite bool_decide_false by by apply not_blank. by rewrite IH. }
  destruct t as [|b t]; [done|]. cbn [length Nat.eqb]. rewrite take_app_le by (cbn [length]; lia). done.
Qed.

(** The content type is found where it is, and whole, as the last thing in the
    headers. *)
Lemma type_of_headers B q :
  part_ok B q ->
  match find type_tag (crlf ++ part_headers q) with
  | Some pos => content_type_of (crlf ++ part_headers q) pos
  | None => []
  end = default [] (ptype q).
Proof.
  intros ((_ & _ & Ht & Hf) & _). unfold part_headers, type_line. destruct (ptype q) as [t|].
  - destruct (Ht t eq_refl) as (Hne & _ & Hb).
    assert (find type_tag (crlf ++ disposition q ++ crlf ++ type_tag ++ t) = Some (length (crlf ++ disposition q ++ crlf))) as ->.
    { change (find type_tag (crlf ++ ?x)) with (S <$> (S <$> find type_tag x)).
      assert (disposition q ++ crlf ++ type_tag ++ t = (disposition q ++ crlf ++ type_tag) ++ t) as -> by by rewrite <- !app_assoc.
      rewrite (find_app_r _ _ _ _ Hf). cbn [fmap option_fmap option_map]. rewrite !length_app. cbn. f_equal; lia. }
    unfold content_type_of. change 14%nat with (length type_tag). rewrite <- length_app.
    assert (crlf ++ disposition q ++ crlf ++ type_tag ++ t = ((crlf ++ disposition q ++ crlf) ++ type_tag) ++ t) as -> by by rewrite <- !app_assoc.
    rewrite drop_app_length.
    assert (find_first (fun b => bool_decide (b ∈ [x20; x0a; x0d])) t = None) as ->; [|done].
    apply find_first_None. eapply Forall_impl; [apply Forall_and; split; [exact Hb|apply (header_text_lf t), (Ht t eq_refl)]|].
    intros b [[H1 H2] H3]. by apply bool_decide_eq_false_2, not_blank.
  - rewrite app_nil_r. destruct (find type_tag (crlf ++ disposition q)) as [i|] eqn:E; [|done]. exfalso.
    pose proof (find_length _ _ _ E) as Hl. apply (find_app_r _ _ (crlf ++ type_tag)) in E. rewrite <- app_assoc in E.
    change (find type_tag (crlf ++ ?x)) with (S <$> (S <$> find type_tag x)) in E. rewrite Hf in E.
    rewrite length_app in Hl. change (length crlf) with 2%nat in Hl. change (length type_tag) with 14%nat in Hl.
    revert Hl E. generalize (length (disposition q)). cbn [fmap option_fmap option_map]. intros n Hl [= <-]. lia.
Qed.

Lemma ParseHeaders_part p q B :
  part_ok B q ->
  exists f, ParseHeaders p (crlf ++ part_headers q) = inl (set_field p (pname q) f) /\
    announces q (WhereToStoreUploadedFiles p) (TempDirForFileUpload p) f.
Proof.
  intros Hok. pose proof (type_of_headers B q Hok) as Hct. destruct Hok as ((Hn & Hfn & Hty & _) & Htag & _). unfold ParseHeaders.
  set (tl := match pfile q with None => type_line q | Some fn => lit "; filename=" ++ dquote ++ fn ++ dquote ++ type_line q end).
  set (hd := crlf ++ lit "Content-Disposition: form-data; name=" ++ dquote).
  assert (crlf ++ part_headers q = hd ++ pname q ++ dquote ++ tl) as Eh.
  { subst hd tl. unfold part_headers, disposition. destruct (pfile q); by rewrite <- !app_assoc. }
  change (lit "Content-Type: ") with type_tag. rewrite Hct, Eh.
  change (find (lit "Content-Disposition: form-data;") (hd ++ ?x)) with (Some 2%nat).
  change (find (lit "name=" ++ dquote) (hd ++ ?x)) with (Some 34%nat). cbn iota.
  change (drop (34 + 6) (hd ++ ?x)) with x.
  rewrite find_quote by by apply header_text_quote. rewrite take_app_length.
  change (lit "filename=" ++ dquote) with filename_tag.
  assert (forall x, find filename_tag (hd ++ x) = Nat.iter 40 (fmap S) (find filename_tag x)) as Hpeel by done.
  assert (forall r, find filename_tag (pname q ++ dquote ++ r)
    = (fun i => (S (length (pname q)) + i)%nat) <$> find filename_tag r) as Hpast.
  { intros r. apply find_past_quote; [|by apply header_text_quote|done]. repeat constructor; done. }
  rewrite Hpeel, Hpast. subst tl. unfold announces. destruct (pfile q) as [fn|].
  - specialize (Hfn fn eq_refl). change (find filename_tag (lit "; filename=" ++ ?x)) with (Some 2%nat).
    cbn [fmap option_fmap option_map Nat.iter nat_rect].
    assert (forall n x, drop (40 + (S (length (pname q)) + 2) + 10) (hd ++ pname q ++ dquote ++ lit "; filename=" ++ dquote ++ x) = x
      -> n = 40 + (S (length (pname q)) + 2) -> drop (n + 10) (hd ++ pname q ++ dquote ++ lit "; filename=" ++ dquote ++ x) = x)%nat as Hd
      by (intros n x E ->; exact E).
    set (n := S _). rewrite (Hd n (fn ++ dquote ++ type_line q)); [|..|subst n; cbn; lia].
    + rewrite (find_quote fn (type_line q) (header_text_quote _ Hfn)). rewrite take_app_length. eexists. split; [done|]. done.
    + rewrite app_assoc. rewrite <- (drop_app_length (hd ++ pname q ++ dquote ++ lit "; filename=" ++ dquote) (fn ++ dquote ++ type_line q)) at 2.
      rewrite <- !app_assoc. f_equal. rewrite !length_app. cbn. lia.
  - assert (find filename_tag (type_line q) = None) as ->.
    { apply (find_no_quote (lit "filename=")). unfold type_line. destruct (ptype q) as [t|]; [|constructor].
      destruct (Hty t eq_refl) as (_ & Ht & _). repeat (apply Forall_app; split); [by repeat constructor..|by apply header_text_quote]. }
    cbn [fmap option_fmap option_map Nat.iter nat_rect]. eexists. split; [done|]. done.
Qed.

(** Whether the content of a part goes to a file on disk. *)
Definition on_disk (q : part) (w : storage) : bool :=
  match pfile q, w with Some _, InFilesystem => true | _, _ => false end.

(** What was stored of a part: an empty content sends nothing to its field. *)
Definition sent (q : part) : option bytes := match pcontent q with [] => None | _ :: _ => Some (pcontent q) end.

(** The field after its content. *)
Definition holds_part (q : part) (w : storage) (td : bytes) (f : Field) : Prop :=
  FieldContent f = (if on_disk q w then None else sent q) /\ file f = (if on_disk q w then sent q else None) /\
  match pfile q with
  | None => ty f = TextType
  | Some fn =>
      ty f = FileType /\ FileName f = fn /\ WhereStored f = w /\ TempDir f = td /\ FileContentType f = default [] (ptype q)
  end.

(** A parser with boundary [B], storing in memory or in files of the directory
    [td]. *)
Definition storing_parser (w : storage) (td B : bytes) (p : Parser) : Prop :=
  WhereToStoreUploadedFiles p = w /\ TempDirForFileUpload p = td /\ Boundary p = B /\ (w = InFilesystem -> td <> []).

Lemma turn_boundary B p pre rest :
  Boundary p = B -> CurrentStatus p = LookingForStartingBoundary -> data p = pre ++ B ++ rest ->
  find B (data p) = Some (length pre) ->
  process_turn p = inl (true, set_status (set_data p rest) ProcessingHeaders).
Proof.
  intros HB Hs Hd Hf. unfold process_turn. rewrite Hs. unfold FindStartingBoundaryAndTruncData,
    BoundaryPositionInDataCollector, TruncateDataCollectorFromTheBeginning. rewrite HB, Hf.
  rewrite Hd, <- length_app, app_assoc, drop_app_length. done.
Qed.

Lemma turn_headers B p q rest :
  part_ok B q -> CurrentStatus p = ProcessingHeaders ->
  data p = crlf ++ part_headers q ++ header_end ++ rest ->
  exists f, process_turn p = inl (true, set_status (set_data (set_field p (pname q) f) rest) ProcessingContentOfTheField) /\
    announces q (WhereToStoreUploadedFiles p) (TempDirForFileUpload p) f.
Proof.
  intros Hq Hs Hd. pose proof Hq as ((Hn & Hfn & Hty & _) & _ & _).
  destruct (ParseHeaders_part p q B Hq) as (f & Ep & Ha). exists f. split; [|done].
  assert (header_text (lit "; filename=") /\ header_text (lit "Content-Disposition: form-data; name=")) as [Hc1 Hc2]
    by (split; repeat constructor; done).
  assert (forall P : byte -> Prop, P x22 -> (forall s, header_text s -> Forall P s) -> Forall P (disposition q)) as Hall.
  { intros P Hp Hall. assert (Forall P dquote) by by repeat constructor. unfold disposition.
    repeat (apply Forall_app; split); auto. destruct (pfile q) as [fn|]; [|constructor].
    repeat (apply Forall_app; split); auto. }
  unfold process_turn. rewrite Hs. unfold WaitForHeadersEndAndParseThem.
  assert (find header_end (data p) = Some (length (crlf ++ part_headers q))) as ->.
  { rewrite Hd. unfold part_headers, type_line.
    assert (forall x, find header_end (crlf ++ lit "Content-Disposition" ++ x) = S <$> (S <$> find header_end (lit "Content-Disposition" ++ x))) as Hskip by done.
    assert (forall x, crlf ++ disposition q ++ x = crlf ++ lit "Content-Disposition" ++ drop 19 (disposition q) ++ x) as Hsplit by done.
    assert (Forall (fun b => b <> x0a) (disposition q)) as Hlf by (apply Hall; [done|apply header_text_lf]).
    destruct (ptype q) as [t|].
    - destruct (Hty t eq_refl) as (Hne & Ht & _). rewrite <- !app_assoc, Hsplit, Hskip.
      change (lit "Content-Disposition" ++ drop 19 (disposition q) ++ ?x) with (disposition q ++ x).
      rewrite (app_assoc type_tag), (find_header_end2 (disposition q) (type_tag ++ t)); [|done| |done|done].
      + cbn [fmap option_fmap option_map]. done.
      + apply Forall_app. split; [by repeat constructor|by apply header_text_lf].
    - rewrite app_nil_r, Hsplit, Hskip. change (lit "Content-Disposition" ++ drop 19 (disposition q) ++ ?x) with (disposition q ++ x).
      by rewrite find_header_end. }
  assert (take (length (crlf ++ part_headers q)) (data p) = crlf ++ part_headers q) as ->.
  { rewrite Hd, app_assoc. apply take_app_length. }
  rewrite cstr_id.
  2:{ apply Forall_app. split; [by repeat constructor|]. apply Forall_app. split; [apply Hall; [done|apply header_text_nul]|].
    unfold type_line. destruct (ptype q) as [t|]; [|constructor]. destruct (Hty t eq_refl) as (_ & Ht & _).
    repeat (apply Forall_app; split); [by repeat constructor..|by apply header_text_nul]. }
  rewrite Ep. cbn [rbind]. unfold TruncateDataCollectorFromTheBeginning.
  change (data (set_field p (pname q) f)) with (data p). rewrite Hd.
  change 4%nat with (length header_end). rewrite <- length_app, !app_assoc, drop_app_length. done.
Qed.

(** A piece of content reaches the field. *)
Lemma field_accepts q w td f :
  announces q w td f -> (w = InFilesystem -> td <> []) -> pcontent q <> [] ->
  exists f', Field_AcceptSomeData f (pcontent q) = inl f' /\ holds_part q w td f'.
Proof.
  intros (Hc & Hfile & Hty) Htd Hne. unfold Field_AcceptSomeData, holds_part, on_disk, sent. rewrite Hc, Hfile. cbn [default from_option].
  destruct (pfile q) as [fn|].
  - destruct Hty as (-> & -> & -> & Hfn & Hct). destruct w.
    + destruct td as [|b td]; [by destruct Htd|]. eexists. split; [done|]. cbn. by destruct (pcontent q).
    + eexists. split; [done|]. cbn. by destruct (pcontent q).
  - rewrite Hty. eexists. split; [done|]. cbn. by destruct (pcontent q).
Qed.

Lemma turn_content w td B p q f rest :
  part_ok B q -> storing_parser w td B p -> CurrentStatus p = ProcessingContentOfTheField ->
  ProcessingFieldName p = pname q -> Fields p !! pname q = Some f ->
  announces q w td f -> data p = pcontent q ++ crlf ++ B ++ rest ->
  exists f' p', process_turn p = inl (true, p') /\ holds_part q w td f' /\
    Fields p' = <[pname q := f']> (Fields p) /\ storing_parser w td B p' /\
    CurrentStatus p' = LookingForStartingBoundary /\ data p' = crlf ++ B ++ rest /\
    find B (data p') = Some 2%nat.
Proof.
  intros (_ & _ & Hfree) (Hm & Htd & HB & Hdir) Hs Hname Hf Ha Hd.
  assert (find B (crlf ++ B ++ rest) = Some 2%nat) as Hnext.
  { apply find_drop in Hfree. change (crlf ++ B ++ rest) with ((crlf ++ B) ++ rest). by apply find_app_r. }
  assert (find B (data p) = Some (length (pcontent q) + 2)%nat) as Hpos.
  { rewrite Hd, app_assoc, app_assoc. rewrite <- (app_assoc (pcontent q)). by apply find_app_r. }
  unfold process_turn. rewrite Hs. unfold ProcessContentOfTheField, BoundaryPositionInDataCollector. rewrite HB, Hpos.
  replace (Z.of_nat (length (pcontent q) + 2) - 2) with (Z.of_nat (length (pcontent q))) by lia.
  destruct (decide (pcontent q = [])) as [Ec|Hne].
  - rewrite Ec in *. cbn [length Z.of_nat Z.ltb Z.compare rbind]. exists f, (set_status p LookingForStartingBoundary).
    split; [done|]. split.
    { destruct Ha as (Hc & Hfile & Hty). unfold holds_part, sent. rewrite Ec, Hc, Hfile. split; [by destruct (on_disk q w)|].
      split; [by destruct (on_disk q w)|]. destruct (pfile q); naive_solver. }
    split; [by rewrite insert_id|]. split; [done|]. split; [done|]. split; [done|].
    change (data (set_status p _)) with (data p). rewrite Hd. done.
  - destruct (Z.ltb_spec 0 (Z.of_nat (length (pcontent q)))) as [_|Hlt]; [|destruct Hne; apply nil_length_inv; lia].
    rewrite Nat2Z.id. unfold send_to_field. rewrite Hname, Hf, Hd, take_app_length.
    destruct (field_accepts q w td f Ha Hdir Hne) as (f' & -> & Hh).
    cbn [rbind]. eexists f', _. split; [done|]. split; [done|]. split; [done|]. split; [exact (conj Hm (conj Htd (conj HB Hdir)))|]. split; [done|].
    assert (drop (length (pcontent q)) (data p) = crlf ++ B ++ rest) as Hdrop by by rewrite Hd, drop_app_length.
    change (data (set_status ?x _)) with (data x). unfold TruncateDataCollectorFromTheBeginning.
    change (data (set_data _ ?x)) with x. change (data (set_field p _ _)) with (data p).
    by rewrite Hdrop.
Qed.

(** ** Whole forms *)

Lemma enc_form_starts B qs : exists r, enc_form B qs = B ++ r.
Proof.
  unfold enc_form. destruct qs as [|q qs]; [by eexists|]. cbn [fmap list_fmap concat]. unfold enc_part.
  rewrite <- !app_assoc. by eexists.
Qed.

Lemma enc_form_cons B q qs :
  enc_form B (q :: qs) = B ++ crlf ++ part_headers q ++ header_end ++ pcontent q ++ crlf ++ enc_form B qs /\
  exists r, enc_form B qs = B ++ r.
Proof.
  split; [|apply enc_form_starts]. unfold enc_form. cbn [fmap list_fmap concat]. unfold enc_part. by rewrite <- !app_assoc.
Qed.

Lemma process_form w td qs : forall B fuel p pre,
  Forall (part_ok B) qs -> NoDup (pname <$> qs) -> storing_parser w td B p ->
  CurrentStatus p = LookingForStartingBoundary -> data p = pre ++ enc_form B qs ->
  find B (data p) = Some (length pre) -> (3 * length qs + 2 <= fuel)%nat ->
  exists p', process_loop fuel p = inl p' /\
    (forall q, q ∈ qs -> exists f, Fields p' !! pname q = Some f /\ holds_part q w td f) /\
    (forall n, n ∉ pname <$> qs -> Fields p' !! n = Fields p !! n).
Proof.
  induction qs as [|q qs IH]; intros B fuel p pre Hok Hnd Hm Hs Hd Hf Hfuel.
  - destruct fuel as [|[|fuel]]; [cbn in Hfuel; lia..|]. cbn [process_loop].
    rewrite (turn_boundary B p pre (lit "--" ++ crlf)) by (done || apply Hm). cbn [rbind process_loop].
    assert (process_turn (set_status (set_data p (lit "--" ++ crlf)) ProcessingHeaders)
      = inl (false, set_status (set_data p (lit "--" ++ crlf)) ProcessingHeaders)) as -> by done.
    cbn [rbind]. eexists. split; [done|]. split; [set_solver|done].
  - inversion Hok as [|? ? Hq Hok']; subst. cbn [fmap list_fmap] in Hnd. inversion Hnd as [|? ? Hnin Hnd']; subst.
    do 3 (destruct fuel as [|fuel]; [cbn in Hfuel; lia|]). cbn [process_loop].
    destruct (enc_form_cons B q qs) as [Eform [r Er]].
    rewrite (turn_boundary B p pre (crlf ++ part_headers q ++ header_end ++ pcontent q ++ crlf ++ enc_form B qs) (proj1 (proj2 (proj2 Hm))) Hs);
      [|by rewrite Hd, Eform|done]. cbn [rbind].
    match goal with |- context [process_turn (set_status (set_data p ?x) _)] => set (p1 := set_status (set_data p x) _) end.
    destruct (turn_headers B p1 q (pcontent q ++ crlf ++ enc_form B qs) Hq) as (f & -> & Ha); [done|done|].
    cbn [rbind]. set (p2 := set_status (set_data (set_field p1 _ _) _) _).
    destruct (turn_content w td B p2 q f r Hq) as (f' & p3 & -> & Hh & Hfs & Hm3 & Hs3 & Hd3 & Hf3);
      [done|done|done|cbn; by rewrite lookup_insert_eq|by destruct Hm as (<- & <- & _)|cbn; by rewrite Er|].
    cbn [rbind]. rewrite <- Er in Hd3.
    destruct (IH B fuel p3 crlf) as (p' & -> & H1 & H2); [done..|cbn [length] in Hfuel; lia|].
    exists p'. split; [done|]. split.
    + intros q0 [->|Hin]%elem_of_cons; [|by apply H1]. exists f'. split; [|done].
      rewrite H2 by done. rewrite Hfs. apply lookup_insert_eq.
    + intros n Hn. cbn [fmap list_fmap] in Hn. rewrite H2 by set_solver. rewrite Hfs.
      rewrite lookup_insert_ne by set_solver. cbn. rewrite lookup_insert_ne by set_solver. done.
Qed.

Lemma form_start_boundary b qs : let B := lit "--" ++ b in find B (enc_form B qs) = Some 0%nat.
Proof.
  intros B. destruct (enc_form_starts B qs) as [r Er].
  rewrite Er. apply find_app_r. unfold B. cbn. rewrite !bool_decide_true by done. cbn.
  assert (forall s, is_prefix s s = true) as Hpr; [|by rewrite Hpr].
  induction s as [|x s IHs]; [done|]. cbn. by rewrite bool_decide_true, IHs.
Qed.

Lemma form_fuel B qs : (3 * length qs + 2 <= 3 * length (enc_form B qs) + 4)%nat.
Proof.
  unfold enc_form. rewrite length_app. assert (length qs <= length (concat (enc_part B <$> qs)))%nat; [|lia].
  induction qs as [|q qs IH]; [done|]. cbn [fmap list_fmap concat length]. rewrite length_app.
  assert (1 <= length (enc_part B q))%nat by (unfold enc_part; rewrite !length_app; cbn [length crlf]; lia). lia.
Qed.

(** A parser ready for a form. *)
Definition form_parser (w : storage) (td : bytes) (max : Z) : Parser :=
  SetMaxCollectedDataLength (SetTempDirForFileUpload (SetUploadedFilesStorage parser_new w) td) max.

Lemma form_parses (w : storage) (td : bytes) (b : bytes) (qs : list part) (max : Z) :
  let B := lit "--" ++ b in
  (w = InFilesystem -> td <> []) ->
  Forall (part_ok B) qs -> NoDup (pname <$> qs) -> Z.of_nat (length (enc_form B qs)) <= max ->
  exists p1 p2,
    SetContentType (form_parser w td max) (lit "multipart/form-data; boundary=" ++ b) = inl p1 /\
    AcceptSomeData p1 (enc_form B qs) = inl p2 /\
    (forall q, q ∈ qs -> exists f, GetField p2 (pname q) = Some f /\ holds_part q w td f) /\
    (forall n, n ∉ pname <$> qs -> GetField p2 n = None).
Proof.
  intros B Htd Hok Hnd Hmax. eexists.
  set (p0 := form_parser w td max).
  assert (SetContentType p0 (lit "multipart/form-data; boundary=" ++ b) = inl (set_boundary p0 B)) as -> by done.
  set (p := set_data (set_boundary p0 B) (enc_form B qs)).
  destruct (process_form w td qs B (3 * length (data p) + 4) p []) as (p2 & E & H1 & H2); try done.
  { apply form_start_boundary. }
  { apply form_fuel. }
  exists p2. split; [done|]. split; [|split; [done|]].
  - unfold AcceptSomeData. cbn [set_boundary Boundary]. unfold B at 1. cbn [lit app]. fold B.
    change (set_data _ _) with p.
    destruct (Z.ltb_spec (MaxDataCollectorLength p) (Z.of_nat (length (data p)))) as [Hlt|_]; [|exact E].
    change (MaxDataCollectorLength p) with max in Hlt. change (data p) with (enc_form B qs) in Hlt. lia.
  - intros n Hn. unfold GetField. rewrite H2 by done. done.
Qed.

(** What the accessors of a field return for a part. *)
Definition reads_back (q : part) (f : Field) : Prop :=
  match pfile q with
  | None => GetType f = inl TextType /\ GetTextTypeContent f = inl (cstr (pcontent q))
  | Some fn =>
      GetType f = inl FileType /\ GetFileName f = inl fn /\ GetFileMimeType f = inl (default [] (ptype q)) /\
      GetFileContentSize f = inl (Z.of_nat (length (pcontent q))) /\
      exists c, GetFileContent f = inl c /\ default [] c = pcontent q
  end.

Lemma holds_reads_back q w td f : on_disk q w = false -> holds_part q w td f -> reads_back q f.
Proof.
  unfold holds_part, reads_back, GetType, GetTextTypeContent, GetFileName, GetFileContentSize, GetFileContent, GetFileMimeType.
  unfold on_disk, sent. destruct (pfile q) as [fn|].
  - destruct w; [done|]. intros _ (-> & _ & -> & <- & -> & _ & <-). split_and!; [done..|by destruct (pcontent q)|].
    eexists. split; [done|]. by destruct (pcontent q).
  - intros _ (-> & _ & ->). split; [done|]. by destruct (pcontent q).
Qed.

Lemma in_memory_reads_back q td f : holds_part q InMemory td f -> reads_back q f.
Proof. apply holds_reads_back. unfold on_disk. by destruct (pfile q). Qed.

Definition demo_form : list part :=
  [MkPart (lit "title") None None (lit "hi"); MkPart (lit "f") (Some (lit "a.txt")) (Some (lit "text/plain")) (lit "data")].

(** ** Any body *)

Definition rank (p : Parser) : nat :=
  (3 * length (data p) +
   match CurrentStatus p with
   | ProcessingHeaders => 0
   | LookingForStartingBoundary => 1
   | ProcessingContentOfTheField => 2
   end)%nat.

Lemma ParseHeaders_frame p h p' :
  ParseHeaders p h = inl p' -> DataCollector p' = DataCollector p /\ Boundary p' = Boundary p.
Proof.
  unfold ParseHeaders. repeat case_match; try done; cbn [SetType rbind]; intros [= <-]; done.
Qed.

(** A turn that asks to be repeated has made progress. *)
Lemma turn_progress p p' :
  Boundary p <> [] -> process_turn p = inl (true, p') -> (rank p' < rank p)%nat /\ Boundary p' = Boundary p.
Proof.
  intros HB. unfold process_turn, rank. destruct (CurrentStatus p) eqn:Es.
  - unfold FindStartingBoundaryAndTruncData, BoundaryPositionInDataCollector.
    destruct (find (Boundary p) (data p)) as [n|] eqn:Ef; [|done]. intros [= <-]. split; [|done].
    unfold TruncateDataCollectorFromTheBeginning. cbn [set_status set_data CurrentStatus].
    change (data (set_status ?x _)) with (data x). change (data (set_data _ ?x)) with x.
    apply find_length in Ef. rewrite length_drop. destruct (Boundary p); [done|]. cbn [length] in *. lia.
  - unfold WaitForHeadersEndAndParseThem. destruct (find header_end (data p)) as [i|] eqn:Ef; [|done].
    destruct (ParseHeaders p _) as [q|] eqn:Ep; cbn [rbind]; [|done]. intros [= <-].
    apply ParseHeaders_frame in Ep as [Ed Eb]. split; [|done].
    unfold TruncateDataCollectorFromTheBeginning. cbn [set_status set_data CurrentStatus].
    change (data (set_status ?x _)) with (data x). change (data (set_data _ ?x)) with x.
    apply find_length in Ef. cbn [length header_end] in Ef. rewrite length_drop.
    assert (data q = data p) as -> by (unfold data; by rewrite Ed). lia.
  - unfold ProcessContentOfTheField. destruct (BoundaryPositionInDataCollector p) as [b|].
    2:{ by destruct (if 0 <? Z.of_nat (length (data p)) - _ then _ else _). }
    destruct (if 0 <? Z.of_nat b - 2 then _ else _) as [q|] eqn:Eq; cbn [rbind]; [|done]. intros [= <-].
    cbn [set_status CurrentStatus]. change (data (set_status ?x _)) with (data x).
    destruct (0 <? Z.of_nat b - 2); [|injection Eq as <-; by split; [lia|]].
    unfold send_to_field in Eq. destruct (Fields p !! ProcessingFieldName p); [|done].
    destruct (Field_AcceptSomeData f _) as [f'|]; cbn [rbind] in Eq; [|done]. injection Eq as <-.
    unfold TruncateDataCollectorFromTheBeginning. change (data (set_data _ ?x)) with x.
    change (data (set_field p _ _)) with (data p). rewrite length_drop. by split; [lia|].
Qed.

(** The loop of [_ProcessData] ends on any body: the number of turns given to it
    is enough, and giving it more changes nothing. *)
Lemma process_loop_enough (p : Parser) (n : nat) :
  Boundary p <> [] -> process_loop (3 * length (data p) + 4 + n) p = ProcessData p.
Proof.
  intros HB. unfold ProcessData.
  assert (forall fuel m q, Boundary q <> [] -> (rank q < fuel)%nat ->
    process_loop (fuel + m) q = process_loop fuel q) as Hgen.
  { induction fuel as [|fuel IH]; intros m q Hq Hr; [lia|]. cbn [Nat.add process_loop].
    destruct (process_turn q) as [[[] q']|] eqn:Et; cbn [rbind]; [|done..].
    apply turn_progress in Et as [Hlt Hb]; [|done]. apply IH; [by rewrite Hb|lia]. }
  apply Hgen; [done|]. unfold rank. destruct (CurrentStatus p); lia.
Qed.

(** No field holds more than the body had. *)
Definition within (n : nat) (p : Parser) : Prop :=
  (length (data p) <= n)%nat /\
  forall name f, Fields p !! name = Some f -> (length (default [] (FieldContent f)) + length (data p) <= n)%nat.

Lemma within_truncate n p k : within n p -> within n (TruncateDataCollectorFromTheBeginning p k).
Proof.
  intros [Hd Hf]. unfold within, TruncateDataCollectorFromTheBeginning. change (data (set_data _ ?x)) with x.
  change (Fields (set_data p ?x)) with (Fields p). rewrite length_drop. split; [lia|]. intros name f E. specialize (Hf _ _ E). lia.
Qed.

Lemma within_headers n p h p' : within n p -> ParseHeaders p h = inl p' -> within n p'.
Proof.
  intros [Hd Hf].
  assert (forall name f, FieldContent f = None -> within n (set_field p name f)) as Hset.
  { intros name f Hc. split; [exact Hd|]. cbn [set_field Fields]. intros name' f' [[<- <-]|[_ E]]%lookup_insert_Some.
    - rewrite Hc. exact Hd.
    - exact (Hf _ _ E). }
  unfold ParseHeaders. repeat case_match; try done; cbn [SetType rbind]; intros [= <-]; by apply Hset.
Qed.

Lemma within_accepts f d f' : Field_AcceptSomeData f d = inl f' ->
  (length (default [] (FieldContent f')) <= length (default [] (FieldContent f)) + length d)%nat.
Proof.
  unfold Field_AcceptSomeData. repeat case_match; try done; intros [= <-]; cbn [FieldContent];
    destruct (FieldContent f); cbn; rewrite ?length_app; lia.
Qed.

Lemma within_send n p k p' : within n p -> send_to_field p k = inl p' -> within n p'.
Proof.
  intros [Hd Hf]. unfold send_to_field. destruct (Fields p !! ProcessingFieldName p) as [f|] eqn:E; [|done].
  destruct (Field_AcceptSomeData f (take k (data p))) as [f'|] eqn:Ef; cbn [rbind]; [|done]. intros [= <-].
  apply within_accepts in Ef. specialize (Hf _ _ E) as Hlen. unfold within, TruncateDataCollectorFromTheBeginning.
  change (data (set_data _ ?x)) with x. change (data (set_field p _ _)) with (data p).
  change (Fields (set_data ?q _)) with (Fields q). cbn [set_field Fields]. rewrite length_take in Ef. rewrite length_drop. split; [lia|].
  intros name g [[<- <-]|[_ Eg]]%lookup_insert_Some; [lia|]. specialize (Hf _ _ Eg). lia.
Qed.

Lemma within_turn n p b p' : within n p -> process_turn p = inl (b, p') -> within n p'.
Proof.
  intros Hw. unfold process_turn. destruct (CurrentStatus p).
  - unfold FindStartingBoundaryAndTruncData. destruct (BoundaryPositionInDataCollector p); intros [= <- <-]; [|done].
    by apply (within_truncate _ p).
  - unfold WaitForHeadersEndAndParseThem. destruct (find header_end (data p)) as [i|]; [|by intros [= <- <-]].
    destruct (ParseHeaders p _) as [q|] eqn:E; cbn [rbind]; [|done]. intros [= <- <-].
    apply (within_truncate _ q). by eapply within_headers.
  - unfold ProcessContentOfTheField. set (k := match _ with Some _ => _ | None => _ end).
    destruct (if 0 <? k then _ else _) as [q|] eqn:E; cbn [rbind]; [|done].
    assert (within n q) as Hq by (destruct (0 <? k); [by eapply within_send|by injection E as <-]).
    by destruct (BoundaryPositionInDataCollector p); intros [= <- <-].
Qed.

Lemma within_loop n fuel : forall p p', within n p -> process_loop fuel p = inl p' -> within n p'.
Proof.
  induction fuel as [|fuel IH]; intros p p' Hw; cbn [process_loop]; [by intros [= <-]|].
  destruct (process_turn p) as [[b q]|] eqn:E; cbn [rbind]; [|done]. eapply within_turn in E; [|done].
  destruct b; [by apply IH|by intros [= <-]].
Qed.

Lemma accepted_within p d p' : Fields p = ∅ -> DataCollector p = None -> AcceptSomeData p d = inl p' -> within (length d) p'.
Proof.
  intros Hf Hd. unfold AcceptSomeData. destruct (Boundary p); [done|]. destruct (_ <? _); [done|].
  intros E. eapply within_loop; [|exact E]. unfold within. change (data (set_data _ ?x)) with x. change (Fields (set_data p ?x)) with (Fields p).
  unfold data. rewrite Hd, Hf. split; [done|]. intros name f. by rewrite lookup_empty.
Qed.
