(* ===== verification/MpfdDisk.v ===== *)
(** [common/Parser.cpp] and [common/Field.cpp] with uploads stored on disk: the
    parser of [Mpfd] together with the file system it writes to.  The part of a
    field that lives outside memory, the temporary file of its output stream, is
    kept here, by the field's name; a field replaced by another of its name
    leaves its stream behind.  Nobody else writes to the file system
    meanwhile, and a write to an open file succeeds; whether a file can be created
    is a parameter. *)

From S2P Require Import Prelude Cstd Mpfd.

(** ** The file system and the streams *)

(** [files] are the files that can be opened for reading, [streams] the open
    temporary files of the fields, [lost] those of fields the parser has lost. *)
Record Disk := MkDisk {
  files : gmap bytes bytes;
  streams : gmap bytes bytes;
  lost : list bytes
}.

Definition temp_path (td : bytes) (i : nat) : bytes := td ++ lit "/MPFD_Temp_" ++ udec (Z.of_nat i).

(** The loop that looks for a name that is not taken. *)
Fixpoint search_temp (fuel i : nat) (fs : gmap bytes bytes) (td : bytes) : bytes :=
  match fuel with
  | O => temp_path td i
  | S fuel =>
      match fs !! temp_path td i with
      | Some _ => search_temp fuel (S i) fs td
      | None => temp_path td i
      end
  end.

(** Enough turns: every one but the last finds another file. *)
Definition free_temp (fs : gmap bytes bytes) (td : bytes) : bytes := search_temp (S (size fs)) 1 fs td.

(** [Fields[name] = new Field()]: the old field is not deleted. *)
Definition new_field (D : Disk) (name : bytes) : Disk :=
  match streams D !! name with
  | Some path => MkDisk (files D) (delete name (streams D)) (path :: lost D)
  | None => D
  end.

(** ~Field of a field whose stream is open: it is closed and its file removed. *)
Definition destroy_field (path : bytes) (fs : gmap bytes bytes) : gmap bytes bytes := delete path fs.

(** ~Parser destroys the fields it has. *)
Definition destroy (D : Disk) : Disk :=
  MkDisk (foldr destroy_field (files D) (map_to_list (streams D)).*2) ∅ (lost D).

(** Before any data [TempFile] is empty. *)
Definition GetTempFileName (D : Disk) (name : bytes) (f : Field) : result bytes :=
  match ty f with
  | NoFType => inr NoType
  | FileType =>
      match WhereStored f with
      | InFilesystem => inl (default (TempDir f ++ lit "/") (streams D !! name))
      | InMemory => inr NotInFilesystem
      end
  | TextType => inr NotFile
  end.

(** The name under which the headers create a field, even when they are refused
    after that. *)
Definition new_name (headers : bytes) : option bytes :=
  match find (lit "Content-Disposition: form-data;") headers with
  | None => None
  | Some _ =>
      match find (lit "name=" ++ dquote) headers with
      | None => None
      | Some name_pos =>
          match find dquote (drop (name_pos + 6) headers) with
          | None => None
          | Some len => Some (take len (drop (name_pos + 6) headers))
          end
      end
  end.

Section disk.
  Context (can_create : bytes -> bool).

(** ** The operations *)

Definition disk_field_accepts (D : Disk) (name : bytes) (f : Field) (d : bytes) : Disk * result Field :=
  match ty f, WhereStored f with
  | FileType, InFilesystem =>
      match TempDir f with
      | [] => (D, inr NoTempDir)
      | (_ :: _) as td =>
          match streams D !! name with
          | Some path => (MkDisk (<[path := default [] (files D !! path) ++ d]> (files D)) (streams D) (lost D), inl f)
          | None =>
              let path := free_temp (files D) td in
              if can_create path
              then (MkDisk (<[path := d]> (files D)) (<[name := path]> (streams D)) (lost D), inl f)
              else (D, inr (CannotWrite path))
          end
      end
  | _, _ => (D, Field_AcceptSomeData f d)
  end.

Definition disk_send (D : Disk) (p : Parser) (n : nat) : Disk * result Parser :=
  match Fields p !! ProcessingFieldName p with
  | None => (D, inr NoType)
  | Some f =>
      let '(D, r) := disk_field_accepts D (ProcessingFieldName p) f (take n (data p)) in
      (D, f <- r ;; inl (TruncateDataCollectorFromTheBeginning (set_field p (ProcessingFieldName p) f) n))
  end.

Definition disk_content (D : Disk) (p : Parser) : Disk * result (bool * Parser) :=
  let pos := BoundaryPositionInDataCollector p in
  let n :=
    match pos with
    | Some b => Z.of_nat b - 2
    | None => Z.of_nat (length (data p)) - (Z.of_nat (length (Boundary p)) + 2)
    end in
  let '(D, r) := (if 0 <? n then disk_send D p (Z.to_nat n) else (D, inl p)) in
  (D, p <- r ;;
      match pos with
      | Some _ => inl (true, set_status p LookingForStartingBoundary)
      | None => inl (false, p)
      end).

Definition disk_headers (D : Disk) (p : Parser) : Disk :=
  match find header_end (data p) with
  | None => D
  | Some i => match new_name (cstr (take i (data p))) with Some n => new_field D n | None => D end
  end.

Definition disk_turn (D : Disk) (p : Parser) : Disk * result (bool * Parser) :=
  match CurrentStatus p with
  | LookingForStartingBoundary => (D, process_turn p)
  | ProcessingHeaders => (disk_headers D p, process_turn p)
  | ProcessingContentOfTheField => disk_content D p
  end.

Fixpoint disk_loop (fuel : nat) (D : Disk) (p : Parser) : Disk * result Parser :=
  match fuel with
  | O => (D, inl p)
  | S fuel =>
      let '(D, r) := disk_turn D p in
      match r with
      | inl (true, p) => disk_loop fuel D p
      | inl (false, p) => (D, inl p)
      | inr e => (D, inr e)
      end
  end.

Definition disk_AcceptSomeData (D : Disk) (p : Parser) (d : bytes) : Disk * result Parser :=
  match Boundary p with
  | [] => (D, inr ContentTypeNotSet)
  | _ :: _ =>
      let p := set_data p (data p ++ d) in
      if MaxDataCollectorLength p <? Z.of_nat (length (data p)) then (D, inr CollectorFull)
      else disk_loop (3 * length (data p) + 4) D p
  end.

(** A body that arrives in pieces, up to the first exception. *)
Fixpoint disk_pieces (D : Disk) (p : Parser) (ds : list bytes) : Disk * result Parser :=
  match ds with
  | [] => (D, inl p)
  | d :: ds =>
      let '(D, r) := disk_AcceptSomeData D p d in
      match r with
      | inl p => disk_pieces D p ds
      | inr e => (D, inr e)
      end
  end.
End disk.

(** The same with the contents kept in the fields. *)
Fixpoint accept_pieces (p : Parser) (ds : list bytes) : result Parser :=
  match ds with
  | [] => inl p
  | d :: ds => p <- AcceptSomeData p d ;; accept_pieces p ds
  end.

(** ** Names of temporary files *)

Lemma temp_path_inj td i j : temp_path td i = temp_path td j -> i = j.
Proof.
  unfold temp_path. intros H%app_inv_head%app_inv_head.
  destruct (udec_spec (Z.of_nat i)) as (_ & _ & Hi); [lia|]. destruct (udec_spec (Z.of_nat j)) as (_ & _ & Hj); [lia|].
  rewrite H in Hi. lia.
Qed.

(** The search ends at a name that is not taken: there are fewer files than names
    it would try. *)
Lemma search_temp_free fuel i fs td :
  fs !! search_temp fuel i fs td = None \/ (forall k, (k <= fuel)%nat -> is_Some (fs !! temp_path td (i + k))).
Proof.
  revert i. induction fuel as [|fuel IH]; intros i; cbn [search_temp].
  - destruct (fs !! temp_path td i) eqn:E; [right|by left]. intros k Hk. replace k with 0%nat by lia. by rewrite Nat.add_0_r, E.
  - destruct (fs !! temp_path td i) eqn:E; [|by left]. destruct (IH (S i)) as [Hf|Hall]; [by left|right].
    intros [|k] Hk; [by rewrite Nat.add_0_r, E|]. rewrite Nat.add_succ_r. apply (Hall k). lia.
Qed.

Lemma free_temp_free fs td : fs !! free_temp fs td = None.
Proof.
  unfold free_temp. destruct (search_temp_free (S (size fs)) 1 fs td) as [|Hall]; [done|]. exfalso.
  assert (NoDup (temp_path td <$> seq 1 (S (size fs)))) as Hnd.
  { apply NoDup_fmap_2; [intros i j; apply temp_path_inj|apply NoDup_seq]. }
  assert (list_to_set (temp_path td <$> seq 1 (S (size fs))) ⊆@{gset bytes} dom fs) as Hsub.
  { intros path [i [-> Hi%elem_of_seq]]%elem_of_list_to_set%list_elem_of_fmap. apply elem_of_dom.
    destruct (Hall (i - 1)%nat) as [c Hc]; [lia|]. exists c. by replace (1 + (i - 1))%nat with i in Hc by lia. }
  apply subseteq_size in Hsub. rewrite size_list_to_set, size_dom in Hsub by done.
  rewrite length_fmap, length_seq in Hsub. lia.
Qed.

(** ** The file system stays in order *)

(** The files the parser has created and not removed. *)
Definition paths (D : Disk) : list bytes := (map_to_list (streams D)).*2 ++ lost D.

(** There are the files [fs] there were, unchanged, and those. *)
Record disk_ok (fs : gmap bytes bytes) (D : Disk) : Prop := {
  ok_before : fs ⊆ files D;
  ok_files path : is_Some (files D !! path) -> is_Some (fs !! path) \/ path ∈ paths D;
  ok_paths path : path ∈ paths D -> fs !! path = None /\ is_Some (files D !! path);
  ok_distinct : NoDup (paths D)
}.

Lemma disk_ok_start fs : disk_ok fs (MkDisk fs ∅ []).
Proof.
  split; [done|by left| |]; unfold paths; cbn [streams lost]; rewrite map_to_list_empty; cbn; [set_solver|constructor].
Qed.

Lemma paths_open name path D fs : streams D !! name = None ->
  paths (MkDisk fs (<[name := path]> (streams D)) (lost D)) ≡ₚ path :: paths D.
Proof. intros H. unfold paths. cbn [streams lost]. by rewrite map_to_list_insert. Qed.

Lemma paths_new_field name D : paths (new_field D name) ≡ₚ paths D.
Proof.
  unfold new_field. destruct (streams D !! name) as [path|] eqn:E; [|done]. unfold paths. cbn [streams lost].
  rewrite <- (map_to_list_delete _ _ _ E). cbn [fmap list_fmap snd app]. by rewrite Permutation_middle.
Qed.

Lemma stream_path name path D : streams D !! name = Some path -> path ∈ paths D.
Proof.
  intros H. apply elem_of_app. left. apply list_elem_of_fmap. exists (name, path). by rewrite elem_of_map_to_list.
Qed.

Lemma stream_distinct n1 n2 path D :
  NoDup (paths D) -> streams D !! n1 = Some path -> streams D !! n2 = Some path -> n1 = n2.
Proof.
  intros (Hnd & _)%NoDup_app H1%elem_of_map_to_list H2%elem_of_map_to_list.
  apply list_elem_of_lookup in H1 as [i Hi], H2 as [j Hj].
  assert (i = j) as ->; [|congruence].
  eapply (NoDup_lookup _ _ _ path Hnd); rewrite list_lookup_fmap; [by rewrite Hi|by rewrite Hj].
Qed.

Lemma disk_ok_new_field fs D name : disk_ok fs D -> disk_ok fs (new_field D name).
Proof.
  intros [H1 H2 H3 H4]. pose proof (paths_new_field name D) as Hp.
  assert (files (new_field D name) = files D) as Hf by (unfold new_field; by destruct (streams D !! name)).
  split; rewrite ?Hf; [done|intros path Hs; rewrite Hp; auto|intros path; rewrite Hp; auto|by rewrite Hp].
Qed.

Lemma disk_ok_write fs D path c : path ∈ paths D -> disk_ok fs D ->
  disk_ok fs (MkDisk (<[path := c]> (files D)) (streams D) (lost D)).
Proof.
  intros Hin [H1 H2 H3 H4]. split; [by apply insert_subseteq_r; [apply H3|]| | |done]; cbn [files]; intros path'.
  - rewrite lookup_insert_is_Some'. intros [<-|]; [by right|by apply H2].
  - intros [? ?]%H3. rewrite lookup_insert_is_Some'. auto.
Qed.

Lemma disk_ok_create fs D name path c : files D !! path = None -> streams D !! name = None -> disk_ok fs D ->
  disk_ok fs (MkDisk (<[path := c]> (files D)) (<[name := path]> (streams D)) (lost D)).
Proof.
  intros Hfree Hs [H1 H2 H3 H4]. pose proof (paths_open name path D (<[path := c]> (files D)) Hs) as Hp.
  assert (fs !! path = None) as Hn by by eapply lookup_weaken_None.
  split; cbn [files].
  - by apply insert_subseteq_r.
  - intros path'. rewrite Hp, elem_of_cons, lookup_insert_is_Some'. intros [<-|Hf]; [by right; left|].
    apply H2 in Hf as [|]; auto.
  - intros path'. rewrite Hp, elem_of_cons, lookup_insert_is_Some'. intros [->|[? ?]%H3]; auto.
  - rewrite Hp. constructor; [|done]. intros [_ [c' Hc]]%H3. congruence.
Qed.

Lemma lookup_foldr_delete (fs : gmap bytes bytes) (l : list bytes) path :
  foldr destroy_field fs l !! path = if decide (path ∈ l) then None else fs !! path.
Proof.
  induction l as [|a l IH]; [done|]. cbn [foldr]. unfold destroy_field at 1. destruct (decide (a = path)) as [->|Hne].
  - rewrite lookup_delete_eq. by rewrite decide_True by by left.
  - rewrite lookup_delete_ne, IH by done. destruct (decide (path ∈ l)); [by rewrite decide_True by by right|].
    rewrite decide_False; [done|]. by intros [->|]%elem_of_cons.
Qed.

(** Destroying the parser leaves the files there were and the lost ones. *)
Lemma destroy_files fs D path : disk_ok fs D -> path ∉ lost D -> files (destroy D) !! path = fs !! path.
Proof.
  intros [H1 H2 H3 H4] Hl. cbn [destroy files]. rewrite lookup_foldr_delete. destruct (decide _) as [Hin|Hin].
  - symmetry. apply H3. apply elem_of_app. by left.
  - destruct (fs !! path) as [c|] eqn:E; [by eapply lookup_weaken|]. apply eq_None_not_Some. intros Hs.
    destruct (H2 path Hs) as [[c Hc]|[|]%elem_of_app]; [congruence|done|done].
Qed.

(** ** Uploads on disk are those kept in memory *)

(** The part of a field and of a parser that is in memory. *)
Definition bare (f : Field) : Field :=
  MkField (ty f) (FieldContent f) (WhereStored f) (TempDir f) (FileName f) (FileContentType f) None.

Definition bare_parser (p : Parser) : Parser :=
  MkParser (WhereToStoreUploadedFiles p) (bare <$> Fields p) (TempDirForFileUpload p) (CurrentStatus p) (Boundary p)
    (ProcessingFieldName p) (DataCollector p) (MaxDataCollectorLength p).

(** What [Mpfd] keeps as the content of a field's file is what its temporary
    file holds. *)
Record stored (p : Parser) (D : Disk) : Prop := {
  st_file n f : Fields p !! n = Some f -> file f = streams D !! n ≫= (fun path => files D !! path);
  st_stream n : Fields p !! n = None -> streams D !! n = None
}.

Lemma bare_set_field p n f : set_field (bare_parser p) n (bare f) = bare_parser (set_field p n f).
Proof. unfold set_field, bare_parser. cbn. by rewrite fmap_insert. Qed.

Lemma ParseHeaders_bare p h : ParseHeaders (bare_parser p) h = q <- ParseHeaders p h ;; inl (bare_parser q).
Proof.
  unfold ParseHeaders. repeat case_match; try done; cbn [SetType rbind]; by rewrite <- bare_set_field.
Qed.

Lemma ParseHeaders_new p h q : ParseHeaders p h = inl q ->
  exists n f, new_name h = Some n /\ q = set_field p n f /\ file f = None.
Proof.
  unfold ParseHeaders, new_name. repeat case_match; try done; cbn [SetType rbind]; intros [= <-]; eauto.
Qed.

(** What a step on disk makes of the parser, given what the step in memory does. *)
Definition follows {A : Type} (can_create : bytes -> bool) (fs : gmap bytes bytes) (bareA : A -> A) (parser : A -> Parser)
    (out : Disk * result A) (r : result A) : Prop :=
  disk_ok fs out.1 /\
  ((exists path, out.2 = inr (CannotWrite path) /\ can_create path = false) \/
   match r with
   | inl a => out.2 = inl (bareA a) /\ stored (parser a) out.1
   | inr e => out.2 = inr e
   end).

Notation bare_turn := (fun r : bool * Parser => (r.1, bare_parser r.2)).

Section simulation.
  Context (can_create : bytes -> bool) (fs : gmap bytes bytes).

Lemma stored_same_fields p q D : Fields q = Fields p -> stored p D -> stored q D.
Proof. intros E [H1 H2]. split; intros n; rewrite E; [apply H1|apply H2]. Qed.

Lemma stored_set_field p n f D : stored p D -> file f = streams D !! n ≫= (fun path => files D !! path) ->
  stored (set_field p n f) D.
Proof.
  intros [H1 H2] Hf. split; intros n'; cbn [set_field Fields];
    (destruct (decide (n = n')) as [<-|]; [rewrite lookup_insert_eq|rewrite lookup_insert_ne by done]).
  - by intros f' [= <-].
  - apply H1.
  - done.
  - apply H2.
Qed.

(** A write to the file of one field leaves those of the others. *)
Lemma stored_write p n f D D' path c : stored p D -> file f = Some c ->
  streams D' !! n = Some path -> files D' !! path = Some c ->
  (forall n', n' <> n -> streams D' !! n' = streams D !! n') ->
  (forall n' path', n' <> n -> streams D !! n' = Some path' -> files D' !! path' = files D !! path') ->
  stored (set_field p n f) D'.
Proof.
  intros [H1 H2] Hf Hs Hc Hst Hfl. split; intros n'; cbn [set_field Fields].
  - destruct (decide (n = n')) as [<-|Hne]; [rewrite lookup_insert_eq|rewrite lookup_insert_ne by done].
    + intros f' [= <-]. rewrite Hs. cbn. congruence.
    + intros f' E. rewrite Hst, (H1 n' f' E) by done. destruct (streams D !! n') as [path'|] eqn:Es; [|done]. cbn.
      symmetry. by apply (Hfl n').
  - destruct (decide (n = n')) as [<-|Hne]; [by rewrite lookup_insert_eq|rewrite lookup_insert_ne by done].
    intros E. rewrite Hst by done. by apply H2.
Qed.

Lemma field_follows D p n f d :
  disk_ok fs D -> stored p D -> Fields p !! n = Some f ->
  let out := disk_field_accepts can_create D n (bare f) d in
  disk_ok fs out.1 /\
  ((exists path, out.2 = inr (CannotWrite path) /\ can_create path = false) \/
   match Field_AcceptSomeData f d with
   | inl f' => out.2 = inl (bare f') /\ stored (set_field p n f') out.1
   | inr e => out.2 = inr e
   end).
Proof.
  intros Hok Hst Hf. pose proof (st_file _ _ Hst n f Hf) as Hfile. unfold disk_field_accepts, Field_AcceptSomeData.
  cbn [bare ty WhereStored TempDir FieldContent file].
  destruct (ty f) eqn:Ety; [split; [done|by right]|split; [done|right; split; [done|by apply stored_set_field]]|].
  destruct (WhereStored f) eqn:Ew; [|split; [done|right; split; [done|by apply stored_set_field]]].
  destruct (TempDir f) as [|b td] eqn:Etd; [split; [done|by right]|].
  destruct (streams D !! n) as [path|] eqn:Es; cbn [mbind option_bind] in Hfile.
  - destruct (ok_paths _ _ Hok path (stream_path _ _ _ Es)) as [Hfs [c Hc]]. rewrite Hc in Hfile |- *. rewrite Hfile. cbn [default from_option fst snd].
    split; [apply disk_ok_write; [by eapply stream_path|done]|]. right. split; [unfold bare; cbn; by rewrite Ety, Ew, Etd|].
    eapply (stored_write p n _ D _ path (c ++ d)); [done|done|done|cbn; apply lookup_insert_eq|done|].
    intros n' path' Hne Hs'. cbn [files]. rewrite lookup_insert_ne; [done|]. intros <-. destruct Hne.
    eapply stream_distinct; [apply (ok_distinct _ _ Hok)|done|done].
  - rewrite Hfile. cbn [default from_option app]. set (path := free_temp (files D) (b :: td)).
    destruct (can_create path) eqn:Ecc; cbn [fst snd]; [|split; [done|left; by exists path]].
    split; [apply disk_ok_create; [apply free_temp_free|done|done]|]. right. split; [unfold bare; cbn; by rewrite Ety, Ew, Etd|].
    eapply (stored_write p n _ D _ path d); [done|done|cbn; apply lookup_insert_eq|cbn; apply lookup_insert_eq| |].
    + intros n' Hne. cbn [streams]. by rewrite lookup_insert_ne.
    + intros n' path' Hne Hs'. cbn [files]. rewrite lookup_insert_ne; [done|]. intros <-.
      destruct (ok_paths _ _ Hok path (stream_path _ _ _ Hs')) as [_ [c Hc]].
      pose proof (free_temp_free (files D) (b :: td)) as Hn. fold path in Hn. congruence.
Qed.

Lemma send_follows D p n :
  disk_ok fs D -> stored p D ->
  follows can_create fs bare_parser id (disk_send can_create D (bare_parser p) n) (send_to_field p n).
Proof.
  intros Hok Hst. unfold follows, disk_send, send_to_field. cbn [bare_parser Fields ProcessingFieldName].
  rewrite lookup_fmap. destruct (Fields p !! ProcessingFieldName p) as [f|] eqn:Ef; cbn [fmap option_fmap option_map]; [|split; [done|by right]].
  change (data (bare_parser p)) with (data p).
  destruct (field_follows D p (ProcessingFieldName p) f (take n (data p)) Hok Hst Ef) as [Hok' H].
  destruct (disk_field_accepts _ _ _ _ _) as [D' r]. cbn [fst snd] in *. split; [done|].
  destruct H as [(path & -> & Hcc)|H]; [left; by exists path|right].
  destruct (Field_AcceptSomeData f _) as [f'|e]; cbn [rbind]; [|by subst r].
  destruct H as [-> Hst']. cbn [rbind]. split; [|by apply (stored_same_fields (set_field p (ProcessingFieldName p) f'))].
  f_equal. fold (bare_parser p). by rewrite bare_set_field.
Qed.

Lemma turn_follows D p :
  disk_ok fs D -> stored p D ->
  follows can_create fs bare_turn snd (disk_turn can_create D (bare_parser p)) (process_turn p).
Proof.
  intros Hok Hst. unfold disk_turn, process_turn. cbn [bare_parser CurrentStatus]. destruct (CurrentStatus p) eqn:Es.
  - split; [done|right]. unfold FindStartingBoundaryAndTruncData, BoundaryPositionInDataCollector.
    change (data (bare_parser p)) with (data p). cbn [bare_parser Boundary].
    destruct (find (Boundary p) (data p)); (split; [done|]); by apply (stored_same_fields p).
  - unfold disk_headers, WaitForHeadersEndAndParseThem. fold (bare_parser p). change (data (bare_parser p)) with (data p).
    destruct (find header_end (data p)) as [i|]; [|by split; [done|right]].
    set (h := cstr (take i (data p))). rewrite ParseHeaders_bare. unfold follows. cbn [fst snd].
    split; [destruct (new_name h); [by apply disk_ok_new_field|done]|right].
    destruct (ParseHeaders p h) as [q|e] eqn:Eq; cbn [rbind]; [|done]. split; [done|].
    destruct (ParseHeaders_new p h q Eq) as (n & f & -> & -> & Hf). cbn [snd].
    eapply (stored_same_fields (set_field p n f)); [done|]. destruct Hst as [H1 H2].
    assert (streams (new_field D n) = delete n (streams D) /\ files (new_field D n) = files D) as [Es' Ef].
    { unfold new_field. destruct (streams D !! n) eqn:E; [done|]. by rewrite delete_id. }
    split; intros n'; rewrite Es', ?Ef; cbn [set_field Fields];
      (destruct (decide (n = n')) as [<-|Hne]; [rewrite lookup_insert_eq, lookup_delete_eq|rewrite lookup_insert_ne, lookup_delete_ne by done]).
    + by intros f' [= <-].
    + apply H1.
    + done.
    + apply H2.
  - unfold disk_content, ProcessContentOfTheField, BoundaryPositionInDataCollector. fold (bare_parser p).
    change (data (bare_parser p)) with (data p). change (Boundary (bare_parser p)) with (Boundary p).
    set (n := match find _ _ with Some b => _ | None => _ end).
    assert (follows can_create fs bare_parser id
      (if 0 <? n then disk_send can_create D (bare_parser p) (Z.to_nat n) else (D, inl (bare_parser p)))
      (if 0 <? n then send_to_field p (Z.to_nat n) else inl p)) as [Hok' H].
    { destruct (0 <? n); [by apply send_follows|]. split; [done|by right]. }
    destruct (if 0 <? n then disk_send _ _ _ _ else _) as [D' r]. cbn [fst snd] in *. split; [done|].
    destruct H as [(path & -> & Hcc)|H]; [left; by exists path|right].
    destruct (if 0 <? n then send_to_field _ _ else _) as [p'|e]; cbn [rbind]; [|by subst r].
    destruct H as [-> Hst']. cbn [rbind]. destruct (find (Boundary p) (data p)); split; [done| |done|done].
    by apply (stored_same_fields p').
Qed.

Lemma loop_follows fuel : forall D p, disk_ok fs D -> stored p D ->
  follows can_create fs bare_parser id (disk_loop can_create fuel D (bare_parser p)) (process_loop fuel p).
Proof.
  induction fuel as [|fuel IH]; intros D p Hok Hst; cbn [disk_loop process_loop]; [by split; [|right]|].
  destruct (turn_follows D p Hok Hst) as [Hok' H]. destruct (disk_turn _ _ _) as [D' r]. cbn [fst snd] in *.
  destruct H as [(path & -> & Hcc)|H]; [split; [done|left; by exists path]|].
  destruct (process_turn p) as [[b p']|e]; cbn [rbind]; [|subst r; by split; [|right]].
  destruct H as [-> Hst']. cbn [fst snd]. destruct b; [by apply IH|by split; [|right]].
Qed.

Lemma piece_follows D p d : disk_ok fs D -> stored p D ->
  follows can_create fs bare_parser id (disk_AcceptSomeData can_create D (bare_parser p) d) (AcceptSomeData p d).
Proof.
  intros Hok Hst. unfold disk_AcceptSomeData, AcceptSomeData. change (Boundary (bare_parser p)) with (Boundary p).
  destruct (Boundary p); [by split; [|right]|]. change (data (bare_parser p)) with (data p).
  change (set_data (bare_parser p) ?x) with (bare_parser (set_data p x)). set (p' := set_data p (data p ++ d)).
  change (MaxDataCollectorLength (bare_parser p')) with (MaxDataCollectorLength p'). change (data (bare_parser p')) with (data p').
  destruct (_ <? _); [by split; [|right]|]. apply loop_follows; [done|by apply (stored_same_fields p)].
Qed.

Lemma pieces_follow ds : forall D p, disk_ok fs D -> stored p D ->
  follows can_create fs bare_parser id (disk_pieces can_create D (bare_parser p) ds) (accept_pieces p ds).
Proof.
  induction ds as [|d ds IH]; intros D p Hok Hst; cbn [disk_pieces accept_pieces]; [by split; [|right]|].
  destruct (piece_follows D p d Hok Hst) as [Hok' H]. destruct (disk_AcceptSomeData _ _ _ _) as [D' r]. cbn [fst snd] in *.
  destruct H as [(path & -> & Hcc)|H]; [split; [done|left; by exists path]|].
  destruct (AcceptSomeData p d) as [p'|e]; cbn [rbind]; [|subst r; by split; [|right]].
  destruct H as [-> Hst']. by apply IH.
Qed.
End simulation.

(** ** Forms *)

Section forms.
  Context (can_create : bytes -> bool) (fs : gmap bytes bytes).

Lemma lost_accepts D n f d D' r : disk_field_accepts can_create D n f d = (D', r) -> lost D' = lost D.
Proof. unfold disk_field_accepts. repeat case_match; by intros [= <- <-]. Qed.

Lemma lost_content D p : lost (disk_content can_create D p).1 = lost D.
Proof.
  unfold disk_content, disk_send. destruct (0 <? _); [|done].
  destruct (Fields p !! _) as [f|]; [|done]. destruct (disk_field_accepts _ _ _ _ _) as [D' r] eqn:E.
  by eapply lost_accepts.
Qed.

(** Headers that name a new field lose nothing. *)
Lemma lost_headers D p p' : stored p D ->
  CurrentStatus p = ProcessingHeaders -> process_turn p = inl (true, p') -> Fields p !! ProcessingFieldName p' = None ->
  lost (disk_headers D (bare_parser p)) = lost D.
Proof.
  intros Hst Hs Ht Hn. unfold disk_headers. change (data (bare_parser p)) with (data p).
  revert Ht. unfold process_turn. rewrite Hs. unfold WaitForHeadersEndAndParseThem.
  destruct (find header_end (data p)) as [i|]; [|done].
  destruct (ParseHeaders p _) as [q|] eqn:Eq; cbn [rbind]; [|done]. intros [= <-].
  destruct (ParseHeaders_new p _ q Eq) as (n & f & -> & -> & Hf). cbn [set_status TruncateDataCollectorFromTheBeginning set_data set_field ProcessingFieldName] in Hn.
  unfold new_field. by rewrite (st_stream _ _ Hst n Hn).
Qed.

Lemma lost_turn D p p' : stored p D -> process_turn p = inl (true, p') ->
  (CurrentStatus p = ProcessingHeaders -> Fields p !! ProcessingFieldName p' = None) ->
  lost (disk_turn can_create D (bare_parser p)).1 = lost D.
Proof.
  intros Hst Ht Hn. unfold disk_turn. change (CurrentStatus (bare_parser p)) with (CurrentStatus p).
  destruct (CurrentStatus p) eqn:Es; [done|by eapply lost_headers; [| |exact Ht|apply Hn]|apply lost_content].
Qed.

(** One turn of the loop that is followed by others. *)
Lemma lost_loop fuel D p p' : disk_ok fs D -> stored p D -> process_turn p = inl (true, p') ->
  (CurrentStatus p = ProcessingHeaders -> Fields p !! ProcessingFieldName p' = None) ->
  (forall D', disk_ok fs D' -> stored p' D' -> lost (disk_loop can_create fuel D' (bare_parser p')).1 = lost D') ->
  lost (disk_loop can_create (S fuel) D (bare_parser p)).1 = lost D.
Proof.
  intros Hok Hst Ht Hn Hrest. pose proof (lost_turn D p p' Hst Ht Hn) as Hl. cbn [disk_loop].
  destruct (turn_follows can_create fs D p Hok Hst) as [Hok' H]. destruct (disk_turn _ _ _) as [D' r].
  cbn [fst snd] in *. destruct H as [(path & -> & _)|H]; [done|]. rewrite Ht in H. destruct H as [-> Hst'].
  cbn [fst snd]. by rewrite <- Hl, Hrest.
Qed.

(** A form of distinct fields loses no stream. *)
Lemma lost_form w td qs : forall B fuel p pre D,
  Forall (part_ok B) qs -> NoDup (pname <$> qs) -> storing_parser w td B p ->
  CurrentStatus p = LookingForStartingBoundary -> data p = pre ++ enc_form B qs ->
  find B (data p) = Some (length pre) -> (3 * length qs + 2 <= fuel)%nat ->
  (forall q, q ∈ qs -> Fields p !! pname q = None) -> disk_ok fs D -> stored p D ->
  lost (disk_loop can_create fuel D (bare_parser p)).1 = lost D.
Proof.
  induction qs as [|q qs IH]; intros B fuel p pre D Hok Hnd Hm Hs Hd Hf Hfuel Hnew HD Hst.
  - destruct fuel as [|[|fuel]]; [cbn in Hfuel; lia..|].
    eapply (lost_loop _ D p); [done|done|by apply (turn_boundary B p pre (lit "--" ++ crlf)); (done || apply Hm)|by rewrite Hs|].
    intros D' HD' Hst'. done.
  - inversion Hok as [|? ? Hq Hok']; subst. cbn [fmap list_fmap] in Hnd. inversion Hnd as [|? ? Hnin Hnd']; subst.
    do 3 (destruct fuel as [|fuel]; [cbn in Hfuel; lia|]).
    destruct (enc_form_cons B q qs) as [Eform [r Er]].
    eapply (lost_loop _ D p); [done|done| |by rewrite Hs|].
    { apply (turn_boundary B p pre (crlf ++ part_headers q ++ header_end ++ pcontent q ++ crlf ++ enc_form B qs));
        [apply Hm|done|by rewrite Hd, Eform|done]. }
    set (p1 := set_status (set_data p _) _). intros D1 HD1 Hst1.
    destruct (turn_headers B p1 q (pcontent q ++ crlf ++ enc_form B qs) Hq) as (f & E2 & Ha); [done|done|].
    eapply (lost_loop _ D1 p1); [done|done|exact E2|intros _; apply Hnew; by left|].
    set (p2 := set_status (set_data (set_field p1 _ _) _) _). intros D2 HD2 Hst2.
    destruct (turn_content w td B p2 q f r Hq) as (f' & p3 & E3 & Hh & Hfs & Hm3 & Hs3 & Hd3 & Hf3);
      [done|done|done|cbn; by rewrite lookup_insert_eq|by destruct Hm as (<- & <- & _)|cbn; by rewrite Er|].
    eapply (lost_loop _ D2 p2); [done|done|exact E3|done|]. intros D3 HD3 Hst3. rewrite <- Er in Hd3.
    apply (IH B fuel p3 crlf); [done..|cbn [length] in Hfuel; lia| |done|done].
    intros q0 Hin. rewrite Hfs. assert (pname q <> pname q0) by (intros E; apply Hnin; rewrite E; by apply list_elem_of_fmap_2).
    cbn. rewrite !lookup_insert_ne by done. apply Hnew. by right.
Qed.
End forms.

(** What the accessors of a field on disk return for a part. *)
Definition reads_back_from_disk (fs : gmap bytes bytes) (D : Disk) (td : bytes) (q : part) (f : Field) : Prop :=
  GetType f = inl FileType /\ GetFileName f = inl (default [] (pfile q)) /\ GetFileMimeType f = inl (default [] (ptype q)) /\
  match pcontent q with
  | [] => GetTempFileName D (pname q) f = inl (td ++ lit "/")
  | c => exists path, GetTempFileName D (pname q) f = inl path /\ fs !! path = None /\ files D !! path = Some c
  end.

Lemma holds_reads_back_from_disk fs D td q p f : disk_ok fs D -> stored p D -> Fields p !! pname q = Some f ->
  on_disk q InFilesystem = true -> holds_part q InFilesystem td f ->
  reads_back_from_disk fs D td q (bare f).
Proof.
  intros Hok Hst Hf Hd (_ & Hfile & H). pose proof (st_file _ _ Hst _ _ Hf) as E. rewrite Hd in Hfile. rewrite Hfile in E.
  unfold reads_back_from_disk, GetType, GetFileName, GetFileMimeType, GetTempFileName. cbn [bare ty FileName FileContentType WhereStored TempDir].
  unfold on_disk in Hd. destruct (pfile q) as [fn|]; [|done]. destruct H as (-> & -> & -> & -> & ->). split_and!; [done..|].
  unfold sent in E. destruct (streams D !! pname q) as [path|] eqn:Es; cbn [mbind option_bind] in E.
  - destruct (ok_paths _ _ Hok path (stream_path _ _ _ Es)) as [Hn [c Hc]]. rewrite Hc in E.
    destruct (pcontent q); [done|]. injection E as ->. eauto.
  - by destruct (pcontent q).
Qed.

Lemma stored_start p D : Fields p = ∅ -> streams D = ∅ -> stored p D.
Proof. intros Hp HD. split; intros n; rewrite Hp, ?HD, lookup_empty; [done|by rewrite lookup_empty]. Qed.

Lemma bare_start p : Fields p = ∅ -> bare_parser p = p.
Proof. intros Hp. destruct p. cbn in Hp. subst. unfold bare_parser. cbn. by rewrite fmap_empty. Qed.

(** C27. A form of distinct fields whose parts can be told apart ([part_ok]: names and
    file names without quotes, line ends and NULs that do not imitate the tags the
    parser looks for, content types without blanks and last in their headers, a
    boundary that does not occur in the contents) and that fits the limit of the
    parser is parsed back, if every temporary file can be created: the field found
    under each name answers with
    the kind, the file name, the content type and the content that were sent (a
    text up to its first NUL, a file whole, in memory or in a temporary file that
    was not there before; no file is made for an upload without content), no other
    field appears, and destroying the parser leaves the files there were. *)
Theorem form_roundtrip (can_create : bytes -> bool) (fs : gmap bytes bytes) (w : storage) (td b : bytes) (qs : list part) (max : Z) :
  let B := lit "--" ++ b in
  (w = InFilesystem -> td <> []) -> (forall path, can_create path = true) ->
  Forall (part_ok B) qs -> NoDup (pname <$> qs) -> Z.of_nat (length (enc_form B qs)) <= max ->
  exists p1 D p2,
    SetContentType (form_parser w td max) (lit "multipart/form-data; boundary=" ++ b) = inl p1 /\
    disk_AcceptSomeData can_create (MkDisk fs ∅ []) p1 (enc_form B qs) = (D, inl p2) /\
    (forall q, q ∈ qs -> exists f, GetField p2 (pname q) = Some f /\
      if on_disk q w then reads_back_from_disk fs D td q f else reads_back q f) /\
    (forall n, n ∉ pname <$> qs -> GetField p2 n = None) /\
    files (destroy D) = fs.
Proof.
  intros B Htd Hcc Hok Hnd Hmax. destruct (form_parses w td b qs max Htd Hok Hnd Hmax) as (p1 & p2 & E1 & E2 & H1 & H2).
  assert (p1 = set_boundary (form_parser w td max) B) as Ep1.
  { revert E1. change (SetContentType (form_parser w td max) (lit "multipart/form-data; boundary=" ++ b)) with (inl (B := exn) (set_boundary (form_parser w td max) B)). congruence. }
  set (D0 := MkDisk fs ∅ []).
  assert (Fields p1 = ∅) as Hempty by by rewrite Ep1. pose proof (disk_ok_start fs) as HD0.
  pose proof (stored_start p1 D0 Hempty eq_refl) as Hst0.
  destruct (piece_follows can_create fs D0 p1 (enc_form B qs) HD0 Hst0) as [HD H].
  rewrite (bare_start p1 Hempty) in H, HD. fold B in E2. rewrite E2 in H.
  destruct (disk_AcceptSomeData can_create D0 p1 (enc_form B qs)) as [D r] eqn:E. cbn [fst snd] in *.
  destruct H as [(path & _ & Hp)|[-> Hst]]; [by rewrite Hcc in Hp|].
  exists p1, D, (bare_parser p2). split; [done|]. split; [done|]. split_and!.
  - intros q Hq. destruct (H1 q Hq) as (f & Hf & Hh). exists (bare f). unfold GetField in *. cbn [bare_parser Fields].
    rewrite lookup_fmap, Hf. split; [done|]. destruct (on_disk q w) eqn:Ed.
    + assert (w = InFilesystem) as -> by (revert Ed; unfold on_disk; by destruct (pfile q), w).
      by eapply holds_reads_back_from_disk.
    + by eapply holds_reads_back in Hh.
  - intros n Hn%H2. unfold GetField in *. cbn [bare_parser Fields]. by rewrite lookup_fmap, Hn.
  - assert (lost D = []) as Hlost.
    { replace D with (disk_AcceptSomeData can_create D0 p1 (enc_form B qs)).1 by by rewrite E.
      rewrite <- (bare_start p1 Hempty).
      unfold disk_AcceptSomeData. change (Boundary (bare_parser p1)) with (Boundary p1).
      destruct (Boundary p1) eqn:EB; [done|].
      change (set_data (bare_parser p1) ?x) with (bare_parser (set_data p1 x)). destruct (_ <? _); [done|].
      change (data (bare_parser p1) ++ ?x) with (data p1 ++ x).
      apply (lost_form can_create fs w td qs B _ _ []); [done|done| | | | | | |done|by apply (stored_same_fields p1)].
      all: rewrite Ep1; try done.
      - apply form_start_boundary.
      - apply form_fuel. }
    apply map_eq. intros path. apply destroy_files; [done|]. rewrite Hlost. apply not_elem_of_nil.
Qed.

Definition always (_ : bytes) : bool := true.

(** A directory with a file of that name already. *)
Definition demo_files : gmap bytes bytes := {[lit "/tmp/MPFD_Temp_1" := lit "other"]}.

Lemma form_roundtrip_witness :
  exists p1 D p2 f path,
    SetContentType (form_parser InFilesystem (lit "/tmp") 1024) (lit "multipart/form-data; boundary=XX") = inl p1 /\
    disk_AcceptSomeData always (MkDisk demo_files ∅ []) p1 (enc_form (lit "--XX") demo_form) = (D, inl p2) /\
    GetField p2 (lit "f") = Some f /\ GetTempFileName D (lit "f") f = inl path /\ files D !! path = Some (lit "data") /\
    files (destroy D) = demo_files.
Proof.
  destruct (form_roundtrip always demo_files InFilesystem (lit "/tmp") (lit "XX") demo_form 1024) as (p1 & D & p2 & E1 & E2 & H1 & _ & H3).
  - discriminate.
  - reflexivity.
  - repeat constructor; try discriminate; try reflexivity.
    all: match goal with H : _ = Some _ |- _ => injection H as <- | |- forall fn, _ => intros fn [= <-] end;
      repeat constructor; discriminate.
  - apply (bool_decide_eq_true_1 (NoDup (pname <$> demo_form))). vm_compute. reflexivity.
  - vm_compute. discriminate.
  - destruct (H1 (MkPart (lit "f") (Some (lit "a.txt")) (Some (lit "text/plain")) (lit "data"))) as (f & Hf & _ & _ & _ & path & Hp & _ & Hc).
    + right. left.
    + exists p1, D, p2, f, path. split; [exact E1|]. split; [exact E2|]. split; [exact Hf|]. split; [exact Hp|]. split; [exact Hc|exact H3].
Defined.

(** C38. Whatever bytes a new parser is given, in whatever pieces, with uploads on
    disk: the files that were there are never written to, destroying the parser
    removes every file it created but those of fields it has lost, which are
    files of its own too, and the outcome is that of a parser that keeps the
    contents in memory, with each content in the field's own file, unless a
    file could not be created. *)
Theorem uploads_on_disk_are_contained (can_create : bytes -> bool) (fs : gmap bytes bytes) (p : Parser) (ds : list bytes) :
  Fields p = ∅ ->
  let '(D, r) := disk_pieces can_create (MkDisk fs ∅ []) p ds in
  fs ⊆ files D /\
  (forall path, path ∉ lost D -> files (destroy D) !! path = fs !! path) /\
  (forall path, path ∈ lost D -> fs !! path = None) /\
  ((exists path, r = inr (CannotWrite path) /\ can_create path = false) \/
   match accept_pieces p ds with
   | inr e => r = inr e
   | inl q =>
       r = inl (bare_parser q) /\
       forall n f c, Fields q !! n = Some f -> file f = Some c ->
         exists path, streams D !! n = Some path /\ fs !! path = None /\ files D !! path = Some c
   end).
Proof.
  intros Hp. set (D0 := MkDisk fs ∅ []).
  destruct (pieces_follow can_create fs ds D0 p (disk_ok_start fs) (stored_start p D0 Hp eq_refl)) as [Hok H].
  rewrite bare_start in * by done. destruct (disk_pieces can_create D0 p ds) as [D r]. cbn [fst snd] in *. split_and!.
  - by apply ok_before.
  - intros path Hl. by apply destroy_files.
  - intros path Hl. apply (ok_paths _ _ Hok). apply elem_of_app. by right.
  - destruct H as [H|H]; [by left|right]. destruct (accept_pieces p ds) as [q|e]; [|done].
    destruct H as [-> Hst]. split; [done|]. intros n f c Hf Hc. rewrite (st_file _ _ Hst n f Hf) in Hc.
    destruct (streams D !! n) as [path|] eqn:Es; [|done]. exists path. split; [done|]. split; [|done].
    by eapply (ok_paths _ _ Hok), stream_path.
Qed.

Definition repeated_form : list part :=
  [MkPart (lit "f") (Some (lit "a.txt")) None (lit "one"); MkPart (lit "f") (Some (lit "b.txt")) None (lit "two")].

Definition repeated_parser : Parser := set_boundary (form_parser InFilesystem (lit "/tmp") 1024) (lit "--XX").

Lemma uploads_on_disk_are_contained_witness :
  let D := (disk_pieces always (MkDisk demo_files ∅ []) repeated_parser [enc_form (lit "--XX") repeated_form]).1 in
  demo_files ⊆ files D.
Proof.
  intros D. unfold D.
  pose proof (uploads_on_disk_are_contained always demo_files repeated_parser [enc_form (lit "--XX") repeated_form] eq_refl) as H.
  destruct (disk_pieces always (MkDisk demo_files ∅ []) repeated_parser _) as [D' r]. exact (proj1 H).
Defined.

(** A field name sent twice loses the first field with its stream: its file stays
    after the parser is gone. *)
Lemma repeated_name_leaks_its_file :
  let D := (disk_AcceptSomeData always (MkDisk ∅ ∅ []) repeated_parser (enc_form (lit "--XX") repeated_form)).1 in
  lost D = [lit "/tmp/MPFD_Temp_1"] /\ files (destroy D) = {[lit "/tmp/MPFD_Temp_1" := lit "one"]}.
Proof. intros D. split; apply (bool_decide_eq_true_1 _); vm_cast_no_check (eq_refl true). Qed.

(** The file of an empty upload is named after the directory alone. *)
Lemma empty_upload_has_no_file :
  GetTempFileName (MkDisk ∅ ∅ []) (lit "f") (MkField FileType None InFilesystem (lit "/tmp") (lit "a") [] None) = inl (lit "/tmp/").
Proof. reflexivity. Qed.

(** The turns given to the loop are enough on disk too. *)
Lemma disk_loop_enough can_create fs D p n : disk_ok fs D -> stored p D -> Boundary p <> [] ->
  disk_loop can_create (3 * length (data p) + 4 + n) D (bare_parser p)
  = disk_loop can_create (3 * length (data p) + 4) D (bare_parser p).
Proof.
  assert (forall fuel D q, disk_ok fs D -> stored q D -> Boundary q <> [] -> (rank q < fuel)%nat ->
    disk_loop can_create (fuel + n) D (bare_parser q) = disk_loop can_create fuel D (bare_parser q)) as Hgen.
  { clear. induction fuel as [|fuel IH]; intros D q Hok Hst Hq Hr; [lia|]. cbn [Nat.add disk_loop].
    destruct (turn_follows can_create fs D q Hok Hst) as [Hok' H]. destruct (disk_turn _ _ _) as [D' r].
    cbn [fst snd] in *. destruct H as [(path & -> & _)|H]; [done|].
    destruct (process_turn q) as [[[] q']|e] eqn:Et; [|by destruct H as [-> _]|by subst r].
    apply turn_progress in Et as [Hlt Hb]; [|done]. destruct H as [-> Hst']. cbn [fst snd] in *.
    apply (IH D' q'); [done|done|congruence|lia]. }
  intros Hok Hst HB. apply Hgen; [done..|]. unfold rank. destruct (CurrentStatus p); lia.
Qed.
