(* ===== verification/Gzip.v ===== *)
(** [gzcompress] of [common/util.cpp]: compression of a reply into a buffer of
    bounded size, over zlib's streams.

    zlib is outside the model: class [ZLib] has the calls the code makes,
    [ZLibSpec] what [zlib.h] documents of them, and module [Stored] is an instance
    that stores its input as it is. *)

From S2P Require Import Prelude Cstd Util.

Definition Z_OK : Z := 0.
Definition Z_STREAM_END : Z := 1.

Inductive flush := Z_NO_FLUSH | Z_FINISH.

(** [deflate] is given the input that is left and the room for output; its results
    are a code, the new state, how many bytes it took and the bytes it wrote. *)
Class ZLib (ZS : Type) := {
  deflateInit2 : option ZS;
  deflate : ZS -> flush -> bytes -> Z -> Z * ZS * nat * bytes;
  deflateEnd : ZS -> Z
}.

(** ** The code *)

Section Code.
Context {ZS : Type} `{ZLib ZS}.

(** [z_stream]: [z_out] is what was written so far, [total_out] its length. *)
Record z_stream := MkZ {
  z_state : ZS;
  next_in : bytes;
  avail_in : Z;
  avail_out : Z;
  z_out : bytes
}.

Definition total_out (z : z_stream) : Z := Z.of_nat (length (z_out z)).

(** The fields of a stream, as a call of [deflate] leaves them. *)
Definition deflate_stream (f : flush) (z : z_stream) : Z * z_stream :=
  let '(err, s, n, out) := deflate (z_state z) f (take (Z.to_nat (avail_in z)) (next_in z)) (avail_out z) in
  (err, MkZ s (drop n (next_in z)) (avail_in z - Z.of_nat n) (avail_out z - Z.of_nat (length out)) (z_out z ++ out)).

(** [while (avail_in != 0 && total_out < *nzdata) if (deflate(Z_NO_FLUSH) != Z_OK)
    return -1]: the stream after it, or nothing when the function returned. *)
Fixpoint input_loop (fuel : nat) (nzdata : Z) (z : z_stream) : option (option z_stream) :=
  match fuel with
  | O => None
  | S fuel =>
      if negb (avail_in z =? 0) && (total_out z <? nzdata) then
        let '(err, z) := deflate_stream Z_NO_FLUSH z in
        if negb (err =? Z_OK) then Some None else input_loop fuel nzdata z
      else Some (Some z)
  end.

Fixpoint finish_loop (fuel : nat) (z : z_stream) : option (option z_stream) :=
  match fuel with
  | O => None
  | S fuel =>
      let '(err, z) := deflate_stream Z_FINISH z in
      if err =? Z_STREAM_END then Some (Some z)
      else if negb (err =? Z_OK) then Some None else finish_loop fuel z
  end.

(** The value returned, with the bytes written when it is 0 ([*nzdata] is their
    number).  [avail_in] and [avail_out] have 32 bits, [ndata] and [*nzdata] 64. *)
Definition gzcompress (data : bytes) (nzdata : Z) : option (Z * bytes) :=
  match data with
  | [] => Some (-1, [])
  | _ :: _ =>
      match deflateInit2 with
      | None => Some (-1, [])
      | Some s =>
          let z := MkZ s data (u32 (Z.of_nat (length data))) (u32 nzdata) [] in
          let fuel := S (Z.to_nat (avail_in z + avail_out z)) in
          r ← input_loop fuel nzdata z;
          match r with
          | None => Some (-1, [])
          | Some z =>
              if negb (avail_in z =? 0) then Some (i32 (avail_in z), [])
              else
                r ← finish_loop fuel z;
                match r with
                | None => Some (-1, [])
                | Some z => if negb (deflateEnd (z_state z) =? Z_OK) then Some (-1, []) else Some (0, z_out z)
                end
          end
      end
  end.

(** *** What zlib promises *)

(** A state after calls of [deflate] that took [a] and wrote [b]. *)
Inductive deflated : ZS -> bytes -> bytes -> Prop :=
| deflated_init s : deflateInit2 = Some s -> deflated s [] []
| deflated_step s a b f i room err s' n out :
    deflated s a b -> deflate s f i room = (err, s', n, out) -> deflated s' (a ++ take n i) (b ++ out).

End Code.

Arguments z_stream : clear implicits.

(** [deflate] takes no more than it is given and writes no more than there is room
    for; [Z_OK] means that it took or wrote something; [Z_STREAM_END], that all
    input was taken and the output is complete: it decompresses to the input. *)
Class ZLibSpec (ZS : Type) `{ZLib ZS} (gunzip : bytes -> option bytes) := {
  deflate_bounds s f i room err s' n out :
    0 <= room -> deflate s f i room = (err, s', n, out) -> (n <= length i)%nat /\ Z.of_nat (length out) <= room;
  deflate_progress s f i room s' n out :
    deflate s f i room = (Z_OK, s', n, out) -> (0 < n)%nat \/ out <> [];
  deflate_end s a b i room s' n out :
    deflated s a b -> deflate s Z_FINISH i room = (Z_STREAM_END, s', n, out) ->
    n = length i /\ gunzip (b ++ out) = Some (a ++ i)
}.

(** ** Its properties *)

Section Spec.
Context {ZS : Type} `{ZLib ZS} {gunzip : bytes -> option bytes} `{!ZLibSpec ZS gunzip}.

(** The stream of a call on [data] with room for [room] bytes: what was taken is
    the beginning of the input, what was written fits. *)
Record stream_ok (data : bytes) (room : Z) (z : z_stream ZS) : Prop := {
  so_taken : exists a, deflated (z_state z) a (z_out z) /\ data = a ++ next_in z;
  so_in : 0 <= avail_in z <= Z.of_nat (length (next_in z));
  so_out : 0 <= avail_out z;
  so_room : total_out z + avail_out z = room
}.

Definition work (z : z_stream ZS) : nat := Z.to_nat (avail_in z + avail_out z).

Lemma deflate_stream_ok f data room z err z' :
  stream_ok data room z -> deflate_stream f z = (err, z') ->
  stream_ok data room z' /\ Z.of_nat (length (next_in z')) - avail_in z' = Z.of_nat (length (next_in z)) - avail_in z /\
  (err = Z_OK -> (work z' < work z)%nat) /\ (avail_in z = 0 -> avail_in z' = 0).
Proof.
  intros [(a & Ha & Hd) Hin Hout Hroom]. unfold deflate_stream.
  destruct (deflate (z_state z) f _ (avail_out z)) as [[[e s] n] out] eqn:E. intros [= -> <-].
  pose proof (deflate_bounds _ _ _ _ _ _ _ _ Hout E) as [Hn Ho].
  rewrite length_take in Hn. unfold total_out, work in *. cbn [z_state z_out next_in avail_in avail_out].
  rewrite length_drop. split_and!.
  - split; cbn [z_state z_out next_in avail_in avail_out]; unfold total_out; cbn [z_out].
    + exists (a ++ take n (next_in z)). split; [|by rewrite <- app_assoc, take_drop].
      eapply deflated_step in E; [|exact Ha]. rewrite take_take, Nat.min_l in E by lia. exact E.
    + rewrite length_drop. lia.
    + lia.
    + rewrite length_app. lia.
  - lia.
  - intros ->. apply deflate_progress in E as [?|?]; [lia|]. destruct out; [done|]. cbn [length] in *. lia.
  - lia.
Qed.

Lemma i32_nonzero x : 0 < x < 2 ^ 32 -> i32 x <> 0.
Proof. unfold i32. intros Hx E. Z.div_mod_to_equations; lia. Qed.

Lemma input_loop_ends data room nzdata fuel : forall z,
  stream_ok data room z -> (work z < fuel)%nat ->
  exists r, input_loop fuel nzdata z = Some r /\
    forall z', r = Some z' -> stream_ok data room z' /\ (work z' <= work z)%nat /\
      Z.of_nat (length (next_in z')) - avail_in z' = Z.of_nat (length (next_in z)) - avail_in z.
Proof.
  induction fuel as [|fuel IH]; intros z Hz Hw; [lia|]. cbn [input_loop].
  destruct (negb _ && _); [|eexists; split; [done|]; intros z' [= <-]; by split_and!].
  destruct (deflate_stream Z_NO_FLUSH z) as [err z1] eqn:E.
  destruct (deflate_stream_ok _ _ _ _ _ _ Hz E) as (Hz1 & Hl & Hw1 & _).
  destruct (Z.eqb_spec err Z_OK) as [->|_]; cbn [negb]; [|eexists; by split].
  destruct (IH z1 Hz1) as (r & -> & Hr); [specialize (Hw1 eq_refl); lia|]. exists r. split; [done|].
  intros z' ->. destruct (Hr z' eq_refl) as (? & ? & ?). specialize (Hw1 eq_refl). split_and!; [done|lia|lia].
Qed.

Lemma finish_loop_ends data room fuel : forall z,
  stream_ok data room z -> avail_in z = 0 -> (work z < fuel)%nat ->
  exists r, finish_loop fuel z = Some r /\
    forall z', r = Some z' -> total_out z' <= room /\
      gunzip (z_out z') = Some (take (length data - length (next_in z)) data).
Proof.
  induction fuel as [|fuel IH]; intros z Hz Hin Hw; [lia|]. cbn [finish_loop].
  destruct (deflate_stream Z_FINISH z) as [err z1] eqn:E.
  destruct (deflate_stream_ok _ _ _ _ _ _ Hz E) as (Hz1 & Hl & Hw1 & Hi1). specialize (Hi1 Hin).
  destruct (Z.eqb_spec err Z_STREAM_END) as [->|_].
  - eexists. split; [done|]. intros z' [= <-]. split; [destruct Hz1; lia|].
    destruct Hz as [(a & Ha & Hd) _ _ _]. unfold deflate_stream in E.
    destruct (deflate (z_state z) Z_FINISH _ (avail_out z)) as [[[e s] n] out] eqn:E'. injection E as -> <-.
    rewrite Hin in E'. cbn [Z.to_nat take z_out] in E' |- *. apply (deflate_end _ _ _ _ _ _ _ _ Ha) in E' as [_ ->].
    rewrite app_nil_r, Hd, length_app. f_equal. symmetry. apply take_app_length'. lia.
  - destruct (Z.eqb_spec err Z_OK) as [->|_]; cbn [negb]; [|eexists; by split].
    destruct (IH z1 Hz1 Hi1) as (r & -> & Hr); [specialize (Hw1 eq_refl); lia|]. exists r. split; [done|].
    intros z' ->. destruct (Hr z' eq_refl) as [? ->]. split; [done|].
    do 3 f_equal. lia.
Qed.

(** Whatever zlib does within its documentation, the call returns and what it
    wrote fits; success means that the output decompresses to the data, cut to
    its length modulo [2^32]. *)
Lemma gzcompress_returns data nzdata :
  0 <= nzdata -> exists ret out, gzcompress data nzdata = Some (ret, out) /\ Z.of_nat (length out) <= nzdata /\
    (ret = 0 -> gunzip out = Some (take (Z.to_nat (u32 (Z.of_nat (length data)))) data)).
Proof.
  intros Hn. unfold gzcompress. destruct data as [|c data]; [by eexists _, _|]. set (v := c :: data).
  destruct deflateInit2 as [s|] eqn:Ei; [|by eexists _, _]. cbn zeta.
  set (z := MkZ _ _ _ _ _). pose proof (u32_range (Z.of_nat (length v))) as Hu. pose proof (u32_range nzdata) as Hr.
  assert (u32 (Z.of_nat (length v)) <= Z.of_nat (length v)) as Hle by (apply Z.mod_le; lia).
  assert (u32 nzdata <= nzdata) as Hle' by (apply Z.mod_le; lia). unfold is_u32 in *.
  assert (stream_ok v (u32 nzdata) z) as Hz.
  { split; cbn [z z_state z_out next_in avail_in avail_out]; [|lia|lia|done]. exists []. split; [by constructor|done]. }
  destruct (input_loop_ends v (u32 nzdata) nzdata (S (work z)) z Hz) as (r & E & Hin); [lia|].
  unfold work in E. rewrite E. cbn [mbind option_bind]. destruct r as [z1|]; [|by eexists _, _].
  destruct (Hin z1 eq_refl) as (Hz1 & Hw & Hl). destruct (Z.eqb_spec (avail_in z1) 0) as [H0|H0]; cbn [negb].
  - destruct (finish_loop_ends v (u32 nzdata) (S (work z)) z1 Hz1 H0) as (r & E2 & Hf); [lia|].
    unfold work in E2. rewrite E2. cbn [mbind option_bind]. destruct r as [z2|]; [|by eexists _, _].
    destruct (Hf z2 eq_refl) as [Ho Hg]. destruct (negb (deflateEnd _ =? Z_OK)); [by eexists _, _|].
    eexists _, _. split; [done|]. unfold total_out in Ho. split; [lia|]. intros _. rewrite Hg. do 2 f_equal.
    cbn [z next_in avail_in] in Hl. lia.
  - eexists _, _. split; [done|]. split; [done|]. intros E0. exfalso.
    destruct Hz1 as [(a & _ & Hd) Hi1 _ _]. apply (f_equal length) in Hd. rewrite length_app in Hd.
    cbn [z avail_in next_in] in Hl. apply (i32_nonzero (avail_in z1)); [lia|done].
Qed.

(** The reply's call: a buffer as large as the data. *)
Lemma gzcompress_reply data :
  Z.of_nat (length data) < 2 ^ 31 ->
  exists ret out, gzcompress data (Z.of_nat (length data)) = Some (ret, out) /\ Z.of_nat (length out) < 2 ^ 31 /\
    (ret = 0 -> gunzip out = Some data).
Proof.
  intros Hl. destruct (gzcompress_returns data (Z.of_nat (length data))) as (ret & out & E & Ho & Hg); [lia|].
  exists ret, out. split; [done|]. split; [lia|]. intros Hr. rewrite (Hg Hr), u32_id by (unfold is_u32; lia).
  by rewrite take_ge by lia.
Qed.

(** C31. [gzcompress] is safe and right within what [zlib.h] documents: it returns,
    whatever room it is given, never writes more than [*nzdata] bytes, and when it
    reports success the bytes written decompress to the data, if that has less
    than 4 GB. *)
Theorem gzcompress_correct data nzdata :
  0 <= nzdata -> Z.of_nat (length data) < 2 ^ 32 ->
  exists ret out, gzcompress data nzdata = Some (ret, out) /\ Z.of_nat (length out) <= nzdata /\
    (ret = 0 -> gunzip out = Some data).
Proof.
  intros Hn Hl. destruct (gzcompress_returns data nzdata Hn) as (ret & out & E & Ho & Hg).
  exists ret, out. split; [done|]. split; [done|]. intros Hr.
  rewrite (Hg Hr), u32_id by (unfold is_u32; lia). by rewrite take_ge by lia.
Qed.

(** Of longer data only the length modulo [2^32] is compressed, and success is
    reported all the same. *)
Theorem gzcompress_cuts_large_data data nzdata ret out :
  2 ^ 32 <= Z.of_nat (length data) -> 0 <= nzdata -> gzcompress data nzdata = Some (ret, out) -> ret = 0 ->
  gunzip out <> Some data.
Proof.
  intros Hl Hn E Hr. destruct (gzcompress_returns data nzdata Hn) as (ret' & out' & E' & _ & Hg).
  rewrite E in E'. injection E' as <- <-. rewrite (Hg Hr). intros [= Ht]. apply (f_equal length) in Ht.
  rewrite length_take in Ht. pose proof (u32_range (Z.of_nat (length data))). unfold is_u32 in *. lia.
Qed.

End Spec.

(** ** An instance: the output is the input, written when the stream is finished *)

Module Stored.

Definition deflate_stored (s : bytes) (f : flush) (i : bytes) (room : Z) : Z * bytes * nat * bytes :=
  let n := length i in
  match f with
  | Z_NO_FLUSH => (if (n =? 0)%nat then -5 else Z_OK, s ++ i, n, [])
  | Z_FINISH =>
      let s := s ++ i in
      let out := take (Z.to_nat room) s in
      (if (length s <=? Z.to_nat room)%nat then Z_STREAM_END
       else if (n =? 0)%nat && (length out =? 0)%nat then -5 else Z_OK, drop (Z.to_nat room) s, n, out)
  end.

#[export] Instance zlib : ZLib bytes := {
  deflateInit2 := Some [];
  deflate := deflate_stored;
  deflateEnd _ := Z_OK
}.

Lemma deflated_eq (s a b : bytes) : deflated s a b -> a = b ++ s.
Proof.
  induction 1 as [s [= <-]|s a b f i room err s' n out _ IH E]; [done|]. subst a. cbn in E.
  destruct f; injection E as _ <- <- <-.
  - by rewrite take_ge, app_nil_r, app_assoc.
  - by rewrite take_ge, <- !app_assoc, take_drop.
Qed.

#[export] Instance zlib_spec : ZLibSpec bytes Some.
Proof.
  split.
  - intros s f i room err s' n out Hr E. destruct f; injection E as _ _ <- <-; [cbn; lia|]. rewrite length_take. lia.
  - intros s f i room s' n out E. destruct f; cbn in E.
    + injection E as E _ <- _. destruct (Nat.eqb_spec (length i) 0); [done|]. left. lia.
    + injection E as E _ <- <-. destruct (Nat.leb_spec (length (s ++ i)) (Z.to_nat room)); [done|].
      destruct (Nat.eqb_spec (length i) 0); [|left; lia]. cbn [andb] in E.
      destruct (Nat.eqb_spec (length (take (Z.to_nat room) (s ++ i))) 0); [done|]. right. intros E'. by rewrite E' in *.
  - intros s a b i room s' n out Hd E. apply deflated_eq in Hd as ->. cbn in E. injection E as E _ <- <-.
    destruct (Nat.leb_spec (length (s ++ i)) (Z.to_nat room)) as [Hl|Hl].
    + by rewrite (take_ge (s ++ i)), app_assoc by lia.
    + by destruct (_ && _).
Qed.

End Stored.

Import Stored.

Lemma gzcompress_correct_witness :
  exists ret out, gzcompress (lit "hello") 5 = Some (ret, out) /\ ret = 0 /\ Some out = Some (lit "hello").
Proof.
  destruct (gzcompress_correct (gunzip := Some) (lit "hello") 5) as (ret & out & E & _ & Hg); [lia|cbn; lia|].
  exists ret, out. split; [exact E|]. assert (ret = 0) as Hr by (vm_compute in E; by injection E as <- _).
  split; [exact Hr|exact (Hg Hr)].
Defined.
