(* ===== verification/Http.v ===== *)
(** [common/xevHtpdBase.cpp], [src/xevHtpdBackend.cpp], [src/xevHtpdFrontend.cpp]
    and the start-up of [src/xHttpCache.cpp]: the HTTP side.

    libevhtp is outside the model: a request is what the callbacks read of it
    (the method, the path, what [evhtp_header_find] returns for a name, the
    parsed query, the body) and a callback gives the one reply it sends.
    RocksDB's statistics text is a parameter.  [None] is undefined behaviour. *)

From S2P Require Import Prelude Cstd Util SortedSet MurmurHash2 EtagManager RocksDB DataBase IniFile Config Double JsonValue JsonWriter Mpfd Gzip.

Inductive htp_method := htp_GET | htp_POST | htp_PUT | htp_DELETE | htp_OTHER.

#[global] Instance htp_method_eq_dec : EqDecision htp_method.
Proof. solve_decision. Defined.

(** [evhtp_request_t] *)
Record Request := MkRequest {
  method : htp_method;
  full : bytes;
  header_find : bytes -> option bytes;
  query : list (bytes * option bytes);
  buffer_in : bytes
}.

Record Reply := MkReply { res_code : Z; headers_out : list (bytes * bytes); buffer_out : bytes }.

Definition EVHTP_RES_OK : Z := 200.
Definition EVHTP_RES_ACCEPTED : Z := 202.
Definition EVHTP_RES_NOTMOD : Z := 304.
Definition EVHTP_RES_BADREQ : Z := 400.
Definition EVHTP_RES_UNAUTH : Z := 401.
Definition EVHTP_RES_NOTFOUND : Z := 404.
Definition EVHTP_RES_SERVERR : Z := 500.

Definition SERVER_SIGNATURE : bytes := lit "xhttpcache".

(** ** [xevHtpdBase] *)

(** The path without its leading slash. *)
Definition uri_of (req : Request) : bytes := drop 1 (cstr (full req)).

Definition content_type_table : list (bytes * bytes) :=
  [(lit "htm", lit "text/html"); (lit "js", lit "application/x-javascript"); (lit "html", lit "text/html");
   (lit "css", lit "text/css"); (lit "txt", lit "text/plain"); (lit "c", lit "text/plain");
   (lit "cpp", lit "text/plain"); (lit "h", lit "text/plain"); (lit "gif", lit "image/gif");
   (lit "jpg", lit "image/jpeg"); (lit "ico", lit "image/gif"); (lit "jpeg", lit "image/jpeg");
   (lit "png", lit "image/png"); (lit "pdf", lit "application/pdf"); (lit "ps", lit "application/postsript")].

(** The loop does not stop at a match: the last one counts. *)
Definition GuessContentType (path : bytes) : bytes :=
  let path := cstr path in
  match find_last (fun b => bool_decide (b = "."%byte)) path with
  | None => lit "text/plain"
  | Some i =>
      let tail := drop i path in
      if bool_decide ("/"%byte ∈ tail) then lit "text/plain"
      else
        foldl (fun type e => if strcasecmp_eq e.1 (drop 1 tail) then e.2 else type)
          (lit "text/plain") content_type_table
  end.

(** [strncmp] over the length of [arg]: a key that starts with it matches. *)
Definition uri_arg_find (req : Request) (arg : bytes) : option bytes :=
  foldr (fun kv rest =>
    match kv.2 with
    | Some v => if is_prefix arg (cstr kv.1) && (0 <? length v)%nat then Some (cstr v) else rest
    | None => rest
    end) None (query req).

(** Replies, with the headers added before. *)
Definition SendStatusResphone (hs : list (bytes * bytes)) (code : Z) (text : bytes) : Reply :=
  MkReply code hs (cstr (take 1023 text)).
Definition SendHttpResphone (hs : list (bytes * bytes)) (text : bytes) : Reply :=
  MkReply EVHTP_RES_OK (hs ++ [(lit "Server", SERVER_SIGNATURE)]) text.

(** [InitSSL]: the configuration handed to evhtp, when both files are named. *)
Record SslCfg := MkSsl { ssl_pemfile : bytes; ssl_privfile : bytes; scache_timeout : Z }.

Definition InitSSL (cur : option SslCfg) (pemfile privfile : bytes) (timeout : Z) : bool * option SslCfg :=
  if bool_decide (cstr pemfile = []) || bool_decide (cstr privfile = []) then (false, cur)
  else (true, Some (MkSsl (cstr pemfile) (cstr privfile) timeout)).

(** [toGMT]: [asctime] of [gmtime], without its newline. *)
Definition days_of_week : list bytes :=
  [lit "Sun"; lit "Mon"; lit "Tue"; lit "Wed"; lit "Thu"; lit "Fri"; lit "Sat"].
Definition months : list bytes :=
  [lit "Jan"; lit "Feb"; lit "Mar"; lit "Apr"; lit "May"; lit "Jun"; lit "Jul"; lit "Aug"; lit "Sep"; lit "Oct";
   lit "Nov"; lit "Dec"].

Definition two_digits (z : Z) : bytes := [zb (48 + z / 10); zb (48 + z mod 10)].
Definition pad3 (z : Z) : bytes := replicate (3 - length (udec z)) x20 ++ udec z.

(** Year, month (from 0) and day of a day counted from 1970. *)
Definition civil (days : Z) : Z * Z * Z :=
  let z := days + 719468 in
  let era := z / 146097 in
  let doe := z - era * 146097 in
  let yoe := (doe - doe / 1460 + doe / 36524 - doe / 146096) / 365 in
  let doy := doe - (365 * yoe + yoe / 4 - yoe / 100) in
  let mp := (5 * doy + 2) / 153 in
  let d := doy - (153 * mp + 2) / 5 + 1 in
  let m := if mp <? 10 then mp + 2 else mp - 10 in
  (yoe + era * 400 + (if m <=? 1 then 1 else 0), m, d).

Definition toGMT (t : Z) : bytes :=
  let days := t / 86400 in
  let secs := t mod 86400 in
  let '(y, m, d) := civil days in
  nth (Z.to_nat ((4 + days) mod 7)) days_of_week [] ++ lit " " ++ nth (Z.to_nat m) months [] ++ pad3 d ++ lit " "
  ++ two_digits (secs / 3600) ++ lit ":" ++ two_digits (secs / 60 mod 60) ++ lit ":" ++ two_digits (secs mod 60)
  ++ lit " " ++ sdec y.

(** ** [xevHtpdBackend] *)

Definition CheckAuth (cfg : xConfig) (req : Request) : bool :=
  let pkey := b_encode_pass (backend cfg) in
  match pkey with
  | [] => true
  | _ :: _ =>
      match header_find req (lit "Authorization") with
      | None => false
      | Some auth =>
          match find (lit "Basic ") (cstr auth) with
          | None => false
          | Some i => strcmp_eq (drop (i + 6) (cstr auth)) pkey
          end
      end
  end.

Definition unauthorized (hs : list (bytes * bytes)) : Reply :=
  MkReply EVHTP_RES_UNAUTH
    (hs ++ [(lit "Content-Length", lit "0"); (lit "WWW-Authenticate", lit "Basic realm=" ++ dquote ++ lit "xSky" ++ dquote);
            (lit "Server", SERVER_SIGNATURE)]) [].

(** [None] when the request may go on, otherwise the refusal that was sent. *)
Definition CheckSession (cfg : xConfig) (req : Request) (hs : list (bytes * bytes)) : option Reply :=
  if CheckAuth cfg req then None else Some (unauthorized hs).

(** One turn of the loop over the fields: the data of a file, or [None] for a
    text field, which is only printed. *)
Definition upload_of (f : Field) : result (option bytes) :=
  rbind (fun t =>
    match t with
    | TextType => rbind (fun _ => inl None) (GetTextTypeContent f)
    | _ =>
        rbind (fun _ => rbind (fun _ => rbind (fun c => inl (Some (default [] c))) (GetFileContent f))
                          (GetFileContentSize f)) (GetFileName f)
    end) (GetType f).

(** The first file in the order of the field names. *)
Fixpoint first_file (fields : gmap bytes Field) (names : list bytes) : result (option bytes) :=
  match names with
  | [] => inl None
  | n :: names =>
      match fields !! n with
      | Some f =>
          rbind (fun r => match r with Some d => inl (Some d) | None => first_file fields names end) (upload_of f)
      | None => first_file fields names
      end
  end.

(** Whether an upload was found, and the data; an exception of the parser
    leaves the data empty.  The length comes as an [int]: 2 GB of body give a
    negative one, with which the parser allocates and copies. *)
Definition ParasrMultipartPost (cfg : xConfig) (content_type buf : bytes) (length : Z) : option (bool * bytes) :=
  let p := SetUploadedFilesStorage parser_new InMemory in
  let p := SetMaxCollectedDataLength p (b_max_upload_file_size (backend cfg)) in
  match SetContentType p content_type with
  | inr _ => Some (false, [])
  | inl p =>
      if length <? 0 then None
      else
        match
          rbind (fun p => first_file (GetFieldsMap p) (MemStore.sort_keys (map_to_list (GetFieldsMap p)).*1))
            (AcceptSomeData p (take (Z.to_nat length) buf))
        with
        | inl (Some d) => Some (true, d)
        | inl None => Some (false, [])
        | inr _ => Some (false, [])
        end
  end.

Section Servers.
Context {DB It : Type} `{RocksDB DB It}.

(** The body is copied out and, unless it is a form, read as a C string. *)
Definition post_value (cfg : xConfig) (req : Request) : option bytes :=
  let len := length (buffer_in req) in
  match header_find req (lit "Content-Type") with
  | Some ct =>
      match find (lit "multipart/form-data") (cstr ct) with
      | Some _ => '(_, value) ← ParasrMultipartPost cfg (cstr ct) (buffer_in req) (i32 (Z.of_nat len)); Some value
      | None => Some (cstr (buffer_in req))
      end
  | None => Some (cstr (buffer_in req))
  end.

Definition RESTfulPro (cfg : xConfig) (req : Request) (x : xDataBase DB) (now : timeval) (hs : list (bytes * bytes))
  : option (Reply * xDataBase DB) :=
  let key := uri_of req in
  match method req with
  | htp_GET =>
      '(ret, sval, x) ← xdb_Get x key (MkValue 0 []);
      if decide (ret = db_null) then Some (SendStatusResphone hs EVHTP_RES_NOTFOUND (lit "NOT FOUND"), x)
      else Some (SendHttpResphone hs (strValue sval), x)
  | htp_POST | htp_PUT =>
      value ← post_value cfg req;
      '(ret, x) ← xdb_Set x now key value;
      if 0 <? ret_num ret then Some (SendStatusResphone hs EVHTP_RES_SERVERR (lit "EVHTP_RES_SERVERR"), x)
      else Some (SendStatusResphone hs EVHTP_RES_OK (lit "OK"), x)
  | htp_DELETE =>
      let '(ret, x) := xdb_Del x key in
      if 0 <? ret_num ret then Some (SendStatusResphone hs EVHTP_RES_NOTFOUND (lit "NOT FOUND"), x)
      else Some (SendStatusResphone hs EVHTP_RES_ACCEPTED (lit "OK"), x)
  | htp_OTHER => Some (SendStatusResphone hs EVHTP_RES_BADREQ (lit "BADREQUEST"), x)
  end.

(** The main database and the one of the administration pages. *)
Record Backend := MkBack { bk_xdb : xDataBase DB; bk_sysdb : xDataBase DB }.

Definition wants_sysdb (req : Request) : bool :=
  match uri_arg_find req (lit "db") with Some v => strcmp_eq v (lit "xdb") | None => false end.

Definition RESTCallback (cfg : xConfig) (req : Request) (b : Backend) (now : timeval) : option (Reply * Backend) :=
  let uri := uri_of req in
  let hs := [(lit "Content-Type", GuessContentType uri)] in
  match CheckSession cfg req hs with
  | Some r => Some (r, b)
  | None =>
      if (length uri =? 0)%nat then Some (SendStatusResphone hs EVHTP_RES_NOTFOUND (lit "NOT FOUND"), b)
      else if wants_sysdb req then
        '(r, x) ← RESTfulPro cfg req (bk_sysdb b) now hs; Some (r, MkBack (bk_xdb b) x)
      else
        '(r, x) ← RESTfulPro cfg req (bk_xdb b) now hs; Some (r, MkBack x (bk_sysdb b))
  end.

Definition AdminShellCallback (cfg : xConfig) (req : Request) (b : Backend) (now : timeval) : option (Reply * Backend) :=
  match CheckSession cfg req [] with
  | Some r => Some (r, b)
  | None =>
      '(r, x) ← RESTfulPro cfg req (bk_sysdb b) now [(lit "Content-Type", GuessContentType (uri_of req))];
      Some (r, MkBack (bk_xdb b) x)
  end.

(** [GetHttpPostText]: the whole body, parsed as a query by libevhtp;
    [GetHttpPostData]: the body in a block of one byte more, which is left as
    [malloc] gave it. *)
Definition GetHttpPostText {Q} (evhtp_parse_query : bytes -> Q) (req : Request) : Q := evhtp_parse_query (buffer_in req).
Definition GetHttpPostData (garbage : byte) (req : Request) : bytes := buffer_in req ++ [garbage].

(** [stats] is the text of RocksDB's statistics. *)
Definition StatisticsCallback (stats : bytes) (cfg : xConfig) (req : Request) (b : Backend) : Reply * Backend :=
  match CheckSession cfg req [] with
  | Some r => (r, b)
  | None => (SendHttpResphone [(lit "Content-Type", lit "text/plain")] stats, b)
  end.

(** A sequence of assignments to the members of a new value. *)
Definition json_object (l : list (string * Value)) : option Value :=
  foldl (fun o '(k, v) => o ← o; put_name o (lit k) v) (Some null) l.

Definition config_json (c : xConfig) : option Value :=
  let a := app c in let f := frontend c in let b := backend c in let d := dbcfg c in
  let s := Value_string in let n := Value_int in
  frontend ← json_object [
    ("ip", s (f_ip f)); ("port", n (f_port f)); ("threads", n (f_threads f)); ("timeout", n (f_timeout f));
    ("gzip", n (f_gzip f)); ("etag", n (f_etag f)); ("etagcachecount", n (f_etag_cache_count f));
    ("etagcachesize", n (f_etag_cache_size f)); ("pemfile", s (f_pemfile f)); ("privfile", s (f_privfile f));
    ("ssltimeout", n (f_ssl_timeout f)); ("defaultindex", s (f_default_index f))];
  backend ← json_object [
    ("ip", s (b_ip b)); ("port", n (b_port b)); ("threads", n (b_threads b)); ("timeout", n (b_timeout b));
    ("username", s (b_username b)); ("password", s (b_password b)); ("pemfile", s (b_pemfile b));
    ("privfile", s (b_privfile b)); ("ssltimeout", n (b_ssl_timeout b))];
  httpcache ← json_object [
    ("logfilename", s (log_filename a)); ("logfilesize", Value_uint (u32 (log_filesize a)));
    ("loglevel", s (log_level a)); ("daemonize", n (run_daemonize a)); ("guard", n (run_guard a));
    ("debug", n (debug a))];
  redis ← json_object [("ip", s (redis_ip a)); ("port", n (redis_port a))];
  db ← json_object [
    ("db_base_dir", s (db_base_dir d)); ("create_if_missing", Value_bool (create_if_missing d));
    ("max_open_files", n (max_open_files d)); ("max_file_opening_threads", n (max_file_opening_threads d));
    ("max_total_wal_size", Value_uint (u32 (max_total_wal_size d))); ("db_log_dir", s (db_log_dir d));
    ("write_buffer_size", Value_uint (u32 (write_buffer_size d))); ("compression", Value_bool (compression d));
    ("ttl", Value_uint (db_ttl d))];
  json_object [("frontend", frontend); ("backend", backend); ("httpcache", httpcache); ("redis", redis); ("db", db)].

Definition ConfigCallback (cfg : xConfig) (req : Request) (b : Backend) : option (Reply * Backend) :=
  match CheckSession cfg req [] with
  | Some r => Some (r, b)
  | None =>
      root ← config_json cfg;
      strResult ← fast_write FastWriter_new root;
      Some (SendHttpResphone [(lit "Content-Type", lit "text/json")] strResult, b)
  end.

(** Appending to a null value; no key leaves it null. *)
Definition key_list (keys : list bytes) : option Value :=
  foldl (fun o k => o ← o; append o (Value_string k)) (Some null) keys.

(** The reply for a negative code prints the address of the parsed URI as text. *)
Definition KeyScanCallback (cfg : xConfig) (req : Request) (b : Backend) : option (Reply * Backend) :=
  match CheckSession cfg req [] with
  | Some r => Some (r, b)
  | None =>
      let start := default [] (uri_arg_find req (lit "key")) in
      let limit := atoi (default (lit "1000") (uri_arg_find req (lit "limit"))) in
      let x := if wants_sysdb req then bk_sysdb b else bk_xdb b in
      let '(ret, vkey) := xdb_ScanKey x start [zb 255] limit [] in
      if ret_num ret <? 0 then None
      else
        keylist ← key_list vkey;
        json ← fast_write FastWriter_new keylist;
        Some (SendHttpResphone [(lit "Content-Type", lit "text/json; charset=UTF-8")] json, b)
  end.

(** [SetRouteTable]: the callbacks by path, and the one for every other path. *)
Inductive backend_cb := KeyScanCb | StatisticsCb | ConfigCb | AdminShellCb | RESTCb.

Definition backend_routes : list (bytes * backend_cb) * backend_cb :=
  ([(lit "/scan", KeyScanCb); (lit "/statistics", StatisticsCb); (lit "/config", ConfigCb);
    (lit "/admin.htm", AdminShellCb)], RESTCb).

Definition backend_call (cb : backend_cb) (stats : bytes) (cfg : xConfig) (req : Request) (b : Backend)
    (now : timeval) : option (Reply * Backend) :=
  match cb with
  | KeyScanCb => KeyScanCallback cfg req b
  | StatisticsCb => Some (StatisticsCallback stats cfg req b)
  | ConfigCb => ConfigCallback cfg req b
  | AdminShellCb => AdminShellCallback cfg req b now
  | RESTCb => RESTCallback cfg req b now
  end.

(** ** [xevHtpdFrontend] *)

Context {ZS : Type} `{ZLib ZS}.

(** The text between the quotes: both ends are erased unseen, which needs a
    second character. *)
Definition etag_text (h : bytes) : option bytes :=
  let s := drop 1 (cstr h) in
  match s with [] => None | _ :: _ => Some (take (length s - 1) s) end.

Definition etag_header (ts : Z) : bytes := take 21 (dquote ++ sdec (i64 ts) ++ dquote).
Definition last_modified (ts : Z) : bytes := toGMT (Z.quot (i64 ts) 1000) ++ lit " GMT".

(** The value of a header of the reply is kept by its address, as
    [evhtp_header_new] is told not to copy it: a string that outlives the request,
    or a local array of the block with the given number. *)
Inductive text_ptr := Static (s : bytes) | InBlock (b : nat).

(** What the arrays of the open blocks hold; the end of a block is the end of its
    array. *)
Abbreviation blocks := (gmap nat bytes).

Definition deref (live : blocks) (p : text_ptr) : option bytes :=
  match p with Static s => Some s | InBlock b => live !! b end.

Definition AddHeader (hs : list (bytes * text_ptr)) (key : bytes) (val : text_ptr) : list (bytes * text_ptr) :=
  hs ++ [(key, val)].

(** The headers as they are when the reply is sent; [None] when one of them lay in
    a block that has ended. *)
Definition read_headers (live : blocks) (hs : list (bytes * text_ptr)) : option (list (bytes * bytes)) :=
  mapM (fun h => v ← deref live h.2; Some (h.1, v)) hs.

(** [sprintf] into the array of a block that begins. *)
Definition print_into (live : blocks) (b size : nat) (s : bytes) : option blocks :=
  if (length s <? size)%nat then Some (<[b := s]> live) else None.

(** After the value was read: [ret] is [db_ok], or [db_err] with a timestamp
    that was never set.  [LastModified], of 32 bytes, is the array of block 1,
    [Etag] that of block 2; the size of a compressed reply is passed as an
    [int]. *)
Definition send_value (cfg : xConfig) (req : Request) (uri : bytes) (ret : ret_code) (value : xValue) : option Reply :=
  let ims := header_find req (lit "If-Modified-Since") in
  let inm := if f_etag (frontend cfg) =? 1 then header_find req (lit "If-None-Match") else None in
  '(modified, live, hs) ←
    match ims with
    | None => Some (false, ∅, [])
    | Some h =>
        if decide (ret = db_err) then None
        else
          live ← print_into ∅ 1 32 (last_modified (timestamp value));
          lm ← live !! 1%nat;
          let modified := strncasecmp_eq h lm (length lm) in
          let hs := AddHeader [] (lit "Last-Modified") (InBlock 1) in
          Some (modified, delete 1%nat live, hs)
    end;
  '(etag, live, hs) ←
    match inm with
    | None => Some (false, live, hs)
    | Some h =>
        if decide (ret = db_err) then None
        else
          let et := etag_header (timestamp value) in
          live ← print_into live 2 22 et;
          let etag := strncasecmp_eq et h (length et) in
          let hs := AddHeader hs (lit "ETag") (InBlock 2) in
          Some (etag, delete 2%nat live, hs)
    end;
  if (modified : bool) || (etag : bool) then
    hs ← read_headers live hs; Some (MkReply EVHTP_RES_NOTMOD hs [])
  else
    let hs := AddHeader hs (lit "Content-Type") (Static (GuessContentType uri)) in
    if f_gzip (frontend cfg) =? 1 then
      '(ret, buf) ← gzcompress (strValue value) (Z.of_nat (length (strValue value)));
      if negb (ret =? 0) then hs ← read_headers live hs; Some (SendHttpResphone hs (strValue value))
      else if INT_MAX <? Z.of_nat (length buf) then None
      else
        hs ← read_headers live (AddHeader hs (lit "Content-Encoding") (Static (lit "gzip")));
        Some (SendHttpResphone hs buf)
    else hs ← read_headers live hs; Some (SendHttpResphone hs (strValue value)).

Definition GetCallbackPro (cfg : xConfig) (req : Request) (uri : bytes) (x : xDataBase DB)
  : option (Reply * xDataBase DB) :=
  if negb (bool_decide (method req = htp_GET)) then
    Some (SendStatusResphone [] EVHTP_RES_BADREQ (lit "error"), x)
  else
    let inm := if f_etag (frontend cfg) =? 1 then header_find req (lit "If-None-Match") else None in
    '(hit, x) ← match inm with
                | None => Some (false, x)
                | Some h => s ← etag_text h; CheckEtag x uri (u64 (str_to_int64 s))
                end;
    if (hit : bool) then Some (MkReply EVHTP_RES_NOTMOD [] [], x)
    else
      '(ret, value, x) ← xdb_Get x uri (MkValue 0 []);
      if decide (ret = db_null) then Some (SendStatusResphone [] EVHTP_RES_NOTFOUND (lit "NOT FOUND"), x)
      else r ← send_value cfg req uri ret value; Some (r, x).

Definition IndexCallback (cfg : xConfig) (req : Request) (x : xDataBase DB) : option (Reply * xDataBase DB) :=
  GetCallbackPro cfg req (lit "index.html") x.

Definition GetCallback (cfg : xConfig) (req : Request) (x : xDataBase DB) : option (Reply * xDataBase DB) :=
  GetCallbackPro cfg req (uri_of req) x.

(** [SetRouteTable]: the paths of [default_index] give the index page. *)
Definition frontend_index_paths (cfg : xConfig) : list bytes :=
  match f_default_index (frontend cfg) with
  | [] => []
  | _ :: _ => (str2Vect (Some (f_default_index (frontend cfg))) [] (lit "|")).2
  end.

End Servers.

Arguments Backend : clear implicits.

(** ** Start-up ([xhttpcache] of [xHttpCache.cpp]) *)

(** What the servers are started with. *)
Record Started (DB : Type) := MkStarted {
  st_xdb : xDataBase DB;
  st_sysdb : xDataBase DB;
  st_frontend_ssl : option SslCfg;
  st_backend_ssl : option SslCfg
}.
Arguments MkStarted {DB} _ _ _ _.
Arguments st_xdb {DB} _.
Arguments st_sysdb {DB} _.
Arguments st_frontend_ssl {DB} _.
Arguments st_backend_ssl {DB} _.

(** [InitSysDB] shares the ETag manager without using it. *)
Definition InitSysDB {DB} (xdb : xDataBase DB) (d : DB) : xDataBase DB :=
  SetEtag (MkDataBase d None false) (GetEtag xdb) false.

(** [d] and [sd] are the databases [OpenDB] opens. *)
Definition xhttpcache {DB} (cfg : xConfig) (d sd : DB) : Started DB :=
  let f := frontend cfg in let b := backend cfg in
  let xdb := MkDataBase d None false in
  let xdb :=
    if f_etag f =? 1
    then SetEtag xdb (Some (Init etag_new (u64 (f_etag_cache_count f)) (u64 (f_etag_cache_size f)))) false
    else xdb in
  let front := (InitSSL None (f_pemfile f) (f_privfile f) (f_ssl_timeout f)).2 in
  let back := None in
  let sysdb := InitSysDB xdb sd in
  (* the second call is on the frontend again *)
  let front := (InitSSL front (b_pemfile b) (b_privfile b) (b_ssl_timeout b)).2 in
  MkStarted xdb sysdb front back.
