(* ===== verification/HttpSpec.v ===== *)
(** What the HTTP servers promise: who is let in, what the REST interface does
    to the stored map, which uploads are stored, and what the frontend serves. *)

From S2P Require Import Prelude Cstd Util SortedSet MurmurHash2 EtagManager RocksDB DataBase DataBaseSpec IniFile Config Double JsonValue JsonWriter Mpfd Gzip Http.

(** ** Credentials *)

(** The request carries [Basic <credential>] at the end of its Authorization. *)
Definition has_credentials (cfg : xConfig) (req : Request) : Prop :=
  exists auth pre, header_find req (lit "Authorization") = Some auth /\
    cstr auth = pre ++ lit "Basic " ++ cstr (b_encode_pass (backend cfg)).

Lemma CheckAuth_sound cfg req :
  CheckAuth cfg req = true -> b_encode_pass (backend cfg) = [] \/ has_credentials cfg req.
Proof.
  unfold CheckAuth, has_credentials. destruct (b_encode_pass (backend cfg)) as [|c pkey] eqn:Ep; [by left|].
  rewrite <- Ep. destruct (header_find req (lit "Authorization")) as [auth|]; [|done].
  destruct (find (lit "Basic ") (cstr auth)) as [i|] eqn:Ef; [|done].
  intros He%bool_decide_eq_true. right. exists auth, (take i (cstr auth)). split; [done|].
  rewrite (find_split _ _ _ Ef) at 1. change (length (lit "Basic ")) with 6%nat. do 2 f_equal.
  rewrite <- He. symmetry. apply cstr_id, Forall_drop, cstr_no_nul.
Qed.

Lemma CheckAuth_basic cfg req :
  header_find req (lit "Authorization") = Some (lit "Basic " ++ b_encode_pass (backend cfg)) ->
  CheckAuth cfg req = true.
Proof.
  intros H. unfold CheckAuth. destruct (b_encode_pass (backend cfg)) as [|c pkey] eqn:Ep; [done|].
  rewrite H. change (find (lit "Basic ") (cstr (lit "Basic " ++ ?x))) with (Some 0%nat).
  change (drop (0 + 6) (cstr (lit "Basic " ++ ?x))) with (cstr x). apply bool_decide_eq_true.
  exact (cstr_cstr (c :: pkey)).
Qed.

Section Access.
Context {DB It : Type} `{RocksDB DB It}.

Lemma CheckSession_refused cfg req hs :
  b_encode_pass (backend cfg) <> [] -> ~ has_credentials cfg req ->
  CheckSession cfg req hs = Some (unauthorized hs).
Proof.
  intros Hp Hc. unfold CheckSession. destruct (CheckAuth cfg req) eqn:E; [|done].
  by destruct (CheckAuth_sound _ _ E).
Qed.

(** C8. When a credential is configured, every page of the backend (the REST
    interface, the key listing, the statistics, the configuration and the
    administration page) answers a request without that credential with 401, an
    empty body and a challenge, and leaves both databases alone; a request with
    [Authorization: Basic <credential>] is never refused. *)
Theorem backend_requires_credentials cb stats cfg req (b : Backend DB) now :
  b_encode_pass (backend cfg) <> [] ->
  (~ has_credentials cfg req ->
   exists hs, backend_call cb stats cfg req b now = Some (MkReply EVHTP_RES_UNAUTH hs [], b) /\
     (lit "WWW-Authenticate", lit "Basic realm=" ++ dquote ++ lit "xSky" ++ dquote) ∈ hs) /\
  (header_find req (lit "Authorization") = Some (lit "Basic " ++ b_encode_pass (backend cfg)) ->
   forall hs, CheckSession cfg req hs = None).
Proof.
  intros Hp. split.
  - intros Hc. pose proof (fun hs => CheckSession_refused cfg req hs Hp Hc) as Hs.
    destruct cb; cbn [backend_call]; unfold KeyScanCallback, StatisticsCallback, ConfigCallback,
      AdminShellCallback, RESTCallback; rewrite Hs; (eexists; split; [done|set_solver]).
  - intros Ha hs. unfold CheckSession. by rewrite CheckAuth_basic.
Qed.

End Access.

(** A configuration with the credential of [a:b], and requests. *)
Definition demo_cfg : xConfig :=
  MkConfig (app config_new) (frontend config_new)
    (MkBackend [] 0 0 0 (lit "a") (lit "b") (encode_pass (lit "a") (lit "b")) [] [] 0 1024) (dbcfg config_new).

Definition demo_request (m : htp_method) (path : string) (hdrs : list (bytes * bytes)) (body : bytes) : Request :=
  MkRequest m (lit path)
    (fun n => snd <$> head (filter (fun h => strcasecmp_eq h.1 n = true) hdrs)) [] body.

Definition demo_auth : bytes * bytes := (lit "Authorization", lit "Basic YTpi").
Definition demo_backend : Backend MemStore.store := MkBack (mem_db ∅) (mem_db ∅).

Lemma backend_requires_credentials_witness :
  (exists hs, backend_call (It := MemStore.iter) RESTCb [] demo_cfg (demo_request htp_DELETE "/k" [] []) demo_backend (Timeval 1 0)
    = Some (MkReply 401 hs [], demo_backend)) /\
  CheckSession demo_cfg (demo_request htp_GET "/k" [demo_auth] []) [] = None.
Proof.
  split.
  - destruct (backend_requires_credentials (It := MemStore.iter) RESTCb [] demo_cfg
      (demo_request htp_DELETE "/k" [] []) demo_backend (Timeval 1 0)) as [H1 _]; [discriminate|].
    destruct H1 as (hs & E & _); [intros (auth & pre & Hh & _); discriminate|].
    exists hs. exact E.
  - destruct (backend_requires_credentials (It := MemStore.iter) RESTCb [] demo_cfg
      (demo_request htp_GET "/k" [demo_auth] []) demo_backend (Timeval 1 0)) as [_ H2]; [discriminate|].
    apply H2. vm_compute. reflexivity.
Defined.

(** C40. A configuration file whose [username:password] has more than 93 bytes loads
    with an empty credential on a fresh start: the backend then lets every
    request in. *)
Theorem long_credentials_open_the_backend text cfg req :
  Load config_new text = Some (true, cfg) ->
  b_username (backend cfg) <> [] -> b_password (backend cfg) <> [] ->
  (93 < length (b_username (backend cfg) ++ lit ":" ++ b_password (backend cfg)))%nat ->
  CheckAuth cfg req = true.
Proof.
  intros HL Hu Hp Hlen. unfold CheckAuth.
  by rewrite (loaded_credential _ _ _ HL Hu Hp), encode_pass_long.
Qed.

Definition long_cnf : bytes :=
  lit "[xhttpd_backend]" ++ iniEOL ++ lit "username=admin" ++ iniEOL ++ lit "password=" ++ replicate 88 "x"%byte.

Lemma long_credentials_open_the_backend_witness :
  exists cfg, Load config_new (Some long_cnf) = Some (true, cfg) /\
    CheckAuth cfg (demo_request htp_DELETE "/k" [] []) = true.
Proof.
  eexists. split; [vm_compute; reflexivity|].
  apply (long_credentials_open_the_backend (Some long_cnf)).
  - vm_compute. reflexivity.
  - discriminate.
  - discriminate.
  - vm_compute. lia.
Defined.

(** ** What a request asks for, without the code that finds it out *)

(** The client is let in: no credential is configured, or it follows the first
    [Basic ] of the Authorization header. *)
Definition authorized (cfg : xConfig) (req : Request) : Prop :=
  b_encode_pass (backend cfg) = [] \/
  exists auth pre post, header_find req (lit "Authorization") = Some auth /\
    first_at (lit "Basic ") (cstr auth) pre post /\ post = cstr (b_encode_pass (backend cfg)).

(** A parameter of the query that counts as [arg]: its name begins with it, and it
    has a value. *)
Definition answers (arg : bytes) (kv : bytes * option bytes) : Prop :=
  exists v rest, kv.2 = Some v /\ v <> [] /\ cstr kv.1 = arg ++ rest.

(** The first parameter [db] names the database of the administration pages. *)
Definition names_sysdb (req : Request) : Prop :=
  exists pre k v post, query req = pre ++ (k, Some v) :: post /\ Forall (fun kv => ~ answers (lit "db") kv) pre /\
    answers (lit "db") (k, Some v) /\ cstr v = lit "xdb".

Definition is_form (req : Request) : Prop :=
  exists ct pre post, header_find req (lit "Content-Type") = Some ct /\ cstr ct = pre ++ lit "multipart/form-data" ++ post.

Definition form_type (b : bytes) : bytes := lit "multipart/form-data; boundary=" ++ b.

(** The request is the form [qs] in the encoding of browsers, under the upload
    limit. *)
Definition sends_form (cfg : xConfig) (req : Request) (b : bytes) (qs : list part) : Prop :=
  header_find req (lit "Content-Type") = Some (form_type b) /\ Forall (fun c => c <> x00) b /\
  Forall (part_ok (lit "--" ++ b)) qs /\ NoDup (pname <$> qs) /\ buffer_in req = enc_form (lit "--" ++ b) qs /\
  Z.of_nat (length (buffer_in req)) <= b_max_upload_file_size (backend cfg).

(** What a form uploads: the content of the file whose field name is least,
    nothing when it has no file. *)
Definition uploads (qs : list part) (w : bytes) : Prop :=
  (forall q, q ∈ qs -> pfile q = None) /\ w = [] \/
  exists q, q ∈ qs /\ pfile q <> None /\ w = pcontent q /\
    forall q', q' ∈ qs -> pfile q' <> None -> q' = q \/ blt (pname q) (pname q') = true.

(** [w] is what a POST or PUT stores: the body up to its first NUL, or the upload
    of a form, which is empty when the form exceeds the limit. *)
Record posted (cfg : xConfig) (req : Request) (w : bytes) : Prop := {
  posted_plain : ~ is_form req -> Forall (fun c => c <> x00) w /\
    exists rest, buffer_in req = w ++ rest /\ (rest = [] \/ exists r, rest = x00 :: r);
  posted_form b qs : sends_form cfg req b qs -> uploads qs w;
  posted_large b : header_find req (lit "Content-Type") = Some (form_type b) -> Forall (fun c => c <> x00) b ->
    b_max_upload_file_size (backend cfg) < Z.of_nat (length (buffer_in req)) -> w = [];
  posted_length : (length w <= length (buffer_in req))%nat
}.

(** Texts of less than 2 GB. *)
Definition fits (v : bytes) : Prop := Z.of_nat (length v) < 2 ^ 31.

Lemma CheckAuth_authorized cfg req : CheckAuth cfg req = true <-> authorized cfg req.
Proof.
  unfold CheckAuth, authorized. destruct (b_encode_pass (backend cfg)) as [|c pkey] eqn:Ep; [by split; [left|]|].
  rewrite <- Ep. split.
  - destruct (header_find req (lit "Authorization")) as [auth|]; [|done].
    destruct (find (lit "Basic ") (cstr auth)) as [i|] eqn:Ef; [|done].
    intros He%bool_decide_eq_true. right. exists auth, (take i (cstr auth)), (drop (i + 6) (cstr auth)).
    split; [done|]. split; [exact (find_first_at _ _ _ Ef)|].
    rewrite <- He. symmetry. apply cstr_id, Forall_drop, cstr_no_nul.
  - intros [E|(auth & pre & post & -> & Hf & ->)]; [by rewrite Ep in E|]. rewrite (first_at_find _ _ _ _ Hf).
    apply bool_decide_eq_true. destruct Hf as [-> _]. rewrite app_assoc, drop_app_length' by (by rewrite length_app).
    apply cstr_cstr.
Qed.

Lemma answers_spec arg kv v : kv.2 = Some v ->
  is_prefix arg (cstr kv.1) && (0 <? length v)%nat = true <-> answers arg kv.
Proof.
  intros E. unfold answers. rewrite andb_true_iff, Nat.ltb_lt. split.
  - intros [Hp Hl]. exists v, (drop (length arg) (cstr kv.1)). split_and!; [done|intros ->; cbn in Hl; lia|by apply is_prefix_drop].
  - intros (v' & rest & E' & Hne & ->). rewrite E in E'. injection E' as <-. split; [apply is_prefix_self|]. destruct v; [done|cbn; lia].
Qed.

Lemma wants_sysdb_names req : wants_sysdb req = true <-> names_sysdb req.
Proof.
  unfold wants_sysdb, names_sysdb, uri_arg_find. induction (query req) as [|[k o] l IH]; cbn [foldr fst snd].
  { split; [done|]. by intros ([] & k & v & post & [=] & _). }
  assert (forall P, ~ answers (lit "db") (k, o) ->
    (P <-> exists pre k' v post, l = pre ++ (k', Some v) :: post /\ Forall (fun kv => ~ answers (lit "db") kv) pre /\
      answers (lit "db") (k', Some v) /\ cstr v = lit "xdb") ->
    (P <-> exists pre k' v post, (k, o) :: l = pre ++ (k', Some v) :: post /\ Forall (fun kv => ~ answers (lit "db") kv) pre /\
      answers (lit "db") (k', Some v) /\ cstr v = lit "xdb")) as Hskip.
  { intros P Hn ->. split.
    - intros (pre & k' & v & post & -> & Hp & H). exists ((k, o) :: pre), k', v, post. split; [done|]. split; [by constructor|done].
    - intros ([|kv pre] & k' & v & post & E & Hp & Ha & Hx); injection E as E1 E2; [by subst|].
      subst. inversion Hp; subst. by exists pre, k', v, post. }
  destruct o as [v|]; [|apply Hskip; [by intros (? & ? & [=] & _)|exact IH]].
  pose proof (answers_spec (lit "db") (k, Some v) v eq_refl) as Ha. cbn [fst] in Ha.
  destruct (is_prefix (lit "db") (cstr k) && (0 <? length v)%nat); [|apply Hskip; [by rewrite <- Ha|exact IH]].
  split.
  - intros He%bool_decide_eq_true. exists [], k, v, l. split; [done|]. split; [constructor|]. split; [by apply Ha|].
    by rewrite cstr_cstr in He.
  - intros ([|kv pre] & k' & v' & post & E & Hp & _ & Hv); injection E as; simplify_eq.
    + apply bool_decide_eq_true. by rewrite cstr_cstr.
    + inversion Hp as [|? ? Hn _]; subst. exfalso. apply Hn, Ha. done.
Qed.

(** ** Uploads *)

Lemma upload_of_file q f fn : holds_part q InMemory [] f -> pfile q = Some fn -> upload_of f = inl (Some (pcontent q)).
Proof.
  intros Hh%in_memory_reads_back E. unfold reads_back in Hh. rewrite E in Hh.
  destruct Hh as (H1 & H2 & _ & H3 & c & H4 & <-). unfold upload_of. by rewrite H1, H2, H3, H4.
Qed.

Lemma upload_of_text q f : holds_part q InMemory [] f -> pfile q = None -> upload_of f = inl None.
Proof.
  intros Hh%in_memory_reads_back E. unfold reads_back in Hh. rewrite E in Hh. destruct Hh as (H1 & H2).
  unfold upload_of. by rewrite H1, H2.
Qed.

(** Over sorted names, the file with the least name is found first. *)
Lemma first_file_least (fields : gmap bytes Field) q fn names :
  pfile q = Some fn -> Sorted.StronglySorted bless names -> pname q ∈ names ->
  (forall n, n ∈ names -> exists q' f, fields !! n = Some f /\ holds_part q' InMemory [] f /\
     (n = pname q -> q' = q) /\ (pfile q' <> None -> n = pname q \/ blt (pname q) n = true)) ->
  first_file fields names = inl (Some (pcontent q)).
Proof.
  intros Hq Hs. induction Hs as [|n names Hs IH Hf]; intros Hin Hall; [by apply not_elem_of_nil in Hin|].
  destruct (Hall n) as (q' & f & E & Hh & Hsame & Hmin); [by left|]. cbn [first_file]. rewrite E.
  destruct (decide (n = pname q)) as [->|Hne].
  { rewrite (Hsame eq_refl) in Hh. by rewrite (upload_of_file q f fn). }
  apply elem_of_cons in Hin as [|Hin]; [done|].
  destruct (pfile q') as [fn'|] eqn:E'.
  - destruct (Hmin ltac:(done)) as [|Hlt]; [done|]. rewrite Forall_forall in Hf.
    specialize (Hf _ Hin). unfold bless in Hf. by rewrite (blt_asym _ _ Hf) in Hlt.
  - rewrite (upload_of_text q' f Hh E'). cbn [rbind]. apply IH; [done|]. intros m Hm. apply Hall. by right.
Qed.

Lemma first_file_none (fields : gmap bytes Field) names :
  (forall n, n ∈ names -> exists q f, fields !! n = Some f /\ holds_part q InMemory [] f /\ pfile q = None) ->
  first_file fields names = inl None.
Proof.
  induction names as [|n names IH]; intros Hall; [done|]. destruct (Hall n) as (q & f & E & Hh & Hq); [by left|].
  cbn [first_file]. rewrite E, (upload_of_text q f Hh Hq). cbn [rbind]. apply IH. intros m Hm. apply Hall. by right.
Qed.

Lemma first_file_within (n : nat) (fields : gmap bytes Field) names d :
  (forall name f, fields !! name = Some f -> (length (default [] (FieldContent f)) <= n)%nat) ->
  first_file fields names = inl (Some d) -> (length d <= n)%nat.
Proof.
  intros Hf. induction names as [|m names IH]; cbn [first_file]; [done|]. destruct (fields !! m) as [f|] eqn:E; [|done].
  destruct (upload_of f) as [[d'|]|] eqn:Eu; cbn [rbind]; [|done..]. intros [= <-]. specialize (Hf _ _ E).
  unfold upload_of, GetType, GetTextTypeContent, GetFileName, GetFileContentSize, GetFileContent in Eu.
  destruct (ty f); cbn [rbind] in Eu; [done..|]. destruct (WhereStored f); cbn [rbind] in Eu; [done|]. by injection Eu as <-.
Qed.

(** One of the files of a form has the least name. *)
Lemma least_file (qs : list part) : (forall q, q ∈ qs -> pfile q = None) \/
  exists q, q ∈ qs /\ pfile q <> None /\
    forall q', q' ∈ qs -> pfile q' <> None -> pname q' = pname q \/ blt (pname q) (pname q') = true.
Proof.
  induction qs as [|q qs IH]; [left; by intros q ?%not_elem_of_nil|].
  destruct (decide (pfile q = None)) as [Hq|Hq].
  - destruct IH as [Hn|(m & Hm & Hf & Hl)]; [left|right; exists m]; set_solver.
  - right. destruct IH as [Hn|(m & Hm & Hf & Hl)].
    + exists q. split; [by left|]. split; [done|]. intros q' [->|Hq']%elem_of_cons Hf; [by left|]. exfalso. by apply Hf, Hn.
    + destruct (blt (pname q) (pname m)) eqn:E.
      * exists q. split; [by left|]. split; [done|]. intros q' [->|Hq']%elem_of_cons Hf'; [by left|]. right.
        destruct (Hl q' Hq' Hf') as [->|Hlt]; [done|]. by eapply blt_trans.
      * exists m. split; [by right|]. split; [done|]. intros q' [->|Hq']%elem_of_cons Hf'; [|by apply Hl].
        destruct (blt (pname m) (pname q)) eqn:E'; [by right|left]. by apply blt_total.
Qed.

Lemma same_part (qs : list part) q q' : NoDup (pname <$> qs) -> q ∈ qs -> q' ∈ qs -> pname q = pname q' -> q = q'.
Proof.
  intros Hnd [i Hi]%list_elem_of_lookup [j Hj]%list_elem_of_lookup E.
  assert (i = j) as ->; [|congruence]. eapply (NoDup_lookup _ _ _ (pname q) Hnd); rewrite list_lookup_fmap; [by rewrite Hi|by rewrite Hj, E].
Qed.

(** The file a form uploads is told by its name. *)
Lemma uploads_least (qs : list part) q w : q ∈ qs -> pfile q <> None ->
  (forall q', q' ∈ qs -> pfile q' <> None -> q' = q \/ blt (pname q) (pname q') = true) -> uploads qs w -> w = pcontent q.
Proof.
  intros Hq Hf Hl [[Hn _]|(m & Hm & Hfm & -> & Hlm)]; [exfalso; by apply Hf, Hn|].
  destruct (Hl m Hm Hfm) as [->|H1]; [done|]. destruct (Hlm q Hq Hf) as [->|H2]; [done|]. by rewrite (blt_asym _ _ H1) in H2.
Qed.

(** The C string of a content type of this form is the whole of it. *)
Lemma form_type_cstr b : Forall (fun c => c <> x00) b -> cstr (form_type b) = form_type b.
Proof. intros Hb. apply cstr_id. unfold form_type. apply Forall_app. split; [by repeat constructor|done]. Qed.

(** Of a body below 2 GB the parser is given all. *)
Lemma form_value cfg req b : fits (buffer_in req) ->
  header_find req (lit "Content-Type") = Some (form_type b) -> Forall (fun c => c <> x00) b ->
  post_value cfg req =
    let p := set_boundary (form_parser InMemory [] (b_max_upload_file_size (backend cfg))) (lit "--" ++ b) in
    match rbind (fun p => first_file (GetFieldsMap p) (MemStore.sort_keys (map_to_list (GetFieldsMap p)).*1))
            (AcceptSomeData p (buffer_in req)) with
    | inl (Some d) => Some d
    | _ => Some []
    end.
Proof.
  unfold fits. intros Hlen Hct Hb. unfold post_value. rewrite Hct, form_type_cstr by done.
  change (find (lit "multipart/form-data") (form_type b)) with (Some 0%nat). cbn iota. unfold ParasrMultipartPost.
  change (SetMaxCollectedDataLength _ ?m) with (form_parser InMemory [] m).
  change (SetContentType ?p (form_type b)) with (@inl Parser exn (set_boundary p (lit "--" ++ b))). cbn iota.
  rewrite i32_id by (unfold is_i32; lia). destruct (Z.ltb_spec (Z.of_nat (length (buffer_in req))) 0); [lia|].
  rewrite Nat2Z.id, firstn_all. cbn zeta. by destruct (rbind _ _) as [[d|]|].
Qed.

Lemma sent_form_uploads cfg req b qs w : fits (buffer_in req) ->
  sends_form cfg req b qs -> post_value cfg req = Some w -> uploads qs w.
Proof.
  intros Hlen (Hct & Hb & Hok & Hnd & Hbody & Hmax). rewrite (form_value cfg req b) by done. cbn zeta.
  rewrite Hbody in *. destruct (form_parses InMemory [] b qs (b_max_upload_file_size (backend cfg)))
    as (p1 & p2 & E1 & E2 & H1 & H2); try done.
  assert (p1 = set_boundary (form_parser InMemory [] (b_max_upload_file_size (backend cfg))) (lit "--" ++ b)) as ->
    by by injection E1 as <-.
  rewrite E2. cbn [rbind].
  assert (forall n, n ∈ MemStore.sort_keys (map_to_list (GetFieldsMap p2)).*1 ->
    exists q f, q ∈ qs /\ n = pname q /\ GetFieldsMap p2 !! n = Some f /\ holds_part q InMemory [] f) as Hnames.
  { intros n. rewrite MemStore.elem_of_sort_keys, list_elem_of_fmap. intros ([n' f] & -> & Hf%elem_of_map_to_list).
    cbn [fst]. change (GetField p2 n' = Some f) in Hf.
    destruct (decide (n' ∈ pname <$> qs)) as [(q & -> & Hq)%list_elem_of_fmap|Hn]; [|by rewrite H2 in Hf].
    destruct (H1 q Hq) as (f' & Hf' & Hh). by exists q, f'. }
  destruct (least_file qs) as [Hnone|(q & Hq & Hfile & Hleast)].
  - rewrite first_file_none; [intros [= <-]; by left|]. intros n (q & f & Hq & -> & Hf & Hh)%Hnames. exists q, f. auto.
  - destruct (pfile q) as [fn|] eqn:Efn; [|done]. rewrite (first_file_least _ q fn); [|done|apply MemStore.sort_keys_sorted|..].
    + intros [= <-]. right. exists q. split; [done|]. split; [by rewrite Efn|]. split; [done|].
      intros q' Hq' Hf'. destruct (Hleast q' Hq' Hf') as [E|]; [left; by apply (same_part qs)|by right].
    + rewrite MemStore.elem_of_sort_keys, list_elem_of_fmap. destruct (H1 q Hq) as (f & Hf & _).
      exists (pname q, f). by rewrite elem_of_map_to_list.
    + intros n (q' & f & Hq' & -> & Hf & Hh)%Hnames. exists q', f. split_and!; [done..| |].
      * intros E. by apply (same_part qs).
      * intros Hf'. by apply Hleast.
Qed.

Lemma SetContentType_fields p ct p' : SetContentType p ct = inl p' -> Fields p' = Fields p /\ DataCollector p' = DataCollector p.
Proof. unfold SetContentType. destruct (find _ _) as [[]|]; [|done..]. destruct (find _ _); [|done]. by intros [= <-]. Qed.

(** A body below 2 GB is always turned into a value. *)
Lemma post_value_posted cfg req : fits (buffer_in req) -> exists w, post_value cfg req = Some w /\ posted cfg req w.
Proof.
  intros Hlen. assert (exists w, post_value cfg req = Some w) as [w Ew].
  { unfold post_value, ParasrMultipartPost. destruct (header_find _ _); [|by eexists]. destruct (find _ _); [|by eexists].
    destruct (SetContentType _ _); [|by eexists]. unfold fits in Hlen. rewrite i32_id by (unfold is_i32; lia).
    destruct (Z.ltb_spec (Z.of_nat (length (buffer_in req))) 0); [lia|]. destruct (rbind _ _) as [[]|]; by eexists. }
  exists w. split; [done|]. split.
  - intros Hform. assert (w = cstr (buffer_in req)) as ->.
    { unfold post_value in Ew. destruct (header_find req (lit "Content-Type")) as [ct|] eqn:Ect; [|congruence].
      destruct (find (lit "multipart/form-data") (cstr ct)) as [i|] eqn:Ef; [|congruence].
      destruct Hform. exists ct, (take i (cstr ct)), (drop (i + 19) (cstr ct)). split; [done|]. exact (find_split _ _ _ Ef). }
    split; [apply cstr_no_nul|]. apply cstr_rest.
  - intros b qs Hs. by eapply sent_form_uploads.
  - intros b Hct Hb Hbig. rewrite (form_value cfg req b) in Ew by done. cbn zeta in Ew.
    unfold AcceptSomeData in Ew. change (Boundary (set_boundary ?p (lit "--" ++ b))) with (lit "--" ++ b) in Ew. cbn [lit app] in Ew.
    change (data (set_data _ ?y)) with y in Ew. change (data (set_boundary ?p ?c) ++ buffer_in req) with (buffer_in req) in Ew.
    change (MaxDataCollectorLength _) with (b_max_upload_file_size (backend cfg)) in Ew.
    destruct (Z.ltb_spec (b_max_upload_file_size (backend cfg)) (Z.of_nat (length (buffer_in req)))); [|lia].
    change (Some [] = Some w) in Ew. congruence.
  - unfold post_value, ParasrMultipartPost in Ew. destruct (header_find _ _) as [ct|]; [|injection Ew as <-; apply length_cstr].
    destruct (find _ _); [|injection Ew as <-; apply length_cstr].
    destruct (SetContentType _ _) as [p|] eqn:Ep; [|injection Ew as <-; cbn; lia]. destruct (_ <? 0); [done|].
    destruct (AcceptSomeData p _) as [p'|] eqn:Ea; cbn [rbind] in Ew; [|injection Ew as <-; cbn; lia].
    destruct (first_file _ _) as [[d|]|] eqn:Ef; [|injection Ew as <-; cbn; lia..]. injection Ew as <-.
    eapply (first_file_within (length (buffer_in req))); [|exact Ef]. intros name f E.
    apply SetContentType_fields in Ep as [Ef' Ed]. apply accepted_within in Ea; [|by rewrite Ef'|by rewrite Ed].
    destruct Ea as [_ Ha]. specialize (Ha _ _ E). rewrite length_take in Ha. lia.
Qed.

(** ** The REST interface *)

(** One request to a database, as a map of values: status, body and the new
    map. *)
Inductive abs_restful (cfg : xConfig) (req : Request) (now : timeval) (kv : gmap bytes xValue)
  : Z -> bytes -> gmap bytes xValue -> Prop :=
| restful_found v : method req = htp_GET -> kv !! uri_of req = Some v -> abs_restful cfg req now kv 200 (strValue v) kv
| restful_missing : method req = htp_GET -> kv !! uri_of req = None -> abs_restful cfg req now kv 404 (lit "NOT FOUND") kv
| restful_store w : method req = htp_POST \/ method req = htp_PUT -> posted cfg req w ->
    abs_restful cfg req now kv 200 (lit "OK") (<[uri_of req := MkValue (getCurrentTime now) w]> kv)
| restful_delete : method req = htp_DELETE -> abs_restful cfg req now kv 202 (lit "OK") (delete (uri_of req) kv)
| restful_other : method req = htp_OTHER -> abs_restful cfg req now kv 400 (lit "BADREQUEST") kv.

(** The two databases as two maps: who is let in, and which one is meant. *)
Inductive abs_rest (cfg : xConfig) (kv sys : gmap bytes xValue) (req : Request) (now : timeval)
  : Z -> bytes -> gmap bytes xValue -> gmap bytes xValue -> Prop :=
| rest_refused : ~ authorized cfg req -> abs_rest cfg kv sys req now 401 [] kv sys
| rest_no_key : authorized cfg req -> uri_of req = [] -> abs_rest cfg kv sys req now 404 (lit "NOT FOUND") kv sys
| rest_main c t kv' : authorized cfg req -> uri_of req <> [] -> ~ names_sysdb req ->
    abs_restful cfg req now kv c t kv' -> abs_rest cfg kv sys req now c t kv' sys
| rest_sys c t sys' : authorized cfg req -> uri_of req <> [] -> names_sysdb req ->
    abs_restful cfg req now sys c t sys' -> abs_rest cfg kv sys req now c t kv sys'.

(** The functions behind the relation. *)
Lemma rest_stores cfg kv sys req now c t kv' sys' :
  authorized cfg req -> uri_of req <> [] -> ~ names_sysdb req -> method req = htp_POST \/ method req = htp_PUT ->
  abs_rest cfg kv sys req now c t kv' sys' ->
  exists w, posted cfg req w /\ c = 200 /\ kv' = <[uri_of req := MkValue (getCurrentTime now) w]> kv /\ sys' = sys.
Proof.
  intros Ha Hk Hn Hm [|? ?|c1 t1 kv1 _ _ _ H|c1 t1 sys1 _ _ ? ?]; [done..| |done].
  destruct H as [v Eg|Eg|w _ Hw|Eg|Eg]; [..|by exists w| |]; rewrite Eg in Hm; by destruct Hm.
Qed.

Lemma rest_finds cfg kv sys req now c t kv' sys' v :
  authorized cfg req -> uri_of req <> [] -> ~ names_sysdb req -> method req = htp_GET ->
  abs_rest cfg kv sys req now c t kv' sys' -> kv !! uri_of req = Some v -> c = 200 /\ t = strValue v.
Proof.
  intros Ha Hk Hn Hm [|? ?|c1 t1 kv1 _ _ _ H|c1 t1 sys1 _ _ ? ?] Hv; [done..| |done].
  destruct H as [w _ Ev|_ Ev|w [E|E]|E|E]; [by simplify_eq| |congruence..]. by rewrite Ev in Hv.
Qed.

Inductive abs_rests (cfg : xConfig) : gmap bytes xValue * gmap bytes xValue -> list (Request * timeval) ->
    list (Z * bytes) -> gmap bytes xValue * gmap bytes xValue -> Prop :=
| abs_rests_nil st : abs_rests cfg st [] [] st
| abs_rests_cons kv sys req now rqs c t kv1 sys1 l st2 :
    abs_rest cfg kv sys req now c t kv1 sys1 -> abs_rests cfg (kv1, sys1) rqs l st2 ->
    abs_rests cfg (kv, sys) ((req, now) :: rqs) ((c, t) :: l) st2.

Fixpoint rest_runs {DB It} `{RocksDB DB It} (cfg : xConfig) (b : Backend DB) (rqs : list (Request * timeval))
  : option (list Reply * Backend DB) :=
  match rqs with
  | [] => Some ([], b)
  | (req, now) :: rqs =>
      '(r, b) ← RESTCallback cfg req b now;
      '(rs, b) ← rest_runs cfg b rqs;
      Some (r :: rs, b)
  end.

Section Rest.
Context {DB It : Type} `{RocksDBSpec DB It} `{!RocksDBHealthy DB It} (zk : bytes).

Lemma RESTfulPro_refines cfg req x kv ttl now hs :
  db_rel zk x kv ttl -> short (uri_of req) -> fits (buffer_in req) ->
  exists r x' kv', RESTfulPro cfg req x now hs = Some (r, x') /\
    abs_restful cfg req now kv (res_code r) (buffer_out r) kv' /\ db_rel zk x' kv' ttl.
Proof.
  intros Hr Hk Hlen. unfold RESTfulPro. destruct (method req) eqn:Em.
  - destruct (Get_refines zk x kv ttl (uri_of req) (MkValue 0 []) Hr) as (x' & -> & Hr' & _).
    destruct (kv !! uri_of req) as [v|] eqn:Ev; cbn [mbind option_bind].
    + rewrite decide_False by done. eexists _, x', kv. split; [done|]. split; [by apply (restful_found _ _ _ _ v)|done].
    + rewrite decide_True by done. eexists _, x', kv. split; [done|]. split; [by apply restful_missing|done].
  - destruct (post_value_posted cfg req Hlen) as (w & -> & Hw). cbn [mbind option_bind].
    destruct (Set_refines zk x kv ttl now (uri_of req) w Hr Hk) as (x' & -> & Hr').
    eexists _, x', _. split; [done|]. split; [|exact Hr']. by apply restful_store; [left|].
  - destruct (post_value_posted cfg req Hlen) as (w & -> & Hw). cbn [mbind option_bind].
    destruct (Set_refines zk x kv ttl now (uri_of req) w Hr Hk) as (x' & -> & Hr').
    eexists _, x', _. split; [done|]. split; [|exact Hr']. by apply restful_store; [right|].
  - destruct (Del_refines zk x kv ttl (uri_of req) Hr) as (x' & -> & Hr'). eexists _, x', _. split; [done|].
    split; [by apply restful_delete|exact Hr'].
  - eexists _, x, kv. split; [done|]. split; [by apply restful_other|done].
Qed.

(** Both databases of the backend hold the given maps. *)
Definition backend_rel (b : Backend DB) (st : gmap bytes xValue * gmap bytes xValue) (ttl sttl : gmap bytes Z) : Prop :=
  db_rel zk (bk_xdb b) st.1 ttl /\ db_rel zk (bk_sysdb b) st.2 sttl.

Lemma RESTCallback_refines cfg b kv sys ttl sttl req now :
  backend_rel b (kv, sys) ttl sttl -> short (uri_of req) -> fits (buffer_in req) ->
  exists r b' kv' sys', RESTCallback cfg req b now = Some (r, b') /\
    abs_rest cfg kv sys req now (res_code r) (buffer_out r) kv' sys' /\ backend_rel b' (kv', sys') ttl sttl.
Proof.
  intros [H1 H2] Hk Hlen. unfold RESTCallback, CheckSession.
  pose proof (CheckAuth_authorized cfg req) as Ha. destruct (CheckAuth cfg req).
  2:{ eexists _, b, kv, sys. split; [done|]. split; [|done]. apply rest_refused. intros Hn. by apply Ha in Hn. }
  assert (authorized cfg req) as Hauth by by apply Ha. clear Ha.
  destruct (Nat.eqb_spec (length (uri_of req)) 0) as [E%length_zero_iff_nil|Hne].
  { eexists _, b, kv, sys. split; [done|]. by split; [apply rest_no_key|]. }
  assert (uri_of req <> []) as Hkey by (intros E; by rewrite E in Hne).
  pose proof (wants_sysdb_names req) as Hw. destruct (wants_sysdb req).
  - destruct (RESTfulPro_refines cfg req (bk_sysdb b) sys sttl now [(lit "Content-Type", GuessContentType (uri_of req))] H2 Hk Hlen)
      as (r & x' & sys' & -> & Hs & Hr). cbn [mbind option_bind]. eexists r, _, kv, sys'. split; [done|].
    split; [apply rest_sys; [done|done|by apply Hw|exact Hs]|by split].
  - destruct (RESTfulPro_refines cfg req (bk_xdb b) kv ttl now [(lit "Content-Type", GuessContentType (uri_of req))] H1 Hk Hlen)
      as (r & x' & kv' & -> & Hs & Hr). cbn [mbind option_bind]. eexists r, _, kv', sys. split; [done|].
    split; [apply rest_main; [done|done|by intros Hn%Hw|exact Hs]|by split].
Qed.

(** C6. Over a RocksDB without I/O errors, any sequence of requests to the REST
    interface, authorized or not, to either database and with any method, is
    answered with the status and the body of the two maps and leaves the databases
    holding the resulting maps, with the expiration times untouched.  Keys have
    less than 2^30 bytes and bodies less than 2^31.  What the requests mean is
    specified apart from the code: who is [authorized], which database
    [names_sysdb] selects, and the value that is [posted] (the body up to its first
    NUL; of a well-formed form the content of its file of least name; nothing
    above the upload limit; of a malformed form some value no longer than the
    body). *)
Theorem rest_interface_refines_maps cfg rqs b st ttl sttl :
  backend_rel b st ttl sttl -> Forall (fun rq => short (uri_of rq.1) /\ fits (buffer_in rq.1)) rqs ->
  exists rs b' st', rest_runs cfg b rqs = Some (rs, b') /\
    abs_rests cfg st rqs ((fun r => (res_code r, buffer_out r)) <$> rs) st' /\ backend_rel b' st' ttl sttl.
Proof.
  intros Hb Hs. revert b st Hb. induction Hs as [|[req now] rqs [Hk Hlen] _ IH]; intros b [kv sys] Hb.
  { eexists [], b, _. split; [done|]. split; [constructor|done]. }
  cbn [rest_runs]. destruct (RESTCallback_refines cfg b kv sys ttl sttl req now Hb Hk Hlen) as (r & b1 & kv1 & sys1 & -> & E & Hb1).
  cbn [mbind option_bind]. destruct (IH b1 _ Hb1) as (rs & b2 & st2 & -> & Es & Hb2). cbn [mbind option_bind].
  eexists (r :: rs), b2, st2. split; [done|]. split; [|done]. by econstructor.
Qed.

(** C28. A form posted by an authorized client to the REST interface, under the
    upload limit and below 2 GB, whose parts can be told apart (distinct names
    without quotes, line ends or NULs, a boundary that does not occur in the
    contents, as [part_ok] spells out), is answered with 200 and stored: the key then holds the content of the
    form's file byte for byte (with several files, the one whose field name is
    least), every other key is as before, and a GET of the key gives it back. *)
Theorem upload_stores_the_file cfg req b qs q (bk : Backend DB) kv sys ttl sttl now get now' :
  backend_rel bk (kv, sys) ttl sttl -> short (uri_of req) -> fits (buffer_in req) ->
  method req = htp_POST \/ method req = htp_PUT -> authorized cfg req -> uri_of req <> [] -> ~ names_sysdb req ->
  sends_form cfg req b qs -> q ∈ qs -> pfile q <> None ->
  (forall q', q' ∈ qs -> pfile q' <> None -> q' = q \/ blt (pname q) (pname q') = true) ->
  method get = htp_GET -> authorized cfg get -> uri_of get = uri_of req -> ~ names_sysdb get -> fits (buffer_in get) ->
  exists r bk' r' bk'', RESTCallback cfg req bk now = Some (r, bk') /\ res_code r = EVHTP_RES_OK /\
    backend_rel bk' (<[uri_of req := MkValue (getCurrentTime now) (pcontent q)]> kv, sys) ttl sttl /\
    RESTCallback cfg get bk' now' = Some (r', bk'') /\ res_code r' = EVHTP_RES_OK /\ buffer_out r' = pcontent q.
Proof.
  intros Hb Hk Hlen Hm Hauth Hkey Hdb Hform Hq Hfile Hleast Hget Hauth' Hsame Hdb' Hlen'.
  destruct (RESTCallback_refines cfg bk kv sys ttl sttl req now Hb Hk Hlen) as (r & bk1 & kv1 & sys1 & E1 & Ha & Hb1).
  destruct (rest_stores _ _ _ _ _ _ _ _ _ Hauth Hkey Hdb Hm Ha) as (w & Hw & Ec & -> & ->).
  pose proof (uploads_least qs q w Hq Hfile Hleast (posted_form _ _ _ Hw _ _ Hform)) as ->.
  destruct (RESTCallback_refines cfg bk1 _ _ ttl sttl get now' Hb1) as (r' & bk2 & kv2 & sys2 & E2 & Ha' & _); [by rewrite Hsame|done|].
  exists r, bk1, r', bk2. split; [done|]. split; [done|]. split; [done|]. split; [done|].
  eapply (rest_finds _ _ _ _ _ _ _ _ _ (MkValue (getCurrentTime now) (pcontent q))) in Ha'; [done|done|by rewrite Hsame|done|done|].
  by rewrite Hsame, lookup_insert_eq.
Qed.

End Rest.

Definition demo_requests : list (Request * timeval) :=
  [(demo_request htp_PUT "/k" [demo_auth] (lit "v"), Timeval 1 0);
   (demo_request htp_GET "/k" [demo_auth] [], Timeval 2 0);
   (demo_request htp_DELETE "/k" [] [], Timeval 3 0);
   (demo_request htp_DELETE "/k" [demo_auth] [], Timeval 4 0);
   (demo_request htp_GET "/k" [demo_auth] [], Timeval 5 0)].

(** The runs end in some state; what they answered is computed. *)
Lemma rest_interface_refines_maps_witness :
  exists rs b' st', rest_runs (It := MemStore.iter) demo_cfg demo_backend demo_requests = Some (rs, b') /\
    abs_rests demo_cfg (∅, ∅) demo_requests ((fun r => (res_code r, buffer_out r)) <$> rs) st' /\
    res_code <$> rs = [200; 200; 401; 202; 404].
Proof.
  destruct (rest_interface_refines_maps (It := MemStore.iter) (lit "expire") demo_cfg demo_requests
    demo_backend (∅, ∅) ∅ ∅) as (rs & b' & st' & E & Er & _).
  - split; apply mem_db_empty.
  - repeat constructor; try (apply (bool_decide_eq_true_1 (short _))); vm_compute; reflexivity.
  - exists rs, b', st'. split; [exact E|]. split; [exact Er|].
    assert (rs = default [] (fst <$> rest_runs (It := MemStore.iter) demo_cfg demo_backend demo_requests)) as -> by (rewrite E; reflexivity).
    vm_compute. reflexivity.
Defined.

(** The body is no C string in the block [GetHttpPostData] returns: what its caller
    reads runs on past it. *)
Lemma post_data_is_not_terminated req garbage : Forall (fun c => c <> x00) (buffer_in req) -> garbage <> x00 ->
  x00 ∉ GetHttpPostData garbage req.
Proof.
  intros Hb Hg [Hin|Hin%list_elem_of_singleton]%elem_of_app; [|by subst]. rewrite Forall_forall in Hb. by apply (Hb _ Hin).
Qed.

(** ** Uploads stored *)

Definition demo_upload : Request :=
  demo_request htp_POST "/k" [demo_auth; (lit "Content-Type", form_type (lit "XX"))] (enc_form (lit "--XX") demo_form).

Lemma demo_authorized m path hs body : authorized demo_cfg (demo_request m path (demo_auth :: hs) body).
Proof. apply CheckAuth_authorized. reflexivity. Defined.

Lemma demo_main m path hs body : ~ names_sysdb (demo_request m path hs body).
Proof. intros H%wants_sysdb_names. discriminate H. Defined.

Lemma demo_sends_form : sends_form demo_cfg demo_upload (lit "XX") demo_form.
Proof.
  split; [vm_compute; reflexivity|]. split; [repeat constructor; discriminate|]. split; [|split; [|split]].
  - repeat constructor; try discriminate; try reflexivity.
    all: match goal with H : _ = Some _ |- _ => injection H as <- | |- forall fn, _ => intros fn [= <-] end;
      repeat constructor; discriminate.
  - apply (bool_decide_eq_true_1 (NoDup (pname <$> demo_form))). vm_compute. reflexivity.
  - reflexivity.
  - vm_compute. discriminate.
Defined.

Lemma upload_stores_the_file_witness :
  exists r bk' r' bk'', RESTCallback (It := MemStore.iter) demo_cfg demo_upload demo_backend (Timeval 1 0) = Some (r, bk') /\
    RESTCallback (It := MemStore.iter) demo_cfg (demo_request htp_GET "/k" [demo_auth] []) bk' (Timeval 2 0) = Some (r', bk'') /\
    buffer_out r' = lit "data".
Proof.
  destruct (upload_stores_the_file (It := MemStore.iter) (lit "expire") demo_cfg demo_upload (lit "XX") demo_form
    (MkPart (lit "f") (Some (lit "a.txt")) (Some (lit "text/plain")) (lit "data")) demo_backend ∅ ∅ ∅ ∅ (Timeval 1 0)
    (demo_request htp_GET "/k" [demo_auth] []) (Timeval 2 0)) as (r & bk' & r' & bk'' & E & _ & _ & E' & _ & Eb).
  - split; apply mem_db_empty.
  - apply (bool_decide_eq_true_1 (short _)). vm_compute. reflexivity.
  - vm_compute. reflexivity.
  - left. reflexivity.
  - apply demo_authorized.
  - discriminate.
  - apply demo_main.
  - apply demo_sends_form.
  - right. left.
  - discriminate.
  - intros q' [->|[->|Hn%not_elem_of_nil]%elem_of_cons]%elem_of_cons Hf; [by destruct Hf|by left|done].
  - reflexivity.
  - apply demo_authorized.
  - reflexivity.
  - apply demo_main.
  - vm_compute. reflexivity.
  - exists r, bk', r', bk''. split; [exact E|]. split; [exact E'|exact Eb].
Defined.

(** A form larger than the upload limit is not refused: the key is overwritten
    with an empty value and the reply is 200. *)
Theorem oversized_upload_empties_the_key {DB It} `{RocksDBSpec DB It} `{!RocksDBHealthy DB It}
    zk cfg req b (x : xDataBase DB) kv ttl now hs :
  db_rel zk x kv ttl -> short (uri_of req) -> method req = htp_POST ->
  header_find req (lit "Content-Type") = Some (form_type b) -> Forall (fun c => c <> x00) b ->
  b_max_upload_file_size (backend cfg) < Z.of_nat (length (buffer_in req)) -> fits (buffer_in req) ->
  exists r x', RESTfulPro cfg req x now hs = Some (r, x') /\ res_code r = EVHTP_RES_OK /\
    db_rel zk x' (<[uri_of req := MkValue (getCurrentTime now) []]> kv) ttl.
Proof.
  intros Hr Hk Hm Hct Hb Hbig Hlen. unfold RESTfulPro. rewrite Hm. destruct (post_value_posted cfg req Hlen) as (w & -> & Hw).
  rewrite (posted_large _ _ _ Hw b) by done. cbn [mbind option_bind].
  destruct (Set_refines zk x kv ttl now (uri_of req) [] Hr Hk) as (x' & -> & Hr'). by eexists _, x'.
Qed.

Definition demo_big : Request :=
  demo_request htp_POST "/k" [demo_auth; (lit "Content-Type", form_type (lit "XX"))] (replicate 1025 "x"%byte).

Lemma oversized_upload_empties_the_key_witness :
  exists r x', RESTfulPro (It := MemStore.iter) demo_cfg demo_big (mem_db ∅) (Timeval 1 0) [] = Some (r, x') /\
    res_code r = 200.
Proof.
  destruct (oversized_upload_empties_the_key (It := MemStore.iter) (lit "expire") demo_cfg demo_big (lit "XX")
    (mem_db ∅) ∅ ∅ (Timeval 1 0) []) as (r & x' & E & Er & _).
  - apply mem_db_empty.
  - apply (bool_decide_eq_true_1 (short _)). vm_compute. reflexivity.
  - reflexivity.
  - vm_compute. reflexivity.
  - repeat constructor; discriminate.
  - vm_compute. reflexivity.
  - vm_compute. reflexivity.
  - exists r, x'. split; [exact E|exact Er].
Defined.

(** ** The ETag cache after start-up *)

Section Idle.
Context {DB It : Type} `{RocksDB DB It}.

(** A manager with nothing cached, in a database that does not record ETags. *)
Definition empty_mgr (m : xEtagManager) : Prop :=
  mgr_wf m /\ Forall (fun c => etaglist c = []) (etag_cache m).

Definition idle (x : xDataBase DB) : Prop :=
  bEtag x = false /\ forall m, xEtag x = Some m -> empty_mgr m.

Lemma GetKey_empty m k ts :
  empty_mgr m -> exists m', GetKey m k ts = Some (false, m') /\ empty_mgr m'.
Proof.
  intros [Hwf He]. destruct (GetKey_spec m k ts Hwf) as (b & m' & E & Hwf' & _). exists m'.
  unfold GetKey in *. destruct (mgr_shard m (hash_key k ts) Hwf) as (i & c & E1 & E2 & Hw & Hi & E3).
  rewrite E1 in *. cbn [mbind option_bind] in *. rewrite E2 in *. cbn [mbind option_bind] in *.
  assert (etaglist c = []) as Hl by by eapply (Forall_lookup_1 _ _ _ _ He E3).
  assert (cache_Get c (hash_key k ts) = (false, c)) as Hg.
  { unfold cache_Get. destruct (etagmap c !! hash_key k ts) eqn:Em; [|done].
    apply (wf_map _ Hw) in Em as [_ Hin]. rewrite Hl in Hin. by apply not_elem_of_nil in Hin. }
  rewrite Hg in *. injection E as <- <-. split; [done|]. split; [done|]. cbn [etag_cache].
  by apply Forall_insert.
Qed.

Lemma CheckEtag_idle x k ts :
  idle x -> is_Some (xEtag x) ->
  exists x', CheckEtag x k ts = Some (false, x') /\ idle x' /\ db x' = db x /\ is_Some (xEtag x').
Proof.
  intros [Hb Hm] [m Em]. unfold CheckEtag. rewrite Em. cbn [mbind option_bind].
  destruct (GetKey_empty m k ts (Hm m Em)) as (m' & -> & Hm'). cbn [mbind option_bind].
  eexists. split; [done|]. split; [|done]. split; [done|]. by intros ? [= <-].
Qed.

Lemma Get_keeps_etag x k v r x' :
  bEtag x = false -> xdb_Get x k v = Some (r, x') -> x' = x.
Proof.
  intros Hb. unfold xdb_Get. destruct (rdb_Get (db x) _) as [s w].
  destruct (IsNotFound s); [by intros [= _ <-]|]. destruct (negb (ok s)); [by intros [= _ <-]|].
  destruct (xValue_decode w); cbn [mbind option_bind]; [|done]. unfold note_etag. rewrite Hb. cbn [mbind option_bind].
  by intros [= _ <-].
Qed.

Lemma Set_keeps_idle x now k v r x' : idle x -> xdb_Set x now k v = Some (r, x') -> idle x'.
Proof.
  intros Hi. unfold xdb_Set. destruct (rdb_Put (db x) _ _) as [d s].
  destruct (negb (ok s)); [intros [= _ <-]; exact Hi|]. unfold note_etag. cbn [set_db bEtag]. rewrite (proj1 Hi).
  cbn [mbind option_bind]. intros [= _ <-]. exact Hi.
Qed.

Lemma RESTfulPro_keeps_idle cfg req x now hs r x' :
  idle x -> RESTfulPro cfg req x now hs = Some (r, x') -> idle x'.
Proof.
  intros Hi. unfold RESTfulPro. destruct (method req).
  - destruct (xdb_Get x (uri_of req) (MkValue 0 [])) as [[[ret v] x1]|] eqn:E; cbn [mbind option_bind]; [|done].
    apply Get_keeps_etag in E as ->; [|by destruct Hi]. destruct (decide (ret = db_null)); by intros [= _ <-].
  - destruct (post_value cfg req) as [w|]; cbn [mbind option_bind]; [|done].
    destruct (xdb_Set x now (uri_of req) w) as [[ret x1]|] eqn:E; cbn [mbind option_bind]; [|done].
    apply Set_keeps_idle in E; [|done]. destruct (0 <? ret_num ret); by intros [= _ <-].
  - destruct (post_value cfg req) as [w|]; cbn [mbind option_bind]; [|done].
    destruct (xdb_Set x now (uri_of req) w) as [[ret x1]|] eqn:E; cbn [mbind option_bind]; [|done].
    apply Set_keeps_idle in E; [|done]. destruct (0 <? ret_num ret); by intros [= _ <-].
  - unfold xdb_Del. destruct (rdb_Delete (db x) _) as [d s]. destruct (0 <? ret_num _); intros [= _ <-]; exact Hi.
  - by intros [= _ <-].
Qed.

End Idle.

(** ** What the frontend serves *)

Lemma etag_text_long h : etag_text h = None <-> (length (cstr h) < 2)%nat.
Proof.
  unfold etag_text. destruct (cstr h) as [|c [|c' s]]; cbn; (split; [intros; done || lia|intros; done || lia]).
Qed.

(** The reply carries the value, plain or compressed and marked as such. *)
Definition delivers (gunzip : bytes -> option bytes) (r : Reply) (v : bytes) : Prop :=
  res_code r = EVHTP_RES_OK /\
  if bool_decide ((lit "Content-Encoding", lit "gzip") ∈ headers_out r)
  then gunzip (buffer_out r) = Some v else buffer_out r = v.

(** The [If-None-Match] the frontend looks at. *)
Abbreviation sent_tag cfg req := (if f_etag (frontend cfg) =? 1 then header_find req (lit "If-None-Match") else None).

(** The request asks for the value only if it has changed. *)
Definition conditional (cfg : xConfig) (req : Request) : bool :=
  bool_decide (is_Some (header_find req (lit "If-Modified-Since"))) || bool_decide (is_Some (sent_tag cfg req)).

(** An [If-None-Match] without a character between its quotes. *)
Definition short_tag (cfg : xConfig) (req : Request) : bool :=
  match sent_tag cfg req with Some h => bool_decide (length (cstr h) < 2)%nat | None => false end.

Lemma print_into_inv live b n s live' : print_into live b n s = Some live' -> live' = <[b := s]> live.
Proof. unfold print_into. destruct (length s <? n)%nat; [by intros [= <-]|done]. Qed.

(** A header is queued that lies in a block that has ended. *)
Definition dangling (live : gmap nat bytes) (hs : list (bytes * text_ptr)) : Prop :=
  exists h1 key b h2, hs = h1 ++ (key, InBlock b) :: h2 /\ live !! b = None.

Lemma dangling_add live hs key p : dangling live hs -> dangling live (AddHeader hs key p).
Proof. intros (h1 & k & b & h2 & -> & Hb). exists h1, k, b, (h2 ++ [(key, p)]). split; [|done]. unfold AddHeader. by rewrite <- app_assoc. Qed.

Lemma dangling_read live hs : dangling live hs -> read_headers live hs = None.
Proof.
  intros (h1 & key & b & h2 & -> & Hb). unfold read_headers. induction h1 as [|[k p] h1 IH]; cbn [app].
  - cbn. by rewrite Hb.
  - cbn in *. destruct (deref live p); cbn [mbind option_bind]; [|done]. by rewrite IH.
Qed.

Lemma read_static live (hs : list (bytes * bytes)) : read_headers live ((fun h => (h.1, Static h.2)) <$> hs) = Some hs.
Proof. unfold read_headers. induction hs as [|[k v] hs IH]; [done|]. cbn in *. by rewrite IH. Qed.

(** A reply with a [Last-Modified] or an [ETag] reads their values from arrays
    whose blocks have ended. *)
Lemma send_value_dangles {ZS} `{ZLib ZS} cfg req uri ret v :
  conditional cfg req = true -> send_value cfg req uri ret v = None.
Proof.
  intros Hc. unfold send_value. unfold conditional in Hc. set (inm := sent_tag cfg req) in *.
  assert (forall live hs (m : bool), dangling live hs ->
    (if m then h ← read_headers live hs; Some (MkReply EVHTP_RES_NOTMOD h [])
     else
       let hs := AddHeader hs (lit "Content-Type") (Static (GuessContentType uri)) in
       if f_gzip (frontend cfg) =? 1 then
         '(r, buf) ← gzcompress (strValue v) (Z.of_nat (length (strValue v)));
         if negb (r =? 0) then h ← read_headers live hs; Some (SendHttpResphone h (strValue v))
         else if INT_MAX <? Z.of_nat (length buf) then None
         else h ← read_headers live (AddHeader hs (lit "Content-Encoding") (Static (lit "gzip"))); Some (SendHttpResphone h buf)
       else h ← read_headers live hs; Some (SendHttpResphone h (strValue v))) = None) as Hend.
  { intros live hs m Hd. cbn zeta. destruct m; [by rewrite (dangling_read _ _ Hd)|].
    apply (dangling_add _ _ (lit "Content-Type") (Static (GuessContentType uri))) in Hd.
    destruct (f_gzip (frontend cfg) =? 1); [|by rewrite (dangling_read _ _ Hd)]. destruct (gzcompress _ _) as [[r buf]|]; cbn [mbind option_bind]; [|done].
    destruct (negb _); [by rewrite (dangling_read _ _ Hd)|]. destruct (_ <? _); [done|]. by rewrite (dangling_read _ _ (dangling_add _ _ _ _ Hd)). }
  destruct (header_find req (lit "If-Modified-Since")) as [h|] eqn:Ei.
  - destruct (decide (ret = db_err)); cbn [mbind option_bind]; [done|].
    destruct (print_into ∅ 1 32 _) as [live|] eqn:E1; cbn [mbind option_bind]; [|done]. apply print_into_inv in E1 as ->.
    rewrite lookup_insert_eq. cbn [mbind option_bind]. destruct inm as [h'|]; cbn [mbind option_bind].
    + destruct (print_into _ 2 22 _) as [live|] eqn:E2; cbn [mbind option_bind]; [|done]. apply print_into_inv in E2 as ->.
      apply Hend. exists [], (lit "Last-Modified"), 1%nat, [(lit "ETag", InBlock 2)]. split; [done|].
      by rewrite lookup_delete_ne, lookup_insert_ne, lookup_delete_eq by done.
    + apply Hend. exists [], (lit "Last-Modified"), 1%nat, []. split; [done|]. apply lookup_delete_eq.
  - cbn [mbind option_bind]. rewrite bool_decide_eq_false_2 in Hc by by intros []. cbn [orb] in Hc.
    destruct inm as [h'|]; [|done]. destruct (decide (ret = db_err)); cbn [mbind option_bind]; [done|].
    destruct (print_into ∅ 2 22 _) as [live|] eqn:E2; cbn [mbind option_bind]; [|done]. apply print_into_inv in E2 as ->.
    apply Hend. exists [], (lit "ETag"), 2%nat, []. split; [done|]. apply lookup_delete_eq.
Qed.

Section Frontend.
Context {DB It : Type} `{RocksDBSpec DB It} `{!RocksDBHealthy DB It} (zk : bytes).
Context {ZS : Type} `{ZLib ZS} {gunzip : bytes -> option bytes} `{!ZLibSpec ZS gunzip} (cfg : xConfig).

Lemma send_value_delivers req uri v :
  Z.of_nat (length (strValue v)) < 2 ^ 31 -> conditional cfg req = false ->
  exists r, send_value cfg req uri db_ok v = Some r /\ delivers gunzip r (strValue v).
Proof.
  intros Hlv Hc. unfold conditional in Hc. apply orb_false_iff in Hc as [Hims Hinm]. unfold send_value.
  destruct (header_find req (lit "If-Modified-Since")); [discriminate Hims|]. set (inm := sent_tag cfg req) in *.
  destruct inm; [discriminate Hinm|]. cbn [mbind option_bind orb]. clear Hims Hinm.
  set (ct := (lit "Content-Type", GuessContentType uri)).
  change (AddHeader [] (lit "Content-Type") (Static (GuessContentType uri))) with ((fun h : bytes * bytes => (h.1, Static h.2)) <$> [ct]).
  change (AddHeader (_ <$> [ct]) (lit "Content-Encoding") (Static (lit "gzip")))
    with ((fun h : bytes * bytes => (h.1, Static h.2)) <$> [ct; (lit "Content-Encoding", lit "gzip")]).
  rewrite !read_static. cbn [mbind option_bind].
  assert (forall v, delivers gunzip (SendHttpResphone [ct] v) v) as Hplain by by split.
  destruct (f_gzip (frontend cfg) =? 1); [|by eexists].
  destruct (gzcompress_reply (strValue v) Hlv) as (ret & buf & -> & Hb & Hg). cbn [mbind option_bind].
  destruct (Z.eqb_spec ret 0) as [->|_]; cbn [negb]; [|by eexists].
  destruct (Z.ltb_spec INT_MAX (Z.of_nat (length buf))) as [Hx|_]; [unfold INT_MAX in Hx; lia|].
  eexists. split; [done|]. split; [done|]. rewrite bool_decide_true by set_solver. by apply Hg.
Qed.

(** C7. A GET at the frontend without a conditional header is answered with 200 and
    the value of the key (of less than 2 GB), which zlib's streams may have
    compressed, only when marked so, and with 404 when the key is not stored;
    nothing stored changes.  A conditional GET ([If-Modified-Since], or
    [If-None-Match] with ETags enabled) of a stored key never gets a defined
    answer: the headers [Last-Modified] and [ETag] are queued by the address of
    arrays whose blocks end before the reply is sent.  Nor does one whose
    [If-None-Match] has fewer than two characters, whatever the key.  (The ETag
    cache is as the start-up leaves it: empty.) *)
Theorem frontend_serves_store req x kv ttl :
  db_rel zk x kv ttl -> idle x -> method req = htp_GET -> (f_etag (frontend cfg) = 1 -> is_Some (xEtag x)) ->
  (forall v, kv !! uri_of req = Some v -> Z.of_nat (length (strValue v)) < 2 ^ 31) ->
  if short_tag cfg req || (conditional cfg req && bool_decide (is_Some (kv !! uri_of req))) then GetCallback cfg req x = None
  else exists r x', GetCallback cfg req x = Some (r, x') /\ db x' = db x /\ idle x' /\
    match kv !! uri_of req with
    | Some v => delivers gunzip r (strValue v)
    | None => res_code r = EVHTP_RES_NOTFOUND
    end.
Proof.
  intros Hr Hi Hm Ht Hts. unfold GetCallback, GetCallbackPro. rewrite (bool_decide_true (method req = htp_GET)) by done. cbn [negb].
  set (s := uri_of req) in *.
  destruct (short_tag cfg req) eqn:Hshort; cbn [orb].
  { unfold short_tag in Hshort. destruct (sent_tag cfg req) as [h|]; [|done]. apply bool_decide_eq_true in Hshort.
    apply etag_text_long in Hshort as ->. done. }
  assert (exists x1, match sent_tag cfg req with
      | None => Some (false, x)
      | Some h => s' ← etag_text h; CheckEtag x s (u64 (str_to_int64 s'))
      end = Some (false, x1) /\ idle x1 /\ db x1 = db x) as (x1 & -> & Hi1 & Hd1).
  { unfold short_tag in Hshort. destruct (sent_tag cfg req) as [h|] eqn:Et; [|by exists x].
    apply bool_decide_eq_false in Hshort. destruct (etag_text h) as [t|] eqn:E; [|by apply etag_text_long in E]. cbn [mbind option_bind].
    destruct (CheckEtag_idle x s (u64 (str_to_int64 t)) Hi) as (x1 & -> & ? & ? & _); [|by exists x1].
    apply Ht. apply Z.eqb_eq. by destruct (f_etag (frontend cfg) =? 1). }
  cbn [mbind option_bind].
  assert (db_rel zk x1 kv ttl) as Hr1.
  { destruct Hr as [Hs _]. split; [by rewrite Hd1|]. intros Hb. by rewrite (proj1 Hi1) in Hb. }
  destruct (Get_refines zk x1 kv ttl s (MkValue 0 []) Hr1) as (x2 & E & Hr2 & Hd2).
  rewrite E. pose proof (Get_keeps_etag _ _ _ _ _ (proj1 Hi1) E) as ->.
  destruct (kv !! s) as [v|] eqn:Ev; cbn [mbind option_bind].
  - rewrite decide_False by done. rewrite (bool_decide_eq_true_2 (is_Some _)) by by eexists. rewrite andb_true_r.
    destruct (conditional cfg req) eqn:Hc; [by rewrite send_value_dangles|].
    destruct (send_value_delivers req s v (Hts v eq_refl) Hc) as (r & -> & Hspec). cbn [mbind option_bind]. by exists r, x1.
  - rewrite decide_True by done. rewrite (bool_decide_eq_false_2 (is_Some _)) by by intros []. rewrite andb_false_r.
    by eexists _, x1.
Qed.

End Frontend.

(** ** The servers as started *)

Section Startup.
Context {DB It : Type} `{RocksDB DB It} {ZS : Type} `{ZLib ZS} (stats : bytes) (cfg : xConfig).

(** One request served, by the frontend or by a page of the backend; the
    frontend shares the backend's main database. *)
Inductive served : Backend DB -> Backend DB -> Prop :=
| served_get b req r x :
    GetCallback cfg req (bk_xdb b) = Some (r, x) -> served b (MkBack x (bk_sysdb b))
| served_index b req r x :
    IndexCallback cfg req (bk_xdb b) = Some (r, x) -> served b (MkBack x (bk_sysdb b))
| served_backend b cb req now r b' :
    backend_call cb stats cfg req b now = Some (r, b') -> served b b'.

Lemma GetCallbackPro_keeps_idle req uri (x : xDataBase DB) r x' :
  idle x -> GetCallbackPro cfg req uri x = Some (r, x') -> idle x'.
Proof.
  intros Hi. unfold GetCallbackPro. destruct (negb _); [by intros [= _ <-]|].
  destruct (match _ with None => _ | Some h => _ end) as [[hit x1]|] eqn:E; cbn [mbind option_bind]; [|done].
  assert (idle x1) as Hi1.
  { destruct (if f_etag (frontend cfg) =? 1 then _ else None) as [h|]; [|by injection E as _ <-].
    destruct (etag_text h) as [s|]; cbn [mbind option_bind] in E; [|done].
    destruct (xEtag x) as [m|] eqn:Em; [|by unfold CheckEtag in E; rewrite Em in E].
    destruct (CheckEtag_idle x uri (u64 (str_to_int64 s)) Hi) as (x2 & E2 & Hi2 & _); [by eauto|]. congruence. }
  destruct hit; [by intros [= _ <-]|].
  destruct (xdb_Get x1 uri (MkValue 0 [])) as [[[ret v] x2]|] eqn:E2; cbn [mbind option_bind]; [|done].
  apply Get_keeps_etag in E2 as ->; [|by destruct Hi1]. destruct (decide (ret = db_null)); [by intros [= _ <-]|].
  destruct (send_value cfg req uri ret v); cbn [mbind option_bind]; [|done]. by intros [= _ <-].
Qed.

Definition both_idle (b : Backend DB) : Prop := idle (bk_xdb b) /\ idle (bk_sysdb b).

Lemma served_keeps_idle b b' : served b b' -> both_idle b -> both_idle b'.
Proof.
  intros [b0 req r x E|b0 req r x E|b0 cb req now r b1 E] [H1 H2].
  - split; [|done]. exact (GetCallbackPro_keeps_idle _ _ _ _ _ H1 E).
  - split; [|done]. exact (GetCallbackPro_keeps_idle _ _ _ _ _ H1 E).
  - destruct cb; cbn [backend_call] in E; unfold KeyScanCallback, StatisticsCallback, ConfigCallback,
      AdminShellCallback, RESTCallback in E; destruct (CheckSession cfg req _); try (injection E as _ <-; exact (conj H1 H2)).
    + destruct (xdb_ScanKey _ _ _ _ _) as [ret keys]. destruct (ret_num ret <? 0); [done|].
      apply bind_Some in E as (kl & _ & E). apply bind_Some in E as (js & _ & E). injection E as _ <-. exact (conj H1 H2).
    + apply bind_Some in E as (root & _ & E). apply bind_Some in E as (js & _ & E). injection E as _ <-. exact (conj H1 H2).
    + destruct (RESTfulPro cfg req (bk_sysdb b0) now _) as [[r1 x]|] eqn:E1; cbn [mbind option_bind] in E; simplify_eq.
      split; [done|]. exact (RESTfulPro_keeps_idle _ _ _ _ _ _ _ H2 E1).
    + destruct (length (uri_of req) =? 0)%nat; [simplify_eq; exact (conj H1 H2)|]. destruct (wants_sysdb req).
      * destruct (RESTfulPro cfg req (bk_sysdb b0) now _) as [[r1 x]|] eqn:E1; cbn [mbind option_bind] in E; simplify_eq.
        split; [done|]. exact (RESTfulPro_keeps_idle _ _ _ _ _ _ _ H2 E1).
      * destruct (RESTfulPro cfg req (bk_xdb b0) now _) as [[r1 x]|] eqn:E1; cbn [mbind option_bind] in E; simplify_eq.
        split; [|done]. exact (RESTfulPro_keeps_idle _ _ _ _ _ _ _ H1 E1).
Qed.

(** C39. [SetEtag] is called without its second argument at start-up, so ETags are
    never recorded: whatever the frontend and the backend serve afterwards, the
    cache that was allocated stays empty and no [If-None-Match] is ever answered
    from it. *)
Theorem etag_cache_is_never_used d sd b :
  1 <= f_etag_cache_count (frontend cfg) < 2 ^ 31 -> 1 <= f_etag_cache_size (frontend cfg) < 2 ^ 31 ->
  rtc served (MkBack (st_xdb (xhttpcache cfg d sd)) (st_sysdb (xhttpcache cfg d sd))) b ->
  forall key ts hit x, CheckEtag (bk_xdb b) key ts = Some (hit, x) -> hit = false.
Proof.
  intros Hc Hs Hrun key ts hit x E.
  assert (both_idle b) as [Hi _].
  { eapply (rtc_ind_r (fun b => both_idle b)); [|intros y z _ ? ?; by eapply served_keeps_idle|exact Hrun].
    assert (empty_mgr (Init etag_new (u64 (f_etag_cache_count (frontend cfg))) (u64 (f_etag_cache_size (frontend cfg))))) as He.
    { rewrite !u64_id by (unfold is_u64; lia). split; [by apply Init_wf; lia|]. by apply Forall_replicate. }
    unfold xhttpcache, InitSysDB. destruct (f_etag (frontend cfg) =? 1);
      (split; (split; [done|]; cbn; intros m Em; by simplify_eq)). }
  destruct (xEtag (bk_xdb b)) as [m|] eqn:Em; [|by unfold CheckEtag in E; rewrite Em in E].
  destruct (CheckEtag_idle (bk_xdb b) key ts Hi) as (x' & E' & _); [by eauto|]. congruence.
Qed.

End Startup.

(** The TLS files named for the backend are handed to the frontend: the backend
    always starts without TLS, and the frontend's own files are replaced. *)
Theorem backend_never_uses_tls {DB} cfg (d sd : DB) :
  cstr (b_pemfile (backend cfg)) <> [] -> cstr (b_privfile (backend cfg)) <> [] ->
  st_backend_ssl (xhttpcache cfg d sd) = None /\
  ssl_pemfile <$> st_frontend_ssl (xhttpcache cfg d sd) = Some (cstr (b_pemfile (backend cfg))).
Proof. intros Hp Hq. split; [done|]. unfold xhttpcache, InitSSL at 1. cbn. by rewrite !bool_decide_false by done. Qed.

(** With ETags enabled, a GET whose [If-None-Match] has fewer than two
    characters erases a character of an empty string: the request, from any
    client, reaches undefined behaviour before the database is read. *)
Theorem short_if_none_match_is_undefined {DB It} `{RocksDB DB It} {ZS} `{ZLib ZS} cfg req (x : xDataBase DB) h :
  f_etag (frontend cfg) = 1 -> method req = htp_GET ->
  header_find req (lit "If-None-Match") = Some h -> (length (cstr h) < 2)%nat ->
  GetCallback cfg req x = None.
Proof.
  intros He Hm Hh Hl. unfold GetCallback, GetCallbackPro. rewrite bool_decide_true, He, Hh by done. cbn [negb Z.eqb Pos.eqb].
  unfold etag_text. by rewrite drop_ge by lia.
Qed.

(** ** A concrete server *)

(** ETags and compression on, TLS files for the backend. *)
Definition demo_front : xConfig :=
  MkConfig (app config_new) (MkFrontend [] 0 0 0 1 1 4 1000 [] [] 0 [])
    (MkBackend [] 0 0 0 [] [] [] (lit "cert.pem") (lit "key.pem") 0 1024) (dbcfg config_new).

Definition demo_started : Started MemStore.store := xhttpcache demo_front ∅ ∅.

Lemma demo_started_rel : db_rel (It := MemStore.iter) (lit "expire") (st_xdb demo_started) ∅ ∅.
Proof. split; [apply store_rel_empty|]. intros [=]. Defined.

Lemma demo_started_idle x : bEtag x = false -> xEtag x = xEtag (st_xdb demo_started) -> idle (DB := MemStore.store) x.
Proof.
  intros Hb Hx. split; [exact Hb|]. rewrite Hx. intros m [= <-]. split; [|by apply Forall_replicate].
  apply (Init_wf etag_new 4 1000); lia.
Qed.

(** After one value was stored. *)
Definition demo_stored : xDataBase MemStore.store :=
  match xdb_Set (It := MemStore.iter) (st_xdb demo_started) (Timeval 5 0) (lit "k") (lit "v") with
  | Some (_, x) => x
  | None => st_xdb demo_started
  end.

Lemma demo_stored_rel :
  db_rel (It := MemStore.iter) (lit "expire") demo_stored {[lit "k" := MkValue 5000 (lit "v")]} ∅.
Proof.
  destruct (Set_refines (It := MemStore.iter) (lit "expire") (st_xdb demo_started) ∅ ∅ (Timeval 5 0) (lit "k") (lit "v"))
    as (x' & E & Hr); [apply demo_started_rel|unfold short; cbn; lia|].
  unfold demo_stored. rewrite E. exact Hr.
Qed.

Import Stored.

Definition demo_get (hs : list (bytes * bytes)) : Request := demo_request htp_GET "/k" hs [].

(** A plain request gives the compressed value, one with the tag of the value, or
    with a date, reaches the dead arrays. *)
Lemma frontend_serves_store_witness :
  (exists r x', GetCallback (It := MemStore.iter) demo_front (demo_get []) demo_stored = Some (r, x') /\ delivers Some r (lit "v")) /\
  GetCallback (It := MemStore.iter) demo_front (demo_get [(lit "If-None-Match", dquote ++ lit "5000" ++ dquote)]) demo_stored = None /\
  GetCallback (It := MemStore.iter) demo_front (demo_get [(lit "If-Modified-Since", lit "Thu Jan  1 00:00:05 1970 GMT")]) demo_stored = None.
Proof.
  assert (idle demo_stored) as Hi by (apply demo_started_idle; vm_compute; reflexivity).
  assert (is_Some (xEtag demo_stored)) as Ht by (exists (Init etag_new 4 1000); vm_compute; reflexivity).
  assert (forall v, ({[lit "k" := MkValue 5000 (lit "v")]} : gmap bytes xValue) !! lit "k" = Some v -> Z.of_nat (length (strValue v)) < 2 ^ 31) as Hv
    by (intros v Hv; vm_compute in Hv; injection Hv as <-; reflexivity).
  assert (forall hs, if short_tag demo_front (demo_get hs) || (conditional demo_front (demo_get hs) && true)
    then GetCallback (It := MemStore.iter) demo_front (demo_get hs) demo_stored = None
    else exists r x', GetCallback (It := MemStore.iter) demo_front (demo_get hs) demo_stored = Some (r, x') /\
      db x' = db demo_stored /\ idle x' /\ delivers Some r (lit "v")) as H.
  { intros hs. exact (frontend_serves_store (It := MemStore.iter) (lit "expire") demo_front (demo_get hs) demo_stored
      {[lit "k" := MkValue 5000 (lit "v")]} ∅ demo_stored_rel Hi eq_refl (fun _ => Ht) Hv). }
  split; [|split].
  - destruct (H []) as (r & x' & E & _ & _ & Hd). exists r, x'. split; [exact E|exact Hd].
  - exact (H [(lit "If-None-Match", dquote ++ lit "5000" ++ dquote)]).
  - exact (H [(lit "If-Modified-Since", lit "Thu Jan  1 00:00:05 1970 GMT")]).
Defined.

Lemma etag_cache_is_never_used_witness :
  fst <$> CheckEtag (st_xdb demo_started) (lit "k") 5000 = Some false.
Proof.
  destruct (CheckEtag_idle (st_xdb demo_started) (lit "k") 5000) as (x & E & _);
    [apply demo_started_idle; reflexivity|by eexists|].
  rewrite E. exact (f_equal Some (etag_cache_is_never_used (It := MemStore.iter) [] demo_front ∅ ∅
    (MkBack (st_xdb demo_started) (st_sysdb demo_started)) ltac:(cbn; lia) ltac:(cbn; lia) (rtc_refl _ _) _ _ _ _ E)).
Defined.

Lemma backend_never_uses_tls_witness :
  st_backend_ssl demo_started = None /\ ssl_pemfile <$> st_frontend_ssl demo_started = Some (lit "cert.pem").
Proof. apply (backend_never_uses_tls demo_front (∅ : MemStore.store) ∅); vm_compute; discriminate. Defined.

Lemma short_if_none_match_is_undefined_witness :
  GetCallback (It := MemStore.iter) demo_front (demo_request htp_GET "/k" [(lit "If-None-Match", lit "*")] [])
    demo_stored = None.
Proof.
  apply (short_if_none_match_is_undefined demo_front _ demo_stored (lit "*"));
    [reflexivity|reflexivity|vm_compute; reflexivity|vm_compute; lia].
Defined.
