(* ===== verification/HttpPages.v ===== *)
(** The administration pages and their readers: the JSON the backend sends is
    read back, by the reader of [jsoncpp], as what the store holds. *)

From S2P Require Import Prelude Cstd Util SortedSet MurmurHash2 EtagManager RocksDB DataBase DataBaseSpec IniFile Config Double JsonValue JsonValueSpec JsonWriter JsonReader JsonReaderSpec JsonGrammar JsonWriterSpec Mpfd Http HttpSpec.

(** ** The list of keys *)

Definition key_value (k : bytes) : Value := fresh (stringValue (Some (cstr k))).

(** The value a list of keys is sent as: an array of strings, each up to its first
    NUL, or null when there is none. *)
Definition keys_value (keys : list bytes) : Value :=
  match keys with
  | [] => null
  | _ => fresh (arrayValue (indexed 0 (key_value <$> keys)))
  end.

Lemma put_index_end l w c s e :
  put_index (MkJson (arrayValue (indexed 0 l)) c s e) (Z.of_nat (length l)) (fresh w) =
  Some (MkJson (arrayValue (indexed 0 (l ++ [fresh w]))) c s e).
Proof.
  unfold put_index, at_index, promoted, isNull. cbn [value_].
  assert (Forall (fun k => index_lt k (Z.of_nat (length l)) = true) (indexed 0 l).*1) as Hb by (apply indexed_below; lia).
  rewrite (map_get_below index_lt _ _ Hb). cbn [mbind option_bind value_ set_holder].
  rewrite map_get_put by apply _. cbn [mbind option_bind]. rewrite map_put_put by apply _. rewrite !(map_put_last index_lt _ _ _ Hb).
  by rewrite indexed_app.
Qed.

Lemma append_end l w :
  Z.of_nat (length l) < 2 ^ 32 ->
  append (fresh (arrayValue (indexed 0 l))) (fresh w) = Some (fresh (arrayValue (indexed 0 (l ++ [fresh w])))).
Proof. intros H. unfold append, fresh. rewrite size_indexed by done. apply put_index_end. Qed.

Lemma Value_string_key k : Z.of_nat (length k) < 2 ^ 31 - 1 -> Value_string k = key_value k.
Proof. intros H. unfold key_value. by rewrite <- (Value_string_cstr k) by done. Qed.

Lemma append_keys keys : Forall (fun k => Z.of_nat (length k) < 2 ^ 31 - 1) keys -> forall acc,
  Z.of_nat (length acc) + Z.of_nat (length keys) < 2 ^ 32 ->
  foldl (fun o k => o ← o; append o (Value_string k)) (Some (fresh (arrayValue (indexed 0 acc)))) keys =
  Some (fresh (arrayValue (indexed 0 (acc ++ (key_value <$> keys))))).
Proof.
  induction 1 as [|k keys Hk _ IH]; intros acc Hn; cbn [foldl fmap list_fmap]; [by rewrite app_nil_r|].
  cbn [mbind option_bind length] in *. rewrite Value_string_key by done. unfold key_value at 1. rewrite append_end by lia.
  rewrite IH; [by rewrite <- app_assoc|]. rewrite length_app. cbn [length]. lia.
Qed.

Lemma key_list_value keys :
  Z.of_nat (length keys) < 2 ^ 32 -> Forall (fun k => Z.of_nat (length k) < 2 ^ 31 - 1) keys ->
  key_list keys = Some (keys_value keys).
Proof.
  intros Hn Hk. unfold key_list. destruct Hk as [|k keys H0 Hk]; [done|]. cbn [foldl mbind option_bind]. rewrite Value_string_key by done.
  change (append null (key_value k)) with (Some (fresh (arrayValue (indexed 0 [key_value k])))).
  cbn [length] in Hn. rewrite append_keys; [done|done|]. cbn [length]. lia.
Qed.

Lemma key_value_ok k : wf (key_value k) /\ writable (key_value k) /\ canonical (key_value k).
Proof. split_and!; [|by split|by split]. apply wf_fresh. split; [apply cstr_no_nul|constructor]. Qed.

Lemma keys_value_ok keys :
  Z.of_nat (length keys) < 2 ^ 31 -> wf (keys_value keys) /\ writable (keys_value keys) /\ canonical (keys_value keys).
Proof.
  intros Hn. destruct keys as [|k keys]; [by split_and!|]. unfold keys_value. set (l := _ <$> _).
  assert (length l = length (k :: keys)) as Hl by apply length_fmap.
  assert (forall P : Value -> Prop, (forall k, P (key_value k)) -> Forall P l) as Hall.
  { intros P HP. apply Forall_fmap, Forall_forall. intros x _. apply HP. }
  split_and!.
  - apply wf_indexed; [apply Hall; intros; apply key_value_ok|lia].
  - apply every_indexed; [|apply Hall; intros; apply key_value_ok]. unfold writable_here, fresh. cbn [value_]. rewrite size_indexed; lia.
  - apply every_indexed; [|apply Hall; intros; apply key_value_ok]. unfold canonical_here. cbn [fresh value_].
    rewrite indexed_snd, indexed_length. split; [done|lia].
Qed.

Lemma strip_keys_value keys : strip (keys_value keys) = keys_value keys.
Proof.
  destruct keys as [|k keys]; [done|]. unfold keys_value. cbn [strip fresh]. rewrite indexed_fmap, <- list_fmap_compose. done.
Qed.

(** ** The scan page *)

Section ScanPage.
Context {DB It : Type} `{RocksDBSpec DB It} `{!RocksDBHealthy DB It} (zk : bytes).

(** The keys a request asks for. *)
Definition scan_start (req : Request) : bytes := default [] (uri_arg_find req (lit "key")).
Definition scan_limit (req : Request) : Z := atoi (default (lit "1000") (uri_arg_find req (lit "limit"))).
Definition scanned_keys (req : Request) (st : gmap bytes xValue * gmap bytes xValue) : list bytes :=
  take (Z.to_nat (scan_limit req)) (keys_between (if wants_sysdb req then st.2 else st.1) (scan_start req) [zb 255]).

Lemma stored_key_short m kv ttl k : store_rel zk m kv ttl -> is_Some (kv !! k) -> short k.
Proof.
  intros Hr Hk. destruct (sr_dom _ _ _ _ Hr (kv_key k)) as [(k' & E%kv_key_inj & Hs)|[(mem & E)|(s & mem & _ & E & _)]]; try done.
  - rewrite (sr_kv _ _ _ _ Hr). by apply fmap_is_Some.
  - by rewrite E.
Qed.

(** C9. The scan page of the backend, over a RocksDB without I/O errors, answers
    an authorized request with JSON that the reader of [jsoncpp] reads back,
    without an error, as the array of the stored keys from the one asked for
    on and below the byte 0xff (the end of the scan; keys that begin with that
    byte are not listed), in order and at most the limit, each key up to its first
    NUL; with null when there is none (which strict mode does not allow as a
    document). *)
Theorem scan_page_lists_keys cfg req b st ttl sttl :
  backend_rel zk b st ttl sttl -> CheckAuth cfg req = true -> Z.of_nat (length (scanned_keys req st)) < 2 ^ 31 ->
  exists body, KeyScanCallback cfg req b = Some (SendHttpResphone [(lit "Content-Type", lit "text/json; charset=UTF-8")] body, b) /\
    (Z.of_nat (length body) < 2 ^ 31 - 1 -> forall features root cc, wf root -> root_allowed features (keys_value (scanned_keys req st)) = true ->
       exists r, parse (Reader_new features) body root cc = Some (true, r) /\ errors_ r = [] /\
         strip (root_ r) = keys_value (scanned_keys req st)).
Proof.
  intros [H1 H2] Ha Hn. unfold KeyScanCallback, CheckSession. rewrite Ha. fold (scan_start req) (scan_limit req).
  set (x := if wants_sysdb req then bk_sysdb b else bk_xdb b).
  set (kv := if wants_sysdb req then st.2 else st.1). set (tt := if wants_sysdb req then sttl else ttl).
  assert (db_rel zk x kv tt) as Hr by (subst x kv tt; by destruct (wants_sysdb req)).
  destruct (ScanKey_refines zk x kv tt (scan_start req) [zb 255] (scan_limit req) [] Hr) as (L & Hs & Hin & ->).
  cbn [app ret_num]. assert (take (Z.to_nat (scan_limit req)) L = scanned_keys req st) as ->.
  { unfold scanned_keys. fold kv. by rewrite (keys_between_unique kv (scan_start req) [zb 255] L). }
  set (keys := scanned_keys req st) in *. change ([] ++ keys) with keys. cbn [Z.ltb Z.compare].
  rewrite key_list_value; [|lia|].
  2: { apply Forall_forall. intros k Hk. assert (short k); [|unfold short in *; lia]. apply elem_of_take in Hk as (j & Hj & _).
       apply list_elem_of_lookup_2 in Hj. fold kv in Hj. rewrite <- (keys_between_unique kv _ _ L Hs Hin) in Hj. apply Hin in Hj as [Hk _].
       destruct Hr as [Hr _]. by eapply stored_key_short. }
  cbn [mbind option_bind]. destruct (keys_value_ok keys Hn) as (Hw & Hwr & Hc).
  destruct (fast_write_document FastWriter_new (keys_value keys) Hw Hwr eq_refl) as (t & -> & Hd). cbn [mbind option_bind].
  exists t. split; [done|]. intros Hl features root cc Hroot Hf. rewrite <- strip_keys_value, <- (norm_canonical _ Hc).
  apply read_document; [by apply document_any|done| |done]. rewrite (norm_canonical _ Hc). by rewrite strip_keys_value.
Qed.

End ScanPage.

Definition demo_scan : Request := demo_request htp_GET "/scan" [demo_auth] [].

Lemma scan_page_lists_keys_witness :
  exists body r, KeyScanCallback (It := MemStore.iter) demo_cfg demo_scan (MkBack demo_stored (mem_db ∅)) =
      Some (SendHttpResphone [(lit "Content-Type", lit "text/json; charset=UTF-8")] body, MkBack demo_stored (mem_db ∅)) /\
    parse (Reader_new Features_all) body null false = Some (true, r) /\
    strip (root_ r) = fresh (arrayValue [(0, fresh (stringValue (Some (lit "k"))))]).
Proof.
  destruct (scan_page_lists_keys (It := MemStore.iter) (lit "expire") demo_cfg demo_scan (MkBack demo_stored (mem_db ∅))
    ({[lit "k" := MkValue 5000 (lit "v")]}, ∅) ∅ ∅) as (body & E & Hr).
  - split; [apply demo_stored_rel|apply mem_db_empty].
  - vm_compute. reflexivity.
  - vm_compute. reflexivity.
  - assert (Z.of_nat (length body) < 2 ^ 31 - 1) as Hl.
    { apply (f_equal (fmap (fun x => buffer_out x.1))) in E. vm_compute in E. injection E as <-. vm_compute. reflexivity. }
    destruct (Hr Hl Features_all null false) as (r & Hp & _ & Hs); [apply wf_null|reflexivity|]. exists body, r. split; [exact E|]. split; [exact Hp|].
    rewrite Hs. vm_compute. reflexivity.
Defined.
