(* ===== verification/Startup.v ===== *)
(** The start-up as a whole ([src/xHttpCache.cpp]): opening the databases, the
    settings written to the log, and the servers being bound and started.

    RocksDB, libevhtp and the sockets are outside the model: [rocksdb_open] is
    what [DB::Open] gives, and whether a call succeeds is an argument. *)

From S2P Require Import Prelude Cstd Util SortedSet MurmurHash2 EtagManager RocksDB DataBase IniFile Config Double JsonValue JsonWriter Mpfd Gzip Http.

(** ** [xDataBase::OpenDB] *)

(** What the code sets of [rocksdb::Options]. *)
Record Options := MkOptions {
  o_create_if_missing : bool;
  o_max_open_files : Z;
  o_write_buffer_size : Z;
  o_db_log_dir : bytes;
  o_snappy : bool
}.

Definition open_options (cfg : ROCKSDB_CONFIG) : Options :=
  MkOptions (create_if_missing cfg) (max_open_files cfg) (u64 (write_buffer_size cfg * 1024 * 1024)) (db_log_dir cfg)
    (compression cfg).

(** The database of the administration pages. *)
Definition sysdb_config : ROCKSDB_CONFIG :=
  MkDbConfig (lit "./xdb") true 10240 2 0 (lit "xdblog") 32 true 0.

Section Open.
Context {DB : Type} (rocksdb_open : Options -> bytes -> option DB).

(** The result, with the database when there is one. *)
Definition OpenDB (cfg : ROCKSDB_CONFIG) : bool * option DB :=
  match rocksdb_open (open_options cfg) (db_base_dir cfg) with
  | None => (false, None)
  | Some d => (true, Some d)
  end.

(** [Close]: the database is deleted and the pointer set to NULL; a second call
    does nothing. *)
Definition Close (db : option DB) : option DB := match db with Some _ => None | None => db end.

(** [StatusStr]: the statistics are those of a new object, which replaces the one
    in [options]; the database was opened with the options as they were. *)
Definition StatusStr {Statistics} (CreateDBStatistics : Statistics) (ToString : Statistics -> bytes)
    (statistics : option Statistics) : option Statistics * bytes :=
  let statistics := CreateDBStatistics in (Some statistics, ToString statistics).

End Open.

(** [Init] of the two HTTP servers and of [ExpireManager]: the database is kept
    unless it is NULL. *)
Section Init.
Context {X : Type}.

Definition Frontend_Init (xdb db : option X) : bool * option X := match db with Some _ => (true, db) | None => (false, xdb) end.
Definition Backend_Init (xdb db : option X) : bool * option X := match db with Some _ => (true, db) | None => (false, xdb) end.
Definition Expire_Init (xdb db : option X) : bool * option X := match db with Some _ => (true, db) | None => (false, xdb) end.

End Init.

(** ** [xConfig::Debug] *)

Definition Debug (c : xConfig) : list bytes :=
  let s (name : string) (v : bytes) := lit name ++ lit ":" ++ cstr v in
  let d (name : string) (v : Z) := lit name ++ lit ":" ++ sdec v in
  let b (v : bool) := if v then 1 else 0 in
  let a := app c in let f := frontend c in let k := backend c in let r := dbcfg c in
  [s "xhttpcache redis_ip" (redis_ip a); d "xhttpcache redis_port" (redis_port a);
   s "xhttpcache log_filename" (log_filename a); d "xhttpcache log_filesize" (log_filesize a);
   s "xhttpcache log_level" (log_level a); d "xhttpcache run_daemonize" (run_daemonize a);
   d "xhttpcache run_guard" (run_guard a); d "xhttpcache debug" (debug a);
   s "httpd_frontend ip" (f_ip f); d "httpd_frontend port" (f_port f); d "httpd_frontend threads" (f_threads f);
   d "httpd_frontend timeout" (f_timeout f); d "httpd_frontend gzip" (f_gzip f); d "httpd_frontend etag" (f_etag f);
   d "httpd_frontend etag_cache_count" (f_etag_cache_count f); d "httpd_frontend etag_cache_size" (f_etag_cache_size f);
   s "httpd_frontend pemfile" (f_pemfile f); s "httpd_frontend privfile" (f_privfile f);
   d "httpd_frontend ssl_timeout" (f_ssl_timeout f); s "httpd_frontend default_index" (f_default_index f);
   s "httpd_backend ip" (b_ip k); d "httpd_backend port" (b_port k); d "httpd_backend threads" (b_threads k);
   d "httpd_backend timeout" (b_timeout k); s "httpd_backend username" (b_username k);
   s "httpd_backend password" (b_password k); s "httpd_backend pemfile" (b_pemfile k);
   s "httpd_backend privfile" (b_privfile k); d "httpd_backend ssl_timeout" (b_ssl_timeout k);
   d "httpd_backend max_upload_file_size" (b_max_upload_file_size k);
   s "db db_base_dir" (db_base_dir r); d "db create_if_missing" (b (create_if_missing r));
   d "db max_open_files" (max_open_files r); d "db max_file_opening_threads" (max_file_opening_threads r);
   d "db max_total_wal_size" (max_total_wal_size r); s "db db_log_dir" (db_log_dir r);
   d "db write_buffer_size" (write_buffer_size r); d "db compression" (b (compression r))].

(** ** Starting the servers *)

(** An address a server accepts connections at. *)
Definition address : Type := bytes * Z.

Section Sockets.
(** Whether libevhtp, or the calls for the Redis server, can listen at an address,
    and whether a callback can be registered for a path. *)
Context (evhtp_bind : address -> bool) (set_cb : bytes -> bool) (socket bind listen : address -> bool).

(** The result of [evhtp_bind_socket] is not used. *)
Definition BindSocket (ip : bytes) (port : Z) : bool * option address :=
  (true, if evhtp_bind (ip, port) then Some (ip, port) else None).

(** The callbacks, registered one after the other; stops at the first failure. *)
Fixpoint register (paths : list bytes) : bool :=
  match paths with [] => true | p :: paths => if set_cb p then register paths else false end.

Definition frontend_SetRouteTable (cfg : xConfig) : bool :=
  if register (frontend_index_paths cfg) then set_cb (lit "/*") else false.

Definition backend_SetRouteTable : bool := register (backend_routes.1).*1.

(** [Start] of the HTTP servers: bind, register, run the threads. *)
Definition Start (routes : bool) (ip : bytes) (port : Z) : bool * option address :=
  let '(ok, a) := BindSocket ip port in
  if negb ok then (false, a) else if negb routes then (false, a) else (true, a).

Definition Frontend_Start (routes : bool) (ip : bytes) (port : Z) : bool * option address :=
  let '(ok, a) := BindSocket ip port in
  if negb ok then (false, a) else if negb routes then (false, a) else (true, a).

(** [xRedisServerBase::BindPort] and [Start]; [Run] starts the thread. *)
Definition BindPort (ip : option bytes) (port : Z) : bool * option address :=
  match ip with
  | None => (false, None)
  | Some ip =>
      let a := (ip, port) in
      if negb (socket a) then (false, None)
      else if negb (bind a) then (false, None)
      else if negb (listen a) then (false, None)
      else (true, Some a)
  end.

(** [Run] of the Redis server, with the result of [pthread_create]; [Run] of the
    HTTP servers, which does not look at that of libevhtp and returns true;
    [SendData], with the result of [bufferevent_write]; [SetSocketOpt]: what is
    printed, with the result of [setsockopt] and the text of the error. *)
Definition Redis_Run (ret : Z) : bool := ret =? 0.
Definition Httpd_Run (ret : Z) : bool := true.
Definition SendData (ret : Z) : bool := ret =? 0.
Definition SetSocketOpt (ret : Z) (strerror : bytes) : bytes :=
  if negb (ret =? 0) then lit "setsockopt(TCP_NODELAY) failed: " ++ strerror else [].

Definition Redis_Start (pthread_create : Z) (ip : option bytes) (port : Z) : bool * option address :=
  let '(ok, a) := BindPort ip port in if ok then (Redis_Run pthread_create, a) else (false, a).

(** ** [xhttpcache] *)

(** What runs: the databases (of which a failed [OpenDB] leaves none), the
    addresses served, and what was logged of the settings. *)
Record Running (DB : Type) := MkRunning {
  r_xdb : option DB;
  r_sysdb : option DB;
  r_frontend : option address;
  r_backend : option address;
  r_redis : option address;
  r_log : list bytes
}.

(** None of the results is looked at: every step follows the one before. *)
Definition launch {DB} (rocksdb_open : Options -> bytes -> option DB) (cfg : xConfig) : Running DB :=
  let log := Debug cfg in
  let '(_, d) := OpenDB rocksdb_open (dbcfg cfg) in
  let '(_, front) := Frontend_Start (frontend_SetRouteTable cfg) (f_ip (frontend cfg)) (f_port (frontend cfg)) in
  let '(_, sd) := OpenDB rocksdb_open sysdb_config in
  let '(_, back) := Start backend_SetRouteTable (b_ip (backend cfg)) (b_port (backend cfg)) in
  let '(_, redis) := Redis_Start 0 (Some (redis_ip (app cfg))) (redis_port (app cfg)) in
  MkRunning DB d sd front back redis log.

End Sockets.
