(* ===== verification/StartupSpec.v ===== *)
(** Start-up and restart: what is stored, expirations included, survives the end
    of the process; what the start-up does not notice. *)

From S2P Require Import Prelude Cstd Util SortedSet MurmurHash2 EtagManager RocksDB DataBase DataBaseSpec ExpireManager RedisServerLib RedisServerLibSpec RedisServer RedisServerSpec IniFile Config Double JsonValue JsonWriter Mpfd Gzip Http HttpSpec Startup.

(** ** Restart *)

(** The Redis server of a new process on the database [d]: [xhttpcache] makes its
    [xDataBase], [Init] an empty manager of expirations. *)
Definition restarted {DB} (cfg : xConfig) (d sd : DB) (clk : nat -> timeval) : RedisState DB :=
  redis_init (st_xdb (xhttpcache cfg d sd)) clk.

Section Restart.
Context {DB It : Type} `{RocksDBSpec DB It} `{!RocksDBHealthy DB It}.

Lemma restart_inv cfg sd st s clk :
  sys_inv st s -> clock_ok clk ->
  sys_inv (restarted cfg (db (xdb st)) sd clk) (MkAbs (ab_kv s) (ab_ttl s) clk).
Proof.
  intros [[Hs _] Hc Hl Hv _ _] Hk. apply sys_inv_intro; [|by eapply coherent_restart|done|done|done].
  unfold xhttpcache. destruct (f_etag (frontend cfg) =? 1); (split; [exact Hs|done]).
Qed.

Lemma restart_same cfg sd st s : sys_inv st s -> sys_inv (restarted cfg (db (xdb st)) sd (clock st)) s.
Proof.
  intros Hi. rewrite (si_clock _ _ Hi). destruct s as [kv ttl clk].
  exact (restart_inv cfg sd st (MkAbs kv ttl clk) clk Hi (si_time _ _ Hi)).
Qed.

(** Requests in several lives of the server: the process ends after each list and
    a new one is started on the database it left. *)
Fixpoint run_lives (cfg : xConfig) (sd : DB) (lives : list (list request)) (st : RedisState DB)
  : option (bytes * RedisState DB) :=
  match lives with
  | [] => Some ([], st)
  | rs :: lives =>
      '(o, st) ← run_cmds redis_table (req_args <$> rs) st;
      '(o', st) ← run_lives cfg sd lives (restarted cfg (db (xdb st)) sd (clock st));
      Some (o ++ o', st)
  end.

Lemma abs_requests_app rs : forall s rs',
  abs_requests s (rs ++ rs') =
  let '(o, s) := abs_requests s rs in let '(o', s) := abs_requests s rs' in (o ++ o', s).
Proof.
  induction rs as [|r rs IH]; intros s rs'; rewrite ?app_nil_l, <- ?app_comm_cons; cbn [abs_requests]; [by destruct (abs_requests s rs')|].
  destruct (abs_request s r) as [o s1]. rewrite IH. destruct (abs_requests s1 rs) as [o1 s2].
  destruct (abs_requests s2 rs') as [o2 s3]. by rewrite app_assoc.
Qed.


End Restart.

(** ** What the start-up does not notice *)

(** The password of the backend is written to the log, in the clear. *)
Theorem password_is_logged {DB} evhtp_bind set_cb socket bind listen (rocksdb_open : Options -> bytes -> option DB) cfg :
  lit "httpd_backend password:" ++ cstr (b_password (backend cfg)) ∈
    r_log DB (launch evhtp_bind set_cb socket bind listen rocksdb_open cfg).
Proof.
  assert (r_log DB (launch evhtp_bind set_cb socket bind listen rocksdb_open cfg) = Debug cfg) as ->.
  { unfold launch. by destruct (OpenDB _ _), (Frontend_Start _ _ _ _), (OpenDB _ _), (Start _ _ _ _), (Redis_Start _ _ _ _ _ _). }
  unfold Debug. do 25 apply list_elem_of_further. apply list_elem_of_here.
Qed.

(** An HTTP server whose address is taken is reported as started, and serves
    nothing; a database that does not open is not noticed either. *)
Theorem failed_start_is_not_noticed {DB} set_cb socket bind listen (rocksdb_open : Options -> bytes -> option DB) cfg :
  (forall p, set_cb p = true) -> (forall o p, rocksdb_open o p = None) ->
  Frontend_Start (fun _ => false) (frontend_SetRouteTable set_cb cfg) (f_ip (frontend cfg)) (f_port (frontend cfg)) = (true, None) /\
  let r := launch (fun _ => false) set_cb socket bind listen rocksdb_open cfg in
  r_xdb DB r = None /\ r_frontend DB r = None /\ r_backend DB r = None.
Proof.
  intros Hcb Hdb.
  assert (forall l, register set_cb l = true) as Hr by (induction l as [|p l IH]; cbn; [done|by rewrite Hcb]).
  assert (frontend_SetRouteTable set_cb cfg = true) as Hf by (unfold frontend_SetRouteTable; by rewrite Hr, Hcb).
  split; [unfold Frontend_Start, BindSocket; by rewrite Hf|]. unfold launch, OpenDB, Frontend_Start, Start, BindSocket. rewrite !Hdb, Hf.
  unfold backend_SetRouteTable. rewrite Hr. cbn [negb]. by destruct (Redis_Start _ _ _ _ _ _).
Qed.

(** The statistics page never shows the database's own statistics: its text is
    the same whatever has happened. *)
Lemma statistics_are_always_new {Statistics} (new : Statistics) (ToString : Statistics -> bytes) (s1 s2 : option Statistics) :
  (StatusStr new ToString s1).2 = ToString new /\ StatusStr new ToString s1 = StatusStr new ToString s2.
Proof. done. Qed.

(** ** Concrete runs *)

