(* ===== verification/Server.v ===== *)
(** The whole server: the HTTP frontend, the REST interface of the backend, the
    Redis server and the expiration thread on one database, with restarts.  What
    any of them is asked is answered as one store of values and expirations
    answers it, whoever asks. *)

From S2P Require Import Prelude Cstd Util SortedSet MurmurHash2 EtagManager RocksDB DataBase DataBaseSpec ExpireManager RedisServerLib RedisServerLibSpec RedisServer RedisServerSpec IniFile Config Double JsonValue JsonWriter Mpfd Gzip Http HttpSpec StartupSpec.

(** ** The server *)

(** The databases and the manager of expirations that [xhttpcache] makes. *)
Record Server (DB : Type) := MkServer { sv_redis : RedisState DB; sv_sysdb : xDataBase DB }.
Arguments MkServer {DB} _ _.
Arguments sv_redis {DB} _.
Arguments sv_sysdb {DB} _.

(** What happens to it: a request to the frontend, one to the backend (and when),
    a command of a Redis client, a turn of the expiration thread (and its clock
    readings), the end of the process and a new start. *)
Inductive event :=
| EvGet (req : Request)
| EvRest (req : Request) (now : timeval)
| EvRedis (r : request)
| EvTurn (c : timeval * timeval)
| EvRestart.

Inductive answer := AHttp (r : Reply) | ARedis (out : bytes) | ANone.

Definition with_xdb {DB} (st : RedisState DB) (x : xDataBase DB) : RedisState DB := MkRedis x (expiremgr st) (clock st).

Definition server_start {DB} (cfg : xConfig) (d sd : DB) (clk : nat -> timeval) : Server DB :=
  MkServer (restarted cfg d sd clk) (st_sysdb (xhttpcache cfg d sd)).

Section Serve.
Context {DB It : Type} `{RocksDB DB It} {ZS : Type} `{ZLib ZS} (cfg : xConfig).

Definition serve (e : event) (sv : Server DB) : option (answer * Server DB) :=
  let st := sv_redis sv in
  match e with
  | EvGet req => '(r, x) ← GetCallback cfg req (xdb st); Some (AHttp r, MkServer (with_xdb st x) (sv_sysdb sv))
  | EvRest req now =>
      '(r, b) ← RESTCallback cfg req (MkBack (xdb st) (sv_sysdb sv)) now;
      Some (AHttp r, MkServer (with_xdb st (bk_xdb b)) (bk_sysdb b))
  | EvRedis r => '(out, st) ← run_cmd redis_table (req_args r) st; Some (ARedis out, MkServer st (sv_sysdb sv))
  | EvTurn c => let '(x, m) := Dispatch_turn (xdb st, expiremgr st) c in Some (ANone, MkServer (MkRedis x m (clock st)) (sv_sysdb sv))
  | EvRestart => Some (ANone, server_start cfg (db (xdb st)) (db (sv_sysdb sv)) (clock st))
  end.

Fixpoint serves (es : list event) (sv : Server DB) : option (list answer * Server DB) :=
  match es with
  | [] => Some ([], sv)
  | e :: es => '(a, sv) ← serve e sv; '(l, sv) ← serves es sv; Some (a :: l, sv)
  end.
End Serve.

(** ** The store *)

Record abs_server := MkAbsServer { as_redis : abs_redis; as_sys : gmap bytes xValue }.

(** What the store answers to an event, and what it becomes. *)
Definition abs_event (gunzip : bytes -> option bytes) (cfg : xConfig) (e : event) (s : abs_server) (a : answer) (s' : abs_server) : Prop :=
  let '(MkAbs kv ttl clk) := as_redis s in
  match e with
  | EvGet req =>
      s' = s /\ exists r, a = AHttp r /\
      if decide (method req = htp_GET) then
        match kv !! uri_of req with
        | None => res_code r = EVHTP_RES_NOTFOUND
        | Some v => delivers gunzip r (strValue v)
        end
      else res_code r = EVHTP_RES_BADREQ
  | EvRest req now =>
      exists r kv' sys', a = AHttp r /\ abs_rest cfg kv (as_sys s) req now (res_code r) (buffer_out r) kv' sys' /\
      s' = MkAbsServer (MkAbs kv' ttl clk) sys'
  | EvRedis r => a = ARedis (abs_request (as_redis s) r).1 /\ s' = MkAbsServer (abs_request (as_redis s) r).2 (as_sys s)
  | EvTurn c =>
      a = ANone /\ exists kv' ttl', s' = MkAbsServer (MkAbs kv' ttl' clk) (as_sys s) /\
      (expire_step (time_ms c.1) (kv, ttl) (kv', ttl') \/ expire_step (time_ms c.2) (kv, ttl) (kv', ttl'))
  | EvRestart => a = ANone /\ s' = s
  end.

Inductive abs_events (gunzip : bytes -> option bytes) (cfg : xConfig) : list event -> abs_server -> list answer -> abs_server -> Prop :=
| abs_events_nil s : abs_events gunzip cfg [] s [] s
| abs_events_cons e es s a s1 l s2 :
    abs_event gunzip cfg e s a s1 -> abs_events gunzip cfg es s1 l s2 -> abs_events gunzip cfg (e :: es) s (a :: l) s2.

(** What the servers are asked: at the frontend nothing conditional, at the REST
    interface keys and bodies of bounded size, of the Redis server the requests of
    [request_ok] (no empty argument, numbers and sizes in range) with values of
    less than 2 GB. *)
Definition event_ok (cfg : xConfig) (e : event) : Prop :=
  match e with
  | EvGet req => method req = htp_GET -> conditional cfg req = false
  | EvRest req now => short (uri_of req) /\ fits (buffer_in req)
  | EvRedis r => request_ok r /\ match r with RSet _ v | RSetEx _ v _ => fits v | _ => True end
  | EvTurn _ | EvRestart => True
  end.

(** ** Commands and turns leave the ETags alone *)

Section Quiet.
Context {DB It : Type} `{RocksDB DB It}.

Definition quiet (x x' : xDataBase DB) : Prop := bEtag x' = bEtag x /\ xEtag x' = xEtag x.

Lemma quiet_trans x y z : quiet x y -> quiet y z -> quiet x z.
Proof. unfold quiet. intros [-> ->] [-> ->]. done. Qed.

Lemma quiet_idle x x' : quiet x x' -> idle x -> idle x'.
Proof. unfold quiet, idle. intros [-> ->]. done. Qed.

Lemma Set_quiet x now k v r x' : bEtag x = false -> xdb_Set x now k v = Some (r, x') -> quiet x x'.
Proof.
  intros Hb. unfold xdb_Set. destruct (rdb_Put (db x) _ _) as [d s]. destruct (negb (ok s)); [by intros [= _ <-]|].
  unfold note_etag. cbn [set_db bEtag]. rewrite Hb. cbn [mbind option_bind]. by intros [= _ <-].
Qed.

Lemma Del_quiet x k : quiet x (xdb_Del x k).2.
Proof. unfold xdb_Del. by destruct (rdb_Delete (db x) _). Qed.

Lemma Zset_quiet x zk mem s : quiet x (xdb_Zset x zk mem s).2.
Proof.
  unfold xdb_Zset. destruct (_ || _); [done|]. destruct (xdb_Zget x zk mem []) as [r o]. destruct (_ || _); [|done].
  set (d := if bool_decide (r = db_null) then db x else _). destruct (rdb_Put d _ _) as [d1 s1]. destruct (negb (ok s1)); [done|].
  destruct (rdb_Put d1 _ _) as [d2 s2]. by destruct (negb (ok s2)).
Qed.

Lemma Zdel_quiet x zk mem : quiet x (xdb_Zdel x zk mem).2.
Proof.
  unfold xdb_Zdel. destruct (_ || _); [done|]. destruct (xdb_Zget x zk mem []) as [r o]. destruct (bool_decide _); [done|].
  by destruct (rdb_Delete _ (EncodeKey (K_ZSET zk mem))).
Qed.

Lemma del_all_quiet x l : quiet x (del_all x l).
Proof.
  revert x. induction l as [|k l IH]; intros x; [done|]. unfold del_all. cbn [foldl]. eapply quiet_trans; [apply Del_quiet|apply IH].
Qed.

Lemma reply_state (out : option bytes) (st : RedisState DB) o st' : reply out st = Some (o, st') -> st' = st.
Proof. unfold reply. destruct out; cbn [mbind option_bind]; [by intros [= _ <-]|done]. Qed.

(** A branch of a handler that ends with a reply. *)
Ltac replied := by first [intros ->%reply_state | intros [= _ <-]].

Definition quiet_handler (h : list bytes -> RedisState DB -> option (bytes * RedisState DB)) : Prop :=
  forall argv st o st', bEtag (xdb st) = false -> h argv st = Some (o, st') -> quiet (xdb st) (xdb st').

Lemma get_quiet : quiet_handler ProcessCmd_get.
Proof.
  intros argv st o st' Hb. unfold ProcessCmd_get. destruct (negb _); [replied|].
  destruct (xdb_Get (xdb st) _ _) as [[[ret v] x]|] eqn:E; cbn [mbind option_bind]; [|done].
  apply Get_keeps_etag in E as ->; [|done]. destruct ret; replied.
Qed.

Lemma set_quiet : quiet_handler ProcessCmd_set.
Proof.
  intros argv st o st' Hb. unfold ProcessCmd_set. destruct (length argv =? 3)%nat.
  { destruct (xdb_Set (xdb st) _ _ _) as [[r x]|] eqn:E; cbn [mbind option_bind]; [|done]. apply Set_quiet in E; [|done]. replied. }
  destruct (_ && _); [|replied]. destruct (expired_at _ _) as [e|]; cbn [mbind option_bind xdb expiremgr clock]; [|done].
  destruct (xdb_Set (xdb st) _ _ _) as [[r x]|] eqn:E; cbn [mbind option_bind]; [|done]. apply Set_quiet in E; [|done].
  destruct (SetTTL (expiremgr st) _ e) as [r1 m1]. pose proof (Zset_quiet x (expire_key m1) (nth 1 argv []) (sdec e)) as Hz.
  destruct (xdb_Zset x _ _ _) as [ret x2]. cbn [snd] in Hz. assert (quiet (xdb st) x2) as Hq by by eapply quiet_trans.
  destruct (decide _); [destruct (SetTTL m1 _ e)|]; replied.
Qed.

Lemma del_quiet : quiet_handler ProcessCmd_del.
Proof.
  intros argv st o st' Hb. unfold ProcessCmd_del. destruct (negb _); [replied|].
  pose proof (Del_quiet (xdb st) (nth 1 argv [])) as Hq. destruct (xdb_Del _ _) as [r x]. replied.
Qed.

Lemma expire_quiet : quiet_handler ProcessCmd_expire.
Proof.
  intros argv st o st' Hb. unfold ProcessCmd_expire. destruct (negb _); [replied|].
  destruct (expired_at _ _) as [e|]; cbn [mbind option_bind xdb expiremgr clock]; [|done].
  destruct (xdb_Get (xdb st) _ _) as [[[ret v] x]|] eqn:E; cbn [mbind option_bind]; [|done].
  apply Get_keeps_etag in E as ->; [|done]. destruct (decide _); [|replied].
  pose proof (Zset_quiet (xdb st) (expire_key (expiremgr st)) (nth 1 argv []) (sdec e)) as Hq.
  destruct (xdb_Zset _ _ _ _) as [ret2 x2]. destruct (decide _); replied.
Qed.

Lemma ttl_quiet : quiet_handler ProcessCmd_ttl.
Proof.
  intros argv st o st' Hb. unfold ProcessCmd_ttl. destruct (negb _); [replied|]. destruct (xdb_Zget _ _ _ _) as [ret s].
  destruct ret; [|replied..]. destruct (int64 _); cbn [mbind option_bind]; [replied|done].
Qed.

Lemma scan_quiet : quiet_handler ProcessCmd_scan.
Proof.
  intros argv st o st' Hb. unfold ProcessCmd_scan. destruct (scan_args argv) as [[[[a b] n] del]|]; [|replied].
  destruct (xdb_ScanKey _ _ _ _ _) as [ret l]. destruct (ret_num ret <? 0); [replied|]. destruct del; [|replied].
  pose proof (del_all_quiet (xdb st) l) as Hq. replied.
Qed.

Lemma run_cmd_quiet r : quiet_handler (fun _ => run_cmd redis_table (req_args r)).
Proof.
  intros argv st o st' Hb E. destruct r; (first [eapply get_quiet; [done|exact E]|eapply set_quiet; [done|exact E]|eapply del_quiet; [done|exact E]
    |eapply expire_quiet; [done|exact E]|eapply ttl_quiet; [done|exact E]|eapply scan_quiet; [done|exact E]]).
Qed.

Lemma RESTfulPro_quiet cfg req x now hs r x' : bEtag x = false -> RESTfulPro cfg req x now hs = Some (r, x') -> quiet x x'.
Proof.
  intros Hb. unfold RESTfulPro. destruct (method req).
  - destruct (xdb_Get x _ _) as [[[ret v] x1]|] eqn:E; cbn [mbind option_bind]; [|done].
    apply Get_keeps_etag in E as ->; [|done]. destruct (decide _); by intros [= _ <-].
  - destruct (post_value cfg req) as [w|]; cbn [mbind option_bind]; [|done].
    destruct (xdb_Set x _ _ _) as [[ret x1]|] eqn:E; cbn [mbind option_bind]; [|done]. apply Set_quiet in E; [|done]. destruct (0 <? _); by intros [= _ <-].
  - destruct (post_value cfg req) as [w|]; cbn [mbind option_bind]; [|done].
    destruct (xdb_Set x _ _ _) as [[ret x1]|] eqn:E; cbn [mbind option_bind]; [|done]. apply Set_quiet in E; [|done]. destruct (0 <? _); by intros [= _ <-].
  - pose proof (Del_quiet x (uri_of req)) as Hq. destruct (xdb_Del x _) as [ret x1]. destruct (0 <? _); by intros [= _ <-].
  - by intros [= _ <-].
Qed.

Lemma RESTCallback_quiet cfg req b now r b' :
  bEtag (bk_xdb b) = false -> RESTCallback cfg req b now = Some (r, b') -> quiet (bk_xdb b) (bk_xdb b').
Proof.
  intros Hb. unfold RESTCallback. destruct (CheckSession _ _ _); [by intros [= _ <-]|]. destruct (_ =? _)%nat; [by intros [= _ <-]|].
  destruct (wants_sysdb req).
  - destruct (RESTfulPro _ _ _ _ _) as [[r1 x]|]; cbn [mbind option_bind]; [by intros [= _ <-]|done].
  - destruct (RESTfulPro _ _ _ _ _) as [[r1 x]|] eqn:E; cbn [mbind option_bind]; [|done]. apply RESTfulPro_quiet in E; [|done]. by intros [= _ <-].
Qed.

(** The frontend may touch the manager of ETags, not drop it. *)
Lemma GetCallback_keeps_manager {ZS} `{ZLib ZS} cfg req x r x' :
  bEtag x = false -> is_Some (xEtag x) -> GetCallback cfg req x = Some (r, x') -> is_Some (xEtag x').
Proof.
  intros Hb Hx. unfold GetCallback, GetCallbackPro. destruct (negb _); [by intros [= _ <-]|].
  destruct (match _ with None => _ | Some h => _ end) as [[hit x1]|] eqn:E; cbn [mbind option_bind]; [|done].
  assert (bEtag x1 = false /\ is_Some (xEtag x1)) as [Hb1 Hx1].
  { destruct (if f_etag (frontend cfg) =? 1 then _ else None) as [h|]; [|by injection E as _ <-].
    destruct (etag_text h) as [t|]; cbn [mbind option_bind] in E; [|done]. unfold CheckEtag in E.
    destruct (xEtag x) as [m|]; cbn [mbind option_bind] in E; [|done]. destruct (GetKey m _ _) as [[b m']|]; cbn [mbind option_bind] in E; [|done].
    injection E as _ <-. split; [done|]. by eexists. }
  destruct hit; [by intros [= _ <-]|]. destruct (xdb_Get x1 _ _) as [[[ret v] x2]|] eqn:E2; cbn [mbind option_bind]; [|done].
  apply Get_keeps_etag in E2 as ->; [|done]. destruct (decide _); [by intros [= _ <-]|].
  destruct (send_value _ _ _ _ _); cbn [mbind option_bind]; [by intros [= _ <-]|done].
Qed.

Lemma Dispatch_turn_quiet x m c : quiet x (Dispatch_turn (x, m) c).1.
Proof.
  cbn [Dispatch_turn]. destruct (negb (brun m)); [done|]. destruct (_ <? _); [done|].
  assert (forall m, quiet x (match SS.front (sort_set m) with
    | Some it =>
        let m := with_timeout m (SS.score it) in
        if SS.score it <=? time_ms c.2 then
          let '(_, x) := xdb_Del x (SS.key it) in
          let '(_, x) := xdb_Zdel x (expire_key m) (SS.key it) in (x, with_set m (SS.pop_front (sort_set m)).2)
        else (x, m)
    | None => (x, m) end).1) as Hbody.
  { intros m'. destruct (SS.front _) as [it|]; [|done]. cbn zeta. destruct (_ <=? _); [|done].
    pose proof (Del_quiet x (SS.key it)) as H1. destruct (xdb_Del x _) as [r1 x1].
    pose proof (Zdel_quiet x1 (expire_key (with_timeout m' (SS.score it))) (SS.key it)) as H2. destruct (xdb_Zdel x1 _ _) as [r2 x2].
    by eapply quiet_trans. }
  unfold ExpireLoop. destruct (SS.empty (sort_set m)); [|apply Hbody]. cbn zeta. destruct (SS.empty _); [done|]. apply Hbody.
Qed.
End Quiet.

(** ** Everything refines the store *)

Lemma unconditional_tag cfg req : conditional cfg req = false -> short_tag cfg req = false.
Proof.
  unfold conditional, short_tag. destruct (if _ =? _ then _ else _); [|done]. by rewrite orb_true_r.
Qed.

Section Refinement.
Context {DB It : Type} `{RocksDBSpec DB It} `{!RocksDBHealthy DB It}.
Context {ZS : Type} `{ZLib ZS} {gunzip : bytes -> option bytes} `{!ZLibSpec ZS gunzip} (cfg : xConfig).
Context (Hcount : 1 <= f_etag_cache_count (frontend cfg) < 2 ^ 31) (Hsize : 1 <= f_etag_cache_size (frontend cfg) < 2 ^ 31).

Abbreviation zk := (lit "expire").

Record server_inv (sv : Server DB) (s : abs_server) : Prop := {
  sv_main : sys_inv (sv_redis sv) (as_redis s);
  sv_sys : db_rel zk (sv_sysdb sv) (as_sys s) ∅;
  sv_idle : idle (xdb (sv_redis sv));
  sv_tags : f_etag (frontend cfg) = 1 -> is_Some (xEtag (xdb (sv_redis sv)));
  sv_values k v : ab_kv (as_redis s) !! k = Some v -> fits (strValue v)
}.

Definition all_fit (kv : gmap bytes xValue) : Prop := forall k v, kv !! k = Some v -> fits (strValue v).

Lemma fit_insert kv k w : all_fit kv -> fits (strValue w) -> all_fit (<[k := w]> kv).
Proof. intros Ha Hw k' v' [[<- <-]|[? ?]]%lookup_insert_Some; eauto. Qed.

Lemma fit_delete kv k : all_fit kv -> all_fit (delete k kv).
Proof. intros Ha k' v' [_ ?]%lookup_delete_Some. eauto. Qed.

Lemma fits_value v : fits (strValue v) -> value_ok (strValue v).
Proof. unfold fits, value_ok. lia. Qed.

(** What a request to the REST interface stores is no longer than its body. *)
Lemma rest_fits req now kv sys c t kv' sys' :
  fits (buffer_in req) -> all_fit kv -> abs_rest cfg kv sys req now c t kv' sys' -> all_fit kv'.
Proof.
  intros Hb Ha [|? ?|c1 t1 kv1 _ _ _ Hr|c1 t1 sys1 _ _ _ _]; try done. destruct Hr as [| |w _ Hw| |]; try done.
  - apply fit_insert; [done|]. pose proof (posted_length _ _ _ Hw). unfold fits in *. cbn [strValue]. lia.
  - by apply fit_delete.
Qed.

(** New values in the main database. *)
Lemma inv_http st s x sysdb kv sys :
  server_inv (MkServer st sysdb) s -> db_rel zk x kv (ab_ttl (as_redis s)) -> all_fit kv ->
  forall sysdb', db_rel zk sysdb' sys ∅ -> idle x -> (f_etag (frontend cfg) = 1 -> is_Some (xEtag x)) ->
  server_inv (MkServer (with_xdb st x) sysdb') (MkAbsServer (MkAbs kv (ab_ttl (as_redis s)) (ab_clock (as_redis s))) sys).
Proof.
  intros [[Hdb Hc Hl Hv Hk Ht] Hs Hi Htag Hsv] Hr Hst sysdb' Hr' Hi' Htag'. split; cbn [sv_redis sv_sysdb as_redis as_sys with_xdb xdb ab_kv ab_ttl ab_clock]; try done.
  cbn [sv_redis] in Hk, Hc. unfold with_xdb. rewrite Hk. apply sys_inv_intro; [done|done|done| |done].
  intros k v E. by eapply fits_value, Hst.
Qed.

Lemma get_event req sv s :
  server_inv sv s -> event_ok cfg (EvGet req) ->
  exists a sv' s', serve cfg (EvGet req) sv = Some (a, sv') /\ abs_event gunzip cfg (EvGet req) s a s' /\ server_inv sv' s'.
Proof.
  intros Hinv Hok. destruct sv as [st sysdb], s as [[kv ttl clk] sys]. pose proof Hinv as [[Hdb Hc Hl Hv Hk Ht] Hs Hi Htag Hsv].
  cbn [sv_redis sv_sysdb as_redis as_sys ab_kv ab_ttl ab_clock] in *. cbn [serve sv_redis sv_sysdb abs_event as_redis].
  destruct (decide (method req = htp_GET)) as [Hm|Hm].
  - pose proof (Hok Hm) as Hcond.
    pose proof (frontend_serves_store zk cfg req (xdb st) kv ttl Hdb Hi Hm Htag (fun v Ev => Hsv _ v Ev)) as Hspec.
    rewrite unconditional_tag, Hcond in Hspec by done. cbn [orb andb] in Hspec. destruct Hspec as (r & x & E & Hd & Hi' & Hspec).
    rewrite E. cbn [mbind option_bind]. exists (AHttp r), (MkServer (with_xdb st x) sysdb), (MkAbsServer (MkAbs kv ttl clk) sys).
    split; [done|]. split; [split; [done|]; exists r; split; [done|]; destruct (kv !! uri_of req); eauto|].
    assert (db_rel zk x kv ttl) as Hr.
    { destruct Hdb as [Hrel _]. split; [by rewrite Hd|]. intros Hb. by rewrite (proj1 Hi') in Hb. }
    apply (inv_http st (MkAbsServer (MkAbs kv ttl clk) sys) x sysdb kv sys Hinv Hr Hsv sysdb Hs Hi').
    intros E1. eapply GetCallback_keeps_manager; [apply Hi|by apply Htag|exact E].
  - unfold GetCallback, GetCallbackPro. rewrite bool_decide_false by done. cbn [negb mbind option_bind].
    eexists _, _, (MkAbsServer (MkAbs kv ttl clk) sys). split; [done|]. split; [split; [done|]; by eexists|].
    destruct st as [x m c]. exact Hinv.
Qed.

Lemma rest_event req now sv s :
  server_inv sv s -> event_ok cfg (EvRest req now) ->
  exists a sv' s', serve cfg (EvRest req now) sv = Some (a, sv') /\ abs_event gunzip cfg (EvRest req now) s a s' /\ server_inv sv' s'.
Proof.
  intros Hinv (Hsh & Hfit). destruct sv as [st sysdb], s as [[kv ttl clk] sys]. pose proof Hinv as [[Hdb Hc Hl Hv Hk Ht] Hs Hi Htag Hsv].
  cbn [sv_redis sv_sysdb as_redis as_sys ab_kv ab_ttl ab_clock] in *. cbn [serve sv_redis sv_sysdb abs_event as_redis as_sys].
  destruct (RESTCallback_refines zk cfg (MkBack (xdb st) sysdb) kv sys ttl ∅ req now (conj Hdb Hs) Hsh Hfit)
    as (r & [x sysdb'] & kv' & sys' & E & Er & [Hr Hr']).
  rewrite E. cbn [mbind option_bind bk_xdb bk_sysdb fst snd] in *. apply RESTCallback_quiet in E; [|apply Hi]. cbn [bk_xdb] in E.
  pose proof (rest_fits _ _ _ _ _ _ _ _ Hfit Hsv Er) as Hst.
  exists (AHttp r), (MkServer (with_xdb st x) sysdb'), (MkAbsServer (MkAbs kv' ttl clk) sys'). split; [done|]. split.
  - by exists r, kv', sys'.
  - apply (inv_http st (MkAbsServer (MkAbs kv ttl clk) sys) x sysdb kv' sys' Hinv Hr Hst sysdb' Hr'); [by eapply quiet_idle|].
    destruct E as [_ ->]. done.
Qed.

Lemma redis_values r (s : abs_redis) :
  all_fit (ab_kv s) -> match r with RSet _ v | RSetEx _ v _ => fits v | _ => True end -> all_fit (ab_kv (abs_request s r).2).
Proof.
  destruct s as [kv ttl clk]. cbn [ab_kv]. intros Hv Hr.
  destruct r as [k|k v|k v n|k|k n|k|a b n|a b]; cbn [abs_request]; try done.
  - by apply fit_insert.
  - by apply fit_insert.
  - by apply fit_delete.
  - by destruct (decide _).
  - by destruct (ttl !! k).
  - cbn [snd ab_kv]. set (l := take _ _). clearbody l. clear -Hv. revert kv Hv. induction l as [|k l IH]; intros kv Hv; [done|].
    cbn [foldl]. by apply IH, fit_delete.
Qed.

Lemma redis_event r sv s :
  server_inv sv s -> event_ok cfg (EvRedis r) ->
  exists a sv' s', serve cfg (EvRedis r) sv = Some (a, sv') /\ abs_event gunzip cfg (EvRedis r) s a s' /\ server_inv sv' s'.
Proof.
  intros [Hm Hs Hi Htag Hsv] [Hok Hfit]. destruct sv as [st sysdb], s as [rs sys]. cbn [sv_redis sv_sysdb as_redis as_sys] in *.
  destruct (run_cmd_refines st rs r Hm Hok) as (st' & E & Hm').
  { destruct r; cbn [small_value] in *; try done; unfold value_ok, fits in *; lia. }
  pose proof (redis_values r rs Hsv Hfit) as Hsv'. pose proof (run_cmd_quiet r [] st _ st' (proj1 Hi) E) as Hq.
  cbn [serve sv_redis sv_sysdb]. rewrite E. cbn [mbind option_bind].
  exists (ARedis (abs_request rs r).1), (MkServer st' sysdb), (MkAbsServer (abs_request rs r).2 sys). split; [done|]. split.
  - unfold abs_event. cbn [as_redis as_sys]. by destruct rs.
  - split; cbn [sv_redis sv_sysdb as_redis as_sys]; try done; [by eapply quiet_idle|]. destruct Hq as [_ ->]. done.
Qed.

Lemma turn_event c sv s :
  server_inv sv s ->
  exists a sv' s', serve cfg (EvTurn c) sv = Some (a, sv') /\ abs_event gunzip cfg (EvTurn c) s a s' /\ server_inv sv' s'.
Proof.
  intros [Hm Hs Hi Htag Hsv]. destruct sv as [st sysdb], s as [[kv ttl clk] sys]. pose proof Hm as [Hdb Hc Hl Hv Hk Ht].
  cbn [sv_redis sv_sysdb as_redis as_sys ab_kv ab_ttl ab_clock] in *.
  destruct (Dispatch_turn_refines (xdb st) kv ttl (expiremgr st) c Hdb Hc) as (x & m & kv' & ttl' & E & Hr & Hc' & Hstep).
  pose proof (Dispatch_turn_quiet (xdb st) (expiremgr st) c) as Hq. rewrite E in Hq. cbn [fst] in Hq.
  assert (kv' ⊆ kv /\ ttl' ⊆ ttl) as [Hkv Httl].
  { destruct Hstep as [Hstep|Hstep].
    all: destruct Hstep as [[[= -> ->] _]|(k & e & _ & _ & _ & [= -> ->])]; (split; [done || apply delete_subseteq|done || apply delete_subseteq]). }
  exists ANone, (MkServer (MkRedis x m (clock st)) sysdb), (MkAbsServer (MkAbs kv' ttl' clk) sys).
  cbn [serve sv_redis sv_sysdb]. rewrite E. split; [done|]. split; [split; [done|]; by exists kv', ttl'|].
  split; cbn [sv_redis sv_sysdb as_redis as_sys xdb ab_kv ab_ttl ab_clock].
  - rewrite Hk. apply sys_inv_intro; [done|done| | |done].
    + intros k e Ek. eapply Hl, lookup_weaken; done.
    + intros k v Ek. eapply Hv, lookup_weaken; done.
  - done.
  - by eapply quiet_idle.
  - destruct Hq as [_ ->]. done.
  - intros k v Ek. eapply Hsv, lookup_weaken; done.
Qed.

(** The start of the server on databases that hold the store. *)
Lemma start_inv (st : RedisState DB) (sysdb : xDataBase DB) s :
  sys_inv st (as_redis s) -> db_rel zk sysdb (as_sys s) ∅ -> all_fit (ab_kv (as_redis s)) -> server_inv (server_start cfg (db (xdb st)) (db sysdb) (clock st)) s.
Proof using Hcount Hsize.
  intros Hm [Hs _] Hv. split; cbn [server_start sv_redis sv_sysdb]; [by apply restart_same| | | |done].
  - split; [|by intros [=]]. unfold xhttpcache, InitSysDB. by destruct (f_etag (frontend cfg) =? 1).
  - unfold restarted, redis_init, xhttpcache. cbn [xdb]. destruct (f_etag (frontend cfg) =? 1); (split; [done|]); cbn; intros m Em; simplify_eq.
    rewrite !u64_id by (unfold is_u64; lia). split; [by apply Init_wf; lia|by apply Forall_replicate].
  - intros E. unfold restarted, redis_init, xhttpcache. rewrite E. cbn. by eexists.
Qed.

Lemma restart_event sv s :
  server_inv sv s -> exists a sv' s', serve cfg EvRestart sv = Some (a, sv') /\ abs_event gunzip cfg EvRestart s a s' /\ server_inv sv' s'.
Proof using Hcount Hsize.
  intros [Hm Hs _ _ Hsv]. eexists ANone, _, s. split; [done|]. split; [unfold abs_event; by destruct (as_redis s)|]. by apply start_inv.
Qed.

Lemma serve_refines e sv s :
  server_inv sv s -> event_ok cfg e ->
  exists a sv' s', serve cfg e sv = Some (a, sv') /\ abs_event gunzip cfg e s a s' /\ server_inv sv' s'.
Proof using All.
  intros Hi Ho. destruct e as [req|req now|r|c|]; [by apply get_event|by apply rest_event|by apply redis_event|by apply turn_event|by apply restart_event].
Qed.

(** C1. Admissible requests to the frontend, the REST interface and the Redis
    server, with turns of the expiration thread and restarts of the process
    in between, in any order: nothing undefined is reached and the answers are
    those of one store of values and expirations that all of them share, which the
    databases hold at the end.  Admissible ([event_ok]) are GETs at the frontend
    without a conditional header, requests to the REST interface with keys below
    2^30 and bodies below 2^31 bytes, and the Redis commands GET, SET, SET EX, DEL,
    EXPIRE, TTL and SCAN (so no FLUSHALL) with no empty argument and numbers and
    sizes in range.  Each event is served whole before the next. *)
Theorem server_refines_one_store es sv s :
  server_inv sv s -> Forall (event_ok cfg) es ->
  exists l sv' s', serves cfg es sv = Some (l, sv') /\ abs_events gunzip cfg es s l s' /\ server_inv sv' s'.
Proof using All.
  intros Hi Ho. revert sv s Hi. induction Ho as [|e es He _ IH]; intros sv s Hi; cbn [serves].
  { eexists [], sv, s. split; [done|]. split; [constructor|done]. }
  destruct (serve_refines e sv s Hi He) as (a & sv1 & s1 & -> & Ha & Hi1). cbn [mbind option_bind].
  destruct (IH sv1 s1 Hi1) as (l & sv2 & s2 & -> & Hl & Hi2). cbn [mbind option_bind]. exists (a :: l), sv2, s2.
  split; [done|]. split; [|done]. econstructor; done.
Qed.
End Refinement.

(** ** A concrete run *)

Import Stored.

(** A value put over HTTP is read by a Redis client, given ten seconds, and gone
    from the frontend after a restart and two turns of the thread. *)
Definition demo_events : list event :=
  [EvRest (demo_request htp_PUT "/k" [] (lit "v")) (Timeval 5 0);
   EvRedis (RGet (lit "k"));
   EvRedis (RExpire (lit "k") 10);
   EvRestart;
   EvTurn (Timeval 20 0, Timeval 20 0);
   EvGet (demo_request htp_GET "/k" [] [])].

Definition demo_server : Server MemStore.store := server_start demo_front ∅ ∅ (still (Timeval 5 0)).

Lemma demo_server_inv : server_inv (It := MemStore.iter) demo_front demo_server (MkAbsServer (MkAbs ∅ ∅ (still (Timeval 5 0))) ∅).
Proof.
  apply (start_inv (It := MemStore.iter) demo_front ltac:(cbn; lia) ltac:(cbn; lia) demo_redis (mem_db ∅)).
  - apply demo_redis_inv.
  - apply mem_db_empty.
  - done.
Qed.

Lemma server_refines_one_store_witness :
  exists l sv', serves (It := MemStore.iter) demo_front demo_events demo_server = Some (l, sv') /\
    l !! 1%nat = Some (ARedis (enc_bulk (lit "v"))) /\
    exists r, l !! 5%nat = Some (AHttp r) /\ res_code r = 404.
Proof.
  destruct (server_refines_one_store (It := MemStore.iter) (gunzip := Some) demo_front ltac:(cbn; lia) ltac:(cbn; lia)
    demo_events demo_server (MkAbsServer (MkAbs ∅ ∅ (still (Timeval 5 0))) ∅)) as (l & sv' & s' & E & _).
  - apply demo_server_inv.
  - constructor; [|constructor; [|constructor; [|constructor; [|constructor; [|constructor; [|constructor]]]]]]; cbn [event_ok].
    + split; [apply (bool_decide_eq_true_1 (short _)); vm_compute; reflexivity|vm_compute; reflexivity].
    + repeat split; discriminate.
    + repeat split; try discriminate; lia.
    + exact I.
    + exact I.
    + intros _. vm_compute. reflexivity.
  - exists l, sv'. split; [exact E|].
    assert (l = default [] (fst <$> serves (It := MemStore.iter) demo_front demo_events demo_server)) as -> by (rewrite E; reflexivity).
    clear. split; [vm_compute; reflexivity|]. eexists. split; [vm_compute; reflexivity|reflexivity].
Defined.
